(* ===== verification/_CoqProject ===== *)
-Q . S2P
Prelude.v
JsonUtil.v
Dtoa.v
JsonC.v
Validation.v
ValidationTest.v
DbJson.v
Sodium.v
Jwt.v
TaskPool.v
ThreadState.v
TaskQueue.v
TaskFlow.v
EvHttp.v
Worker.v
Config.v
Logger.v
DbApi.v
HttpClient.v
Services.v
Totp.v
Schemas.v
Server.v
Handlers.v
Routes.v
Journey.v
Reactor.v
Shutdown.v
Resources.v
ReactorThread.v
Lifecycle.v
