(* ===== verification/Prelude.v ===== *)
(** * EvHttp API server: a verification development (root file)

    The program is an HTTP/JSON server in C23 on top of libevent, libsodium,
    json-c and ODBC.  A reactor thread accepts a request, checks it and puts
    a task into one of two queues; a worker thread takes the task, verifies its
    JWT, parses and validates its JSON body, runs the handler of the route, which
    calls the database, and hands the task back to the reactor, which replies.

    ** Files, components and sources

    - [Prelude] (this file): characters, C strings, machine integers, the hint
      database [apiserver], list lemmas.
    - [JsonUtil] (modules [Encode], [Itoa]) and [Dtoa]: lib/json_util.c.  Buffers
      are lists of bytes, and a write outside a buffer is [None].
    - [JsonC]: the accessors of json-c as a class with its laws, and a model of
      them.
    - [Validation]: lib/validation.c, the validation engine of request bodies.
    - [DbJson]: the second half of lib/dbapi.c, from the buffered JSON writer to
      the printing of a result set.
    - [Sodium], [Jwt]: lib/jwt.c over an interface of libsodium.
    - [TaskPool]: lib/task_pool.c, the slab of tasks with the free lists
      of the threads; a step relation over any number of threads.
    - [ThreadState]: lib/context.c and lib/thread_error.c.
    - [TaskQueue]: module [Queue], the linked queue of lib/worker_pool.c; module
      [Workers], the protocol of its mutex and condition variable; module
      [Completion], the hand-over of finished tasks to a reactor in
      lib/server.c.
    - [EvHttp]: the parts of libevent's requests and buffers that are used.
    - [Worker]: lib/worker_pool.c, what a worker does with a task.
    - [Config]: lib/config.c.
    - [DbApi]: the first half of lib/dbapi.c: connections, statements, errors and
      the query functions, over an interface of ODBC.
    - [Server]: lib/server.c, the middleware before a task is queued, the reply
      after it is done, the counters and the sizes.
    - [HttpClient]: lib/http_client.c over an interface of libcurl.  The options
      of a thread's handle are a map, in which a pointer into the caller is marked.
    - [Services]: src/customer.c and src/login.c; module [TokenCache] is the
      cache of the API token with its mutex and condition variable.
    - [Totp]: src/totp.c, one-time passwords and the QR picture.
    - [Schemas], [Handlers]: src/handlers.c; first the validators and schemas,
      then the handlers on the state of the thread that runs them ([host]).  The
      type [outside] holds what a handler learns from the database, the
      network, the disk and the clock.
    - [Routes]: src/main.c, the table of the routes, and the requests a thread
      serves one after another.
    - [Logger]: lib/logger.c; module [Pipeline] is the logger thread with the
      threads that log.
    - [Journey]: one request from its arrival to its reply, through [Server],
      [TaskPool], [Worker], [Handlers] and [Routes]; a worker with all its effects.
    - [Reactor]: the event loops of lib/server.c on the slab of [TaskPool], with
      the workers and the clients as a step relation, in which a callback handles
      its tasks one by one; [run_queue] and its like execute the steps.
    - [Resources]: what the start of lib/server.c and lib/worker_pool.c acquires
      and what clean-up releases, with triples for code that may fail or end the
      process.
    - [Lifecycle]: the main thread and the reactors of lib/server.c from the
      creation of the threads to their join.
    - [Shutdown]: the closing of the pools and the drain of the completion queues
      while the threads of [Reactor] go on; a run of it is a run of [Reactor].
    - [ValidationTest]: test/validation-test.c, its assertions run on
      [Validation].
    - [TaskFlow]: both pools, the completion queues and the callbacks on the one
      field [next] that links tasks in all of them ([TaskQueue] has the operations).
    - [ReactorThread]: what the thread of a reactor and the main thread hold on each
      of their exits, in the language of [Resources]; the destructors of raii.h.

    ** How the code is read

    Pure functions are functions; code that changes state takes the state and
    returns it; undefined behaviour (a byte outside a buffer, a handle or a task
    that was freed) is [None], so that a theorem that gives a result also says
    that the code is safe.  Thread-local variables are a record that a thread
    carries along.  Code that several threads run is a step relation, in which a
    critical section is one step, and its invariants hold in every reachable
    state.  64-bit and 32-bit integers are [Z] with their bounds.

    Libraries are classes: [JsonC.JsonC] (json-c), [Sodium.Sodium] (libsodium),
    [DbApi.Odbc] (the driver, which may answer anything to any call, a refusal to
    free a handle or to reset a statement included),
    [Totp.TotpLibs] (liboath, libqrencode), and libcurl is a record,
    [HttpClient.network], which may have no memory for the options it copies.  The
    stream of an upload writes to the disk when it is closed, and as much of it as
    [Handlers.fclose_count] says.  Their laws are documented behaviour, and each has an
    instance that shows that the laws can hold.

    The world of the database code has two fields that no variable of the program
    stands for: [DbApi.refused], the handles the driver refused to free or to reset,
    and [DbApi.reported], the diagnostic records the code has read.

    The theorems about result sets assume that a column name has at most 127 bytes and
    that its escaped key has at most 255, and that cells have the types of their
    columns ([DbJson.good_column], [DbApi.op_good], [Handlers.outside_ok]).  That is a
    condition on the queries of a deployment and not a promise of ODBC: the
    code reads beyond its array for longer names ([DbJson.long_name_overreads]).

    In [Resources] the calls whose results the code checks ask [ok] whether they
    succeed, and a call whose result it ignores ([unchecked]) goes on without the
    resource when it fails; a join of a thread whose pool has not been told to stop
    waits for ever ([Blocked]).

    Loops that are not structural use fuel: [DbApi.get_text] gets one more than
    the length of the text, of which every round takes at least one
    byte, and [DbApi.clean_loop] the length of the message, of which every round
    drops at least one character; the loops of [JsonUtil] and [Dtoa] get the
    number of digits of a 64-bit integer.  The theorems show that this is enough.

    ** What is shown

    - Memory: the encoders, the JSON writer of the database code and the
      task slab never touch a byte or a task that is not theirs
      ([json_encode_string_safe], [fast_dtoa_safe], [resultset_json],
      [task_pool_conserves], [task_alloc_exclusive], [task_free_safe]), and the ODBC
      handles of a thread are used safely whatever the driver answers
      ([db_thread_safe]), for names of columns of at most 127 bytes.
    - Text: what is written reads back ([json_encode_roundtrip],
      [fast_itoa_ltoa_correct], [fast_dtoa_reads_back], [row_roundtrip],
      [db_error_object], [jwt_roundtrip]).
    - Security: a request reaches a handler only with a valid token and a valid
      body ([jwt_verify_sound], [worker_denies_unauthenticated],
      [worker_rejects_invalid_body], [middleware_queues_admissible],
      [api_key_exact], [client_ip_trusted_only], [config_reload_scrubs]).
    - Concurrency: no task is lost or run twice and no thread sleeps through
      work ([workers_no_lost_wakeup], [workers_drain_on_stop],
      [queue_refines_fifo], [completion_no_lost_task]).
    - Validation: the engine decides the declared schema
      ([validate_json_decides], [validate_json_first_error],
      [validate_date_correct]).
    - Requests to other servers: they are the ones asked for, made over a checked
      connection, their bodies are whole unless libcurl had no memory for them
      ([body_lost]), and an answer is read whole or not at all
      ([http_requests_pinned], [http_answer_whole], [login_request_exact]); threads
      that need the API token share one request for it and none waits forever
      ([token_cache_live]).
    - Routes: the handlers are safe on every document their schema accepts, in any
      sequence, and nothing behind a token happens on the open routes
      ([routes_guarded]); clients choose values and never SQL
      ([sql_is_fixed], [validated_queries]); a token is issued exactly when the login
      provider accepts, and is good if the name in it fits ([login_issues_token]); an
      upload writes one new file in its directory, whole if the stream could be
      closed ([upload_confined], [upload_truncated]); the schemas mean what they say
      ([sales_context_decides], [codes_decided]); the QR picture shows
      every module once ([qr_svg_exact]).
    - Log: accepted lines are written once, in order and whole
      unless the logger thread has ended ([log_lines_in_order], [line_after_exit],
      [write_batch_whole]), and a line is one JSON document on
      one line whatever a client sends ([log_line_roundtrip]).
    - The whole way of a request: whatever clients send to the routes of the
      table, a worker gets through it, no data moves without a valid token and
      every reply is guarded by the security headers ([requests_guarded]); a
      request is answered by its handler exactly when it is cleared
      ([queued_request_decided]); the pure pipeline of [Worker] is the one with
      effects ([process_task_answers]).
    - The server as a whole: every request is answered or released exactly once
      and every document released ([requests_conserved]); a reactor answers all
      that its workers finish ([callback_answers_all]).
    - The queues do not disturb each other although they share a field of the
      tasks ([flow_refines_lists]).
    - Shutdown: it loses no request, and once the workers are joined it can be
      completed from every state ([shutdown_loses_nothing]), but the loops can be told
      to end while tasks are unanswered ([drain_before_answers]).
    - Tests: every assertion of the unit test holds of the model
      ([test_coverage_passes]), and no document whatsoever makes the engine fault
      with its schema ([fuzz_never_faults]).
    - Start and end: all reactors serve or none ([startup_all_or_none]); a
      shutdown of running reactors ends ([shutdown_ends]), and one that comes too
      early need not ([shutdown_can_hang]); clean-up always returns, and what is acquired
      is released exactly once, on every path but one, if no call fails whose result
      the code ignores ([init_cleanup_balanced], [half_allocated],
      [curl_not_initialised]); a socket is closed on every error
      ([socket_not_leaked]), but not once on both exits behind the barrier ([exit_balanced], [exits_disagree]).

    ** Not modelled

    The writes of the driver through parameters and columns that stay bound because it
    refused to reset a statement, the statements that [SQLDisconnect] frees with
    their connection, and the alignment of the columns of a row
    ([DbJson.unaligned_column]); the log lines of the components other than [Logger];
    the inside of libevent, of which [Lifecycle] takes when a loop runs and what
    stops it, and [Reactor] that the callbacks of one reactor run one after another; the bytes of a reply
    on the socket; CPU affinity and the signal mask; the names of the host that
    start-up stores.  Most helpers of raii.h call one destructor at the end of a scope and have no
    definitions of their own: where a release matters (tasks, documents, ODBC
    handles) it is part of the function that owns the object.  Atomics are sequentially consistent.
 *)

From Stdlib Require Export Ascii String ZArith Lia.
From stdpp Require Export base list strings gmap numbers option.

#[global] Set Default Goal Selector "!".

(** ** Characters and machine integers *)

Abbreviation char := ascii.

(** The terminating character of a C string. *)
Definition NUL : char := "000"%char.

(** The double quote, which no Rocq string literal of this library spells. *)
Definition DQUOTE : char := "034"%char.

(** A character read as [unsigned char]. *)
Definition uchar (c : char) : Z := Z.of_N (N_of_ascii c).

(** A character read as [char], which is signed on x86-64. *)
Definition schar (c : char) : Z :=
  if (uchar c <? 128)%Z then uchar c else (uchar c - 256)%Z.

(** [(char)z]: the low eight bits. *)
Definition char_of_Z (z : Z) : char := ascii_of_N (Z.to_N (z mod 256)).

(** Unsigned and two's complement wrap-around at width [w]. *)
Definition uwrap (w z : Z) : Z := (z mod 2 ^ w)%Z.
Definition swrap (w z : Z) : Z := ((z + 2 ^ (w - 1)) mod 2 ^ w - 2 ^ (w - 1))%Z.

(** The C23 checked operations on [size_t]: [None] is the overflow report. *)
Definition SIZE_MAX : Z := 2 ^ 64 - 1.
Definition ckd_add (a b : Z) : option Z :=
  if (a + b <=? SIZE_MAX)%Z then Some (a + b)%Z else None.
Definition ckd_mul (a b : Z) : option Z :=
  if (a * b <=? SIZE_MAX)%Z then Some (a * b)%Z else None.

(** ** C strings

    A [cstr] is the content of a NUL-terminated string, the terminator left
    out.  [lit] reads a literal of the source, in which a backquote stands for
    the escaped double quote of the C literal. *)

Abbreviation cstr := (list char).

Definition lit_char (c : char) : char := if decide (c = "`"%char) then DQUOTE else c.
Definition lit (s : string) : cstr := lit_char <$> list_ascii_of_string s.

(** A well-formed string: no terminator inside. *)
Definition no_nul (s : cstr) : Prop := Forall (fun c => c <> NUL) s.

(** The string a buffer holds: what comes before the first terminator. *)
Fixpoint c_str (buf : list char) : cstr :=
  match buf with
  | [] => []
  | c :: buf' => if decide (c = NUL) then [] else c :: c_str buf'
  end.

(** [s[i]] on a string: the terminator can be read, what lies behind it not. *)
Definition rd (s : cstr) (i : nat) : option char :=
  if decide (i < length s)%nat then s !! i
  else if decide (i = length s) then Some NUL else None.

(** The content [strlcpy] and [snprintf] leave in a buffer of [size] bytes. *)
Definition strlcpy (size : nat) (src : cstr) : cstr := take (size - 1) src.
Definition snprintf (size : nat) (out : cstr) : cstr := take (size - 1) out.

(** [strchr(s, c)]: the characters before the first [c] and those behind it. *)
Fixpoint strchr (s : cstr) (c : char) : option (cstr * cstr) :=
  match s with
  | [] => None
  | x :: s' =>
      if decide (x = c) then Some ([], s')
      else match strchr s' c with
           | Some (pre, post) => Some (x :: pre, post)
           | None => None
           end
  end.

(** [strcmp] as a comparison of the unsigned characters. *)
Fixpoint strcmp (a b : cstr) : comparison :=
  match a, b with
  | [], [] => Eq
  | [], _ :: _ => Lt
  | _ :: _, [] => Gt
  | x :: a', y :: b' =>
      match (uchar x ?= uchar y)%Z with Eq => strcmp a' b' | r => r end
  end.

(** [strstr(s, needle) != NULL]. *)
Fixpoint is_prefix (p s : cstr) : bool :=
  match p, s with
  | [], _ => true
  | _ :: _, [] => false
  | x :: p', y :: s' => bool_decide (x = y) && is_prefix p' s'
  end.
Fixpoint strstr (s needle : cstr) : bool :=
  is_prefix needle s || match s with [] => false | _ :: s' => strstr s' needle end.

(** [tolower] of the C locale, and the case-insensitive comparisons. *)
Definition tolower (c : char) : char :=
  if ((65 <=? uchar c) && (uchar c <=? 90))%Z then char_of_Z (uchar c + 32) else c.
Definition strcaseeq (a b : cstr) : bool := bool_decide (tolower <$> a = tolower <$> b).
Definition strncaseeq (a b : cstr) (n : nat) : bool :=
  bool_decide (tolower <$> take n a = tolower <$> take n b).

(** [isspace], [isdigit] and [isalpha] of the C locale. *)
Definition isspace (c : char) : bool :=
  ((uchar c =? 32) || ((9 <=? uchar c) && (uchar c <=? 13)))%Z.
Definition isdigit (c : char) : bool := ((48 <=? uchar c) && (uchar c <=? 57))%Z.
Definition isalpha (c : char) : bool :=
  (((65 <=? uchar c) && (uchar c <=? 90)) || ((97 <=? uchar c) && (uchar c <=? 122)))%Z.

(** ** Buffers

    A [char] array is the list of its bytes.  Writing outside it is undefined
    behaviour in C and [None] here, so a theorem that an operation returns
    [Some] is its memory safety. *)

Definition put (buf : list char) (j : nat) (c : char) : option (list char) :=
  if decide (j < length buf)%nat then Some (<[j:=c]> buf) else None.

(** [memcpy(buf + pos, cs, |cs|)]. *)
Definition memcpy_at (buf : list char) (pos : nat) (cs : list char) : option (list char) :=
  if decide (pos + length cs <= length buf)%nat
  then Some (take pos buf ++ cs ++ drop (pos + length cs) buf) else None.

(** The run of stores [buf[j++] = c] for the characters [cs]. *)
Fixpoint put_all (buf : list char) (j : nat) (cs : list char) : option (list char * nat) :=
  match cs with
  | [] => Some (buf, j)
  | c :: cs' => buf' ← put buf j c; put_all buf' (S j) cs'
  end.

(** ** Tactics *)

(** [lia] on division and remainder by constants. *)
Ltac Zify.zify_post_hook ::= Z.to_euclidean_division_equations.

(** Splits the innermost conditions of the goal, keeping their equations. *)
Ltac case_ifs :=
  repeat match goal with
    | |- context [decide ?P] => destruct (decide P)
    | |- context [if ?b then _ else _] => destruct b eqn:?
    end.

(** Turns the boolean tests of the code into the propositions they decide. *)
Ltac bool_to_prop :=
  repeat match goal with
    | H : _ && _ = true |- _ => apply andb_true_iff in H; destruct H
    | H : _ || _ = false |- _ => apply orb_false_iff in H; destruct H
    | H : negb _ = true |- _ => apply negb_true_iff in H
    | H : negb _ = false |- _ => apply negb_false_iff in H
    | H : (_ <? _)%Z = true |- _ => apply Z.ltb_lt in H
    | H : (_ <? _)%Z = false |- _ => apply Z.ltb_ge in H
    | H : (_ <=? _)%Z = true |- _ => apply Z.leb_le in H
    | H : (_ <=? _)%Z = false |- _ => apply Z.leb_gt in H
    | H : (_ =? _)%Z = true |- _ => apply Z.eqb_eq in H
    | H : (_ =? _)%Z = false |- _ => apply Z.eqb_neq in H
    | H : (_ <? _)%nat = true |- _ => apply Nat.ltb_lt in H
    | H : (_ <? _)%nat = false |- _ => apply Nat.ltb_ge in H
    | H : (_ <=? _)%nat = true |- _ => apply Nat.leb_le in H
    | H : (_ <=? _)%nat = false |- _ => apply Nat.leb_gt in H
    | H : (_ =? _)%nat = true |- _ => apply Nat.eqb_eq in H
    | H : (_ =? _)%nat = false |- _ => apply Nat.eqb_neq in H
    | H : bool_decide _ = true |- _ => apply bool_decide_eq_true in H
    | H : bool_decide _ = false |- _ => apply bool_decide_eq_false in H
    end.

(** Proves a statement about every character by evaluating it on all 256. *)
Ltac by_all_chars c :=
  let b0 := fresh in let b1 := fresh in let b2 := fresh in let b3 := fresh in
  let b4 := fresh in let b5 := fresh in let b6 := fresh in let b7 := fresh in
  destruct c as [b0 b1 b2 b3 b4 b5 b6 b7];
  destruct b0, b1, b2, b3, b4, b5, b6, b7; vm_compute; try reflexivity; try congruence.

(** ** Lemmas on characters and integers *)

Create HintDb apiserver.

Lemma uchar_range (c : char) : (0 <= uchar c < 256)%Z.
Proof. unfold uchar. pose proof (N_ascii_bounded c). lia. Qed.

Lemma uchar_inj (a b : char) : uchar a = uchar b -> a = b.
Proof.
  unfold uchar. intros H%N2Z.inj.
  by rewrite <- (ascii_N_embedding a), <- (ascii_N_embedding b), H.
Qed.

Lemma uchar_char_of_Z (z : Z) : (0 <= z < 256)%Z -> uchar (char_of_Z z) = z.
Proof.
  intros Hz. unfold uchar, char_of_Z. rewrite Z.mod_small by lia.
  rewrite N_ascii_embedding by lia. lia.
Qed.

Lemma char_of_Z_uchar (c : char) : char_of_Z (uchar c) = c.
Proof. apply uchar_inj, uchar_char_of_Z, uchar_range. Qed.

Lemma uwrap_small (w z : Z) : (0 <= z < 2 ^ w)%Z -> uwrap w z = z.
Proof. intros. by apply Z.mod_small. Qed.

Lemma uwrap_range (w z : Z) : (0 <= w)%Z -> (0 <= uwrap w z < 2 ^ w)%Z.
Proof. intros. apply Z.mod_pos_bound. lia. Qed.

Lemma swrap_small (w z : Z) :
  (0 < w)%Z -> (- 2 ^ (w - 1) <= z < 2 ^ (w - 1))%Z -> swrap w z = z.
Proof.
  intros Hw Hz. unfold swrap.
  assert (2 ^ w = 2 * 2 ^ (w - 1))%Z by (rewrite <- Z.pow_succ_r by lia; f_equal; lia).
  rewrite Z.mod_small; lia.
Qed.

(** ** Lemmas on strings and buffers *)

Lemma c_str_no_nul (s rest : list char) : no_nul s -> c_str (s ++ NUL :: rest) = s.
Proof.
  induction 1 as [|c s Hc Hs IH]; simpl; [done|].
  rewrite decide_False by done. by rewrite IH.
Qed.

Lemma c_str_whole (s : list char) : no_nul s -> c_str s = s.
Proof. induction 1; simpl; [done|]. rewrite decide_False by done. by f_equal. Qed.

Lemma c_str_is_no_nul (buf : list char) : no_nul (c_str buf).
Proof.
  induction buf as [|c buf IH]; simpl; [constructor|].
  case_decide; [constructor|by constructor].
Qed.

Lemma no_nul_app (a b : cstr) : no_nul (a ++ b) <-> no_nul a /\ no_nul b.
Proof. apply Forall_app. Qed.

Lemma no_nul_take (n : nat) (s : cstr) : no_nul s -> no_nul (take n s).
Proof. apply Forall_take. Qed.

Lemma length_strlcpy (n : nat) (s : cstr) : (0 < n)%nat -> (length (strlcpy n s) < n)%nat.
Proof. intros. unfold strlcpy. rewrite length_take. lia. Qed.

Lemma strlcpy_fits (n : nat) (s : cstr) : (length s < n)%nat -> strlcpy n s = s.
Proof. intros. unfold strlcpy. apply take_ge. lia. Qed.

Lemma snprintf_fits (n : nat) (s : cstr) : (length s < n)%nat -> snprintf n s = s.
Proof. apply strlcpy_fits. Qed.

Lemma put_Some (buf : list char) (j : nat) (c : char) :
  (j < length buf)%nat -> put buf j c = Some (<[j:=c]> buf).
Proof. intros. unfold put. by rewrite decide_True. Qed.

Lemma length_memcpy_at (buf buf' : list char) (pos : nat) (cs : list char) :
  memcpy_at buf pos cs = Some buf' -> length buf' = length buf.
Proof.
  unfold memcpy_at. case_decide; [|done]. intros [= <-].
  rewrite !length_app, length_take, length_drop. lia.
Qed.

(** Stores at the end of a filled prefix extend the prefix. *)
Lemma put_all_spec (cs pre post : list char) :
  (length cs <= length post)%nat ->
  put_all (pre ++ post) (length pre) cs
  = Some (pre ++ cs ++ drop (length cs) post, length pre + length cs)%nat.
Proof.
  revert pre post. induction cs as [|c cs IH]; intros pre post Hle; simpl in *.
  { by rewrite Nat.add_0_r. }
  destruct post as [|p post]; simpl in *; [lia|].
  rewrite put_Some by (rewrite length_app; simpl; lia). simpl.
  rewrite insert_app_r_alt by lia. rewrite Nat.sub_diag. simpl.
  rewrite (assoc_L (++) pre [c] post : pre ++ c :: post = (pre ++ [c]) ++ post).
  specialize (IH (pre ++ [c]) post). rewrite length_app in IH. simpl in IH.
  rewrite Nat.add_1_r in IH. rewrite IH by lia.
  rewrite <- (assoc_L (++)). simpl. f_equal. f_equal. lia.
Qed.

(** A copy into the middle of a buffer. *)
Lemma memcpy_at_spec (pre mid post cs : list char) :
  length cs = length mid ->
  memcpy_at (pre ++ mid ++ post) (length pre) cs = Some (pre ++ cs ++ post).
Proof.
  intros Hl. unfold memcpy_at.
  rewrite decide_True by (rewrite !length_app; lia).
  rewrite take_app_length, Hl, <- drop_drop, drop_app_length, drop_app_length. done.
Qed.

Lemma is_prefix_app (p s : cstr) : is_prefix p s = true <-> exists t, s = p ++ t.
Proof.
  revert s. induction p as [|x p IH]; intros [|y s]; simpl; split; try done; eauto.
  - intros [t Ht]. done.
  - intros [Hx Hp]%andb_true_iff. apply bool_decide_eq_true in Hx as ->.
    apply IH in Hp as [t ->]. by exists t.
  - intros [t [= -> ->]]. rewrite bool_decide_true by done. apply IH. by exists t.
Qed.

Lemma strstr_spec (s needle : cstr) :
  strstr s needle = true <-> exists a b, s = a ++ needle ++ b.
Proof.
  induction s as [|x s IH]; simpl; rewrite orb_true_iff, is_prefix_app.
  - split; [intros [[t Ht]|]; [|done]; by exists [], t|].
    intros (a & b & H). left. destruct a; [|done]. by exists b.
  - rewrite IH. split.
    + intros [[t Ht]|(a & b & ->)]; [by exists [], t|by exists (x :: a), b].
    + intros (a & b & H). destruct a as [|a0 a]; simplify_eq/=; [left; by exists b|].
      right. by exists a, b.
Qed.

Lemma strchr_app (c : char) (pre post : cstr) :
  c ∉ pre -> strchr (pre ++ c :: post) c = Some (pre, post).
Proof.
  induction pre as [|x pre IH]; simpl; intros Hn; [by rewrite decide_True|].
  apply not_elem_of_cons in Hn as [? ?].
  rewrite decide_False by done. by rewrite IH.
Qed.

Lemma strchr_Some (s : cstr) (c : char) (pre post : cstr) :
  strchr s c = Some (pre, post) <-> s = pre ++ c :: post /\ c ∉ pre.
Proof.
  split; [|intros [-> ?]; by apply strchr_app].
  revert pre. induction s as [|x s IH]; intros pre; simpl; [done|].
  case_decide as Hx.
  - intros [= <- <-]. subst. split; [done|apply not_elem_of_nil].
  - destruct (strchr s c) as [[pr po]|]; [|done]. intros [= <- <-].
    destruct (IH pr eq_refl) as [-> ?]. split; [done|]. by apply not_elem_of_cons.
Qed.

Lemma strchr_None (s : cstr) (c : char) : strchr s c = None <-> c ∉ s.
Proof.
  induction s as [|x s IH]; simpl; [split; [intros _; apply not_elem_of_nil|done]|].
  rewrite not_elem_of_cons. case_decide as Hx; [naive_solver|].
  destruct (strchr s c) as [[? ?]|]; naive_solver.
Qed.

Lemma strcmp_refl (a : cstr) : strcmp a a = Eq.
Proof. induction a; simpl; [done|]. by rewrite Z.compare_refl. Qed.

Lemma strcmp_eq (a b : cstr) : strcmp a b = Eq <-> a = b.
Proof.
  split; [|intros ->; apply strcmp_refl].
  revert b. induction a as [|x a IH]; intros [|y b]; simpl; try done.
  destruct (Z.compare_spec (uchar x) (uchar y)) as [H| |]; try done.
  intros ?%IH. apply uchar_inj in H. congruence.
Qed.

#[export] Hint Resolve uchar_range c_str_is_no_nul : apiserver.
