(* ===== verification/JsonUtil.v ===== *)
(** * lib/json_util.c: string escaping and integer formatting

    [Encode] models [json_encode_string], which every response and log line
    passes its strings through; [Itoa] models [fast_itoa] and [fast_ltoa] with
    the two-digit lookup table.  Output arrays are byte lists and a store
    outside them is [None] ([Prelude.put], [Prelude.memcpy_at]), so the theorems
    that give a [Some] are memory safety as well as functional correctness.
    The reference for escaping is an RFC 8259 string reader ([json_scan]); the
    reference for the integers is the fixed-width decimal [dec_pad]. *)

From S2P Require Import Prelude.

Module Encode.

Definition BSLASH : char := "\"%char.

(** [hex[i]] *)
Definition hex (i : Z) : char := default NUL (lit "0123456789abcdef" !! Z.to_nat i).

(** The characters the [switch] of the loop stores for [src[i]]. *)
Definition escape_char (c : char) : list char :=
  if decide (c = DQUOTE) then [BSLASH; DQUOTE]
  else if decide (c = BSLASH) then [BSLASH; BSLASH]
  else if decide (c = "010"%char) then [BSLASH; "n"%char]
  else if decide (c = "013"%char) then [BSLASH; "r"%char]
  else if decide (c = "009"%char) then [BSLASH; "t"%char]
  else if decide (c = "008"%char) then [BSLASH; "b"%char]
  else if decide (c = "012"%char) then [BSLASH; "f"%char]
  else if (32 <=? uchar c)%Z then [c]
  else [BSLASH; "u"%char; "0"%char; "0"%char;
        hex (Z.shiftr (uchar c) 4); hex (Z.land (uchar c) 15)].

(** [while (src[i] && j + 7 < dest_size)] *)
Fixpoint encode_loop (src : cstr) (dest : list char) (j dest_size : nat)
    : option (list char * nat) :=
  match src with
  | [] => Some (dest, j)
  | c :: src' =>
      if (j + 7 <? dest_size)%nat then
        '(dest', j') ← put_all dest j (escape_char c);
        encode_loop src' dest' j' dest_size
      else Some (dest, j)
  end.

(** The whole routine; the pointers may be null. *)
Definition json_encode_string (src : option cstr) (dest : option (list char)) (dest_size : nat)
    : option (option (list char)) :=
  match src, dest with
  | Some s, Some d =>
      if decide (dest_size = 0%nat) then Some dest
      else
        '(d', j) ← encode_loop s d 0 dest_size;
        d'' ← put d' j NUL;
        Some (Some d'')
  | _, _ => Some dest
  end.

(** [JSON_ENCODE_BUFSIZE(src_max)] *)
Definition JSON_ENCODE_BUFSIZE (src_max : nat) : nat := src_max * 6 + 1.

(** The content the routine leaves in a buffer of [dest_size] bytes, for the
    callers that only look at the string ([json_encode_string_eq] relates it
    to the routine). *)
Fixpoint encode_content (src : cstr) (j dest_size : nat) : cstr :=
  match src with
  | [] => []
  | c :: src' =>
      if (j + 7 <? dest_size)%nat then
        escape_char c ++ encode_content src' (j + length (escape_char c)) dest_size
      else []
  end.
Definition json_encode (dest_size : nat) (src : cstr) : cstr := encode_content src 0 dest_size.

(** ** The reference: reading a JSON string up to its closing quote *)

Definition hex_val (c : char) : option Z :=
  if isdigit c then Some (uchar c - 48)%Z
  else if ((97 <=? uchar c) && (uchar c <=? 102))%Z then Some (uchar c - 87)%Z
  else if ((65 <=? uchar c) && (uchar c <=? 70))%Z then Some (uchar c - 55)%Z
  else None.

Definition unescape_letter (e : char) : option char :=
  if decide (e = DQUOTE) then Some DQUOTE
  else if decide (e = BSLASH) then Some BSLASH
  else if decide (e = "/"%char) then Some "/"%char
  else if decide (e = "b"%char) then Some "008"%char
  else if decide (e = "f"%char) then Some "012"%char
  else if decide (e = "n"%char) then Some "010"%char
  else if decide (e = "r"%char) then Some "013"%char
  else if decide (e = "t"%char) then Some "009"%char
  else None.

Definition push (c : char) (r : option (cstr * list char)) : option (cstr * list char) :=
  '(s, rest) ← r; Some (c :: s, rest).

(** Reads the body of a JSON string: the decoded characters and the input
    behind the closing quote.  A raw control character or a bad escape is
    refused; a \u escape is read when it denotes an ASCII character. *)
Fixpoint json_scan (s : list char) : option (cstr * list char) :=
  match s with
  | [] => None
  | c :: s1 =>
      if decide (c = DQUOTE) then Some ([], s1)
      else if decide (c = BSLASH) then
        match s1 with
        | [] => None
        | e :: s2 =>
            if decide (e = "u"%char) then
              match s2 with
              | h1 :: h2 :: h3 :: h4 :: s3 =>
                  a ← hex_val h1; b ← hex_val h2; c ← hex_val h3; d ← hex_val h4;
                  let v := (((a * 16 + b) * 16 + c) * 16 + d)%Z in
                  if (v <? 128)%Z then push (char_of_Z v) (json_scan s3) else None
              | _ => None
              end
            else x ← unescape_letter e; push x (json_scan s2)
        end
      else if (uchar c <? 32)%Z then None
      else push c (json_scan s1)
  end.

(** ** Lemmas *)

Lemma hex_val_hex (i : Z) : (0 <= i < 16)%Z -> hex_val (hex i) = Some i.
Proof.
  intros Hi. assert (i ∈ seqZ 0 16) as H by (apply elem_of_seqZ; lia). revert H.
  change (seqZ 0 16) with (Z.of_nat <$> seq 0 16). simpl.
  rewrite !elem_of_cons, elem_of_nil. intros. destruct_or!; by subst.
Qed.

Lemma json_scan_u (c : char) (rest : list char) :
  (uchar c < 32)%Z ->
  json_scan ([BSLASH; "u"%char; "0"%char; "0"%char;
              hex (Z.shiftr (uchar c) 4); hex (Z.land (uchar c) 15)] ++ rest)
  = push c (json_scan rest).
Proof.
  intros Hc. pose proof (uchar_range c).
  assert (Z.shiftr (uchar c) 4 = uchar c / 16)%Z as -> by by rewrite Z.shiftr_div_pow2.
  assert (Z.land (uchar c) 15 = uchar c mod 16)%Z as ->
    by (change 15%Z with (Z.ones 4); by rewrite Z.land_ones).
  cbn -[char_of_Z uchar hex_val hex Z.mul Z.add Z.div Z.modulo Z.ltb].
  change (hex_val "0"%char) with (Some 0%Z). rewrite !hex_val_hex by lia.
  cbn -[char_of_Z uchar Z.mul Z.add Z.div Z.modulo Z.ltb].
  replace (((0 * 16 + 0) * 16 + uchar c / 16) * 16 + uchar c mod 16)%Z with (uchar c) by lia.
  replace (uchar c <? 128)%Z with true by lia. by rewrite char_of_Z_uchar.
Qed.

Lemma json_scan_escape (c : char) (rest : list char) :
  json_scan (escape_char c ++ rest) = push c (json_scan rest).
Proof.
  unfold escape_char.
  case_ifs; subst; try reflexivity; bool_to_prop; [|by apply json_scan_u].
  cbn [app json_scan]. rewrite !decide_False by done.
  by replace (uchar c <? 32)%Z with false by lia.
Qed.

Lemma json_scan_escapes (s rest : list char) :
  json_scan ((s ≫= escape_char) ++ DQUOTE :: rest) = Some (s, rest).
Proof.
  induction s as [|c s IH]; [done|].
  rewrite bind_cons, <- (assoc_L (++)), json_scan_escape, IH. done.
Qed.

Lemma length_escape_char (c : char) : (1 <= length (escape_char c) <= 6)%nat.
Proof. unfold escape_char. case_ifs; simpl; lia. Qed.

Lemma escape_char_no_nul (c : char) : c <> NUL -> no_nul (escape_char c).
Proof.
  intros Hc. apply (bool_decide_unpack (no_nul (escape_char c))). revert Hc. by_all_chars c.
Qed.

Lemma encode_content_prefix (src : cstr) (j dest_size : nat) :
  exists n, (n <= length src)%nat /\ encode_content src j dest_size = take n src ≫= escape_char.
Proof.
  revert j. induction src as [|c src IH]; intros j; simpl; [by exists 0%nat|].
  destruct (j + 7 <? dest_size)%nat; [|exists 0%nat; split; [lia|done]].
  destruct (IH (j + length (escape_char c))%nat) as (n & Hn & ->).
  exists (S n). split; [lia|]. done.
Qed.

Lemma length_encode_content (src : cstr) (j dest_size : nat) :
  (j < dest_size)%nat -> (j + length (encode_content src j dest_size) < dest_size)%nat.
Proof.
  revert j. induction src as [|c src IH]; intros j Hj; simpl; [lia|].
  destruct (j + 7 <? dest_size)%nat eqn:E; simpl; [|lia]. bool_to_prop.
  rewrite length_app. pose proof (length_escape_char c).
  specialize (IH (j + length (escape_char c))%nat ltac:(lia)). lia.
Qed.

Lemma encode_content_no_nul (src : cstr) (j dest_size : nat) :
  no_nul src -> no_nul (encode_content src j dest_size).
Proof.
  intros Hs. revert j. induction Hs as [|c src Hc Hs IH]; intros j; simpl; [constructor|].
  destruct (j + 7 <? dest_size)%nat; [|constructor].
  apply no_nul_app. split; [by apply escape_char_no_nul|apply IH].
Qed.

(** Nothing is dropped while at least seven bytes stay free. *)
Lemma encode_content_full (src : cstr) (j dest_size : nat) :
  (j + 6 * length src + 1 < dest_size + 0 \/ src = [])%nat ->
  encode_content src j dest_size = src ≫= escape_char.
Proof.
  revert j. induction src as [|c src IH]; intros j Hj; [done|].
  destruct Hj as [Hj|?]; [|done]. simpl in *.
  pose proof (length_escape_char c).
  replace (j + 7 <? dest_size)%nat with true by (symmetry; apply Nat.ltb_lt; lia).
  f_equal. apply IH. destruct src as [|d src]; [by right|left]. simpl in *. lia.
Qed.

Lemma encode_content_fits (src : cstr) (j dest_size : nat) :
  (j + length (src ≫= escape_char) + 6 < dest_size)%nat ->
  encode_content src j dest_size = src ≫= escape_char.
Proof.
  revert j. induction src as [|c src IH]; intros j Hj; [done|].
  rewrite bind_cons, length_app in *. simpl. pose proof (length_escape_char c).
  rewrite (proj2 (Nat.ltb_lt _ _)) by lia. f_equal. apply IH. lia.
Qed.

Lemma encode_loop_eq (src pre post : list char) (dest_size : nat) :
  (dest_size <= length (pre ++ post))%nat -> (length pre < dest_size)%nat ->
  let out := encode_content src (length pre) dest_size in
  encode_loop src (pre ++ post) (length pre) dest_size
  = Some (pre ++ out ++ drop (length out) post, length pre + length out)%nat.
Proof.
  revert pre post. induction src as [|c src IH]; intros pre post Hl Hj; simpl.
  { by rewrite Nat.add_0_r. }
  destruct (length pre + 7 <? dest_size)%nat eqn:E; [|by rewrite Nat.add_0_r].
  bool_to_prop. pose proof (length_escape_char c) as Hc.
  rewrite length_app in Hl. rewrite put_all_spec by lia. simpl.
  rewrite (assoc_L (++) pre). specialize (IH (pre ++ escape_char c) (drop (length (escape_char c)) post)).
  rewrite !length_app in IH. rewrite IH; [|rewrite length_drop; lia|lia].
  rewrite <- !(assoc_L (++)), drop_drop, length_app. f_equal. f_equal. lia.
Qed.

(** The routine never writes outside a buffer of [dest_size] bytes, and leaves
    the encoded prefix, its terminator and the old bytes behind it. *)
Lemma json_encode_string_eq (src dest : list char) (dest_size : nat) :
  (0 < dest_size <= length dest)%nat ->
  json_encode_string (Some src) (Some dest) dest_size
  = Some (Some (json_encode dest_size src
                ++ NUL :: drop (S (length (json_encode dest_size src))) dest)).
Proof.
  intros Hd. unfold json_encode_string. rewrite decide_False by lia.
  pose proof (encode_loop_eq src [] dest dest_size) as E. simpl in E.
  rewrite E by lia. fold (json_encode dest_size src). simpl.
  set (out := json_encode dest_size src).
  assert (length out < dest_size)%nat by (apply (length_encode_content src 0); lia).
  rewrite put_Some by (rewrite length_app, length_drop; lia). simpl.
  rewrite insert_app_r_alt, Nat.sub_diag by lia.
  destruct (drop (length out) dest) as [|x rest] eqn:Ed.
  { apply (f_equal length) in Ed. rewrite length_drop in Ed. simpl in Ed. lia. }
  simpl. replace (S (length out)) with (length out + 1)%nat by lia.
  by rewrite <- drop_drop, Ed.
Qed.

Lemma length_json_encode (size : nat) (s : cstr) :
  (0 < size)%nat -> (length (json_encode size s) < size)%nat.
Proof. intros. pose proof (length_encode_content s 0 size). unfold json_encode. lia. Qed.

Lemma json_encode_full (size : nat) (s : cstr) :
  (6 * length s + 1 < size \/ s = [])%nat -> json_encode size s = s ≫= escape_char.
Proof. intros. apply encode_content_full. naive_solver lia. Qed.

Lemma json_encode_prefix (size : nat) (s : cstr) :
  exists n, (n <= length s)%nat /\ json_encode size s = take n s ≫= escape_char.
Proof. apply encode_content_prefix. Qed.

Lemma length_escapes (s : cstr) : (length s <= length (s ≫= escape_char))%nat.
Proof.
  induction s as [|c s IH]; [done|]. rewrite bind_cons, length_app. cbn [length].
  pose proof (length_escape_char c). lia.
Qed.

(** An encoded string is the escaped form of a prefix, of the whole string if the
    buffer is large enough for the worst case. *)
(** [n] characters of [s] go into a buffer of [size] bytes: a character goes in
    exactly while the escaped forms of those before it leave more than seven
    bytes free. *)
Definition goes_in (size : nat) (s : cstr) (n : nat) : Prop :=
  (n <= length s)%nat
  /\ (forall i, (i < n)%nat -> (length (take i s ≫= escape_char) + 7 < size)%nat)
  /\ ((n < length s)%nat -> (size <= length (take n s ≫= escape_char) + 7)%nat).

Lemma encode_content_cut (src : cstr) (j dest_size : nat) :
  exists n, encode_content src j dest_size = take n src ≫= escape_char
    /\ (n <= length src)%nat
    /\ (forall i, (i < n)%nat -> (j + length (take i src ≫= escape_char) + 7 < dest_size)%nat)
    /\ ((n < length src)%nat -> (dest_size <= j + length (take n src ≫= escape_char) + 7)%nat).
Proof.
  revert j. induction src as [|c src IH]; intros j; cbn [encode_content].
  { exists 0%nat. split_and!; [done|done|intros ? ?; lia|cbn; lia]. }
  destruct (Nat.ltb_spec (j + 7) dest_size) as [Hj|Hj].
  2:{ exists 0%nat. cbn. split_and!; [done|lia|intros ? ?; lia|lia]. }
  destruct (IH (j + length (escape_char c))%nat) as (n & -> & Hn & Hi & Hl). exists (S n).
  cbn [take length]. rewrite bind_cons, length_app. split_and!; [done|lia| |lia].
  intros [|i] Hlt; [cbn; lia|]. cbn [take]. rewrite bind_cons, length_app. specialize (Hi i). lia.
Qed.

Lemma json_encode_cut (size : nat) (s : cstr) :
  exists n, json_encode size s = take n s ≫= escape_char /\ goes_in size s n.
Proof. exact (encode_content_cut s 0 size). Qed.

(** Nothing is cut off while seven bytes stay free. *)
Lemma goes_in_whole (size n : nat) (s : cstr) :
  goes_in size s n -> (length (s ≫= escape_char) + 7 <= size)%nat -> take n s = s.
Proof.
  intros (Hn & _ & Hl) Hs. apply take_ge. destruct (decide (n < length s)%nat) as [Hlt|]; [|lia]. specialize (Hl Hlt).
  rewrite <- (take_drop n s), bind_app, length_app in Hs. pose proof (length_escapes (drop n s)).
  rewrite length_drop in *. lia.
Qed.

Lemma encoded_prefix (size : nat) (s : cstr) :
  no_nul s -> (0 < size)%nat -> (Z.of_nat size < 2 ^ 31)%Z ->
  exists t, t `prefix_of` s /\ json_encode size s = t ≫= escape_char
    /\ ((6 * length s + 1 < size)%nat -> t = s)
    /\ no_nul t /\ (Z.of_nat (length t) <= 2 ^ 31 - 1)%Z.
Proof.
  intros Hs H0 Hb. destruct (json_encode_prefix size s) as (k & Hk & E). exists (take k s).
  split; [exists (drop k s); by rewrite take_drop|]. split; [done|]. split.
  - intros Hl. rewrite json_encode_full in E by (by left). apply take_ge.
    destruct (decide (k < length s)%nat) as [Hlt|]; [exfalso|lia].
    rewrite <- (take_drop k s) in E at 1. rewrite bind_app in E.
    apply (f_equal length) in E. rewrite length_app in E.
    pose proof (length_escapes (drop k s)). rewrite length_drop in *. lia.
  - split; [by apply no_nul_take|]. pose proof (length_json_encode size s H0) as Hle. rewrite E in Hle.
    pose proof (length_escapes (take k s)). lia.
Qed.

(** ** The properties *)

(** Memory safety and shape of [json_encode_string]. For every source string and every
    destination of at least [dest_size] (non-zero) bytes, no byte outside the
    first [dest_size] is written, the result is terminated inside them, and
    what it holds is the escaped form of a prefix of the source: an escape
    sequence is never cut in half. *)
Lemma json_encode_string_safe (src dest : list char) (dest_size : nat) :
  no_nul src -> (0 < dest_size <= length dest)%nat ->
  exists n out rest,
    json_encode_string (Some src) (Some dest) dest_size = Some (Some (out ++ NUL :: rest))
    /\ c_str (out ++ NUL :: rest) = out
    /\ out = take n src ≫= escape_char
    /\ (length out < dest_size)%nat
    /\ length (out ++ NUL :: rest) = length dest
    /\ drop dest_size (out ++ NUL :: rest) = drop dest_size dest.
Proof.
  intros Hs Hd. destruct (encode_content_prefix src 0 dest_size) as (n & Hn & Hout).
  pose proof (length_json_encode dest_size src ltac:(lia)) as Hl.
  set (out := json_encode dest_size src) in *.
  exists n, out, (drop (S (length out)) dest). split_and!; auto.
  - by apply json_encode_string_eq.
  - apply c_str_no_nul. by apply encode_content_no_nul.
  - rewrite length_app. simpl. rewrite length_drop. lia.
  - rewrite drop_app_ge by lia. destruct (dest_size - length out)%nat as [|k] eqn:Ek; [lia|].
    simpl. rewrite drop_drop. f_equal. lia.
Qed.

(** C16: no injection through an encoded string. Whatever the source holds, a
    JSON reader that meets the string [json_encode_string] left in [dest],
    followed by a quote, stops exactly at that quote and gets back the encoded
    prefix of the source; the prefix is the whole source as soon as the source
    is shorter than the [src_max] the buffer was sized for with
    [JSON_ENCODE_BUFSIZE]. *)
Theorem json_encode_roundtrip (src dest rest : list char) (dest_size : nat) :
  no_nul src -> (0 < dest_size <= length dest)%nat ->
  exists n dest',
    json_encode_string (Some src) (Some dest) dest_size = Some (Some dest')
    /\ json_scan (c_str dest' ++ DQUOTE :: rest) = Some (take n src, rest)
    /\ (forall src_max, (length src < src_max)%nat -> dest_size = JSON_ENCODE_BUFSIZE src_max ->
        take n src = src).
Proof.
  intros Hs Hd. destruct (encode_content_prefix src 0 dest_size) as (n & Hn & Hout).
  eexists n, _. split; [by apply json_encode_string_eq|].
  rewrite c_str_no_nul by by apply encode_content_no_nul.
  unfold json_encode. rewrite Hout, json_scan_escapes. split; [done|].
  intros src_max Hl ->. unfold JSON_ENCODE_BUFSIZE in Hout.
  assert (Some (take n src, rest) = Some (src, rest)) as E; [|by simplify_eq].
  rewrite <- !json_scan_escapes, <- Hout. f_equal. f_equal.
  apply encode_content_full. destruct src; [by right|left]. simpl in *. lia.
Qed.

Lemma json_encode_roundtrip_witness :
  exists n dest',
    json_encode_string (Some (lit "x`,`admin`:`1")) (Some (replicate 85 NUL)) 85 = Some (Some dest')
    /\ json_scan (c_str dest' ++ DQUOTE :: lit "}") = Some (take n (lit "x`,`admin`:`1"), lit "}")
    /\ (forall src_max, (length (lit "x`,`admin`:`1") < src_max)%nat ->
        85%nat = JSON_ENCODE_BUFSIZE src_max ->
        take n (lit "x`,`admin`:`1") = lit "x`,`admin`:`1").
Proof.
  apply (json_encode_roundtrip (lit "x`,`admin`:`1") (replicate 85 NUL) (lit "}") 85).
  - repeat constructor; discriminate.
  - simpl; lia.
Defined.

Lemma encode_content_short (k m j : nat) :
  (k <= m + j)%nat ->
  encode_content (replicate (S m) "001"%char) (6 * j) (JSON_ENCODE_BUFSIZE (S k))
  = replicate (k - j) "001"%char ≫= escape_char.
Proof.
  unfold JSON_ENCODE_BUFSIZE. revert j. induction m as [|m IH]; intros j Hj.
  - cbn [replicate encode_content].
    replace (6 * j + 7 <? S k * 6 + 1)%nat with false by (symmetry; apply Nat.ltb_ge; lia).
    by replace (k - j)%nat with 0%nat by lia.
  - change (replicate (S (S m)) "001"%char) with ("001"%char :: replicate (S m) "001"%char).
    cbn [encode_content].
    destruct (6 * j + 7 <? S k * 6 + 1)%nat eqn:E; bool_to_prop.
    + change (length (escape_char "001"%char)) with 6%nat.
      replace (6 * j + 6)%nat with (6 * S j)%nat by lia.
      rewrite IH by lia. replace (k - j)%nat with (S (k - S j)) by lia. done.
    + by replace (k - j)%nat with 0%nat by lia.
Qed.

(** The buffer macro is one character short. A string of exactly [src_max]
    control characters does not fit a buffer of [JSON_ENCODE_BUFSIZE(src_max)]
    bytes: [json_encode_string] drops the last character silently, for every
    [src_max]. *)
Lemma json_encode_bufsize_short (k : nat) :
  exists dest',
    json_encode_string (Some (replicate (S k) "001"%char))
      (Some (replicate (JSON_ENCODE_BUFSIZE (S k)) NUL)) (JSON_ENCODE_BUFSIZE (S k))
    = Some (Some dest')
    /\ c_str dest' = replicate k "001"%char ≫= escape_char.
Proof.
  eexists. split.
  { apply json_encode_string_eq. rewrite length_replicate. unfold JSON_ENCODE_BUFSIZE. lia. }
  rewrite c_str_no_nul.
  - pose proof (encode_content_short k k 0 ltac:(lia)) as H. by rewrite Nat.sub_0_r in H.
  - apply encode_content_no_nul, Forall_replicate. discriminate.
Qed.

End Encode.

Module Itoa.

(** ** The code *)

(** [digits_lut]: the decimal forms of 0 to 99, two characters each. *)
Definition digits_lut : list char := lit
  "00010203040506070809101112131415161718192021222324252627282930313233343536373839404142434445464748495051525354555657585960616263646566676869707172737475767778798081828384858687888990919293949596979899"%string.

Definition count_digits_u32 (val : Z) : nat :=
  if (val <? 10)%Z then 1 else if (val <? 100)%Z then 2
  else if (val <? 1000)%Z then 3 else if (val <? 10000)%Z then 4
  else if (val <? 100000)%Z then 5 else if (val <? 1000000)%Z then 6
  else if (val <? 10000000)%Z then 7 else if (val <? 100000000)%Z then 8
  else if (val <? 1000000000)%Z then 9 else 10.

Definition count_digits_u64 (val : Z) : nat :=
  if (val <? 1000000000)%Z then count_digits_u32 (uwrap 32 val)
  else if (val <? 10000000000)%Z then 10 else if (val <? 100000000000)%Z then 11
  else if (val <? 1000000000000)%Z then 12 else if (val <? 10000000000000)%Z then 13
  else if (val <? 100000000000000)%Z then 14 else if (val <? 1000000000000000)%Z then 15
  else if (val <? 10000000000000000)%Z then 16 else if (val <? 100000000000000000)%Z then 17
  else if (val <? 1000000000000000000)%Z then 18 else if (val <? 10000000000000000000)%Z then 19
  else 20.

(** Reads past the table and stores past the buffer are [None]. *)
Definition write2 (buf : list char) (dst : nat) (val : Z) : option (list char) :=
  a ← digits_lut !! Z.to_nat (val * 2);
  b ← digits_lut !! Z.to_nat (val * 2 + 1);
  memcpy_at buf dst [a; b].

(** [ptr -= n]: leaving the array to the left is undefined. *)
Definition psub (ptr n : nat) : option nat :=
  if (n <=? ptr)%nat then Some (ptr - n)%nat else None.

(** A loop's state: the remaining value, the write position, the buffer. *)
Record st := St { uval : Z; ptr : nat; buf : list char }.

(** [while (uval >= 100000000)], eight digits a turn *)
Fixpoint loop8 (fuel : nat) (s : st) : option st :=
  match fuel with
  | O => None
  | S fuel' =>
      if (100000000 <=? uval s)%Z then
        let rem := (uval s mod 100000000)%Z in
        p ← psub (ptr s) 8;
        let r1 := (rem mod 10000)%Z in
        let r2 := (rem / 10000)%Z in
        b1 ← write2 (buf s) (p + 6) (r1 mod 100);
        b2 ← write2 b1 (p + 4) (r1 / 100);
        b3 ← write2 b2 (p + 2) (r2 mod 100);
        b4 ← write2 b3 p (r2 / 100);
        loop8 fuel' (St (uval s / 100000000) p b4)
      else Some s
  end.

(** [while (uval >= 10000)], four digits a turn *)
Fixpoint loop4 (fuel : nat) (s : st) : option st :=
  match fuel with
  | O => None
  | S fuel' =>
      if (10000 <=? uval s)%Z then
        let rem := (uval s mod 10000)%Z in
        p ← psub (ptr s) 4;
        b1 ← write2 (buf s) (p + 2) (rem mod 100);
        b2 ← write2 b1 p (rem / 100);
        loop4 fuel' (St (uval s / 10000) p b2)
      else Some s
  end.

(** [while (uval >= 100)], two digits a turn *)
Fixpoint loop2 (fuel : nat) (s : st) : option st :=
  match fuel with
  | O => None
  | S fuel' =>
      if (100 <=? uval s)%Z then
        let rem := (uval s mod 100)%Z in
        p ← psub (ptr s) 2;
        b1 ← write2 (buf s) p rem;
        loop2 fuel' (St (uval s / 100) p b1)
      else Some s
  end.

(** The last one or two digits. *)
Definition last_digits (s : st) : option (list char) :=
  if (uval s <? 10)%Z then p ← psub (ptr s) 1; put (buf s) p (char_of_Z (48 + uval s))
  else p ← psub (ptr s) 2; write2 (buf s) p (uval s).

(** A 64-bit value needs at most two turns of eight digits, two of four and
    one of two; the fuel leaves one more for the final test. *)
Definition loop_fuel : nat := 12.

(** [int fast_itoa(int val, char* buf, size_t buf_size)]: the buffer after the
    call and the result. *)
Definition fast_itoa (val : Z) (b : option (list char)) (buf_size : Z)
    : option (option (list char) * Z) :=
  match b with
  | None => Some (None, 0%Z)
  | Some b0 =>
      if (buf_size <? 2)%Z then Some (b, 0%Z) else
      let neg := (val <? 0)%Z in
      let uv := if neg then uwrap 32 (0 - uwrap 32 val) else uwrap 32 val in
      let len := (count_digits_u32 uv + if neg then 1 else 0)%nat in
      if (buf_size <? Z.of_nat len + 1)%Z then Some (b, 0%Z) else
      b1 ← put b0 len NUL;
      s1 ← loop4 loop_fuel (St uv len b1);
      s2 ← loop2 loop_fuel s1;
      b2 ← last_digits s2;
      b3 ← (if neg then put b2 0 "-"%char else Some b2);
      Some (Some b3, Z.of_nat len)
  end.

(** [int fast_ltoa(long val, char* buf, size_t buf_size)] *)
Definition fast_ltoa (val : Z) (b : option (list char)) (buf_size : Z)
    : option (option (list char) * Z) :=
  match b with
  | None => Some (None, 0%Z)
  | Some b0 =>
      if (buf_size <? 2)%Z then Some (b, 0%Z) else
      let neg := (val <? 0)%Z in
      let uv := if neg then uwrap 64 (0 - uwrap 64 val) else uwrap 64 val in
      let len := (count_digits_u64 uv + if neg then 1 else 0)%nat in
      if (buf_size <? Z.of_nat len + 1)%Z then Some (b, 0%Z) else
      b1 ← put b0 len NUL;
      s0 ← loop8 loop_fuel (St uv len b1);
      s1 ← loop4 loop_fuel (St (uwrap 32 (uval s0)) (ptr s0) (buf s0));
      s2 ← loop2 loop_fuel s1;
      b2 ← last_digits s2;
      b3 ← (if neg then put b2 0 "-"%char else Some b2);
      Some (Some b3, Z.of_nat len)
  end.

(** ** The reference *)

Definition digit (d : Z) : char := char_of_Z (48 + d).

(** The [k] low decimal digits of [v], most significant first. *)
Fixpoint dec_pad (k : nat) (v : Z) : list char :=
  match k with
  | O => []
  | S k' => dec_pad k' (v / 10) ++ [digit (v mod 10)]
  end.

(** [v] has exactly [n] decimal digits (0 has one). *)
Definition is_ndig (v : Z) (n : nat) : Prop :=
  (1 <= n)%nat /\ (0 <= v < 10 ^ Z.of_nat n)%Z
  /\ (n = 1%nat \/ 10 ^ Z.of_nat (n - 1) <= v)%Z.

(** Reading a decimal integer back. *)
Fixpoint read_dec (acc : Z) (s : list char) : option Z :=
  match s with
  | [] => Some acc
  | c :: s' => if isdigit c then read_dec (acc * 10 + (uchar c - 48)) s' else None
  end.
Definition read_int (s : list char) : option Z :=
  match s with
  | [] => None
  | c :: s' => if decide (c = "-"%char) then Z.opp <$> read_dec 0 s' else read_dec 0 s
  end.

(** ** Lemmas on the reference *)

Lemma pow10_pos (n : nat) : (0 < 10 ^ Z.of_nat n)%Z.
Proof. apply Z.pow_pos_nonneg; lia. Qed.

Lemma pow10_S (n : nat) : (10 ^ Z.of_nat (S n) = 10 * 10 ^ Z.of_nat n)%Z.
Proof. rewrite Nat2Z.inj_succ, Z.pow_succ_r; lia. Qed.

Lemma pow10_add (m n : nat) : (10 ^ Z.of_nat (m + n) = 10 ^ Z.of_nat m * 10 ^ Z.of_nat n)%Z.
Proof. rewrite Nat2Z.inj_add. apply Z.pow_add_r; lia. Qed.

Lemma div_pow10_add (v : Z) (m n : nat) :
  (v / 10 ^ Z.of_nat m / 10 ^ Z.of_nat n = v / 10 ^ Z.of_nat (m + n))%Z.
Proof.
  pose proof (pow10_pos m). pose proof (pow10_pos n).
  rewrite pow10_add. rewrite Z.div_div; lia.
Qed.

Lemma length_dec_pad (k : nat) (v : Z) : length (dec_pad k v) = k.
Proof.
  revert v. induction k as [|k IH]; intros v; simpl; [done|].
  rewrite length_app, IH. simpl. lia.
Qed.

Lemma dec_pad_app (j k : nat) (v : Z) :
  dec_pad (j + k) v = dec_pad j (v / 10 ^ Z.of_nat k) ++ dec_pad k v.
Proof.
  revert v. induction k as [|k IH]; intros v.
  - rewrite Nat.add_0_r. simpl. by rewrite Z.div_1_r, app_nil_r.
  - rewrite Nat.add_succ_r. cbn [dec_pad]. rewrite IH, (assoc_L (++)).
    change (S k) with (1 + k)%nat. by rewrite <- (div_pow10_add v 1 k).
Qed.

Lemma dec_pad_mod100 (v : Z) : dec_pad 2 (v mod 100) = dec_pad 2 v.
Proof.
  cbn [dec_pad]. replace (v mod 100 / 10 mod 10)%Z with (v / 10 mod 10)%Z by lia.
  by replace (v mod 100 mod 10)%Z with (v mod 10)%Z by lia.
Qed.

Lemma uchar_digit (d : Z) : (0 <= d < 10)%Z -> uchar (digit d) = (48 + d)%Z.
Proof. intros. unfold digit. apply uchar_char_of_Z. lia. Qed.

Lemma digit_no_nul (d : Z) : (0 <= d < 10)%Z -> digit d <> NUL.
Proof. intros Hd E%(f_equal uchar). rewrite uchar_digit in E by lia. change (uchar NUL) with 0%Z in E. lia. Qed.

Lemma dec_pad_no_nul (k : nat) (v : Z) : no_nul (dec_pad k v).
Proof.
  revert v. induction k as [|k IH]; intros v; simpl; [constructor|].
  apply no_nul_app. split; [apply IH|]. constructor; [|constructor].
  apply digit_no_nul. lia.
Qed.

Lemma read_dec_app (acc v : Z) (k : nat) (s : list char) :
  (0 <= v < 10 ^ Z.of_nat k)%Z ->
  read_dec acc (dec_pad k v ++ s) = read_dec (acc * 10 ^ Z.of_nat k + v) s.
Proof.
  revert v s. induction k as [|k IH]; intros v s Hv.
  - simpl in *. f_equal. lia.
  - rewrite pow10_S in *. cbn [dec_pad]. rewrite <- (assoc_L (++)), IH by lia.
    simpl. unfold isdigit. rewrite uchar_digit by lia.
    replace ((48 <=? 48 + v mod 10) && (48 + v mod 10 <=? 57))%Z with true by lia.
    f_equal. lia.
Qed.

Lemma read_dec_pad (v : Z) (k : nat) :
  (0 <= v < 10 ^ Z.of_nat k)%Z -> read_dec 0 (dec_pad k v) = Some v.
Proof. intros Hv. pose proof (read_dec_app 0 v k [] Hv) as H. by rewrite app_nil_r in H. Qed.

Lemma dec_pad_head (v : Z) (n : nat) :
  (1 <= n)%nat -> exists d s, dec_pad n v = digit d :: s /\ (0 <= d < 10)%Z.
Proof.
  intros Hn. destruct n as [|n]; [lia|]. rewrite <- Nat.add_1_l, dec_pad_app. simpl.
  eexists _, _. split; [done|]. lia.
Qed.

(** The sign and the digits of an integer read back as the integer. *)
Lemma read_int_signed (val : Z) (n : nat) :
  is_ndig (Z.abs val) n ->
  read_int ((if (val <? 0)%Z then ["-"%char] else []) ++ dec_pad n (Z.abs val)) = Some val.
Proof.
  intros (Hn & Hv & _). destruct (val <? 0)%Z eqn:E; bool_to_prop; simpl.
  - rewrite read_dec_pad by done. simpl. f_equal. lia.
  - destruct (dec_pad_head (Z.abs val) n Hn) as (d & s & Hd & Hr).
    pose proof (read_dec_pad (Z.abs val) n Hv) as R. rewrite Hd in *.
    unfold read_int. rewrite decide_False; [rewrite R; f_equal; lia|].
    intros Heq%(f_equal uchar). rewrite uchar_digit in Heq by done.
    change (uchar "-"%char) with 45%Z in Heq. lia.
Qed.

(** ** Lemmas on the counters and the table *)

Lemma is_ndig_bounds (v lo hi : Z) (n : nat) :
  (10 ^ Z.of_nat (n - 1) = lo)%Z -> (10 ^ Z.of_nat n = hi)%Z ->
  (1 <= n)%nat -> (0 <= v < hi)%Z -> (n = 1%nat \/ lo <= v)%Z -> is_ndig v n.
Proof. by intros <- <-. Qed.

Ltac solve_ndig :=
  eapply is_ndig_bounds; [cbn; reflexivity|cbn; reflexivity|lia..].

Lemma count_digits_u32_spec (v : Z) : (0 <= v < 2 ^ 32)%Z -> is_ndig v (count_digits_u32 v).
Proof.
  intros Hv. unfold count_digits_u32.
  repeat match goal with |- context [if ?b then _ else _] => destruct b eqn:? end;
    bool_to_prop; solve_ndig.
Qed.

Lemma count_digits_u64_spec (v : Z) : (0 <= v < 2 ^ 64)%Z -> is_ndig v (count_digits_u64 v).
Proof.
  intros Hv. unfold count_digits_u64.
  destruct (v <? 1000000000)%Z eqn:?; bool_to_prop.
  { rewrite uwrap_small by lia. apply count_digits_u32_spec. lia. }
  repeat match goal with |- context [if ?b then _ else _] => destruct b eqn:? end;
    bool_to_prop; solve_ndig.
Qed.

(** Dropping [m] digits of a number that has more. *)
Lemma is_ndig_div (v : Z) (m n : nat) :
  is_ndig v n -> (10 ^ Z.of_nat m <= v)%Z ->
  (m < n)%nat /\ is_ndig (v / 10 ^ Z.of_nat m) (n - m).
Proof.
  intros (Hn & Hv & Hlo) Hm. pose proof (pow10_pos m).
  assert (m < n)%nat.
  { destruct (decide (m < n)%nat) as [|Hge]; [done|].
    assert (10 ^ Z.of_nat n <= 10 ^ Z.of_nat m)%Z by (apply Z.pow_le_mono_r; lia). lia. }
  split; [done|]. split_and!; [lia|apply Z.div_pos; lia| |].
  - apply Z.div_lt_upper_bound; [lia|]. rewrite <- pow10_add.
    replace (m + (n - m))%nat with n by lia. lia.
  - destruct (decide (n - m = 1)%nat); [by left|]. right. destruct Hlo as [|Hlo]; [lia|].
    apply Z.div_le_lower_bound; [lia|]. rewrite <- pow10_add.
    by replace (m + (n - m - 1))%nat with (n - 1)%nat by lia.
Qed.

Lemma is_ndig_unique (v : Z) (m n : nat) : is_ndig v m -> is_ndig v n -> m = n.
Proof.
  assert (forall m n, is_ndig v m -> is_ndig v n -> (m <= n)%nat) as H; [|intros; apply Nat.le_antisymm; auto].
  clear m n. intros m n (_ & _ & Hm) (Hn & Hv & _). destruct Hm as [->|Hm]; [done|].
  destruct (decide (m <= n)%nat); [done|].
  assert (10 ^ Z.of_nat n <= 10 ^ Z.of_nat (m - 1))%Z by (apply Z.pow_le_mono_r; lia). lia.
Qed.

Lemma digits_lut_spec (v : Z) :
  (0 <= v < 100)%Z ->
  digits_lut !! Z.to_nat (v * 2) = Some (digit (v / 10 mod 10))
  /\ digits_lut !! Z.to_nat (v * 2 + 1) = Some (digit (v mod 10)).
Proof.
  intros Hv.
  assert (Forall (fun v => digits_lut !! Z.to_nat (v * 2) = Some (digit (v / 10 mod 10))
    /\ digits_lut !! Z.to_nat (v * 2 + 1) = Some (digit (v mod 10)))%Z (seqZ 0 100)) as H.
  { apply (bool_decide_unpack _). vm_compute. exact I. }
  rewrite Forall_forall in H. apply H, list_elem_of_In, elem_of_seqZ. lia.
Qed.

Lemma write2_eq (b : list char) (dst : nat) (v : Z) :
  (0 <= v < 100)%Z -> write2 b dst v = memcpy_at b dst (dec_pad 2 v).
Proof. intros Hv. unfold write2. by destruct (digits_lut_spec v Hv) as [-> ->]. Qed.

(** ** The emission invariant

    [orig] is written backwards in front of position [len] of [b0]; after [k]
    digits the buffer is [filled k]. *)
Section emission.
Context (orig : Z) (b0 tail : list char) (len : nat).
Hypothesis len_fits : (len <= length b0)%nat.

Definition filled (k : nat) : list char := take (len - k) b0 ++ dec_pad k orig ++ tail.

Lemma filled_memcpy (m k : nat) :
  (m + k <= len)%nat ->
  memcpy_at (filled k) (len - k - m) (dec_pad m (orig / 10 ^ Z.of_nat k)) = Some (filled (m + k)).
Proof.
  intros Hk. unfold filled.
  replace (take (len - k) b0)
    with (take (len - k - m) b0 ++ drop (len - k - m) (take (len - k) b0)).
  2:{ rewrite <- (take_drop (len - k - m) (take (len - k) b0)) at 2.
      by rewrite take_take, Nat.min_l by lia. }
  set (pre := take (len - k - m) b0). set (mid := drop _ _).
  assert (length pre = len - k - m)%nat as Hp by (subst pre; rewrite length_take; lia).
  rewrite <- (assoc_L (++)). rewrite <- Hp at 1.
  rewrite memcpy_at_spec
    by (subst mid; rewrite length_dec_pad, length_drop, length_take; lia).
  rewrite dec_pad_app, <- (assoc_L (++)). subst pre. do 3 f_equal. lia.
Qed.

Lemma filled_write2 (k : nat) (v : Z) :
  (2 + k <= len)%nat -> v = (orig / 10 ^ Z.of_nat k mod 100)%Z ->
  write2 (filled k) (len - k - 2) v = Some (filled (2 + k)).
Proof.
  intros Hk ->. rewrite write2_eq by lia. rewrite dec_pad_mod100. by apply filled_memcpy.
Qed.

(** The loops' invariant: [k] digits are out, [n] are left. *)
Definition emitted (base : nat) (s : st) (k n : nat) : Prop :=
  uval s = (orig / 10 ^ Z.of_nat k)%Z /\ is_ndig (uval s) n
  /\ ptr s = (base + n)%nat /\ (base + n + k = len)%nat /\ buf s = filled k.

Ltac solve_write2 :=
  match goal with
  | |- context [write2 (filled ?k) ?p ?v] =>
      replace p with (len - k - 2)%nat by lia;
      rewrite (filled_write2 k v); [cbn [mbind option_bind]|lia|]
  end.

Lemma psub_ok (p n : nat) : (n <= p)%nat -> psub p n = Some (p - n)%nat.
Proof. intros. unfold psub. by rewrite (proj2 (Nat.leb_le n p)). Qed.

Lemma loop2_spec (fuel base : nat) (s : st) (k n : nat) :
  emitted base s k n -> (n <= 2 * fuel)%nat -> (0 < fuel)%nat ->
  exists s' k' n', loop2 fuel s = Some s' /\ emitted base s' k' n' /\ (n' <= 2)%nat.
Proof.
  revert s k n. induction fuel as [|fuel IH]; intros s k n Hs Hf Hpos; [lia|]. simpl.
  destruct Hs as (Hu & Hd & Hp & Hl & Hb).
  destruct (100 <=? uval s)%Z eqn:E; bool_to_prop.
  - destruct (is_ndig_div (uval s) 2 n Hd ltac:(done)) as [Hlt Hd'].
    rewrite psub_ok by lia. cbn [mbind option_bind]. rewrite Hb.
    solve_write2; [|by rewrite Hu].
    destruct (decide (fuel = 0)%nat) as [->|]; [lia|].
    apply (IH _ (2 + k)%nat (n - 2)%nat); [|lia|lia].
    split_and!; simpl; [|done|lia|lia|done].
    rewrite Hu, (div_pow10_add orig k 2 : (_ / _ / 100 = _)%Z). do 3 f_equal. lia.
  - exists s, k, n. split_and!; [done|by split_and!|].
    destruct Hd as (? & ? & [?|Hlo]); [lia|]. destruct (decide (n <= 2)%nat); [done|].
    assert (10 ^ Z.of_nat 2 <= 10 ^ Z.of_nat (n - 1))%Z by (apply Z.pow_le_mono_r; lia). lia.
Qed.

Lemma div_mod_pair (u : Z) : (u mod 10000 mod 100 = u mod 100
  /\ u mod 10000 / 100 = u / 100 mod 100)%Z.
Proof. lia. Qed.

Lemma loop4_spec (fuel base : nat) (s : st) (k n : nat) :
  emitted base s k n -> (n <= 4 * fuel)%nat -> (0 < fuel)%nat ->
  exists s' k' n', loop4 fuel s = Some s' /\ emitted base s' k' n' /\ (n' <= 4)%nat.
Proof.
  revert s k n. induction fuel as [|fuel IH]; intros s k n Hs Hf Hpos; [lia|]. simpl.
  destruct Hs as (Hu & Hd & Hp & Hl & Hb).
  destruct (10000 <=? uval s)%Z eqn:E; bool_to_prop.
  - destruct (is_ndig_div (uval s) 4 n Hd ltac:(done)) as [Hlt Hd'].
    rewrite psub_ok by lia. cbn [mbind option_bind]. rewrite Hb.
    destruct (div_mod_pair (uval s)) as [E1 E2]. rewrite E1, E2, Hu.
    solve_write2; [|done].
    solve_write2; [|by rewrite (div_pow10_add orig k 2 : (_ / _ / 100 = _)%Z), Nat.add_comm].
    destruct (decide (fuel = 0)%nat) as [->|]; [lia|].
    apply (IH _ (4 + k)%nat (n - 4)%nat); [|lia|lia].
    split_and!; simpl; [|by rewrite <- Hu|lia|lia|done].
    rewrite (div_pow10_add orig k 4 : (_ / _ / 10000 = _)%Z). do 3 f_equal. lia.
  - exists s, k, n. split_and!; [done|by split_and!|].
    destruct Hd as (? & ? & [?|Hlo]); [lia|]. destruct (decide (n <= 4)%nat); [done|].
    assert (10 ^ Z.of_nat 4 <= 10 ^ Z.of_nat (n - 1))%Z by (apply Z.pow_le_mono_r; lia). lia.
Qed.

Lemma div_mod_quad (u : Z) :
  (u mod 100000000 mod 10000 mod 100 = u mod 100
   /\ u mod 100000000 mod 10000 / 100 = u / 100 mod 100
   /\ u mod 100000000 / 10000 mod 100 = u / 10000 mod 100
   /\ u mod 100000000 / 10000 / 100 = u / 1000000 mod 100)%Z.
Proof. lia. Qed.

Lemma loop8_spec (fuel base : nat) (s : st) (k n : nat) :
  emitted base s k n -> (n <= 8 * fuel)%nat -> (0 < fuel)%nat ->
  exists s' k' n', loop8 fuel s = Some s' /\ emitted base s' k' n' /\ (n' <= 8)%nat.
Proof.
  revert s k n. induction fuel as [|fuel IH]; intros s k n Hs Hf Hpos; [lia|]. simpl.
  destruct Hs as (Hu & Hd & Hp & Hl & Hb).
  destruct (100000000 <=? uval s)%Z eqn:E; bool_to_prop.
  - destruct (is_ndig_div (uval s) 8 n Hd ltac:(done)) as [Hlt Hd'].
    rewrite psub_ok by lia. cbn [mbind option_bind]. rewrite Hb.
    destruct (div_mod_quad (uval s)) as (E1 & E2 & E3 & E4). rewrite E1, E2, E3, E4, Hu.
    solve_write2; [|done].
    solve_write2; [|by rewrite (div_pow10_add orig k 2 : (_ / _ / 100 = _)%Z), Nat.add_comm].
    solve_write2; [|by rewrite (div_pow10_add orig k 4 : (_ / _ / 10000 = _)%Z), Nat.add_comm].
    solve_write2; [|by rewrite (div_pow10_add orig k 6 : (_ / _ / 1000000 = _)%Z), Nat.add_comm].
    destruct (decide (fuel = 0)%nat) as [->|]; [lia|].
    apply (IH _ (8 + k)%nat (n - 8)%nat); [|lia|lia].
    split_and!; simpl; [|by rewrite <- Hu|lia|lia|done].
    rewrite (div_pow10_add orig k 8 : (_ / _ / 100000000 = _)%Z). do 3 f_equal. lia.
  - exists s, k, n. split_and!; [done|by split_and!|].
    destruct Hd as (? & ? & [?|Hlo]); [lia|]. destruct (decide (n <= 8)%nat); [done|].
    assert (10 ^ Z.of_nat 8 <= 10 ^ Z.of_nat (n - 1))%Z by (apply Z.pow_le_mono_r; lia). lia.
Qed.

Lemma last_digits_spec (base : nat) (s : st) (k n : nat) :
  emitted base s k n -> (n <= 2)%nat ->
  last_digits s = Some (filled (len - base)).
Proof.
  intros (Hu & Hd & Hp & Hl & Hb) Hn. unfold last_digits.
  destruct Hd as (Hn1 & Hv & Hlo).
  destruct (uval s <? 10)%Z eqn:E; bool_to_prop.
  - assert (n = 1)%nat as ->.
    { destruct Hlo as [|Hlo]; [done|]. destruct (decide (n = 2)%nat) as [->|]; [|lia].
      simpl in Hlo. lia. }
    rewrite psub_ok by lia. cbn [mbind option_bind].
    pose proof (filled_memcpy 1 k ltac:(lia)) as M. rewrite <- Hu, <- Hb in M.
    replace (ptr s - 1)%nat with (len - k - 1)%nat by lia.
    cbn [dec_pad app] in M. unfold memcpy_at in M. case_decide as Hle; [|done].
    simpl in Hle. rewrite put_Some by lia. simpl in M.
    rewrite insert_take_drop by lia. unfold digit in M.
    rewrite Z.mod_small in M by lia.
    replace (len - base)%nat with (S k) by lia.
    rewrite <- M. do 3 f_equal. f_equal. lia.
  - assert (n = 2)%nat as ->.
    { destruct (decide (n = 1)%nat) as [->|]; [|lia]. simpl in Hv. lia. }
    rewrite psub_ok by lia. cbn [mbind option_bind]. rewrite Hb.
    replace (ptr s - 2)%nat with (len - k - 2)%nat by lia.
    rewrite filled_write2; [do 2 f_equal; lia|lia|].
    rewrite <- Hu. simpl in Hv. lia.
Qed.

End emission.

(** The decimal form of a signed integer whose magnitude has [n] digits. *)
Definition sign_of (val : Z) : list char := if (val <? 0)%Z then ["-"%char] else [].
Definition print_int (val : Z) (n : nat) : list char := sign_of val ++ dec_pad n (Z.abs val).

Lemma emitted_start (v : Z) (b0 tail : list char) (len base n : nat) :
  is_ndig v n -> len = (base + n)%nat ->
  emitted v b0 tail len base (St v len (filled v b0 tail len 0)) 0 n.
Proof. intros Hd ->. split_and!; simpl; [by rewrite Z.div_1_r|done|done|lia|done]. Qed.

(** The digits behind the place of the sign, then the sign itself. *)
Lemma finish_sign (val : Z) (b0 : list char) (n len : nat) :
  len = (n + if (val <? 0)%Z then 1 else 0)%nat -> (S len <= length b0)%nat ->
  let base := if (val <? 0)%Z then 1%nat else 0%nat in
  (let b2 := filled (Z.abs val) b0 (NUL :: drop (S len) b0) len (len - base) in
   if (val <? 0)%Z then put b2 0 "-"%char else Some b2)
  = Some (print_int val n ++ NUL :: drop (S len) b0).
Proof.
  intros Hlen Hb. unfold filled, print_int, sign_of. destruct (val <? 0)%Z; cbn zeta iota.
  - replace (len - (len - 1))%nat with 1%nat by lia.
    replace (len - 1)%nat with n by lia.
    destruct b0 as [|x b0]; simpl in *; [lia|]. rewrite put_Some by (simpl; lia). done.
  - replace (len - (len - 0))%nat with 0%nat by lia.
    by replace (len - 0)%nat with n by lia.
Qed.

Lemma put_nul_filled (v : Z) (b0 : list char) (len : nat) :
  (S len <= length b0)%nat ->
  put b0 len NUL = Some (filled v b0 (NUL :: drop (S len) b0) len 0).
Proof.
  intros Hb. rewrite put_Some by lia. unfold filled. rewrite Nat.sub_0_r.
  by rewrite insert_take_drop by lia.
Qed.

Lemma length_print_int (val : Z) (n : nat) :
  length (print_int val n) = (n + if (val <? 0)%Z then 1 else 0)%nat.
Proof.
  unfold print_int, sign_of. rewrite length_app, length_dec_pad.
  destruct (val <? 0)%Z; simpl; lia.
Qed.

Lemma print_int_no_nul (val : Z) (n : nat) : no_nul (print_int val n).
Proof.
  apply no_nul_app. split; [|apply dec_pad_no_nul].
  unfold sign_of. destruct (val <? 0)%Z; repeat constructor. discriminate.
Qed.

(** The negation of a [w]-bit value in unsigned arithmetic is its magnitude. *)
Lemma uwrap_abs (w val : Z) :
  (0 < w)%Z -> (- 2 ^ (w - 1) <= val < 2 ^ (w - 1))%Z ->
  (if (val <? 0)%Z then uwrap w (0 - uwrap w val) else uwrap w val) = Z.abs val.
Proof.
  intros Hw Hv.
  assert (2 ^ w = 2 * 2 ^ (w - 1))%Z as Hp by (rewrite <- Z.pow_succ_r by lia; f_equal; lia).
  destruct (val <? 0)%Z eqn:E; bool_to_prop; unfold uwrap.
  - replace (val mod 2 ^ w)%Z with (val + 2 ^ w)%Z.
    + rewrite <- (Z.mod_add _ 1) by lia. rewrite Z.mod_small; lia.
    + rewrite <- (Z.mod_add val 1) by lia. rewrite Z.mod_small; lia.
  - rewrite Z.mod_small; lia.
Qed.

(** What both routines do from the four-digit loop on. *)
Lemma digits_tail_spec (val : Z) (b0 : list char) (n len : nat) (s : st) (k n' : nat) :
  emitted (Z.abs val) b0 (NUL :: drop (S len) b0) len (if (val <? 0)%Z then 1 else 0) s k n' ->
  len = (n + if (val <? 0)%Z then 1 else 0)%nat -> (n' <= 24)%nat -> (S len <= length b0)%nat ->
  (s1 ← loop4 loop_fuel s;
   s2 ← loop2 loop_fuel s1;
   b2 ← last_digits s2;
   b3 ← (if (val <? 0)%Z then put b2 0 "-"%char else Some b2);
   Some (Some b3, Z.of_nat len))
  = Some (Some (print_int val n ++ NUL :: drop (S len) b0), Z.of_nat len).
Proof.
  intros I0 Hlen Hn' Hb.
  apply (loop4_spec _ b0 _ len ltac:(lia) loop_fuel) in I0 as (s1 & k1 & n1 & -> & I1 & ?);
    [|unfold loop_fuel; lia..].
  cbn [mbind option_bind].
  apply (loop2_spec _ b0 _ len ltac:(lia) loop_fuel) in I1 as (s2 & k2 & n2 & -> & I2 & ?);
    [|unfold loop_fuel; lia..].
  cbn [mbind option_bind].
  rewrite (last_digits_spec _ b0 _ len ltac:(lia) _ _ _ _ I2) by done.
  cbn [mbind option_bind].
  pose proof (finish_sign val b0 n len Hlen Hb) as F. cbn zeta in F. by rewrite F.
Qed.

Lemma fast_itoa_eq (val buf_size : Z) (b0 : list char) :
  (- 2 ^ 31 <= val < 2 ^ 31)%Z -> (buf_size <= Z.of_nat (length b0))%Z ->
  exists n, is_ndig (Z.abs val) n /\
    let out := print_int val n in
    fast_itoa val (Some b0) buf_size =
      if (Z.of_nat (length out) + 1 <=? buf_size)%Z
      then Some (Some (out ++ NUL :: drop (S (length out)) b0), Z.of_nat (length out))
      else Some (Some b0, 0%Z).
Proof.
  intros Hv Hb. unfold fast_itoa. rewrite uwrap_abs by lia.
  set (n := count_digits_u32 (Z.abs val)).
  assert (is_ndig (Z.abs val) n) as Hd by (apply count_digits_u32_spec; lia).
  assert (1 <= n <= 10)%nat as Hn by (subst n; unfold count_digits_u32; case_ifs; lia).
  exists n. split; [done|]. cbn zeta. rewrite length_print_int.
  set (len := (n + if (val <? 0)%Z then 1 else 0)%nat).
  assert (n <= len)%nat by lia.
  destruct (buf_size <? 2)%Z eqn:E2; bool_to_prop.
  { by replace (Z.of_nat len + 1 <=? buf_size)%Z with false by lia. }
  destruct (buf_size <? Z.of_nat len + 1)%Z eqn:E3; bool_to_prop.
  { by replace (Z.of_nat len + 1 <=? buf_size)%Z with false by lia. }
  replace (Z.of_nat len + 1 <=? buf_size)%Z with true by lia.
  rewrite (put_nul_filled (Z.abs val)) by lia. cbn [mbind option_bind].
  set (base := if (val <? 0)%Z then 1%nat else 0%nat).
  pose proof (emitted_start (Z.abs val) b0 (NUL :: drop (S len) b0) len base n Hd
    ltac:(subst len base; destruct (val <? 0)%Z; lia)) as I0.
  by apply (digits_tail_spec _ _ _ _ _ _ _ I0); [|lia..].
Qed.

Lemma fast_ltoa_eq (val buf_size : Z) (b0 : list char) :
  (- 2 ^ 63 <= val < 2 ^ 63)%Z -> (buf_size <= Z.of_nat (length b0))%Z ->
  exists n, is_ndig (Z.abs val) n /\
    let out := print_int val n in
    fast_ltoa val (Some b0) buf_size =
      if (Z.of_nat (length out) + 1 <=? buf_size)%Z
      then Some (Some (out ++ NUL :: drop (S (length out)) b0), Z.of_nat (length out))
      else Some (Some b0, 0%Z).
Proof.
  intros Hv Hb. unfold fast_ltoa. rewrite uwrap_abs by lia.
  set (n := count_digits_u64 (Z.abs val)).
  assert (is_ndig (Z.abs val) n) as Hd by (apply count_digits_u64_spec; lia).
  assert (1 <= n <= 20)%nat as Hn
    by (subst n; unfold count_digits_u64, count_digits_u32; case_ifs; lia).
  exists n. split; [done|]. cbn zeta. rewrite length_print_int.
  set (len := (n + if (val <? 0)%Z then 1 else 0)%nat).
  assert (n <= len)%nat by lia.
  destruct (buf_size <? 2)%Z eqn:E2; bool_to_prop.
  { by replace (Z.of_nat len + 1 <=? buf_size)%Z with false by lia. }
  destruct (buf_size <? Z.of_nat len + 1)%Z eqn:E3; bool_to_prop.
  { by replace (Z.of_nat len + 1 <=? buf_size)%Z with false by lia. }
  replace (Z.of_nat len + 1 <=? buf_size)%Z with true by lia.
  rewrite (put_nul_filled (Z.abs val)) by lia. cbn [mbind option_bind].
  set (base := if (val <? 0)%Z then 1%nat else 0%nat).
  pose proof (emitted_start (Z.abs val) b0 (NUL :: drop (S len) b0) len base n Hd
    ltac:(subst len base; destruct (val <? 0)%Z; lia)) as I0.
  apply (loop8_spec _ b0 _ len ltac:(lia) loop_fuel) in I0 as (s0 & k0 & n0 & -> & I0 & ?);
    [|unfold loop_fuel; lia..].
  cbn [mbind option_bind].
  assert (uwrap 32 (uval s0) = uval s0) as ->.
  { destruct I0 as (_ & (_ & Hu & _) & _). apply uwrap_small. split; [lia|].
    assert (10 ^ Z.of_nat n0 <= 10 ^ Z.of_nat 8)%Z by (apply Z.pow_le_mono_r; lia).
    change (10 ^ Z.of_nat 8)%Z with 100000000%Z in *. lia. }
  replace (St (uval s0) (ptr s0) (buf s0)) with s0 by by destruct s0.
  by apply (digits_tail_spec _ _ _ _ _ _ _ I0); [|lia..].
Qed.

(** ** The properties *)

(** C24: [fast_itoa] and [fast_ltoa] print every [int] and every [long],
    [INT_MIN] and [LONG_MIN] included: without a null buffer and with
    [buf_size] within the array they never touch a byte outside it; when the
    number and its terminator fit they leave its canonical decimal form
    (no superfluous zero), return its length and keep the bytes behind the
    terminator; otherwise they change nothing and return 0. *)
Theorem fast_itoa_ltoa_correct (val buf_size : Z) (b0 : list char) :
  (buf_size <= Z.of_nat (length b0))%Z ->
  (- 2 ^ 63 <= val < 2 ^ 63)%Z ->
  exists n, is_ndig (Z.abs val) n /\
    let out := print_int val n in
    let res := if (Z.of_nat (length out) + 1 <=? buf_size)%Z
      then Some (Some (out ++ NUL :: drop (S (length out)) b0), Z.of_nat (length out))
      else Some (Some b0, 0%Z) in
    fast_ltoa val (Some b0) buf_size = res
    /\ ((- 2 ^ 31 <= val < 2 ^ 31)%Z -> fast_itoa val (Some b0) buf_size = res).
Proof.
  intros Hb Hv. destruct (fast_ltoa_eq val buf_size b0 Hv Hb) as (n & Hn & E).
  exists n. split; [done|]. split; [done|]. intros Hv'.
  destruct (fast_itoa_eq val buf_size b0 Hv' Hb) as (n' & Hn' & E').
  by rewrite (is_ndig_unique _ _ _ Hn Hn').
Qed.

Lemma fast_itoa_ltoa_correct_witness :
  exists n, is_ndig (Z.abs (- 2 ^ 31)) n /\
    let out := print_int (- 2 ^ 31) n in
    let res := if (Z.of_nat (length out) + 1 <=? 64)%Z
      then Some (Some (out ++ NUL :: drop (S (length out)) (replicate 64 NUL)), Z.of_nat (length out))
      else Some (Some (replicate 64 NUL), 0%Z) in
    fast_ltoa (- 2 ^ 31) (Some (replicate 64 NUL)) 64 = res
    /\ ((- 2 ^ 31 <= - 2 ^ 31 < 2 ^ 31)%Z ->
        fast_itoa (- 2 ^ 31) (Some (replicate 64 NUL)) 64 = res).
Proof. apply (fast_itoa_ltoa_correct (- 2 ^ 31) 64 (replicate 64 NUL)); simpl; lia. Defined.

(** The text of an [int] column reads back as the number. With the 64-byte
    buffer of [append_col_value] [fast_ltoa] always succeeds, and reading the
    string it leaves as a decimal integer gives the value again. *)
Lemma fast_ltoa_roundtrip (val : Z) (b0 : list char) :
  (64 <= length b0)%nat -> (- 2 ^ 63 <= val < 2 ^ 63)%Z ->
  exists b1 len,
    fast_ltoa val (Some b0) 64 = Some (Some b1, len)
    /\ (0 < len < 64)%Z
    /\ Z.of_nat (length (c_str b1)) = len
    /\ read_int (c_str b1) = Some val.
Proof.
  intros Hl Hv. destruct (fast_ltoa_eq val 64 b0 Hv ltac:(lia)) as (n & Hn & E).
  assert (n <= 19)%nat.
  { destruct Hn as (_ & _ & [->|Hlo]); [lia|]. destruct (decide (n <= 19)%nat); [done|].
    assert (10 ^ Z.of_nat 19 <= 10 ^ Z.of_nat (n - 1))%Z by (apply Z.pow_le_mono_r; lia).
    change (10 ^ Z.of_nat 19)%Z with 10000000000000000000%Z in *. lia. }
  assert (1 <= n)%nat by apply Hn.
  assert (1 <= length (print_int val n) <= 20)%nat as L
    by (rewrite length_print_int; case_ifs; lia).
  cbn zeta in E. rewrite (proj2 (Z.leb_le _ _)) in E by lia.
  eexists _, _. split; [exact E|].
  rewrite c_str_no_nul by apply print_int_no_nul.
  split_and!; [lia..|by apply read_int_signed].
Qed.

End Itoa.
