(* ===== verification/Dtoa.v ===== *)
(** * lib/json_util.c: [fast_dtoa] on binary64 values

    A [double] is a [spec_float] of the Standard Library at precision 53 and
    maximal exponent 1024, so every operation of the routine (comparison,
    conversion to and from [uint64_t], subtraction, multiplication, addition)
    is the correctly rounded IEEE operation and evaluates.  The product and the
    sum of [frac * 1000000.0 + 0.5] are rounded one after the other, as the
    abstract machine of C does.  [printf_17g] is the C library's [%.17g] for
    finite values of magnitude at least one, the only ones that reach it. *)

From S2P Require Import Prelude JsonUtil.
From Stdlib Require Import SpecFloat.
Import Itoa.

Module Dtoa.

(** ** Doubles *)

Abbreviation double := spec_float.
Definition d_of_Z (z : Z) : double := binary_normalize 53 1024 z 0 false.
Definition dadd : double -> double -> double := SFadd 53 1024.
Definition dsub : double -> double -> double := SFsub 53 1024.
Definition dmul : double -> double -> double := SFmul 53 1024.
Definition ddiv : double -> double -> double := SFdiv 53 1024.
Definition dlt : double -> double -> bool := SFltb.

Definition isnan (x : double) : bool := match x with S754_nan => true | _ => false end.
Definition isinf (x : double) : bool := match x with S754_infinity _ => true | _ => false end.
Definition signbit (x : double) : bool :=
  match x with
  | S754_zero s | S754_infinity s | S754_finite s _ _ => s
  | S754_nan => false
  end.

(** The magnitude of a double, rounded towards zero. *)
Definition dtrunc (x : double) : Z :=
  match x with
  | S754_finite _ m e =>
      if (0 <=? e)%Z then (Z.pos m * 2 ^ e)%Z else (Z.pos m / 2 ^ (- e))%Z
  | _ => 0%Z
  end.

(** The constants of the routine: 1e15, 1e-9, 1000000.0 and 0.5. *)
Definition d_1e15 : double := d_of_Z (10 ^ 15).
Definition d_1em9 : double := ddiv (d_of_Z 1) (d_of_Z (10 ^ 9)).
Definition d_1e6 : double := d_of_Z 1000000.
Definition d_half : double := ddiv (d_of_Z 1) (d_of_Z 2).

(** ** [%.17g] *)

(** [num / den] rounded to the nearest integer, ties to even. *)
Definition round_div (num den : Z) : Z :=
  let q := (num / den)%Z in
  match (2 * (num mod den) ?= den)%Z with
  | Lt => q
  | Gt => (q + 1)%Z
  | Eq => if Z.even q then q else (q + 1)%Z
  end.

(** The number of decimal digits of [v], below 10 ^ 400. *)
Fixpoint ndigits (fuel : nat) (v : Z) : nat :=
  match fuel with
  | O => 1
  | S fuel' => if (v <? 10)%Z then 1 else S (ndigits fuel' (v / 10))
  end.

(** [num / den], at least 1, as 17 decimal digits and the exponent of the first. *)
Definition digits17 (num den : Z) : Z * Z :=
  let x := (Z.of_nat (ndigits 400 (num / den)) - 1)%Z in
  let n := if (x <=? 16)%Z then round_div (num * 10 ^ (16 - x)) den
           else round_div num (den * 10 ^ (x - 16)) in
  if (n =? 10 ^ 17)%Z then (10 ^ 16, x + 1)%Z else (n, x).

(** [l] without the trailing occurrences of [c]. *)
Fixpoint rstrip (c : char) (l : list char) : list char :=
  match l with
  | [] => []
  | x :: l' =>
      match rstrip c l' with
      | [] => if decide (x = c) then [] else [x]
      | r => x :: r
      end
  end.

(** A point and the digits behind it, nothing when they are all zeros. *)
Definition point_digits (ds : list char) : list char :=
  match rstrip "0"%char ds with [] => [] | r => "."%char :: r end.

Definition printf_17g (x : double) : cstr :=
  match x with
  | S754_finite s m e =>
      let '(num, den) := if (0 <=? e)%Z then (Z.pos m * 2 ^ e, 1)%Z else (Z.pos m, 2 ^ (- e))%Z in
      let '(n, x) := digits17 num den in
      let ds := dec_pad 17 n in
      (if s then ["-"%char] else [])
      ++ (if (x <? 17)%Z then
            take (Z.to_nat (x + 1)) ds ++ point_digits (drop (Z.to_nat (x + 1)) ds)
          else
            take 1 ds ++ point_digits (drop 1 ds)
            ++ lit "e+" ++ dec_pad (Nat.max 2 (ndigits 400 x)) x)
  | _ => lit "0"
  end.

(** ** The code *)

(** The integer part, written backwards in front of position [pos]. *)
Definition format_int_part (temp_int : Z) (b : list char) (pos : nat) : option (list char) :=
  s ← loop2 loop_fuel (St temp_int pos b);
  last_digits s.

(** [while (pos > len && buf[pos - 1] == '0') pos--;] *)
Fixpoint strip_zeros (b : list char) (len pos : nat) : option nat :=
  match pos with
  | O => Some O
  | S p =>
      if (len <? pos)%nat then
        c ← b !! p;
        if decide (c = "0"%char) then strip_zeros b len p else Some pos
      else Some pos
  end.

(** [(uint32_t)(frac * 1000000.0 + 0.5)] *)
Definition frac_digits (frac : double) : Z := uwrap 32 (dtrunc (dadd (dmul frac d_1e6) d_half)).

(** The fraction behind position [pos]: the buffer and the new end. *)
Definition format_frac_part (frac : double) (b : list char) (pos : nat) (buf_size : Z) (len : nat)
    : option (list char * nat) :=
  if dlt d_1em9 frac && (Z.of_nat pos + 8 <? buf_size)%Z then
    b0 ← put b pos "."%char;
    let pos := S pos in
    let fd := frac_digits frac in
    b1 ← write2 b0 (pos + 4) (fd mod 100);
    let fd := (fd / 100)%Z in
    b2 ← write2 b1 (pos + 2) (fd mod 100);
    let fd := (fd / 100)%Z in
    b3 ← write2 b2 pos (fd mod 100);
    let pos := (pos + 6)%nat in
    p1 ← strip_zeros b3 len pos;
    if (len <? p1)%nat then
      c ← b3 !! (p1 - 1)%nat;
      Some (b3, if decide (c = "."%char) then (p1 - 1)%nat else p1)
    else Some (b3, p1)
  else Some (b, pos).

(** [int fast_dtoa(double val, char* buf, size_t buf_size)] *)
Definition fast_dtoa (val : double) (b : option (list char)) (buf_size : Z)
    : option (option (list char) * Z) :=
  match b with
  | None => Some (None, 0%Z)
  | Some b0 =>
      if (buf_size <? 2)%Z then Some (b, 0%Z) else
      if isnan val || isinf val then
        b1 ← put b0 0 "0"%char;
        b2 ← put b1 1 NUL;
        Some (Some b2, 1%Z)
      else if dlt d_1e15 val || dlt val (SFopp d_1e15) then
        let text := printf_17g val in
        let w := Z.of_nat (length text) in
        b1 ← memcpy_at b0 0 (snprintf (Z.to_nat buf_size) text ++ [NUL]);
        Some (Some b1, if ((0 <? w) && (w <? buf_size))%Z then w else 0%Z)
      else
        let neg := signbit val in
        let abs_val := if neg then SFopp val else val in
        let int_part := uwrap 64 (dtrunc abs_val) in
        let frac := dsub abs_val (d_of_Z int_part) in
        let len := (count_digits_u64 int_part + if neg then 1 else 0)%nat in
        if (buf_size <? Z.of_nat len + 1)%Z then Some (b, 0%Z) else
        b1 ← format_int_part int_part b0 len;
        b2 ← (if neg then put b1 0 "-"%char else Some b1);
        '(b3, pos) ← format_frac_part frac b2 len buf_size len;
        b4 ← (if (pos =? 1)%nat then
                c ← b3 !! 0%nat;
                if decide (c = "-"%char) then put b3 0 "0"%char else Some b3
              else Some b3);
        b5 ← put b4 pos NUL;
        Some (Some b5, Z.of_nat pos)
  end.

(** ** The reference: reading a decimal in millionths *)

Definition read_micro (s : list char) : option Z :=
  match strchr s "."%char with
  | None => v ← read_dec 0 s; Some (v * 1000000)%Z
  | Some (i, f) =>
      v ← read_dec 0 i;
      w ← read_dec 0 (f ++ replicate (6 - length f) "0"%char);
      Some (v * 1000000 + w)%Z
  end.

(** ** Lemmas *)

Lemma rstrip_snoc_same (c : char) (l : list char) : rstrip c (l ++ [c]) = rstrip c l.
Proof.
  induction l as [|x l IH]; simpl; [by rewrite decide_True|]. by rewrite IH.
Qed.

Lemma rstrip_snoc_other (c x : char) (l : list char) : x <> c -> rstrip c (l ++ [x]) = l ++ [x].
Proof.
  intros Hx. induction l as [|y l IH]; simpl; [by rewrite decide_False|].
  rewrite IH. by destruct l.
Qed.

Lemma rstrip_pad (c : char) (l : list char) :
  rstrip c l ++ replicate (length l - length (rstrip c l)) c = l.
Proof.
  induction l as [|x l IH] using rev_ind; [done|].
  destruct (decide (x = c)) as [->|Hx].
  - rewrite rstrip_snoc_same, length_app. simpl.
    transitivity ((rstrip c l ++ replicate (length l - length (rstrip c l)) c) ++ [c]);
      [|by rewrite IH]. rewrite <- (assoc_L (++)). f_equal.
    assert (length (rstrip c l) <= length l)%nat.
    { rewrite <- IH at 2. rewrite length_app. lia. }
    replace (length l + 1 - length (rstrip c l))%nat
      with (length l - length (rstrip c l) + 1)%nat by lia.
    by rewrite replicate_add.
  - rewrite rstrip_snoc_other by done. by rewrite Nat.sub_diag, app_nil_r.
Qed.

Lemma rstrip_cons_other (c x : char) (l : list char) : x <> c -> rstrip c (x :: l) = x :: rstrip c l.
Proof. intros Hx. simpl. destruct (rstrip c l); [by rewrite decide_False|done]. Qed.

Lemma rstrip_prefix (c : char) (l : list char) : take (length (rstrip c l)) l = rstrip c l.
Proof. rewrite <- (rstrip_pad c l) at 2. by rewrite take_app_length. Qed.

Lemma length_rstrip (c : char) (l : list char) : (length (rstrip c l) <= length l)%nat.
Proof. rewrite <- (rstrip_prefix c l), length_take. lia. Qed.

Lemma strip_zeros_spec (pre seg post : list char) :
  strip_zeros (pre ++ seg ++ post) (length pre) (length pre + length seg)
  = Some (length pre + length (rstrip "0"%char seg))%nat.
Proof.
  revert post. induction seg as [|x seg IH] using rev_ind; intros post.
  - simpl. rewrite Nat.add_0_r. destruct (length pre) eqn:E; simpl; [done|].
    by rewrite Nat.ltb_irrefl.
  - rewrite length_app. simpl.
    replace (length pre + (length seg + 1))%nat with (S (length pre + length seg)) by lia. simpl.
    rewrite (proj2 (Nat.ltb_lt _ _)) by lia.
    rewrite <- (assoc_L (++)), (assoc_L (++) pre seg), lookup_app_r by (rewrite length_app; lia).
    rewrite length_app, Nat.sub_diag. simpl. case_decide as Hx.
    + subst x. rewrite rstrip_snoc_same. rewrite <- (assoc_L (++)). apply IH.
    + rewrite rstrip_snoc_other by done. rewrite length_app. simpl. f_equal. lia.
Qed.

Lemma format_int_part_spec (v : Z) (b0 : list char) (base n : nat) :
  is_ndig v n -> (n <= 20)%nat -> (base + n <= length b0)%nat ->
  format_int_part v b0 (base + n) = Some (take base b0 ++ dec_pad n v ++ drop (base + n) b0).
Proof.
  intros Hd Hn Hb. unfold format_int_part. set (len := (base + n)%nat).
  pose proof (emitted_start v b0 (drop len b0) len base n Hd eq_refl) as I0.
  assert (filled v b0 (drop len b0) len 0 = b0) as F.
  { unfold filled. rewrite Nat.sub_0_r. apply take_drop. }
  rewrite F in I0.
  apply (loop2_spec _ b0 _ len ltac:(lia) loop_fuel) in I0 as (s2 & k2 & n2 & -> & I2 & ?);
    [|unfold loop_fuel; lia..].
  cbn [mbind option_bind].
  rewrite (last_digits_spec _ b0 _ len ltac:(lia) _ _ _ _ I2) by done.
  unfold filled. subst len.
  replace (base + n - base)%nat with n by lia. by replace (base + n - n)%nat with base by lia.
Qed.

(** Six digits behind the point are three pairs. *)
Lemma write_six (pre post : list char) (fd : Z) (x : list char) :
  (length x = 6)%nat ->
  (b1 ← write2 (pre ++ x ++ post) (length pre + 4) (fd mod 100);
   b2 ← write2 b1 (length pre + 2) (fd / 100 mod 100);
   write2 b2 (length pre) (fd / 100 / 100 mod 100))
  = Some (pre ++ dec_pad 6 fd ++ post).
Proof.
  intros Hx. do 7 (destruct x as [|? x]; simpl in Hx; try lia). clear Hx.
  pose proof (memcpy_at_spec (pre ++ [a; a0; a1; a2]) [a3; a4] post (dec_pad 2 fd) eq_refl) as M1.
  pose proof (memcpy_at_spec (pre ++ [a; a0]) [a1; a2] (dec_pad 2 fd ++ post)
    (dec_pad 2 (fd / 100)) eq_refl) as M2.
  pose proof (memcpy_at_spec pre [a; a0] (dec_pad 2 (fd / 100) ++ dec_pad 2 fd ++ post)
    (dec_pad 2 (fd / 100 / 100)) eq_refl) as M3.
  rewrite <- !(assoc_L (++)), length_app in M1, M2. cbn [length] in M1, M2.
  rewrite write2_eq, dec_pad_mod100 by lia. simpl app in *. rewrite M1. cbn [mbind option_bind].
  rewrite write2_eq, dec_pad_mod100 by lia. rewrite M2. cbn [mbind option_bind].
  rewrite write2_eq, dec_pad_mod100 by lia. rewrite M3. f_equal. f_equal.
  cbn [dec_pad app]. by rewrite !Z.div_div by lia.
Qed.

Lemma dec_pad_no_dot (k : nat) (v : Z) : Forall (fun c => c <> "."%char) (dec_pad k v).
Proof.
  revert v. induction k as [|k IH]; intros v; simpl; [constructor|].
  apply Forall_app. split; [apply IH|]. constructor; [|constructor].
  intros E%(f_equal uchar). rewrite uchar_digit in E by lia.
  change (uchar "."%char) with 46%Z in E. lia.
Qed.

(** What is printed of the fraction, given whether six digits have room. *)
Definition frac_text (frac : double) (room : bool) : list char :=
  if dlt d_1em9 frac && room then point_digits (dec_pad 6 (frac_digits frac)) else [].

Lemma length_frac_text (frac : double) (room : bool) :
  (length (frac_text frac room) <= if room then 7 else 0)%nat.
Proof.
  unfold frac_text, point_digits. destruct room; rewrite ?andb_false_r; [|done].
  pose proof (length_rstrip "0"%char (dec_pad 6 (frac_digits frac))) as L.
  rewrite length_dec_pad in L. destruct (dlt _ _); cbn [andb]; [|cbn; lia].
  destruct (rstrip _ _); cbn [length] in *; lia.
Qed.

Lemma format_frac_part_spec (frac : double) (pre rest : list char) (buf_size : Z) :
  (buf_size <= Z.of_nat (length (pre ++ rest)))%Z ->
  let out := frac_text frac (Z.of_nat (length pre) + 8 <? buf_size)%Z in
  exists rest',
    format_frac_part frac (pre ++ rest) (length pre) buf_size (length pre)
    = Some (pre ++ out ++ rest', (length pre + length out)%nat)
    /\ length (out ++ rest') = length rest.
Proof.
  intros Hb out. unfold format_frac_part, frac_text in *.
  destruct (dlt d_1em9 frac && (Z.of_nat (length pre) + 8 <? buf_size)%Z) eqn:E; cbn zeta iota.
  2:{ exists rest. subst out. cbn [app length]. rewrite Nat.add_0_r. split; reflexivity. }
  apply andb_true_iff in E as [_ E]. bool_to_prop. rewrite length_app in Hb.
  destruct rest as [|r0 rest]; simpl in Hb; [lia|].
  rewrite put_Some by (rewrite length_app; simpl; lia). cbn [mbind option_bind].
  rewrite insert_app_r_alt, Nat.sub_diag by lia. simpl insert.
  rewrite <- (take_drop 6 rest).
  pose proof (write_six (pre ++ ["."%char]) (drop 6 rest) (frac_digits frac) (take 6 rest)) as W.
  rewrite length_app in W. simpl length in W.
  replace (length pre + 1)%nat with (S (length pre)) in W by lia.
  set (ds := dec_pad 6 (frac_digits frac)) in *.
  assert (length ds = 6)%nat as Hds by apply length_dec_pad.
  pose proof (dec_pad_no_dot 6 (frac_digits frac) : Forall _ ds) as Hdot. clearbody ds.
  rewrite <- !(assoc_L (++)) in W. simpl app in W.
  specialize (W ltac:(rewrite length_take; lia)).
  destruct (write2 _ (S (length pre) + 4) _) as [b1|]; [|done]. cbn [mbind option_bind] in *.
  destruct (write2 b1 _ _) as [b2|]; [|done]. cbn [mbind option_bind] in *.
  rewrite W. clear W. cbn [mbind option_bind].
  pose proof (strip_zeros_spec pre ("."%char :: ds) (drop 6 rest)) as Z.
  change (length ("."%char :: ds)) with (S (length ds)) in Z. rewrite Hds in Z.
  replace (S (length pre) + 6)%nat with (length pre + 7)%nat by lia.
  change (("."%char :: ds) ++ drop 6 rest) with ("."%char :: ds ++ drop 6 rest) in Z.
  rewrite Z. clear Z. cbn [mbind option_bind].
  rewrite rstrip_cons_other by discriminate. simpl length.
  rewrite (proj2 (Nat.ltb_lt _ _)) by lia.
  pose proof (length_rstrip "0"%char ds) as Hr.
  replace (length pre + S (length (rstrip "0"%char ds)) - 1)%nat
    with (length pre + length (rstrip "0"%char ds))%nat by lia.
  rewrite lookup_app_r by lia. rewrite Nat.add_sub'.
  subst out. unfold point_digits in *.
  pose proof (rstrip_prefix "0"%char ds) as P.
  destruct (rstrip "0"%char ds) as [|r rs] eqn:ER.
  - exists ("."%char :: ds ++ drop 6 rest). simpl. rewrite Nat.add_0_r. split; [done|].
    f_equal. rewrite length_app, length_drop, length_app, length_take, length_drop. lia.
  - simpl in Hr. destruct (lookup_lt_is_Some_2 ds (length rs)) as [c Hc]; [lia|].
    pose proof (Forall_lookup_1 _ _ _ _ Hdot Hc) as Hn.
    change (("."%char :: ds ++ drop 6 rest) !! length (r :: rs))
      with ((ds ++ drop 6 rest) !! length rs).
    rewrite lookup_app_l, Hc by lia. cbn [mbind option_bind].
    rewrite decide_False by done.
    exists (drop (S (length rs)) ds ++ drop 6 rest). split.
    + f_equal. f_equal. f_equal. simpl. f_equal. rewrite (assoc_L (++)). f_equal.
      rewrite <- (take_drop (S (length rs)) ds) at 1. simpl length in P. by rewrite P.
    + simpl. f_equal. rewrite !length_app, !length_drop, length_take. lia.
Qed.

(** What the fixed-notation branch prints, given the room of the buffer. *)
Definition sign_text (val : double) : list char := if signbit val then ["-"%char] else [].
Definition magnitude (val : double) : double := if signbit val then SFopp val else val.
Definition int_of (val : double) : Z := uwrap 64 (dtrunc (magnitude val)).
Definition int_text (val : double) : list char :=
  sign_text val ++ dec_pad (count_digits_u64 (int_of val)) (int_of val).
Definition frac_of (val : double) : double := dsub (magnitude val) (d_of_Z (int_of val)).
Definition fixed_text (val : double) (buf_size : Z) : list char :=
  int_text val ++ frac_text (frac_of val) (Z.of_nat (length (int_text val)) + 8 <? buf_size)%Z.

(** The values printed in fixed notation. *)
Definition fixed_range (val : double) : bool :=
  negb (isnan val || isinf val) && negb (dlt d_1e15 val || dlt val (SFopp d_1e15)).

Lemma int_of_range (val : double) : (0 <= int_of val < 2 ^ 64)%Z.
Proof. by apply uwrap_range. Qed.

Lemma count_digits_u64_le (v : Z) : (1 <= count_digits_u64 v <= 20)%nat.
Proof. unfold count_digits_u64, count_digits_u32; case_ifs; lia. Qed.

Lemma length_int_text (val : double) :
  length (int_text val) = (count_digits_u64 (int_of val) + if signbit val then 1 else 0)%nat.
Proof.
  unfold int_text, sign_text. rewrite length_app, length_dec_pad. destruct (signbit val); simpl; lia.
Qed.

(** The first character is a minus sign only in front of digits. *)
Lemma int_text_one (val : double) (rest : list char) :
  length (int_text val) = 1%nat -> exists c, (int_text val ++ rest) !! 0%nat = Some c /\ c <> "-"%char.
Proof.
  rewrite length_int_text. pose proof (count_digits_u64_le (int_of val)).
  unfold int_text, sign_text. destruct (signbit val); [lia|]. intros _.
  destruct (dec_pad_head (int_of val) (count_digits_u64 (int_of val))) as (d & s & -> & Hd); [lia|].
  exists (digit d). split; [done|]. intros E%(f_equal uchar).
  rewrite uchar_digit in E by lia. change (uchar "-"%char) with 45%Z in E. lia.
Qed.

Lemma write_int_text (val : double) (b0 : list char) :
  (length (int_text val) <= length b0)%nat ->
  (b1 ← format_int_part (int_of val) b0 (length (int_text val));
   if signbit val then put b1 0 "-"%char else Some b1)
  = Some (int_text val ++ drop (length (int_text val)) b0).
Proof.
  intros Hl. pose proof (count_digits_u64_le (int_of val)).
  pose proof (format_int_part_spec (int_of val) b0 (if signbit val then 1 else 0)
    (count_digits_u64 (int_of val)) (count_digits_u64_spec _ (int_of_range val)) ltac:(lia)) as F.
  rewrite (Nat.add_comm _ (count_digits_u64 (int_of val))) in F.
  rewrite length_int_text in Hl |- *. rewrite F by lia. cbn [mbind option_bind].
  unfold int_text, sign_text. destruct (signbit val); [|done].
  destruct b0 as [|x b0]; simpl in Hl; [lia|]. by rewrite put_Some by (simpl; lia).
Qed.

(** The whole routine on the fixed-notation range. *)
Lemma fast_dtoa_fixed (val : double) (b0 : list char) (buf_size : Z) :
  fixed_range val = true -> (2 <= buf_size <= Z.of_nat (length b0))%Z ->
  let out := fixed_text val buf_size in
  if (Z.of_nat (length (int_text val)) <? buf_size)%Z then
    exists rest,
      fast_dtoa val (Some b0) buf_size = Some (Some (out ++ NUL :: rest), Z.of_nat (length out))
      /\ length (out ++ NUL :: rest) = length b0 /\ (Z.of_nat (length out) < buf_size)%Z
  else fast_dtoa val (Some b0) buf_size = Some (Some b0, 0%Z).
Proof.
  intros [Hf Hr]%andb_true_iff Hb out. apply negb_true_iff in Hf, Hr.
  unfold fast_dtoa. rewrite (proj2 (Z.ltb_ge buf_size 2)), Hf, Hr by lia.
  fold (magnitude val). fold (int_of val). fold (frac_of val). cbn zeta.
  rewrite <- length_int_text.
  destruct (Z.of_nat (length (int_text val)) <? buf_size)%Z eqn:E; bool_to_prop.
  2:{ by rewrite (proj2 (Z.ltb_lt _ _)) by lia. }
  rewrite (proj2 (Z.ltb_ge _ _)) by lia.
  pose proof (write_int_text val b0 ltac:(lia)) as W.
  destruct (format_int_part _ _ _) as [b1|]; [|done]. cbn [mbind option_bind] in W |- *.
  rewrite W. cbn [mbind option_bind]. clear W b1.
  destruct (format_frac_part_spec (frac_of val) (int_text val) (drop (length (int_text val)) b0)
    buf_size) as (rest & -> & Hl); [rewrite length_app, length_drop; lia|].
  cbn [mbind option_bind]. rewrite <- length_app, (assoc_L (++)).
  change (int_text val ++ frac_text _ _) with out.
  assert (Z.of_nat (length out) < buf_size)%Z as Ho.
  { subst out. unfold fixed_text. rewrite length_app.
    pose proof (length_frac_text (frac_of val) (Z.of_nat (length (int_text val)) + 8 <? buf_size)%Z).
    destruct (Z.of_nat (length (int_text val)) + 8 <? buf_size)%Z eqn:E8; bool_to_prop; lia. }
  assert (length (out ++ rest) = length b0) as Hol.
  { subst out. unfold fixed_text. rewrite <- (assoc_L (++)), length_app, Hl, length_drop. lia. }
  replace (if (length out =? 1)%nat then _ else _) with (Some (out ++ rest)).
  2:{ destruct (length out =? 1)%nat eqn:E1; [|done]. bool_to_prop. subst out.
      unfold fixed_text in *. rewrite <- (assoc_L (++)).
      destruct (int_text_one val (frac_text (frac_of val)
        (Z.of_nat (length (int_text val)) + 8 <? buf_size)%Z ++ rest)) as (c & -> & Hc).
      - rewrite length_app in E1. rewrite length_int_text in *.
        pose proof (count_digits_u64_le (int_of val)). destruct (signbit val); lia.
      - cbn [mbind option_bind]. by rewrite decide_False. }
  cbn [mbind option_bind]. rewrite length_app in Hol.
  destruct rest as [|r rest]; simpl in Hol; [lia|].
  rewrite put_Some by (rewrite length_app; simpl; lia). cbn [mbind option_bind].
  rewrite insert_app_r_alt, Nat.sub_diag by lia. simpl insert.
  exists rest. split; [done|]. split; [|done]. rewrite length_app. simpl. lia.
Qed.

(** ** Reading the text back *)

Lemma dec_pad_mod (k : nat) (v : Z) : dec_pad k (v mod 10 ^ Z.of_nat k) = dec_pad k v.
Proof.
  revert v. induction k as [|k IH]; intros v; [done|]. cbn [dec_pad]. pose proof (pow10_pos k).
  rewrite <- (IH (v / 10)%Z), pow10_S, Z.rem_mul_r by lia.
  rewrite (Z.mul_comm 10), Z.add_comm, Z.div_add_l by lia.
  rewrite (Z.div_small (v mod 10)), Z.add_0_r by (apply Z.mod_pos_bound; lia). f_equal.
  by rewrite Z.add_comm, Z_mod_plus_full, Zmod_mod.
Qed.

Lemma no_dot_notin (s : list char) : Forall (fun c => c <> "."%char) s -> "."%char ∉ s.
Proof. intros H [i Hi]%list_elem_of_lookup. by apply (Forall_lookup_1 _ _ _ _ H Hi). Qed.

Lemma read_micro_point (n : nat) (v fd : Z) :
  (0 <= v < 10 ^ Z.of_nat n)%Z ->
  read_micro (dec_pad n v ++ point_digits (dec_pad 6 fd)) = Some (v * 1000000 + fd mod 1000000)%Z.
Proof.
  intros Hv. unfold read_micro, point_digits.
  pose proof (no_dot_notin _ (dec_pad_no_dot n v)) as Hn.
  pose proof (rstrip_pad "0"%char (dec_pad 6 fd)) as P. rewrite length_dec_pad in P.
  assert (read_dec 0 (dec_pad 6 fd) = Some (fd mod 1000000)%Z) as R.
  { rewrite <- dec_pad_mod. apply read_dec_pad. apply Z.mod_pos_bound. lia. }
  destruct (rstrip _ _) as [|r rs].
  - rewrite app_nil_r. rewrite (proj2 (strchr_None _ _)) by done.
    rewrite read_dec_pad by done. cbn [mbind option_bind]. f_equal.
    cbn [app] in P. rewrite <- P in R. vm_compute (read_dec _ _) in R. simplify_eq. lia.
  - rewrite strchr_app by done. rewrite read_dec_pad by done. cbn [mbind option_bind].
    rewrite P, R. done.
Qed.

Lemma point_digits_no_nul (ds : list char) : no_nul ds -> no_nul (point_digits ds).
Proof.
  intros H. unfold point_digits. pose proof (rstrip_prefix "0"%char ds) as P.
  destruct (rstrip "0"%char ds) as [|r rs]; [constructor|]. constructor; [discriminate|].
  rewrite <- P. by apply no_nul_take.
Qed.

Lemma read_micro_int (n : nat) (v : Z) :
  (0 <= v < 10 ^ Z.of_nat n)%Z -> read_micro (dec_pad n v) = Some (v * 1000000)%Z.
Proof.
  intros Hv. unfold read_micro.
  rewrite (proj2 (strchr_None _ _)) by apply no_dot_notin, dec_pad_no_dot.
  by rewrite read_dec_pad.
Qed.

Lemma digits2_pos_bound (m : positive) : (Z.pos m < 2 ^ Z.pos (digits2_pos m))%Z.
Proof.
  induction m as [m IH|m IH|]; cbn [digits2_pos]; [..|done];
    rewrite Pos2Z.inj_succ, Z.pow_succ_r by lia; lia.
Qed.

Lemma d_1e15_eq : d_1e15 = S754_finite false 8000000000000000 (-3).
Proof. vm_compute. reflexivity. Qed.

(** A canonical double in the fixed range is at most 10^15. *)
Lemma finite_le_1e15 (s : bool) (m : positive) (e : Z) :
  bounded 53 1024 m e = true -> dlt d_1e15 (S754_finite false m e) = false ->
  (dtrunc (S754_finite s m e) <= 10 ^ 15)%Z.
Proof.
  intros [Hc _]%andb_true_iff Hl. apply Z.eqb_eq in Hc. unfold fexp, emin in Hc.
  pose proof (digits2_pos_bound m) as Hm. unfold dtrunc.
  assert (e < -3 \/ (e = -3 /\ Z.pos m <= 8 * 10 ^ 15))%Z as He.
  { revert Hl. rewrite d_1e15_eq.
    unfold dlt, SFltb, SFcompare. destruct (Z.compare_spec (-3) e); [|discriminate|left; lia].
    remember 8000000000000000%positive as K eqn:HK.
    change (PosDef.Pos.compare_cont Eq K m) with (K ?= m)%positive.
    destruct (Pos.compare_spec K m) as [Hp|Hp|Hp]; [| |intros _; right; lia].
    - intros _. right. lia.
    - discriminate. }
  destruct (Z.leb_spec 0 e); [lia|].
  assert (Z.pos m < 2 ^ 53)%Z.
  { eapply Z.lt_le_trans; [exact Hm|]. apply Z.pow_le_mono_r; lia. }
  destruct He as [He|[-> He]].
  - apply Z.le_trans with (Z.pos m / 2 ^ 4)%Z; [|lia].
    apply Z.div_le_compat_l; [lia|]. split; [lia|]. apply Z.pow_le_mono_r; lia.
  - change (2 ^ (- -3))%Z with 8%Z. lia.
Qed.

Lemma dlt_opp (x y : double) : dlt (SFopp x) (SFopp y) = dlt y x.
Proof.
  unfold dlt, SFltb.
  destruct x as [[]|[]| |[] m e], y as [[]|[]| |[] m' e']; simpl; try done;
    rewrite (Z.compare_antisym e e'); destruct (e ?= e')%Z; simpl; try done;
    change (PosDef.Pos.compare_cont Eq) with Pos.compare;
    rewrite (Pos.compare_antisym m m'); by destruct (m ?= m')%positive.
Qed.

(** A value in the fixed range has its integer part far below the end of [uint64_t]. *)
Lemma fixed_range_trunc (val : double) :
  valid_binary 53 1024 val = true -> fixed_range val = true ->
  (0 <= dtrunc (magnitude val) <= 10 ^ 15)%Z.
Proof.
  intros Hv [Hf Hr]%andb_true_iff. apply negb_true_iff in Hr. apply orb_false_iff in Hr as [H1 H2].
  unfold magnitude. destruct val as [[]|[]| |s m e]; try (simpl; lia); [done..|].
  assert (dlt d_1e15 (S754_finite false m e) = false) as Hl.
  { destruct s; [|exact H1]. rewrite <- dlt_opp. exact H2. }
  pose proof (finite_le_1e15 false m e Hv Hl) as Hu.
  assert (0 <= dtrunc (S754_finite false m e))%Z as H0.
  { simpl. destruct (Z.leb_spec 0 e); [lia|]. apply Z.div_pos; [lia|]. apply Z.pow_pos_nonneg; lia. }
  destruct s; exact (conj H0 Hu).
Qed.

(** ** The properties *)

(** [fast_dtoa] is total and memory safe on every double. For any value (NaN, the
    infinities, subnormals and the largest magnitudes included) and any buffer
    of at least the [buf_size] bytes it is told, no byte outside the buffer is
    read or written, the buffer keeps its length, and the returned count is
    below [buf_size], so that the caller may index the buffer with it. *)
Lemma fast_dtoa_safe (val : double) (b0 : list char) (buf_size : Z) :
  (buf_size <= Z.of_nat (length b0))%Z ->
  exists b n, fast_dtoa val (Some b0) buf_size = Some (Some b, n)
    /\ length b = length b0 /\ (0 <= n)%Z /\ (n = 0 \/ n < buf_size)%Z.
Proof.
  intros Hb. destruct (Z.ltb_spec buf_size 2) as [H2|H2].
  { exists b0, 0%Z. unfold fast_dtoa. rewrite (proj2 (Z.ltb_lt buf_size 2)) by lia. split; [done|]. split; [done|]. lia. }
  destruct (fixed_range val) eqn:F.
  - pose proof (fast_dtoa_fixed val b0 buf_size F ltac:(lia)) as S. cbv zeta in S.
    destruct (Z.of_nat (length (int_text val)) <? buf_size)%Z.
    + destruct S as (rest & -> & ? & ?). eexists _, _. split; [done|]. split; [done|]. lia.
    + rewrite S. eexists _, _. split; [done|]. split; [done|]. lia.
  - unfold fast_dtoa. rewrite (proj2 (Z.ltb_ge buf_size 2)) by lia.
    unfold fixed_range in F. destruct (isnan val || isinf val).
    + rewrite put_Some by lia. cbn [mbind option_bind].
      rewrite put_Some by (rewrite length_insert; lia). cbn [mbind option_bind].
      eexists _, _. split; [done|]. rewrite !length_insert. lia.
    + destruct (dlt d_1e15 val || dlt val (SFopp d_1e15)); [|done].
      destruct (memcpy_at _ _ _) as [b1|] eqn:M.
      * apply length_memcpy_at in M. cbn [mbind option_bind]. eexists _, _. split; [done|].
        split; [done|]. case_ifs; bool_to_prop; lia.
      * unfold memcpy_at, snprintf in M. case_decide as D; [done|].
        rewrite length_app, length_take in D. cbn [length] in D. lia.
Qed.

(** [fast_dtoa] prints the value in fixed notation. For every double of
    magnitude at most 1e15 and the 64-byte buffer of the row printer, the
    buffer holds a terminated string: a minus sign exactly when the sign bit is
    set, then a decimal which read back in millionths is the integer part times
    10^6 plus the six fraction digits the code computed, taken modulo 10^6
    (none at all when the fraction is at most 1e-9); the returned count is the
    length of the string. *)
Lemma fast_dtoa_reads_back (val : double) (b0 : list char) :
  valid_binary 53 1024 val = true -> fixed_range val = true -> length b0 = 64%nat ->
  exists text rest,
    fast_dtoa val (Some b0) 64
      = Some (Some (sign_text val ++ text ++ NUL :: rest),
              Z.of_nat (length (sign_text val ++ text)))
    /\ no_nul text
    /\ read_micro text
       = Some (dtrunc (magnitude val) * 1000000
               + if dlt d_1em9 (frac_of val) then frac_digits (frac_of val) mod 1000000 else 0)%Z.
Proof.
  intros Hv F Hl. pose proof (fast_dtoa_fixed val b0 64 F ltac:(lia)) as S. cbv zeta in S.
  pose proof (fixed_range_trunc val Hv F) as Ht.
  assert (int_of val = dtrunc (magnitude val)) as Hi by (apply uwrap_small; lia).
  pose proof (count_digits_u64_le (int_of val)) as Hc.
  pose proof (length_int_text val) as Hlen.
  rewrite (proj2 (Z.ltb_lt _ _)) in S by (destruct (signbit val); lia).
  destruct S as (rest & -> & _ & _).
  unfold fixed_text. rewrite (proj2 (Z.ltb_lt _ 64)) by (destruct (signbit val); lia).
  unfold int_text, frac_text. rewrite andb_true_r, <- !(assoc_L (++)).
  pose proof (count_digits_u64_spec _ (int_of_range val)) as (_ & Hr & _).
  set (ft := if dlt d_1em9 (frac_of val) then _ else _).
  exists (dec_pad (count_digits_u64 (int_of val)) (int_of val) ++ ft), rest.
  split; [rewrite <- !(assoc_L (++)); reflexivity|]. subst ft. rewrite <- Hi.
  destruct (dlt d_1em9 (frac_of val)).
  - split; [|by apply read_micro_point]. apply no_nul_app. split; [apply dec_pad_no_nul|].
    apply point_digits_no_nul, dec_pad_no_nul.
  - rewrite app_nil_r, Z.add_0_r. split; [apply dec_pad_no_nul|by apply read_micro_int].
Qed.

(** The carry of the rounding is lost. Whenever the six fraction digits
    round up to 1000000 (as they do for 0.9999999), nothing
    but the integer part is printed instead of the next integer: 0.9999999 is
    printed as 0. *)
Lemma fast_dtoa_carry_lost (val : double) (b0 : list char) :
  fixed_range val = true -> length b0 = 64%nat -> frac_digits (frac_of val) = 1000000%Z ->
  exists rest,
    fast_dtoa val (Some b0) 64
    = Some (Some (int_text val ++ NUL :: rest), Z.of_nat (length (int_text val))).
Proof.
  intros F Hl Hd. pose proof (fast_dtoa_fixed val b0 64 F ltac:(lia)) as S. cbv zeta in S.
  pose proof (length_int_text val) as Hlen. pose proof (count_digits_u64_le (int_of val)).
  rewrite (proj2 (Z.ltb_lt _ _)) in S by (destruct (signbit val); lia).
  destruct S as (rest & -> & _ & _). exists rest.
  unfold fixed_text, frac_text. rewrite Hd.
  change (point_digits (dec_pad 6 1000000)) with (@nil char).
  by destruct (_ && _); rewrite app_nil_r.
Qed.

End Dtoa.
