(* ===== verification/JsonC.v ===== *)
(** * The json-c library: the interface the server relies on

    json-c is not part of the repository: its object type and accessors are
    the operations of the class [JsonC], and the class [JsonCLaws] states the
    documented behaviour the proofs use.  A [json_object *] is an [option], with
    [None] for the null pointer, which json-c also uses for the JSON null.
    [Model] is a concrete instance, a tree of JSON values, on which the
    theorems are applied. *)

From S2P Require Import Prelude JsonUtil Dtoa.
From Stdlib Require Import SpecFloat.
Import Encode Itoa.

(** [enum json_type] *)
Inductive json_type :=
  | json_type_null | json_type_boolean | json_type_double | json_type_int
  | json_type_object | json_type_array | json_type_string.

#[export] Instance json_type_eq_dec : EqDecision json_type.
Proof. solve_decision. Defined.

(** ** Flat objects

    The texts the server writes for itself and reads back are objects whose
    members are strings and integers, without white space. *)

(** [%ld], [%lld] and [%zu] *)
Definition dec_text (z : Z) : cstr := print_int z (count_digits_u64 (Z.abs z)).

Lemma length_dec_text (z : Z) : (length (dec_text z) <= 21)%nat.
Proof.
  unfold dec_text. rewrite length_print_int. pose proof (Dtoa.count_digits_u64_le (Z.abs z)).
  destruct (z <? 0)%Z; lia.
Qed.

Inductive flat := FString (raw : cstr) (decoded : cstr) | FInt (z : Z).

Definition quoted (s : cstr) : cstr := DQUOTE :: s ++ [DQUOTE].

Definition flat_value (v : flat) : cstr :=
  match v with FString raw _ => quoted raw | FInt z => dec_text z end.

Fixpoint flat_members (l : list (cstr * flat)) : cstr :=
  match l with
  | [] => []
  | [(k, v)] => quoted k ++ [":"%char] ++ flat_value v
  | (k, v) :: l' => quoted k ++ [":"%char] ++ flat_value v ++ [","%char] ++ flat_members l'
  end.

Definition flat_text (l : list (cstr * flat)) : cstr :=
  ["{"%char] ++ flat_members l ++ ["}"%char].

(** The literals of such a text: its keys stand for themselves, its strings
    denote the decoded text, its integers are 64-bit values. *)
Definition scans (raw decoded : cstr) : Prop :=
  forall rest, json_scan (raw ++ DQUOTE :: rest) = Some (decoded, rest).

(** A string that its JSON encoding leaves alone. *)
Definition plain (s : cstr) : Prop := Forall (fun c => c <> NUL /\ escape_char c = [c]) s.

Lemma plain_escape (s : cstr) : plain s -> s ≫= escape_char = s.
Proof. induction 1 as [|c s [_ Hc] _ IH]; [done|]. by rewrite bind_cons, Hc, IH. Qed.

Lemma plain_no_nul (s : cstr) : plain s -> no_nul s.
Proof. apply Forall_impl. by intros c [? _]. Qed.

Lemma scans_escape (s : cstr) : scans (s ≫= escape_char) s.
Proof. intros rest. apply json_scan_escapes. Qed.

Lemma scans_plain (s : cstr) : plain s -> scans s s.
Proof. intros H. rewrite <- (plain_escape s H) at 1. apply scans_escape. Qed.

Lemma escapes_no_nul (s : cstr) : no_nul s -> no_nul (s ≫= escape_char).
Proof.
  induction 1 as [|c s Hc _ IH]; [constructor|]. rewrite bind_cons.
  apply no_nul_app. split; [by apply escape_char_no_nul|done].
Qed.

Definition flat_wf (l : list (cstr * flat)) : Prop :=
  NoDup l.*1
  /\ Forall (fun kv => scans kv.1 kv.1
       /\ match kv.2 with
          | FString raw decoded => scans raw decoded /\ no_nul decoded
              /\ (Z.of_nat (length decoded) <= 2 ^ 31 - 1)%Z
          | FInt z => (- 2 ^ 63 <= z < 2 ^ 63)%Z
          end) l.

(** The accessors the server calls.  [json_object_object_get_ex] returns
    [Some v] when it reports the key and has stored [v]. *)
Class JsonC := {
  jobj : Type;
  json_object_get_type : option jobj -> json_type;
  json_object_object_get_ex : option jobj -> cstr -> option (option jobj);
  json_object_get_string : option jobj -> option cstr;
  json_object_get_string_len : option jobj -> Z;
  json_object_get_int : option jobj -> Z;
  json_object_get_int64 : option jobj -> Z;
  json_object_get_double : option jobj -> spec_float;
  json_object_array_length : option jobj -> Z;
  json_object_object_length : option jobj -> Z;
  (** [json_tokener_parse]; [None] is the null pointer *)
  json_tokener_parse : cstr -> option jobj;
}.

Definition json_object_is_type `{JsonC} (o : option jobj) (t : json_type) : bool :=
  bool_decide (json_object_get_type o = t).

Definition INT_MAX : Z := 2 ^ 31 - 1.
Definition INT_MIN : Z := - 2 ^ 31.

(** The nearest [int]. *)
Definition clamp_int (z : Z) : Z := Z.max INT_MIN (Z.min INT_MAX z).

Class JsonCLaws (J : JsonC) : Prop := {
  (** The text of a string object is a C string no longer than its length. *)
  string_text (o : option jobj) :
    json_object_get_type o = json_type_string ->
    exists s, json_object_get_string o = Some s /\ no_nul s
      /\ (Z.of_nat (length s) <= json_object_get_string_len o <= INT_MAX)%Z;
  (** The 32-bit accessor saturates. *)
  int_saturates (o : option jobj) :
    json_object_get_type o = json_type_int ->
    json_object_get_int o = clamp_int (json_object_get_int64 o);
  (** The null pointer is the JSON null. *)
  null_type : json_object_get_type None = json_type_null;
  (** The text of a flat object parses to an object with its members. *)
  parse_flat (l : list (cstr * flat)) :
    flat_wf l ->
    exists o, json_tokener_parse (flat_text l) = Some o
      /\ json_object_get_type (Some o) = json_type_object
      /\ forall k v, (k, v) ∈ l ->
         exists x, json_object_object_get_ex (Some o) k = Some (Some x)
           /\ match v with
              | FString _ decoded => json_object_get_type (Some x) = json_type_string
                  /\ json_object_get_string (Some x) = Some decoded
              | FInt z => json_object_get_type (Some x) = json_type_int
                  /\ json_object_get_int64 (Some x) = z
              end;
}.

(** ** A concrete instance *)

Module Model.

#[warnings="-register-all"]
Inductive json :=
  | JNull
  | JBool (b : bool)
  | JInt (z : Z)
  | JDouble (d : spec_float)
  | JString (s : list char)
  | JArray (l : list json)
  | JObject (l : list (cstr * json)).

Definition type_of (o : option json) : json_type :=
  match o with
  | None | Some JNull => json_type_null
  | Some (JBool _) => json_type_boolean
  | Some (JInt _) => json_type_int
  | Some (JDouble _) => json_type_double
  | Some (JString _) => json_type_string
  | Some (JArray _) => json_type_array
  | Some (JObject _) => json_type_object
  end.

(** The pointer json-c hands out for a value. *)
Definition ptr_of (v : json) : option json := match v with JNull => None | _ => Some v end.

Fixpoint find (k : cstr) (l : list (cstr * json)) : option (option json) :=
  match l with
  | [] => None
  | (k', v) :: l' => if decide (k' = k) then Some (ptr_of v) else find k l'
  end.

(** json-c holds no string of more than [INT_MAX] bytes. *)
Definition text (s : list char) : list char :=
  if (Z.of_nat (length s) <=? INT_MAX)%Z then s else [].

(** A parser of flat objects. *)
Definition int_char (c : char) : bool := isdigit c || bool_decide (c = "-"%char).

Fixpoint span_int (s : cstr) : cstr * cstr :=
  match s with
  | [] => ([], [])
  | c :: s' =>
      if int_char c then let '(a, b) := span_int s' in (c :: a, b) else ([], s)
  end.

Definition parse_value (s : cstr) : option (json * cstr) :=
  match s with
  | [] => None
  | c :: s' =>
      if decide (c = DQUOTE) then '(t, rest) ← json_scan s'; Some (JString t, rest)
      else let '(a, rest) := span_int s in z ← read_int a; Some (JInt z, rest)
  end.

Definition parse_member (s : cstr) : option ((cstr * json) * cstr) :=
  match s with
  | [] => None
  | c :: s1 =>
      if decide (c = DQUOTE) then
        '(k, s2) ← json_scan s1;
        match s2 with
        | [] => None
        | d :: s3 =>
            if decide (d = ":"%char) then '(v, rest) ← parse_value s3; Some ((k, v), rest)
            else None
        end
      else None
  end.

Fixpoint parse_members (fuel : nat) (s : cstr) : option (list (cstr * json)) :=
  match fuel with
  | O => None
  | S fuel' =>
      '(m, rest) ← parse_member s;
      match rest with
      | [] => None
      | c :: rest' =>
          if decide (c = ","%char) then l ← parse_members fuel' rest'; Some (m :: l)
          else if decide (c = "}"%char) then
            match rest' with [] => Some [m] | _ => None end
          else None
      end
  end.

Definition parse (s : cstr) : option json :=
  match s with
  | [] => None
  | c :: s1 =>
      if decide (c = "{"%char) then
        match s1 with
        | [d] => if decide (d = "}"%char) then Some (JObject []) else None
        | _ => JObject <$> parse_members (length s) s1
        end
      else None
  end.

#[export] Instance model_json_c : JsonC := {
  jobj := json;
  json_object_get_type := type_of;
  json_object_object_get_ex o k :=
    match o with Some (JObject l) => find k l | _ => None end;
  json_object_get_string o :=
    match o with
    | None | Some JNull => None
    | Some (JString s) => Some (c_str (text s))
    | Some (JBool b) => Some (lit (if b then "true" else "false"))
    | Some _ => Some (lit "?")
    end;
  json_object_get_string_len o :=
    match o with Some (JString s) => Z.of_nat (length (text s)) | _ => 0%Z end;
  json_object_get_int o := match o with Some (JInt z) => clamp_int z | _ => 0%Z end;
  json_object_get_int64 o := match o with Some (JInt z) => z | _ => 0%Z end;
  json_object_get_double o :=
    match o with
    | Some (JInt z) => Dtoa.d_of_Z z
    | Some (JDouble d) => d
    | _ => S754_zero false
    end;
  json_object_array_length o :=
    match o with Some (JArray l) => Z.of_nat (length l) | _ => 0%Z end;
  json_object_object_length o :=
    match o with Some (JObject l) => Z.of_nat (length l) | _ => 0%Z end;
  json_tokener_parse := parse;
}.

Lemma length_c_str (s : list char) : (length (c_str s) <= length s)%nat.
Proof. induction s as [|c s IH]; simpl; [lia|]. case_decide; simpl; lia. Qed.

Lemma length_text (s : list char) : (Z.of_nat (length (text s)) <= INT_MAX)%Z.
Proof. unfold text. destruct (Z.leb_spec (Z.of_nat (length s)) INT_MAX); [done|]. simpl. unfold INT_MAX. lia. Qed.

Definition json_of (v : flat) : json :=
  match v with FString _ t => JString t | FInt z => JInt z end.

Lemma span_int_app (a b : cstr) (c : char) :
  Forall (fun x => int_char x = true) a -> int_char c = false ->
  span_int (a ++ c :: b) = (a, c :: b).
Proof.
  intros Ha Hc. induction Ha as [|x a Hx _ IH]; simpl; [by rewrite Hc|]. by rewrite Hx, IH.
Qed.

Lemma dec_pad_chars (k : nat) (v : Z) : Forall (fun x => int_char x = true) (dec_pad k v).
Proof.
  revert v. induction k as [|k IH]; intros v; [constructor|].
  cbn [dec_pad]. apply Forall_app. split; [apply IH|]. constructor; [|constructor].
  unfold int_char, isdigit. rewrite uchar_digit by lia.
  by replace ((48 <=? 48 + v mod 10) && (48 + v mod 10 <=? 57))%Z with true by lia.
Qed.

Lemma dec_text_chars (z : Z) : Forall (fun x => int_char x = true) (dec_text z).
Proof.
  unfold dec_text, print_int, sign_of. apply Forall_app. split; [|apply dec_pad_chars].
  by destruct (z <? 0)%Z; repeat constructor.
Qed.

Lemma dec_text_not_quote (z : Z) : exists c s, dec_text z = c :: s /\ c <> DQUOTE.
Proof.
  pose proof (dec_text_chars z) as H. destruct (dec_text z) as [|c s] eqn:E.
  - apply (f_equal length) in E. unfold dec_text in E. rewrite length_print_int in E.
    cbn [length] in E. unfold count_digits_u64, count_digits_u32 in E.
    revert E. case_ifs; lia.
  - exists c, s. split; [done|]. inversion H as [|? ? Hc]. by intros ->.
Qed.

Lemma read_dec_text (z : Z) : (- 2 ^ 63 <= z < 2 ^ 63)%Z -> read_int (dec_text z) = Some z.
Proof. intros Hz. apply read_int_signed, count_digits_u64_spec. lia. Qed.

Definition value_wf (v : flat) : Prop :=
  match v with
  | FString raw decoded => scans raw decoded
  | FInt z => (- 2 ^ 63 <= z < 2 ^ 63)%Z
  end.

Lemma parse_value_ok (v : flat) (c : char) (rest : cstr) :
  value_wf v -> int_char c = false ->
  parse_value (flat_value v ++ c :: rest) = Some (json_of v, c :: rest).
Proof.
  intros Hv Hc. destruct v as [raw t|z]; simpl in Hv |- *.
  - rewrite <- (assoc_L (++)). simpl. by rewrite Hv.
  - destruct (dec_text_not_quote z) as (x & s & E & Hx).
    pose proof (span_int_app (dec_text z) rest c (dec_text_chars z) Hc) as S.
    pose proof (read_dec_text z Hv) as R. rewrite E in *. simpl app in *.
    unfold parse_value. rewrite decide_False, S by done. by rewrite R.
Qed.

Lemma parse_member_ok (k : cstr) (v : flat) (c : char) (rest : cstr) :
  scans k k -> value_wf v -> int_char c = false ->
  parse_member (quoted k ++ [":"%char] ++ flat_value v ++ c :: rest)
  = Some ((k, json_of v), c :: rest).
Proof.
  intros Hk Hv Hc. unfold quoted. simpl. rewrite <- (assoc_L (++)). simpl.
  rewrite Hk. simpl. by rewrite parse_value_ok.
Qed.

Lemma parse_members_ok (l : list (cstr * flat)) (fuel : nat) :
  Forall (fun kv => scans kv.1 kv.1 /\ value_wf kv.2) l -> l <> [] -> (length l <= fuel)%nat ->
  parse_members fuel (flat_members l ++ ["}"%char]) = Some (prod_map id json_of <$> l).
Proof.
  intros H. revert fuel. induction H as [|[k v] l [Hk Hv] _ IH]; intros fuel Hne Hf; [done|].
  destruct fuel as [|fuel]; simpl in Hf; [lia|]. destruct l as [|kv' l].
  - cbn [flat_members parse_members]. rewrite <- !(assoc_L (++)).
    rewrite parse_member_ok by done. done.
  - cbn [flat_members parse_members]. destruct kv' as [k' v'].
    fold (flat_members ((k', v') :: l)). rewrite <- !(assoc_L (++)).
    change ([","%char] ++ ?s) with (","%char :: s).
    rewrite parse_member_ok by done. cbn [mbind option_bind].
    rewrite decide_True by done. simpl app. by rewrite IH by (done || lia).
Qed.

Lemma length_flat_members (l : list (cstr * flat)) : (length l <= length (flat_members l))%nat.
Proof.
  induction l as [|[k v] l IH]; [done|]. destruct l as [|kv l].
  - cbn [flat_members]. rewrite !length_app. simpl. lia.
  - change (flat_members ((k, v) :: kv :: l))
      with (quoted k ++ [":"%char] ++ flat_value v ++ [","%char] ++ flat_members (kv :: l)).
    rewrite !length_app. cbn [length] in *. lia.
Qed.

Lemma find_member (l : list (cstr * flat)) (k : cstr) (v : flat) :
  NoDup l.*1 -> (k, v) ∈ l ->
  find k (prod_map id json_of <$> l) = Some (Some (json_of v)).
Proof.
  induction l as [|[k' v'] l IH]; intros Hn Hin; [by apply not_elem_of_nil in Hin|].
  cbn [fmap list_fmap fst] in Hn. apply list.NoDup_cons in Hn as [Hk Hn]. simpl.
  apply elem_of_cons in Hin as [[= <- <-]|Hin].
  - rewrite decide_True by done. by destruct v.
  - rewrite decide_False; [by apply IH|]. intros ->. apply Hk.
    apply list_elem_of_fmap. by exists (k, v).
Qed.

Lemma parse_flat_text (l : list (cstr * flat)) :
  Forall (fun kv => scans kv.1 kv.1 /\ value_wf kv.2) l ->
  parse (flat_text l) = Some (JObject (prod_map id json_of <$> l)).
Proof.
  intros H. unfold flat_text, parse. simpl app.
  destruct l as [|kv l]; [done|].
  pose proof (length_flat_members (kv :: l)) as L.
  pose proof (parse_members_ok (kv :: l) (S (length (flat_members (kv :: l) ++ ["}"%char]))) H
    ltac:(done) ltac:(rewrite length_app; lia)) as P.
  destruct (flat_members (kv :: l) ++ ["}"%char]) as [|a [|b s]] eqn:E.
  - apply (f_equal length) in E. rewrite length_app in E. simpl in E. lia.
  - apply (f_equal length) in E. rewrite length_app in E. simpl in L, E. lia.
  - cbn [length] in *. by rewrite P.
Qed.

#[export] Instance model_json_c_laws : JsonCLaws model_json_c.
Proof.
  split.
  - intros [[]|]; try done. intros _. cbn [json_object_get_string json_object_get_string_len model_json_c].
    eexists. split; [done|]. split; [apply c_str_is_no_nul|].
    pose proof (length_c_str (text s)). pose proof (length_text s). lia.
  - by intros [[]|].
  - done.
  - intros l [Hn Hf]. eexists. split; [|split].
    + cbn [json_tokener_parse model_json_c]. apply parse_flat_text.
      eapply Forall_impl; [|exact Hf]. intros [k [raw t|z]] Hw; simpl in *; tauto.
    + done.
    + intros k v Hin. exists (json_of v). split; [by apply find_member|].
      apply list_elem_of_lookup in Hin as [i Hi].
      pose proof (Forall_lookup_1 _ _ _ _ Hf Hi) as [_ Hw]. destruct v as [raw t|z]; [|done].
      simpl in Hw. destruct Hw as (_ & Ht & Hl). split; [done|].
      cbn [json_object_get_string model_json_c json_of]. unfold text.
      rewrite (proj2 (Z.leb_le _ INT_MAX)) by exact Hl. f_equal.
      apply c_str_whole. done.
Qed.

End Model.
