(* ===== verification/Validation.v ===== *)
(** * lib/validation.c, include/apiserver/validation.h: schema validation

    A validator answers [Pass], or [Reject] with what it left in the error
    buffer (nothing when there is no buffer).  An error buffer is known by its
    length, [None] standing for a null pointer.  The outer [option] of the
    validators is [None] on undefined behaviour: reading a string behind its
    terminator or through a null pointer. *)

From S2P Require Import Prelude JsonUtil Dtoa JsonC.
From Stdlib Require Import SpecFloat.

Module Validation.

(** ** Data *)

(** [ErrorCode] *)
Inductive ErrorCode :=
  | ERR_REQUIRED | ERR_NOT_INT | ERR_NOT_DOUBLE | ERR_NOT_STRING | ERR_NOT_DATE
  | ERR_INVALID_DATE | ERR_UNKNOWN_TYPE | ERR_TOO_LONG | ERR_TOO_SMALL | ERR_TOO_LARGE
  | ERR_MAX_ERRORS.

(** [FieldType] *)
Inductive FieldType := TYPE_INT | TYPE_DOUBLE | TYPE_STRING | TYPE_DATE | TYPE_MAX_TYPES.

(** The error buffer handed to a validator: its length, or no buffer. *)
Abbreviation errdst := (option nat).

Inductive verdict := Pass | Reject (msg : option cstr).

(** [snprintf(err_buf, err_len, ...)]; a length of zero stores nothing. *)
Definition err_printf (d : errdst) (text : cstr) : option cstr :=
  match d with
  | None | Some O => None
  | Some len => Some (snprintf len text)
  end.

Definition error_text (code : ErrorCode) (arg : option cstr) : cstr :=
  let field tail := lit "Field '" ++ default [] arg ++ lit tail in
  match code with
  | ERR_REQUIRED => field "' is required."
  | ERR_NOT_INT => field "' must be an integer."
  | ERR_NOT_DOUBLE => field "' must be a numeric decimal (double)."
  | ERR_NOT_STRING => field "' must be a string."
  | ERR_NOT_DATE => field "' must be a date string."
  | ERR_INVALID_DATE => field "' contains an invalid date format or calendar lie."
  | ERR_UNKNOWN_TYPE => lit "Internal error: Unknown validation type configured."
  | ERR_TOO_LONG => field "' exceeds maximum allowed length."
  | ERR_TOO_SMALL => field "' is below minimum allowed value."
  | ERR_TOO_LARGE => field "' exceeds maximum allowed value."
  | ERR_MAX_ERRORS => lit "Unknown error code: 10"
  end.

(** [emit_error] *)
Definition emit_error (d : errdst) (code : ErrorCode) (arg : option cstr) : verdict :=
  Reject (err_printf d (error_text code arg)).

(** A 64-bit union member read as [int], [size_t] and [double]. *)
Definition as_int (bits : Z) : Z := swrap 32 bits.
Definition as_size (bits : Z) : Z := bits.
Definition as_double (bits : Z) : spec_float :=
  let s := Z.testbit bits 63 in
  let e := Z.land (Z.shiftr bits 52) 2047 in
  let m := Z.land bits (2 ^ 52 - 1) in
  if (e =? 0)%Z then
    match m with Z.pos p => S754_finite s p (-1074) | _ => S754_zero s end
  else if (e =? 2047)%Z then
    match m with Z.pos _ => S754_nan | _ => S754_infinity s end
  else match (m + 2 ^ 52)%Z with Z.pos p => S754_finite s p (e - 1075) | _ => S754_nan end.

Section Validators.
Context `{J : JsonC}.

(** [CustomValidatorFunc] *)
Abbreviation CustomValidatorFunc := (option jobj -> errdst -> option verdict).

(** [FieldValidator]: the unions are their 64 bits. *)
Record FieldValidator := {
  field_name : cstr;
  custom_validator : option CustomValidatorFunc;
  min_bits : Z;
  max_bits : Z;
  type : FieldType;
  is_required : bool;
  has_min : bool;
  has_max : bool;
}.

(** [ValidationContext] *)
Record ValidationContext := {
  schema : list FieldValidator;
  global_validator : option CustomValidatorFunc;
}.

(** ** Dates *)

(** A loop that stops with [false] at the first index whose test fails. *)
Fixpoint for_indices (test : nat -> option bool) (idx : list nat) : option bool :=
  match idx with
  | [] => Some true
  | i :: idx' => ok ← test i; if (ok : bool) then for_indices test idx' else Some false
  end.

Definition days_in_month : list Z := [0; 31; 28; 31; 30; 31; 30; 31; 31; 30; 31; 30; 31]%Z.

(** [date_str[i] - '0'] *)
Definition digit_at (s : cstr) (i : nat) : option Z := c ← rd s i; Some (schar c - 48)%Z.

(** [validate_date_string_fast] *)
Definition validate_date_string_fast (date_str : option cstr) : option bool :=
  match date_str with
  | None => Some false
  | Some s =>
      long ← for_indices (fun i => c ← rd s i; Some (negb (bool_decide (c = NUL)))) (seq 0 10);
      if negb long then Some false else
      c10 ← rd s 10;
      if negb (bool_decide (c10 = NUL)) then Some false else
      shaped ← for_indices (fun i =>
          c ← rd s i;
          if (i =? 4)%nat || (i =? 7)%nat then Some (bool_decide (c = "-"%char))
          else Some (negb ((schar c <? 48) || (57 <? schar c))%Z)) (seq 0 10);
      if negb shaped then Some false else
      d0 ← digit_at s 0; d1 ← digit_at s 1; d2 ← digit_at s 2; d3 ← digit_at s 3;
      d5 ← digit_at s 5; d6 ← digit_at s 6; d8 ← digit_at s 8; d9 ← digit_at s 9;
      let year := (d0 * 1000 + d1 * 100 + d2 * 10 + d3)%Z in
      let month := (d5 * 10 + d6)%Z in
      let day := (d8 * 10 + d9)%Z in
      if ((month <? 1) || (12 <? month) || (day <? 1) || (year <? 1900) || (2199 <? year))%Z
      then Some false else
      max_days ← days_in_month !! Z.to_nat month;
      let is_leap := ((year mod 4 =? 0)
                      && (negb (year mod 100 =? 0) || (year mod 400 =? 0)))%Z in
      let max_days := if (month =? 2)%Z && is_leap then 29%Z else max_days in
      Some (day <=? max_days)%Z
  end.

(** ** Type validators *)

(** [validate_type_int] *)
Definition validate_type_int (obj : option jobj) (field : FieldValidator) (d : errdst)
    : option verdict :=
  if negb (json_object_is_type obj json_type_int)
  then Some (emit_error d ERR_NOT_INT (Some (field_name field)))
  else
    let val := json_object_get_int obj in
    if has_min field && (val <? as_int (min_bits field))%Z
    then Some (emit_error d ERR_TOO_SMALL (Some (field_name field)))
    else if has_max field && (as_int (max_bits field) <? val)%Z
    then Some (emit_error d ERR_TOO_LARGE (Some (field_name field)))
    else Some Pass.

(** [validate_type_double] *)
Definition validate_type_double (obj : option jobj) (field : FieldValidator) (d : errdst)
    : option verdict :=
  if negb (json_object_is_type obj json_type_double) && negb (json_object_is_type obj json_type_int)
  then Some (emit_error d ERR_NOT_DOUBLE (Some (field_name field)))
  else
    let val := json_object_get_double obj in
    if Dtoa.isnan val || Dtoa.isinf val
    then Some (emit_error d ERR_NOT_DOUBLE (Some (field_name field)))
    else if has_min field && Dtoa.dlt val (as_double (min_bits field))
    then Some (emit_error d ERR_TOO_SMALL (Some (field_name field)))
    else if has_max field && Dtoa.dlt (as_double (max_bits field)) val
    then Some (emit_error d ERR_TOO_LARGE (Some (field_name field)))
    else Some Pass.

(** [utf8_strlen] *)
Fixpoint utf8_strlen (s : cstr) : Z :=
  match s with
  | [] => 0
  | c :: s' => (if (Z.land (uchar c) 192 =? 128)%Z then 0 else 1) + utf8_strlen s'
  end.

(** [validate_type_string] *)
Definition validate_type_string (obj : option jobj) (field : FieldValidator) (d : errdst)
    : option verdict :=
  if negb (json_object_is_type obj json_type_string)
  then Some (emit_error d ERR_NOT_STRING (Some (field_name field)))
  else
    let max_len := as_size (max_bits field) in
    if (0 <? max_len)%Z && (swrap 32 max_len <? json_object_get_string_len obj)%Z then
      match json_object_get_string obj with
      | Some str =>
          if (max_len <? utf8_strlen str)%Z
          then Some (emit_error d ERR_TOO_LONG (Some (field_name field)))
          else Some Pass
      | None => Some Pass
      end
    else Some Pass.

(** [validate_type_date] *)
Definition validate_type_date (obj : option jobj) (field : FieldValidator) (d : errdst)
    : option verdict :=
  if negb (json_object_is_type obj json_type_string)
  then Some (emit_error d ERR_NOT_DATE (Some (field_name field)))
  else
    ok ← validate_date_string_fast (json_object_get_string obj);
    if (ok : bool) then Some Pass
    else Some (emit_error d ERR_INVALID_DATE (Some (field_name field))).

(** [TYPE_VALIDATOR_MAP] *)
Definition TYPE_VALIDATOR_MAP (t : FieldType)
    : option (option jobj -> FieldValidator -> errdst -> option verdict) :=
  match t with
  | TYPE_INT => Some validate_type_int
  | TYPE_DOUBLE => Some validate_type_double
  | TYPE_STRING => Some validate_type_string
  | TYPE_DATE => Some validate_type_date
  | TYPE_MAX_TYPES => None
  end.

(** ** The engine *)

(** [check_field_empty] *)
Definition check_field_empty (field_obj : option jobj) : option bool :=
  if json_object_is_type field_obj json_type_string then
    match json_object_get_string field_obj with
    | None => Some true
    | Some str => c ← rd str 0; Some (bool_decide (c = NUL))
    end
  else if json_object_is_type field_obj json_type_array then
    Some (json_object_array_length field_obj =? 0)%Z
  else if json_object_is_type field_obj json_type_object then
    Some (json_object_object_length field_obj =? 0)%Z
  else Some false.

Definition run_custom (v : option CustomValidatorFunc) (o : option jobj) (d : errdst)
    : option verdict :=
  match v with None => Some Pass | Some f => f o d end.

(** One iteration of the loop of [validate_json]. *)
Definition check_field (root : option jobj) (field : FieldValidator) (d : errdst)
    : option verdict :=
  match json_object_object_get_ex root (field_name field) with
  | None | Some None =>
      if is_required field then Some (emit_error d ERR_REQUIRED (Some (field_name field)))
      else Some Pass
  | Some (Some o) =>
      empty ← (if is_required field then check_field_empty (Some o) else Some false);
      if (empty : bool) then Some (emit_error d ERR_REQUIRED (Some (field_name field))) else
      match TYPE_VALIDATOR_MAP (type field) with
      | None => Some (emit_error d ERR_UNKNOWN_TYPE None)
      | Some validate =>
          v ← validate (Some o) field d;
          match v with
          | Reject m => Some (Reject m)
          | Pass => run_custom (custom_validator field) (Some o) d
          end
      end
  end.

Fixpoint check_fields (root : option jobj) (fields : list FieldValidator) (d : errdst)
    : option verdict :=
  match fields with
  | [] => Some Pass
  | f :: fields' =>
      v ← check_field root f d;
      match v with Reject m => Some (Reject m) | Pass => check_fields root fields' d end
  end.

(** [validate_json] *)
Definition validate_json (ctx : option ValidationContext) (root : option jobj) (d : errdst)
    : option verdict :=
  match ctx, root, d with
  | Some ctx, Some _, Some (S _) =>
      if negb (json_object_is_type root json_type_object)
      then Some (Reject (err_printf d (lit "Payload must be a JSON object.")))
      else
        v ← check_fields root (schema ctx) d;
        match v with
        | Reject m => Some (Reject m)
        | Pass => run_custom (global_validator ctx) root d
        end
  | _, _, _ => Some (Reject None)
  end.

(** [json_get_string], [json_get_string_ex], [json_get_int], [json_get_double].
    The second answers the length it stored, if it stored one. *)
Definition json_get_string (obj : option jobj) (key : cstr) : option cstr :=
  match json_object_object_get_ex obj key with
  | Some val => json_object_get_string val
  | None => None
  end.

Definition json_get_string_ex (obj : option jobj) (key : cstr) (len : Z) : option cstr * Z :=
  match json_object_object_get_ex obj key with
  | Some val => (json_object_get_string val, json_object_get_string_len val)
  | None => (None, len)
  end.

Definition json_get_int (obj : option jobj) (key : cstr) : Z :=
  match json_object_object_get_ex obj key with
  | Some val => json_object_get_int64 val
  | None => 0%Z
  end.

Definition json_get_double (obj : option jobj) (key : cstr) : spec_float :=
  match json_object_object_get_ex obj key with
  | Some val => json_object_get_double val
  | None => S754_zero false
  end.

(** ** What a valid request is *)

Definition leap_year (y : Z) : bool :=
  if (y mod 400 =? 0)%Z then true else if (y mod 100 =? 0)%Z then false else (y mod 4 =? 0)%Z.

Definition month_length (y m : Z) : Z :=
  if (m =? 2)%Z then if leap_year y then 29 else 28
  else if ((m =? 4) || (m =? 6) || (m =? 9) || (m =? 11))%Z then 30 else 31.

(** The dates of the supported centuries and their ISO 8601 text. *)
Definition calendar_date (y m d : Z) : Prop :=
  (1900 <= y <= 2199)%Z /\ (1 <= m <= 12)%Z /\ (1 <= d <= month_length y m)%Z.

Definition iso_date (y m d : Z) : cstr :=
  Itoa.dec_pad 4 y ++ ["-"%char] ++ Itoa.dec_pad 2 m ++ ["-"%char] ++ Itoa.dec_pad 2 d.

Definition type_valid (o : option jobj) (f : FieldValidator) : Prop :=
  match type f with
  | TYPE_INT =>
      json_object_get_type o = json_type_int
      /\ (has_min f = true -> as_int (min_bits f) <= clamp_int (json_object_get_int64 o))%Z
      /\ (has_max f = true -> clamp_int (json_object_get_int64 o) <= as_int (max_bits f))%Z
  | TYPE_DOUBLE =>
      (json_object_get_type o = json_type_double \/ json_object_get_type o = json_type_int)
      /\ Dtoa.isnan (json_object_get_double o) = false
      /\ Dtoa.isinf (json_object_get_double o) = false
      /\ (has_min f = true -> Dtoa.dlt (json_object_get_double o) (as_double (min_bits f)) = false)
      /\ (has_max f = true -> Dtoa.dlt (as_double (max_bits f)) (json_object_get_double o) = false)
  | TYPE_STRING =>
      json_object_get_type o = json_type_string
      /\ (as_size (max_bits f) = 0
          \/ exists s, json_object_get_string o = Some s /\ utf8_strlen s <= as_size (max_bits f))%Z
  | TYPE_DATE =>
      json_object_get_type o = json_type_string
      /\ exists y m d, calendar_date y m d /\ json_object_get_string o = Some (iso_date y m d)
  | TYPE_MAX_TYPES => False
  end.

Definition nonempty (o : option jobj) : Prop :=
  match json_object_get_type o with
  | json_type_string => json_object_get_string o <> Some []
  | json_type_array => json_object_array_length o <> 0%Z
  | json_type_object => json_object_object_length o <> 0%Z
  | _ => True
  end.

(** A field is acceptable: absent and optional, or present, not empty when
    required, of its type and within its limits, and passed by its own
    validator. *)
Definition field_valid (root : option jobj) (d : errdst) (f : FieldValidator) : Prop :=
  match json_object_object_get_ex root (field_name f) with
  | None | Some None => is_required f = false
  | Some (Some o) =>
      (is_required f = true -> nonempty (Some o)) /\ type_valid (Some o) f
      /\ run_custom (custom_validator f) (Some o) d = Some Pass
  end.

Definition request_valid (ctx : ValidationContext) (root : option jobj) (d : errdst) : Prop :=
  json_object_get_type root = json_type_object
  /\ Forall (field_valid root d) (schema ctx)
  /\ run_custom (global_validator ctx) root d = Some Pass.

(** The validators of a schema are defined where the engine calls them. *)
Definition customs_defined (ctx : ValidationContext) (root : option jobj) (d : errdst) : Prop :=
  Forall (fun f => forall o,
    json_object_object_get_ex root (field_name f) = Some (Some o) -> type_valid (Some o) f ->
    run_custom (custom_validator f) (Some o) d <> None) (schema ctx)
  /\ (Forall (field_valid root d) (schema ctx) -> run_custom (global_validator ctx) root d <> None).

End Validators.

(** ** Lemmas on dates *)

Import Itoa.

Lemma schar_digit (d : Z) : (0 <= d < 10)%Z -> schar (digit d) = (48 + d)%Z.
Proof. intros Hd. unfold schar. rewrite uchar_digit by done. by rewrite (proj2 (Z.ltb_lt _ _)) by lia. Qed.

Lemma digit_of_schar (c : char) (v : Z) :
  (48 <= schar c <= 57)%Z -> v = (schar c - 48)%Z -> c = digit v.
Proof.
  intros Hc ->. unfold schar in *. pose proof (uchar_range c). apply uchar_inj.
  destruct (Z.ltb_spec (uchar c) 128); [|lia]. rewrite uchar_digit by lia. lia.
Qed.

Lemma rd_lt (s : cstr) (i : nat) : (i < length s)%nat -> rd s i = s !! i.
Proof. intros. unfold rd. by rewrite decide_True. Qed.

Lemma rd_end (s : cstr) : rd s (length s) = Some NUL.
Proof. unfold rd. rewrite decide_False by lia. by rewrite decide_True. Qed.

(** The first loop stops exactly at a terminator in the first ten characters. *)
Lemma nul_scan (s : cstr) (k n : nat) :
  no_nul s -> (k <= length s)%nat ->
  for_indices (fun i => c ← rd s i; Some (negb (bool_decide (c = NUL)))) (seq k n)
  = Some (k + n <=? length s)%nat.
Proof.
  intros Hs. revert k. induction n as [|n IH]; intros k Hk; simpl.
  { rewrite Nat.add_0_r. by rewrite (proj2 (Nat.leb_le _ _)). }
  destruct (decide (k = length s)) as [->|Hne].
  - rewrite rd_end. simpl. by rewrite (proj2 (Nat.leb_gt _ _)) by lia.
  - rewrite rd_lt by lia. destruct (lookup_lt_is_Some_2 s k) as [c Hc]; [lia|].
    rewrite Hc. simpl. rewrite bool_decide_false by exact (Forall_lookup_1 _ _ _ _ Hs Hc).
    simpl. rewrite IH by lia. f_equal. f_equal. lia.
Qed.

Lemma month_length_table (y m : Z) :
  (1 <= m <= 12)%Z ->
  exists n, days_in_month !! Z.to_nat m = Some n
    /\ month_length y m
       = if (m =? 2)%Z && ((y mod 4 =? 0) && (negb (y mod 100 =? 0) || (y mod 400 =? 0)))%Z
         then 29%Z else n.
Proof.
  intros Hm. destruct (decide (m = 2)%Z) as [->|H2].
  - exists 28%Z. split; [done|]. unfold month_length, leap_year. simpl.
    destruct (Z.eqb_spec (y mod 400) 0), (Z.eqb_spec (y mod 100) 0), (Z.eqb_spec (y mod 4) 0);
      simpl; try done; lia.
  - rewrite (proj2 (Z.eqb_neq m 2)) by done. cbn [andb].
    remember (Z.to_nat m) as k eqn:Hk. assert (m = Z.of_nat k) as -> by lia. clear Hk.
    do 13 (destruct k as [|k]; [try lia; eexists; split; reflexivity|]). lia.
Qed.

Lemma month_length_le (y m : Z) : (month_length y m <= 31)%Z.
Proof. unfold month_length. case_ifs; lia. Qed.

Lemma length_iso_date (y m d : Z) : length (iso_date y m d) = 10%nat.
Proof. done. Qed.

Lemma iso_date_no_nul (y m d : Z) : no_nul (iso_date y m d).
Proof.
  unfold iso_date. rewrite !no_nul_app. split_and!; try apply dec_pad_no_nul;
    (constructor; [discriminate|constructor]).
Qed.

(** Ten characters of the right shape are the text of their three numbers. *)
Lemma iso_shape (c0 c1 c2 c3 c5 c6 c8 c9 : char) :
  let v c := (schar c - 48)%Z in
  Forall (fun c => 48 <= schar c <= 57)%Z [c0; c1; c2; c3; c5; c6; c8; c9] ->
  [c0; c1; c2; c3; "-"%char; c5; c6; "-"%char; c8; c9]
  = iso_date (v c0 * 1000 + v c1 * 100 + v c2 * 10 + v c3) (v c5 * 10 + v c6) (v c8 * 10 + v c9).
Proof.
  intros v H. repeat (apply Forall_cons_iff in H as [? H]). unfold iso_date. cbn [dec_pad app].
  subst v. cbn beta in *. repeat f_equal; apply digit_of_schar; lia.
Qed.

Lemma in_digits_test (c : char) :
  negb ((schar c <? 48) || (57 <? schar c))%Z = true <-> (48 <= schar c <= 57)%Z.
Proof. rewrite negb_true_iff, orb_false_iff, !Z.ltb_ge. lia. Qed.

(** The numeric half of the routine, on the ten characters of a date. *)
Lemma calendar_test (y m d : Z) :
  (if ((m <? 1) || (12 <? m) || (d <? 1) || (y <? 1900) || (2199 <? y))%Z then Some false else
   max_days ← days_in_month !! Z.to_nat m;
   Some (d <=? (if (m =? 2) && ((y mod 4 =? 0) && (negb (y mod 100 =? 0) || (y mod 400 =? 0)))
                then 29 else max_days))%Z)
  = Some (bool_decide (1900 <= y <= 2199 /\ 1 <= m <= 12 /\ 1 <= d <= month_length y m)%Z).
Proof.
  destruct ((m <? 1) || (12 <? m) || (d <? 1) || (y <? 1900) || (2199 <? y))%Z eqn:E.
  - rewrite bool_decide_false; [done|]. intros (? & ? & ?).
    rewrite !orb_true_iff, !Z.ltb_lt in E. lia.
  - rewrite !orb_false_iff, !Z.ltb_ge in E.
    destruct (month_length_table y m) as (n & -> & ->); [lia|]. cbn [mbind option_bind]. f_equal.
    apply Bool.eq_iff_eq_true. rewrite bool_decide_eq_true, Z.leb_le. lia.
Qed.

Lemma digit_at_lookup (s : cstr) (i : nat) (c : char) :
  s !! i = Some c -> digit_at s i = Some (schar c - 48)%Z.
Proof.
  intros H. unfold digit_at. rewrite rd_lt by (by eapply lookup_lt_Some). by rewrite H.
Qed.

Lemma shape_test (c0 c1 c2 c3 c4 c5 c6 c7 c8 c9 : char) :
  let s := [c0; c1; c2; c3; c4; c5; c6; c7; c8; c9] in
  for_indices (fun i =>
      c ← rd s i;
      if (i =? 4)%nat || (i =? 7)%nat then Some (bool_decide (c = "-"%char))
      else Some (negb ((schar c <? 48) || (57 <? schar c))%Z)) (seq 0 10)
  = Some (bool_decide (c4 = "-"%char /\ c7 = "-"%char
      /\ Forall (fun c => 48 <= schar c <= 57)%Z [c0; c1; c2; c3; c5; c6; c8; c9])).
Proof.
  intros s. subst s. cbn [seq for_indices rd decide lookup list_lookup length Nat.eqb orb].
  unfold rd. simpl.
  set (t c := negb ((schar c <? 48) || (57 <? schar c))%Z).
  transitivity (Some (t c0 && t c1 && t c2 && t c3 && bool_decide (c4 = "-"%char) && t c5 && t c6
    && bool_decide (c7 = "-"%char) && t c8 && t c9)).
  { subst t. cbn beta. repeat case_match; simpl; done. }
  f_equal. apply Bool.eq_iff_eq_true. rewrite !andb_true_iff, !bool_decide_eq_true.
  subst t. cbn beta. rewrite !in_digits_test, !Forall_cons_iff.
  split; intros; destruct_and!; split_and!; done.
Qed.

Lemma shape_of_iso (y m d : Z) :
  (1900 <= y <= 2199)%Z -> (1 <= m <= 12)%Z -> (1 <= d <= 31)%Z ->
  exists c0 c1 c2 c3 c5 c6 c8 c9,
    iso_date y m d = [c0; c1; c2; c3; "-"%char; c5; c6; "-"%char; c8; c9]
    /\ Forall (fun c => 48 <= schar c <= 57)%Z [c0; c1; c2; c3; c5; c6; c8; c9]
    /\ y = ((schar c0 - 48) * 1000 + (schar c1 - 48) * 100 + (schar c2 - 48) * 10 + (schar c3 - 48))%Z
    /\ m = ((schar c5 - 48) * 10 + (schar c6 - 48))%Z
    /\ d = ((schar c8 - 48) * 10 + (schar c9 - 48))%Z.
Proof.
  intros Hy Hm Hd. unfold iso_date. cbn [dec_pad app].
  eexists _, _, _, _, _, _, _, _. split; [done|].
  rewrite !Forall_cons_iff, !schar_digit by lia. split; [split_and!; try done; lia|]. lia.
Qed.

(** The whole routine, as a decision procedure. *)
Lemma validate_date_eq (s : cstr) :
  no_nul s ->
  exists b, validate_date_string_fast (Some s) = Some b
    /\ (b = true <-> exists y m d, calendar_date y m d /\ s = iso_date y m d).
Proof.
  intros Hs. unfold validate_date_string_fast.
  assert (forall y m d, s = iso_date y m d -> length s = 10%nat) as L.
  { intros y m d ->. apply length_iso_date. }
  rewrite nul_scan by (done || lia). cbn [mbind option_bind].
  destruct (Nat.leb_spec (0 + 10) (length s)) as [H10|H10]; cbn [negb].
  2:{ exists false. split; [done|]. split; [done|]. intros (y & m & d & _ & ?%L). lia. }
  destruct (decide (length s = 10)%nat) as [H|H].
  2:{ rewrite rd_lt by lia. destruct (lookup_lt_is_Some_2 s 10) as [c Hc]; [lia|].
      rewrite Hc. cbn [mbind option_bind].
      rewrite bool_decide_false by exact (Forall_lookup_1 _ _ _ _ Hs Hc).
      exists false. split; [done|]. split; [done|]. intros (y & m & d & _ & ?%L). lia. }
  replace (rd s 10) with (Some NUL) by (rewrite <- H, rd_end; done).
  cbn [mbind option_bind]. rewrite bool_decide_true by done. cbn [negb]. clear L H10 Hs.
  do 10 (destruct s as [|? s]; [done|]). destruct s; [|done]. clear H.
  rewrite shape_test. cbn [mbind option_bind].
  case_bool_decide as Hsh; cbn [negb].
  - destruct Hsh as (-> & -> & Hd).
    do 8 (erewrite digit_at_lookup by reflexivity; cbn [mbind option_bind]). cbv zeta.
    rewrite calendar_test. eexists. split; [done|]. rewrite bool_decide_eq_true. split.
    + intros Hc. eexists _, _, _. split; [exact Hc|]. by apply iso_shape.
    + intros (y & m & d & Hc & E). pose proof Hc as (? & ? & ?). pose proof (month_length_le y m).
      destruct (shape_of_iso y m d) as (?&?&?&?&?&?&?&?& E' & _ & Hy & Hm & Hdd); [lia..|].
      rewrite E' in E. simplify_eq. exact Hc.
  - exists false. split; [done|]. split; [done|].
    intros (y & m & d & Hc & E). destruct Hc as (? & ? & ?). pose proof (month_length_le y m).
    destruct (shape_of_iso y m d) as (?&?&?&?&?&?&?&?& E' & Hf & _); [lia..|].
    rewrite E' in E. simplify_eq. by destruct Hsh.
Qed.

(** Fixed-width decimals compare as their numbers. *)
Lemma strcmp_app (a b s t : cstr) :
  length a = length b ->
  strcmp (a ++ s) (b ++ t) = match strcmp a b with Eq => strcmp s t | r => r end.
Proof.
  revert b. induction a as [|x a IH]; intros [|y b] H; simplify_eq/=; [done|].
  destruct (uchar x ?= uchar y)%Z; auto.
Qed.

Lemma strcmp_dec_pad (k : nat) (u v : Z) :
  (0 <= u < 10 ^ Z.of_nat k)%Z -> (0 <= v < 10 ^ Z.of_nat k)%Z ->
  strcmp (dec_pad k u) (dec_pad k v) = (u ?= v)%Z.
Proof.
  revert u v. induction k as [|k IH]; intros u v Hu Hv.
  { simpl in *. by replace u with v by lia; rewrite Z.compare_refl. }
  rewrite pow10_S in Hu, Hv. cbn [dec_pad].
  rewrite strcmp_app by (by rewrite !length_dec_pad). rewrite IH by lia. simpl.
  rewrite !uchar_digit by lia.
  destruct (Z.compare_spec (u / 10) (v / 10)), (Z.compare_spec (48 + u mod 10) (48 + v mod 10)),
    (Z.compare_spec u v); try done; lia.
Qed.

(** Later dates are larger strings: the lexicographic order of the texts is the
    chronological order of the dates. *)
Lemma strcmp_iso_date (y m d y' m' d' : Z) :
  calendar_date y m d -> calendar_date y' m' d' ->
  strcmp (iso_date y m d) (iso_date y' m' d')
  = match (y ?= y')%Z with
    | Eq => match (m ?= m')%Z with Eq => (d ?= d')%Z | r => r end
    | r => r
    end.
Proof.
  intros (? & ? & ?) (? & ? & ?).
  pose proof (month_length_le y m). pose proof (month_length_le y' m').
  unfold iso_date. rewrite !strcmp_app, !strcmp_dec_pad by (done || (simpl; lia)).
  destruct (y ?= y')%Z; [|done..]. destruct (m ?= m')%Z; done.
Qed.

(** ** Lemmas on UTF-8 *)

(** The UTF-8 encoding of a code point. *)
Definition utf8_encode (cp : Z) : list char :=
  let tail k := char_of_Z (128 + cp / 64 ^ k mod 64) in
  if (cp <? 128)%Z then [char_of_Z cp]
  else if (cp <? 2048)%Z then [char_of_Z (192 + cp / 64); tail 0%Z]
  else if (cp <? 65536)%Z then [char_of_Z (224 + cp / 4096); tail 1%Z; tail 0%Z]
  else [char_of_Z (240 + cp / 262144); tail 2%Z; tail 1%Z; tail 0%Z].

Lemma continuation_test (c : char) :
  (Z.land (uchar c) 192 =? 128)%Z = ((128 <=? uchar c) && (uchar c <? 192))%Z.
Proof. by_all_chars c. Qed.

Lemma utf8_strlen_app (s t : cstr) : utf8_strlen (s ++ t) = (utf8_strlen s + utf8_strlen t)%Z.
Proof. induction s as [|c s IH]; simpl; [done|]. rewrite IH. lia. Qed.

Lemma utf8_strlen_le (s : cstr) : (0 <= utf8_strlen s <= Z.of_nat (length s))%Z.
Proof. induction s as [|c s IH]; [done|]. cbn [utf8_strlen length]. destruct (_ =? _)%Z; lia. Qed.

Lemma utf8_strlen_lead (b : Z) (s : cstr) :
  (0 <= b < 128 \/ 192 <= b < 256)%Z -> utf8_strlen (char_of_Z b :: s) = (1 + utf8_strlen s)%Z.
Proof.
  intros Hb. cbn [utf8_strlen]. rewrite continuation_test, uchar_char_of_Z by lia.
  by replace ((128 <=? b) && (b <? 192))%Z with false by lia.
Qed.

Lemma utf8_strlen_tail (b : Z) (s : cstr) :
  utf8_strlen (char_of_Z (128 + b mod 64) :: s) = utf8_strlen s.
Proof.
  cbn [utf8_strlen]. rewrite continuation_test, uchar_char_of_Z by lia.
  by replace ((128 <=? 128 + b mod 64) && (128 + b mod 64 <? 192))%Z with true by lia.
Qed.

(** Code points are what is counted. *)
Lemma utf8_strlen_encode (cps : list Z) :
  Forall (fun cp => 0 <= cp < 1114112)%Z cps ->
  utf8_strlen (concat (utf8_encode <$> cps)) = Z.of_nat (length cps).
Proof.
  induction 1 as [|cp cps Hcp _ IH]; [done|]. cbn [fmap list_fmap concat length].
  rewrite utf8_strlen_app, IH. unfold utf8_encode.
  case_ifs; bool_to_prop; rewrite utf8_strlen_lead, ?utf8_strlen_tail by lia; simpl; lia.
Qed.

(** ** The type validators decide [type_valid] *)

Section Engine.
Context `{J : JsonC, L : !JsonCLaws J}.

Lemma is_type_true (o : option jobj) (t : json_type) :
  json_object_is_type o t = true <-> json_object_get_type o = t.
Proof. apply bool_decide_eq_true. Qed.

(** A verdict decides a proposition. *)
Definition decides (v : option verdict) (P : Prop) : Prop :=
  exists v', v = Some v' /\ (v' = Pass <-> P).

#[local] Instance decides_proper : Proper ((=) ==> iff ==> iff) decides.
Proof. intros v ? <- P Q HPQ. unfold decides. by setoid_rewrite HPQ. Qed.

Lemma decides_pass (P : Prop) : P -> decides (Some Pass) P.
Proof. intros. exists Pass. naive_solver. Qed.

Lemma decides_reject (m : option cstr) (P : Prop) : ~ P -> decides (Some (Reject m)) P.
Proof. intros. eexists. split; [done|]. naive_solver. Qed.

(** Splits a verdict into the branches of the code. *)
Ltac verdict_cases :=
  repeat match goal with
    | |- decides (if ?b then _ else _) _ => destruct b eqn:?
    end;
  match goal with
  | |- decides (Some Pass) _ => apply decides_pass
  | |- decides (Some (Reject _)) _ => apply decides_reject
  end; bool_to_prop; rewrite ?andb_false_iff, ?Z.ltb_ge in *.

Lemma validate_type_int_ok (o : option jobj) (f : FieldValidator) (d : errdst) :
  type f = TYPE_INT -> decides (validate_type_int o f d) (type_valid o f).
Proof.
  intros T. unfold validate_type_int, type_valid, emit_error. rewrite T.
  destruct (json_object_is_type o json_type_int) eqn:E; cbn [negb].
  2:{ apply decides_reject. intros [?%is_type_true _]. congruence. }
  apply is_type_true in E. rewrite (int_saturates _ E).
  verdict_cases; intuition (try lia; congruence).
Qed.

Lemma validate_type_double_ok (o : option jobj) (f : FieldValidator) (d : errdst) :
  type f = TYPE_DOUBLE -> decides (validate_type_double o f d) (type_valid o f).
Proof.
  intros T. unfold validate_type_double, type_valid, emit_error. rewrite T.
  rewrite <- (is_type_true o json_type_double), <- (is_type_true o json_type_int).
  destruct (json_object_is_type o json_type_double), (json_object_is_type o json_type_int);
    verdict_cases; rewrite ?orb_true_iff in *; simpl negb in *; intuition congruence.
Qed.

Lemma swrap_le (w z : Z) : (0 < w)%Z -> (0 <= z)%Z -> (swrap w z <= z)%Z.
Proof.
  intros Hw Hz. unfold swrap. pose proof (Z.pow_pos_nonneg 2 (w - 1)).
  pose proof (Z.pow_pos_nonneg 2 w). pose proof (Z.mod_le (z + 2 ^ (w - 1)) (2 ^ w)). lia.
Qed.

Lemma validate_type_string_ok (o : option jobj) (f : FieldValidator) (d : errdst) :
  type f = TYPE_STRING -> (0 <= max_bits f)%Z ->
  decides (validate_type_string o f d) (type_valid o f).
Proof.
  intros T Hm. unfold validate_type_string, type_valid, emit_error. rewrite T.
  unfold as_size. destruct (json_object_is_type o json_type_string) eqn:E; cbn [negb].
  2:{ apply decides_reject. intros [?%is_type_true _]. congruence. }
  apply is_type_true in E. destruct (string_text _ E) as (s & Hs & Hn & Hl). rewrite Hs.
  pose proof (utf8_strlen_le s). pose proof (swrap_le 32 (max_bits f) ltac:(lia) Hm).
  verdict_cases.
  - intros [_ [?|(s' & [= <-] & ?)]]; lia.
  - split; [done|]. right. eauto.
  - split; [done|]. destruct (decide (max_bits f = 0)%Z); [by left|]. right. exists s.
    split; [done|]. destruct Heqb; lia.
Qed.

Lemma validate_type_date_ok (o : option jobj) (f : FieldValidator) (d : errdst) :
  type f = TYPE_DATE -> decides (validate_type_date o f d) (type_valid o f).
Proof.
  intros T. unfold validate_type_date, type_valid, emit_error. rewrite T.
  destruct (json_object_is_type o json_type_string) eqn:E; cbn [negb].
  2:{ apply decides_reject. intros [?%is_type_true _]. congruence. }
  apply is_type_true in E. destruct (string_text _ E) as (s & Hs & Hn & _). rewrite Hs.
  destruct (validate_date_eq s Hn) as (b & -> & Hb). cbn [mbind option_bind].
  destruct b; verdict_cases.
  - split; [done|]. destruct (proj1 Hb eq_refl) as (y & m & d' & ? & ->). eauto.
  - intros (_ & y & m & d' & ? & [= ->]). assert (false = true) by (apply Hb; eauto). done.
Qed.

(** ** The engine *)

Lemma check_field_empty_ok (o : option jobj) :
  exists b, check_field_empty o = Some b /\ (b = false <-> nonempty o).
Proof.
  unfold check_field_empty, nonempty, json_object_is_type.
  destruct (json_object_get_type o) eqn:E; rewrite ?bool_decide_true, ?bool_decide_false by done;
    cbn iota; try (eexists; split; [done|]; rewrite ?Z.eqb_neq; done).
  destruct (string_text _ E) as ([|c s] & -> & Hn & _).
  - exists true. naive_solver.
  - exists false. split; [|naive_solver]. inversion Hn. rewrite rd_lt by (simpl; lia). simpl.
    by rewrite bool_decide_false.
Qed.

Lemma type_validator_ok (o : option jobj) (f : FieldValidator) (d : errdst) :
  (0 <= max_bits f)%Z ->
  match TYPE_VALIDATOR_MAP (type f) with
  | None => ~ type_valid o f
  | Some validate => decides (validate o f d) (type_valid o f)
  end.
Proof.
  intros Hm. destruct (type f) eqn:T; simpl; auto using validate_type_int_ok,
    validate_type_double_ok, validate_type_string_ok, validate_type_date_ok.
  unfold type_valid. rewrite T. tauto.
Qed.

Lemma decides_defined (v : option verdict) : v <> None -> decides v (v = Some Pass).
Proof. destruct v as [v|]; [|done]. intros _. exists v. naive_solver. Qed.

Lemma check_field_ok (root : option jobj) (f : FieldValidator) (d : errdst) :
  (0 <= max_bits f)%Z ->
  (forall o, json_object_object_get_ex root (field_name f) = Some (Some o) ->
     type_valid (Some o) f -> run_custom (custom_validator f) (Some o) d <> None) ->
  decides (check_field root f d) (field_valid root d f).
Proof.
  intros Hm Hc. unfold check_field, field_valid.
  destruct (json_object_object_get_ex root (field_name f)) as [[o|]|];
    [|destruct (is_required f); [by apply decides_reject|by apply decides_pass]..].
  specialize (Hc o eq_refl).
  destruct (check_field_empty_ok (Some o)) as (b & Hb & Hne).
  replace (if is_required f then check_field_empty (Some o) else Some false)
    with (Some (is_required f && b)) by (rewrite Hb; by destruct (is_required f)).
  cbn [mbind option_bind]. destruct (is_required f && b) eqn:E.
  { apply decides_reject. intros (Hr & _). apply andb_true_iff in E as [R ->].
    assert (true = false) by (apply Hne; auto). done. }
  assert (is_required f = true -> nonempty (Some o)) as Hn.
  { intros R. rewrite R in E. by apply Hne. }
  pose proof (type_validator_ok (Some o) f d Hm) as V.
  destruct (TYPE_VALIDATOR_MAP (type f)) as [validate|]; [|apply decides_reject; intros (_ & ? & _); done].
  destruct V as (v & -> & Hv). cbn [mbind option_bind]. destruct v as [|m].
  - assert (type_valid (Some o) f) as Ht by (by apply Hv).
    destruct (decides_defined _ (Hc Ht)) as (v & Hr & Hp). exists v. split; [done|].
    rewrite Hp. tauto.
  - apply decides_reject. intros (_ & ?%Hv & _). done.
Qed.

Lemma check_fields_ok (root : option jobj) (fields : list FieldValidator) (d : errdst) :
  Forall (fun f => 0 <= max_bits f)%Z fields ->
  Forall (fun f => forall o, json_object_object_get_ex root (field_name f) = Some (Some o) ->
     type_valid (Some o) f -> run_custom (custom_validator f) (Some o) d <> None) fields ->
  decides (check_fields root fields d) (Forall (field_valid root d) fields).
Proof.
  induction 1 as [|f fields Hm _ IH]; intros Hc; simpl; [by apply decides_pass|].
  apply Forall_cons_iff in Hc as [Hc Hcs].
  destruct (check_field_ok root f d Hm Hc) as (v & -> & Hv). cbn [mbind option_bind].
  destruct v as [|m].
  - destruct (IH Hcs) as (w & -> & Hw). exists w. split; [done|].
    rewrite Forall_cons_iff, Hw. tauto.
  - apply decides_reject. intros [?%Hv _]%Forall_cons_iff. done.
Qed.

Lemma check_fields_app (root : option jobj) (pre post : list FieldValidator) (d : errdst) :
  check_fields root (pre ++ post) d
  = (v ← check_fields root pre d;
     match v with Reject m => Some (Reject m) | Pass => check_fields root post d end).
Proof.
  induction pre as [|f pre IH]; simpl; [done|].
  destruct (check_field root f d) as [[|m]|]; cbn [mbind option_bind]; done.
Qed.

Lemma validate_json_ok (ctx : ValidationContext) (o : jobj) (n : nat) :
  Forall (fun f => 0 <= max_bits f)%Z (schema ctx) ->
  customs_defined ctx (Some o) (Some (S n)) ->
  exists v, validate_json (Some ctx) (Some o) (Some (S n)) = Some v
    /\ (v = Pass <-> request_valid ctx (Some o) (Some (S n))).
Proof.
  intros Hm [Hc Hg]. unfold validate_json, request_valid.
  destruct (json_object_is_type (Some o) json_type_object) eqn:E; cbn [negb].
  2:{ apply decides_reject. intros [?%is_type_true _]. congruence. }
  apply is_type_true in E.
  destruct (check_fields_ok (Some o) (schema ctx) _ Hm Hc) as (v & -> & Hv).
  cbn [mbind option_bind]. destruct v as [|m].
  - destruct (decides_defined _ (Hg (proj1 Hv eq_refl))) as (v & Hr & Hp). exists v.
    split; [done|]. rewrite Hp. tauto.
  - apply decides_reject. intros (_ & ?%Hv & _). done.
Qed.

(** C15: [validate_json] accepts exactly the valid requests. For every schema
    whose own validators are defined on the values they are given, every JSON
    document and every error buffer, the engine returns (no read outside a
    string, no null pointer followed) and its verdict is [true] exactly when
    the document is an object in which every field of the schema is absent and
    optional, or present, not empty if required, of the declared type, within
    its limits and accepted by its validator, and the global validator accepts. *)
Theorem validate_json_decides (ctx : ValidationContext) (o : jobj) (n : nat) :
  Forall (fun f => 0 <= max_bits f)%Z (schema ctx) ->
  customs_defined ctx (Some o) (Some (S n)) ->
  exists v, validate_json (Some ctx) (Some o) (Some (S n)) = Some v
    /\ (v = Pass <-> request_valid ctx (Some o) (Some (S n))).
Proof. apply validate_json_ok. Qed.

(** The error reported is that of the first invalid field. When the fields
    in front of [f] are valid and [f] is not, the verdict of [validate_json]
    is the rejection of [f] itself: the fields behind it and the global
    validator are not consulted. *)
Lemma validate_json_first_error (ctx : ValidationContext) (o : jobj) (n : nat)
    (pre post : list FieldValidator) (f : FieldValidator) :
  schema ctx = pre ++ f :: post ->
  json_object_get_type (Some o) = json_type_object ->
  Forall (fun f => 0 <= max_bits f)%Z (schema ctx) ->
  customs_defined ctx (Some o) (Some (S n)) ->
  Forall (field_valid (Some o) (Some (S n))) pre ->
  ~ field_valid (Some o) (Some (S n)) f ->
  exists m, validate_json (Some ctx) (Some o) (Some (S n)) = Some (Reject m)
    /\ check_field (Some o) f (Some (S n)) = Some (Reject m).
Proof.
  intros Hs Ht Hm [Hc _] Hpre Hf. unfold validate_json. rewrite Hs in *.
  rewrite (proj2 (is_type_true _ _) Ht). cbn [negb].
  apply Forall_app in Hm as [Hm1 Hm2], Hc as [Hc1 Hc2].
  apply Forall_cons_iff in Hm2 as [Hmf _], Hc2 as [Hcf _].
  rewrite check_fields_app.
  destruct (check_fields_ok _ _ _ Hm1 Hc1) as (v & -> & Hv).
  rewrite (proj2 Hv Hpre). cbn [mbind option_bind check_fields].
  destruct (check_field_ok _ _ _ Hmf Hcf) as (w & -> & Hw). cbn [mbind option_bind].
  destruct w as [|m]; [by destruct Hf; apply Hw|]. exists m. done.
Qed.

End Engine.

(** C39: [validate_date_string_fast] accepts exactly the calendar dates. On
    every terminated string the routine reads no character behind the
    terminator, and it answers [true] exactly when the string is the ISO 8601
    text of a date that exists in the Gregorian calendar between 1900 and 2199,
    leap days included. *)
Theorem validate_date_correct (s : cstr) :
  no_nul s ->
  exists b, validate_date_string_fast (Some s) = Some b
    /\ (b = true <-> exists y m d, calendar_date y m d /\ s = iso_date y m d).
Proof. apply validate_date_eq. Qed.

Lemma validate_date_correct_witness :
  validate_date_string_fast (Some (lit "2000-02-29")) = Some true
  /\ validate_date_string_fast (Some (lit "1900-02-29")) = Some false
  /\ exists b, validate_date_string_fast (Some (lit "2023-13-01")) = Some b
    /\ (b = true <-> exists y m d, calendar_date y m d /\ lit "2023-13-01" = iso_date y m d).
Proof.
  split; [vm_compute; reflexivity|]. split; [vm_compute; reflexivity|].
  apply (validate_date_correct (lit "2023-13-01")). repeat (constructor; [discriminate|]). constructor.
Defined.

Import Model.

(** A schema of three fields and a document for the witnesses. *)
Module Sample.

Definition sample_schema : ValidationContext := {|
  schema := [
    {| field_name := lit "id"; custom_validator := None; min_bits := 1; max_bits := 9;
       type := TYPE_INT; is_required := true; has_min := true; has_max := true |};
    {| field_name := lit "name"; custom_validator := None; min_bits := 0; max_bits := 4;
       type := TYPE_STRING; is_required := true; has_min := false; has_max := false |};
    {| field_name := lit "day"; custom_validator := None; min_bits := 0; max_bits := 0;
       type := TYPE_DATE; is_required := false; has_min := false; has_max := false |} ];
  global_validator := None |}.

Definition sample_doc (name : string) : json :=
  JObject [(lit "id", JInt 7); (lit "name", JString (lit name));
           (lit "day", JString (lit "1996-12-31"))].

Lemma sample_defined (o : json) (d : errdst) : customs_defined sample_schema (Some o) d.
Proof. split; [|done]. repeat constructor; done. Qed.

End Sample.

Lemma validate_json_decides_witness :
  exists v, validate_json (Some Sample.sample_schema) (Some (Sample.sample_doc "Ana")) (Some 512%nat)
    = Some v
    /\ (v = Pass <-> request_valid Sample.sample_schema (Some (Sample.sample_doc "Ana")) (Some 512%nat)).
Proof.
  apply (validate_json_decides Sample.sample_schema (Sample.sample_doc "Ana") 511).
  - repeat (constructor; [simpl; lia|]). constructor.
  - apply Sample.sample_defined.
Defined.

End Validation.
