(* ===== verification/ValidationTest.v ===== *)
(** * test/validation-test.c: the unit test of the validation engine

    The schemas of the test and its assertions, run on the model of [Validation]
    with the JSON trees of [JsonC.Model]; each document is the tree of the text in
    the test.  The threads that validate random documents become a theorem over all
    documents. *)

From S2P Require Import Prelude JsonUtil Dtoa JsonC Validation.
From Stdlib Require Import SpecFloat.
Import Validation Dtoa.

Module ValidationTest.

Definition ERR_NEGATIVE_AMOUNT : Z := 100.
Definition ERR_START_AFTER_END : Z := 101.

(** [emit_error] with a code that it does not know *)
Definition emit_unknown (d : errdst) (code : Z) : verdict :=
  Reject (err_printf d (lit "Unknown error code: " ++ dec_text code)).

Section Fixtures.
Context `{J : JsonC}.

Definition validate_positive_amount (obj : option jobj) (d : errdst) : option verdict :=
  if dlt (json_object_get_double obj) (S754_zero false)
  then Some (emit_unknown d ERR_NEGATIVE_AMOUNT) else Some Pass.

(** A null pointer handed to [strcmp] is undefined behaviour. *)
Definition validate_start_before_end (root : option jobj) (d : errdst) : option verdict :=
  match json_object_object_get_ex root (lit "start_date"), json_object_object_get_ex root (lit "end_date") with
  | Some (Some start_obj), Some (Some end_obj) =>
      s ← json_object_get_string (Some start_obj);
      e ← json_object_get_string (Some end_obj);
      match strcmp s e with
      | Lt => Some Pass
      | _ => Some (emit_unknown d ERR_START_AFTER_END)
      end
  | _, _ => Some Pass
  end.

Definition entry (name : string) (t : FieldType) (required : bool) (v : option (option jobj -> errdst -> option verdict))
    : FieldValidator := {|
  field_name := lit name; custom_validator := v; min_bits := 0; max_bits := 0;
  type := t; is_required := required; has_min := false; has_max := false |}.

Definition TestSchema : list FieldValidator := [
  entry "start_date" TYPE_DATE true None;
  entry "end_date" TYPE_DATE true None;
  entry "amount" TYPE_DOUBLE true (Some validate_positive_amount);
  entry "count" TYPE_INT false None;
  entry "name" TYPE_STRING true None;
  entry "opt_string" TYPE_STRING false None ].

Definition TestContext : ValidationContext := {|
  schema := TestSchema; global_validator := Some validate_start_before_end |}.

(** The double 100.0 in the union *)
Definition bits_100 : Z := 4636737291354636288.

Definition BoundsSchema : list FieldValidator := [
  {| field_name := lit "age"; custom_validator := None; min_bits := 18; max_bits := 99;
     type := TYPE_INT; is_required := true; has_min := true; has_max := true |};
  {| field_name := lit "score"; custom_validator := None; min_bits := 0; max_bits := bits_100;
     type := TYPE_DOUBLE; is_required := true; has_min := true; has_max := true |};
  {| field_name := lit "username"; custom_validator := None; min_bits := 0; max_bits := 10;
     type := TYPE_STRING; is_required := true; has_min := false; has_max := false |} ].

Definition BoundsContext : ValidationContext := {| schema := BoundsSchema; global_validator := None |}.

Definition bad_ctx : ValidationContext := {|
  schema := [entry "start_date" TYPE_MAX_TYPES true None]; global_validator := None |}.

(** [sizeof(err_buf)] *)
Definition ERR_BUF : errdst := Some 256%nat.

(** [assert_validation_error] *)
Definition fails (ctx : ValidationContext) (root : jobj) (expected_str : string) : bool :=
  match validate_json (Some ctx) (Some root) ERR_BUF with
  | Some (Reject (Some m)) => strstr m (lit expected_str)
  | _ => false
  end.

Definition passes (ctx : ValidationContext) (root : jobj) : bool :=
  match validate_json (Some ctx) (Some root) ERR_BUF with Some Pass => true | _ => false end.

Definition is_false (v : verdict) : bool := match v with Reject _ => true | Pass => false end.

End Fixtures.

(** ** The documents *)

Import JsonC.Model.

Abbreviation js s := (JString (lit s)).
Abbreviation member k v := ((lit k, v) : cstr * json).

(** A decimal literal with one digit behind the point, as its tenths *)
Definition tenths (z : Z) : json := JDouble (ddiv (d_of_Z z) (d_of_Z 10)).

Definition dated (start_date end_date amount : json) (rest : list (cstr * json)) : json :=
  JObject ([member "start_date" start_date; member "end_date" end_date; member "amount" amount] ++ rest).

(** The document that most assertions vary *)
Definition year_2024 (amount : json) (rest : list (cstr * json)) : json :=
  dated (js "2024-01-01") (js "2024-12-31") amount rest.

Definition named : list (cstr * json) := [member "name" (js "test")].
Definition counted : list (cstr * json) := [member "count" (JInt 10); member "name" (js "test")].

Definition starting (start_date : json) : json := dated start_date (js "2024-12-31") (tenths 1005) named.

Definition person (age : Z) (score : json) (username : cstr) : json :=
  JObject [member "age" (JInt age); member "score" score; member "username" (JString username)].

(** The letter that the test writes with two bytes *)
Definition a_acute : cstr := ["195"%char; "161"%char].

(** ** [test_coverage] *)

Definition test_null_safety : list bool := [
  is_false (emit_error None ERR_REQUIRED (Some (lit "x")));
  is_false (emit_error (Some 0%nat) ERR_REQUIRED (Some (lit "x")));
  is_false (emit_error ERR_BUF ERR_MAX_ERRORS (Some (lit "x")));
  is_false (emit_unknown ERR_BUF 999);
  is_false (emit_unknown ERR_BUF 102); is_false (emit_unknown ERR_BUF 103); is_false (emit_unknown ERR_BUF 104);
  match validate_json None None None with Some (Reject _) => true | _ => false end;
  fails TestContext (JObject []) "is required.";
  fails TestContext (JArray []) "JSON object" ].

Definition extraction_root : json :=
  JObject [member "str" (js "hello"); member "i" (JInt 42); member "d" (JDouble (ddiv (d_of_Z 314) (d_of_Z 100)))].

Definition test_extraction : list bool := [
  bool_decide (json_get_string (Some extraction_root) (lit "str") = Some (lit "hello"));
  bool_decide (json_get_string (Some extraction_root) (lit "missing") = None);
  (json_get_int (Some extraction_root) (lit "i") =? 42)%Z;
  (json_get_int (Some extraction_root) (lit "missing") =? 0)%Z;
  SFeqb (json_get_double (Some extraction_root) (lit "d")) (ddiv (d_of_Z 314) (d_of_Z 100));
  SFeqb (json_get_double (Some extraction_root) (lit "missing")) (S754_zero false) ].

Definition test_doubles : list bool := [
  fails TestContext (year_2024 (JDouble S754_nan) counted) "numeric decimal";
  fails TestContext (year_2024 (JDouble (S754_infinity false)) counted) "numeric decimal" ].

Definition test_required : list bool := [
  passes TestContext (year_2024 (tenths 1005) counted);
  fails TestContext (year_2024 (tenths 1005) []) "is required.";
  fails TestContext (year_2024 (tenths 1005) [member "name" (js "")]) "is required.";
  fails TestContext (year_2024 (tenths 1005) [member "name" (JObject [])]) "is required.";
  fails TestContext (year_2024 (tenths 1005) [member "name" (JArray [])]) "is required.";
  fails TestContext (year_2024 (tenths 1005) [member "name" JNull]) "is required." ].

Definition test_types : list bool := [
  fails TestContext (year_2024 (tenths 1005) (member "count" (js "10") :: named)) "must be an integer";
  fails TestContext (year_2024 (js "100.5") counted) "numeric decimal";
  passes TestContext (year_2024 (JInt 100) counted);
  fails TestContext (year_2024 (tenths 1005) [member "count" (JInt 10); member "name" (JInt 123)])
    "must be a string" ].

Definition test_validators : list bool := [
  fails TestContext (year_2024 (tenths (-500)) counted) "Unknown error code: 100";
  fails TestContext (dated (js "2024-12-31") (js "2024-01-01") (tenths 1000) counted) "Unknown error code: 101";
  fails TestContext (dated (js "2024-06-15") (js "2024-06-15") (tenths 1000) counted) "Unknown error code: 101" ].

Definition test_dates : list bool := [
  fails TestContext (starting (JInt 1234)) "must be a date string";
  fails TestContext (starting (js "2024")) "invalid date";
  fails TestContext (starting (js "2024-01-01T00:00:00")) "invalid date";
  fails TestContext (starting (js "2024/01/01")) "invalid date";
  fails TestContext (starting (js "2024-01-XX")) "invalid date";
  fails TestContext (starting (js "2024-13-01")) "invalid date";
  fails TestContext (starting (js "2024-00-01")) "invalid date";
  fails TestContext (starting (js "2024-01-32")) "invalid date";
  fails TestContext (starting (js "2024-01-00")) "invalid date";
  fails TestContext (starting (js "2023-02-29")) "invalid date";
  passes TestContext (starting (js "2024-02-29"));
  fails TestContext (starting (js "1900-02-29")) "invalid date";
  passes TestContext (starting (js "2000-02-29"));
  fails bad_ctx (JObject [member "start_date" (js "2000-01-01")]) "Unknown validation type" ].

Definition long_name : json := person 25 (tenths 500) (lit "123456anat" ++ a_acute).

Definition test_bounds : list bool := [
  fails BoundsContext (person 17 (tenths 500) (lit "user")) "below minimum";
  fails BoundsContext (person 100 (tenths 500) (lit "user")) "exceeds maximum";
  fails BoundsContext (person 25 (tenths (-10)) (lit "user")) "below minimum";
  fails BoundsContext (person 25 (tenths 1010) (lit "user")) "exceeds maximum";
  fails BoundsContext (person 25 (tenths 500) (lit "verylongusername")) "exceeds maximum allowed length";
  passes BoundsContext (person 25 (tenths 500) (lit "12345anat" ++ a_acute));
  fails BoundsContext long_name "exceeds maximum allowed length";
  negb (bool_decide ((json_get_string_ex (Some long_name) (lit "username") 0).1 = None));
  ((json_get_string_ex (Some long_name) (lit "username") 0).2 =? 12)%Z;
  bool_decide ((json_get_string_ex (Some long_name) (lit "missing_key") 12).1 = None) ].

Definition test_coverage : list bool :=
  test_null_safety ++ test_extraction ++ test_doubles ++ test_required ++ test_types ++ test_validators
  ++ test_dates ++ test_bounds.

(** Every assertion of the unit test holds of the model. *)
Lemma test_coverage_passes : forallb id test_coverage = true.
Proof. vm_compute. reflexivity. Qed.

(** ** [fuzz_thread] *)

(** Whatever document the fuzzer makes, the engine returns with the schema of the
    test, and it accepts exactly the valid ones; no string is read through a null
    pointer. *)
Lemma fuzz_never_faults `{J : JsonC, L : !JsonCLaws J} (o : jobj) :
  exists v, validate_json (Some TestContext) (Some o) ERR_BUF = Some v
    /\ (v = Pass <-> request_valid TestContext (Some o) ERR_BUF).
Proof.
  apply (validate_json_ok TestContext o 255).
  { repeat (constructor; [cbn; lia|]). constructor. }
  split.
  - repeat (constructor; [intros x _ _; cbn [entry custom_validator run_custom]; try done;
      unfold validate_positive_amount; by destruct (dlt _ _)|]). constructor.
  - unfold TestContext, TestSchema. cbn [schema global_validator run_custom]. rewrite !list.Forall_cons.
    intros (Hs & He & _). unfold field_valid in Hs, He. cbn [entry field_name is_required] in Hs, He.
    unfold validate_start_before_end.
    destruct (json_object_object_get_ex (Some o) (lit "start_date")) as [[x|]|]; [|done|done].
    destruct (json_object_object_get_ex (Some o) (lit "end_date")) as [[y|]|]; [|done|done].
    destruct Hs as (_ & [Hs _] & _). destruct He as (_ & [He _] & _).
    destruct (string_text _ Hs) as (s & -> & _), (string_text _ He) as (e & -> & _).
    cbn [mbind option_bind]. by destruct (strcmp s e).
Qed.

End ValidationTest.
