(* ===== verification/DbJson.v ===== *)
(** * lib/dbapi.c: result sets as JSON

    The second half of dbapi.c: the buffered writer [JsonBuffer], the metadata
    of a result set with the arena its column buffers live in, and the printing
    of rows.  The arena is one array of bytes, and a column's [buffer] is an
    offset into it, so that the layout of the columns matters as it does in the
    code.  What the driver answers (column descriptions, the cells of a row) is
    data; [store] states where and how ODBC documents that [SQLFetch] writes a
    cell into a bound column. *)

From S2P Require Import Prelude JsonUtil Dtoa JsonC Validation.
From Stdlib Require Import SpecFloat.
Import Encode Itoa Dtoa.

Module DbJson.

(** ** The buffered writer *)

Definition STACK_BUF_SIZE : nat := 8 * 1024.

(** [JsonBuffer] *)
Record JsonBuffer := JB { evbuf : list char; stack_buf : list char; offset : nat }.

(** [{ .evbuf = buf, .offset = 0 }]: the rest is zeroed. *)
Definition new_jbuf (buf : list char) : JsonBuffer := JB buf (replicate STACK_BUF_SIZE NUL) 0.

Definition jbuf_flush (j : JsonBuffer) : JsonBuffer :=
  if (0 <? offset j)%nat
  then JB (evbuf j ++ take (offset j) (stack_buf j)) (stack_buf j) 0 else j.

(** [memcpy(jbuf->stack_buf + jbuf->offset, data, len)] *)
Definition jbuf_copy (data : list char) (j : JsonBuffer) : option JsonBuffer :=
  s ← memcpy_at (stack_buf j) (offset j) data;
  Some (JB (evbuf j) s (offset j + length data)).

Definition jbuf_add (data : list char) (j : JsonBuffer) : option JsonBuffer :=
  if (STACK_BUF_SIZE <? offset j + length data)%nat then
    let j := jbuf_flush j in
    if (STACK_BUF_SIZE <=? length data)%nat
    then Some (JB (evbuf j ++ data) (stack_buf j) (offset j))
    else jbuf_copy data j
  else jbuf_copy data j.

Definition jbuf_add_char (c : char) (j : JsonBuffer) : option JsonBuffer :=
  let j := if ((STACK_BUF_SIZE <? offset j + 1) && (0 <? offset j))%nat then jbuf_flush j else j in
  s ← put (stack_buf j) (offset j) c;
  Some (JB (evbuf j) s (offset j + 1)).

(** The [switch] of [jbuf_append_escaped_str]. *)
Definition escaped (c : char) : list char :=
  if decide (c = DQUOTE) then [BSLASH; DQUOTE]
  else if decide (c = BSLASH) then [BSLASH; BSLASH]
  else if decide (c = "008"%char) then [BSLASH; "b"%char]
  else if decide (c = "012"%char) then [BSLASH; "f"%char]
  else if decide (c = "010"%char) then [BSLASH; "n"%char]
  else if decide (c = "013"%char) then [BSLASH; "r"%char]
  else if decide (c = "009"%char) then [BSLASH; "t"%char]
  else [BSLASH; "u"%char; "0"%char; "0"%char; hex (uchar c / 16); hex (uchar c mod 16)].

Definition is_clean (c : char) : bool :=
  negb (bool_decide (c = DQUOTE)) && negb (bool_decide (c = BSLASH)) && (32 <=? uchar c)%Z.

(** [if (clean_len > 0) jbuf_add(jbuf, start, clean_len)] *)
Definition add_run (run : list char) (j : JsonBuffer) : option JsonBuffer :=
  if (0 <? length run)%nat then jbuf_add run j else Some j.

(** The loop; [run] is what lies between [start] and [p]. *)
Fixpoint escape_loop (run s : list char) (j : JsonBuffer) : option JsonBuffer :=
  match s with
  | [] => add_run run j
  | c :: s' =>
      if is_clean c then escape_loop (run ++ [c]) s' j
      else j1 ← add_run run j; j2 ← jbuf_add (escaped c) j1; escape_loop [] s' j2
  end.

(** [str] is the array the pointer points to; reading beyond it is [None]. *)
Definition jbuf_append_escaped_str (str : list char) (len : nat) (j : JsonBuffer)
    : option JsonBuffer :=
  if decide (len <= length str)%nat then
    j1 ← jbuf_add_char DQUOTE j;
    j2 ← escape_loop [] (take len str) j1;
    jbuf_add_char DQUOTE j2
  else None.

Definition evbuffer_append_escaped_str (buf str : list char) (len : nat) : option (list char) :=
  j ← jbuf_append_escaped_str str len (new_jbuf buf); Some (evbuf (jbuf_flush j)).

(** ** The metadata of a result set *)

Inductive sql_type_t :=
  | SQL_BIT | SQL_TINYINT | SQL_SMALLINT | SQL_INTEGER | SQL_BIGINT | SQL_REAL | SQL_FLOAT
  | SQL_DOUBLE | SQL_DECIMAL | SQL_NUMERIC | SQL_OTHER_TYPE.

Inductive c_type_t := SQL_C_BIT | SQL_C_SLONG | SQL_C_SBIGINT | SQL_C_DOUBLE | SQL_C_CHAR.

#[export] Instance sql_type_t_eq_dec : EqDecision sql_type_t.
Proof. solve_decision. Defined.
#[export] Instance c_type_t_eq_dec : EqDecision c_type_t.
Proof. solve_decision. Defined.

Definition SQL_NULL_DATA : Z := -1.
Definition SQL_NO_TOTAL : Z := -4.
Definition ODBC_MAX_COL_SIZE : Z := 65536.

(** [ColumnDescriptor]; [precomputed_key] is the first [precomputed_key_len]
    bytes of the array. *)
Record ColumnDescriptor := Column {
  buffer : nat;
  alloc_size : nat;
  ind : Z;
  name_len : nat;
  sql_type : sql_type_t;
  c_type : c_type_t;
  name : list char;
  precomputed_key : list char;
}.

(** What the driver knows of a column. *)
Record coldesc := Describe { d_name : list char; d_type : sql_type_t; d_size : Z }.

(** [SQLDescribeCol] into [name[128]]: the name is cut at 127 bytes and
    terminated, and the length reported is that of the whole name. *)
Definition described_name (d : coldesc) : list char :=
  take 127 (d_name d) ++ replicate (128 - length (take 127 (d_name d))) NUL.

(** The [switch] over the type. *)
Definition column_type (d : coldesc) : c_type_t * Z :=
  match d_type d with
  | SQL_BIT => (SQL_C_BIT, 1%Z)
  | SQL_TINYINT | SQL_SMALLINT | SQL_INTEGER => (SQL_C_SLONG, 4%Z)
  | SQL_BIGINT => (SQL_C_SBIGINT, 8%Z)
  | SQL_REAL | SQL_FLOAT | SQL_DOUBLE => (SQL_C_DOUBLE, 8%Z)
  | _ => (SQL_C_CHAR, if (d_size d =? 0)%Z || (ODBC_MAX_COL_SIZE <? d_size d)%Z
                      then ODBC_MAX_COL_SIZE else (d_size d + 64)%Z)
  end.

(** One round of the loop of [setup_column_metadata]; [tmp_ok] is whether
    [evbuffer_new] succeeded. *)
Definition setup_column (d : coldesc) (tmp_ok : bool) : option ColumnDescriptor :=
  let name := described_name d in
  let name_len := length (d_name d) in
  key ← (if tmp_ok then
           text ← evbuffer_append_escaped_str [] name name_len;
           Some (take 255 (text ++ [":"%char]))
         else Some []);
  Some (Column 0 (Z.to_nat (column_type d).2) 0 name_len (d_type d) (column_type d).1 name key).

(** The answer [false], after a call of [db_set_error] with its message or
    without one. *)
Inductive failure := Reported (context_msg : string) | Silent.

(** [setup_column_metadata]; a description is [None] when [SQLDescribeCol]
    fails. *)
Fixpoint setup_column_metadata (ds : list (option coldesc * bool)) (total_arena_size : Z)
    : option (failure + list ColumnDescriptor * Z) :=
  match ds with
  | [] => Some (inr ([], total_arena_size))
  | (None, _) :: _ => Some (inl (Reported "Failed to describe column."))
  | (Some d, tmp_ok) :: ds' =>
      match ckd_add total_arena_size (column_type d).2 with
      | None => Some (inl (Reported "Column allocation size overflowed."))
      | Some total =>
          col ← setup_column d tmp_ok;
          r ← setup_column_metadata ds' total;
          Some (match r with inr (cols, t) => inr (col :: cols, t) | inl e => inl e end)
      end
  end.

(** [alloc_metadata_cols]: [cols_ok] is the answer of [calloc], and [mem] gives
    the arena, the thread's own or one from [malloc], whatever it contains. *)
Definition alloc_metadata_cols (ds : list (option coldesc * bool)) (cols_ok : bool)
    (mem : Z -> option (list char)) : option (failure + list ColumnDescriptor * list char) :=
  if (length ds =? 0)%nat then Some (inl Silent)
  else if (256 <? length ds)%nat && negb cols_ok then Some (inl Silent)
  else
    r ← setup_column_metadata ds 0;
    Some (match r with
          | inl e => inl e
          | inr (cols, total) =>
              if (total =? 0)%Z then inl Silent
              else match mem total with Some arena => inr (cols, arena) | None => inl Silent end
          end).

Definition set_buffer (c : ColumnDescriptor) (b : nat) : ColumnDescriptor :=
  Column b (alloc_size c) (ind c) (name_len c) (sql_type c) (c_type c) (name c) (precomputed_key c).

Definition set_ind (c : ColumnDescriptor) (i : Z) : ColumnDescriptor :=
  Column (buffer c) (alloc_size c) i (name_len c) (sql_type c) (c_type c) (name c) (precomputed_key c).

(** The loop of [odbc_bind_resultset_metadata]: the columns get consecutive
    parts of the arena. *)
Fixpoint bind_columns (current_offset : nat) (cols : list ColumnDescriptor) : list ColumnDescriptor :=
  match cols with
  | [] => []
  | c :: cols' => set_buffer c current_offset :: bind_columns (current_offset + alloc_size c) cols'
  end.

(** [odbc_bind_resultset_metadata] for a statement with the columns [ds];
    [counted] is whether [SQLNumResultCols] succeeds, and [bound] whether
    [SQLBindCol] accepts every column.  No column at all gives an empty result
    set. *)
Definition odbc_bind_resultset_metadata (ds : list (option coldesc * bool))
    (counted cols_ok bound : bool) (mem : Z -> option (list char))
    : option (failure + list ColumnDescriptor * list char) :=
  if negb counted then Some (inl (Reported "Failed to retrieve result set column count."))
  else if (length ds =? 0)%nat then Some (inr ([], []))
  else
    r ← alloc_metadata_cols ds cols_ok mem;
    Some (match r with
          | inl e => inl e
          | inr (cols, arena) =>
              if bound then inr (bind_columns 0 cols, arena)
              else inl (Reported "Failed to bind column.")
          end).

(** ** Fetching *)

(** The little-endian bytes of a machine integer. *)
Fixpoint le_bytes (n : nat) (z : Z) : list char :=
  match n with O => [] | S n' => char_of_Z z :: le_bytes n' (z / 256) end.

Fixpoint le_Z (bs : list char) : Z :=
  match bs with [] => 0%Z | b :: bs' => (uchar b + 256 * le_Z bs')%Z end.

(** A cell of a row, converted to the C type of its column.  The driver may not
    know the length of a long text. *)
Inductive cell :=
  | CNull
  | CBit (b : bool)
  | CInt (z : Z)
  | CBigInt (z : Z)
  | CDouble (bits : Z)
  | CText (t : list char) (known : bool).

(** What [SQLFetch] writes into the buffer of a bound column and into its
    indicator. *)
Definition store (alloc : nat) (x : cell) : list char * Z :=
  match x with
  | CNull => ([], SQL_NULL_DATA)
  | CBit b => ([char_of_Z (if b then 1 else 0)], 1%Z)
  | CInt z => (le_bytes 4 z, 4%Z)
  | CBigInt z => (le_bytes 8 z, 8%Z)
  | CDouble bits => (le_bytes 8 bits, 8%Z)
  | CText t known =>
      (take (alloc - 1) t ++ [NUL], if known then Z.of_nat (length t) else SQL_NO_TOTAL)
  end.

(** [SQLFetch] for the columns that are bound. *)
Fixpoint fetch_cells (cols : list ColumnDescriptor) (cells : list cell) (arena : list char)
    : option (list ColumnDescriptor * list char) :=
  match cols, cells with
  | [], [] => Some ([], arena)
  | c :: cols', x :: cells' =>
      let '(bytes, i) := store (alloc_size c) x in
      arena ← memcpy_at arena (buffer c) bytes;
      '(cols2, arena) ← fetch_cells cols' cells' arena;
      Some (set_ind c i :: cols2, arena)
  | _, _ => None
  end.

(** ** Printing *)

(** The [n] bytes at [off], if they are inside the arena. *)
Definition read_bytes (arena : list char) (off n : nat) : option (list char) :=
  if decide (off + n <= length arena)%nat then Some (take n (drop off arena)) else None.

(** The text a number formatter leaves in [num_buf]. *)
Definition add_number (r : option (option (list char) * Z)) (j : JsonBuffer) : option JsonBuffer :=
  '(b, len) ← r; b ← b; jbuf_add (take (Z.to_nat len) b) j.

(** [append_col_value]; [num_buf] is the uninitialised array. *)
Definition append_col_value (num_buf : list char) (arena : list char) (col : ColumnDescriptor)
    (j : JsonBuffer) : option JsonBuffer :=
  match c_type col with
  | SQL_C_BIT =>
      b ← arena !! buffer col;
      jbuf_add (if (uchar b =? 0)%Z then lit "false" else lit "true") j
  | SQL_C_SLONG =>
      bs ← read_bytes arena (buffer col) 4;
      add_number (fast_itoa (swrap 32 (le_Z bs)) (Some num_buf) 64) j
  | SQL_C_SBIGINT =>
      bs ← read_bytes arena (buffer col) 8;
      add_number (fast_ltoa (swrap 64 (le_Z bs)) (Some num_buf) 64) j
  | SQL_C_DOUBLE =>
      bs ← read_bytes arena (buffer col) 8;
      add_number (fast_dtoa (Validation.as_double (le_Z bs)) (Some num_buf) 64) j
  | SQL_C_CHAR =>
      val_len ← (if decide (ind col = SQL_NO_TOTAL) then
                   if decide (NUL ∈ drop (buffer col) arena)
                   then Some (length (c_str (drop (buffer col) arena))) else None
                 else if (Z.of_nat (alloc_size col) <=? uwrap 64 (ind col))%Z
                 then Some (alloc_size col - 1)%nat
                 else Some (Z.to_nat (ind col)));
      if decide (sql_type col = SQL_DECIMAL \/ sql_type col = SQL_NUMERIC) then
        if (val_len =? 0)%nat then jbuf_add (lit "null") j
        else bs ← read_bytes arena (buffer col) val_len; jbuf_add bs j
      else jbuf_append_escaped_str (drop (buffer col) arena) val_len j
  end.

(** The key of a column. *)
Definition append_key (col : ColumnDescriptor) (j : JsonBuffer) : option JsonBuffer :=
  if (0 <? length (precomputed_key col))%nat then jbuf_add (precomputed_key col) j
  else j ← jbuf_append_escaped_str (name col) (name_len col) j; jbuf_add_char ":"%char j.

(** One column of a row: the key, then the value.  The last byte of a text
    buffer is overwritten with the terminator. *)
Definition append_cell (num_buf : list char) (col : ColumnDescriptor) (s : JsonBuffer * list char)
    : option (JsonBuffer * list char) :=
  let '(j, arena) := s in
  j ← append_key col j;
  if decide (ind col = SQL_NULL_DATA) then j ← jbuf_add (lit "null") j; Some (j, arena)
  else
    arena ← (if (0 <? alloc_size col)%nat && bool_decide (c_type col = SQL_C_CHAR)
             then put arena (buffer col + alloc_size col - 1) NUL else Some arena);
    j ← append_col_value num_buf arena col j;
    Some (j, arena).

(** The loop over the columns: a comma after each but the last. *)
Fixpoint append_columns (num_buf : list char) (cols : list ColumnDescriptor)
    (s : JsonBuffer * list char) : option (JsonBuffer * list char) :=
  match cols with
  | [] => Some s
  | [c] => append_cell num_buf c s
  | c :: cols' =>
      '(j, arena) ← append_cell num_buf c s;
      j ← jbuf_add_char ","%char j;
      append_columns num_buf cols' (j, arena)
  end.

Definition jbuf_append_row_object (num_buf : list char) (cols : list ColumnDescriptor)
    (s : JsonBuffer * list char) : option (JsonBuffer * list char) :=
  let '(j, arena) := s in
  j ← jbuf_add_char "{"%char j;
  '(j, arena) ← append_columns num_buf cols (j, arena);
  j ← jbuf_add_char "}"%char j;
  Some (j, arena).

(** The loop of [fetch_resultset_array]: [rows] are the rows the driver
    delivers, and [complete] is whether it ends with [SQL_NO_DATA] or with an
    error. *)
Fixpoint fetch_rows (num_buf : list char) (cols : list ColumnDescriptor) (rows : list (list cell))
    (complete first_row : bool) (s : JsonBuffer * list char) : option (bool * JsonBuffer) :=
  match rows with
  | [] => Some (complete, s.1)
  | r :: rows' =>
      '(cols, arena) ← fetch_cells cols r s.2;
      j ← (if first_row then Some s.1 else jbuf_add_char ","%char s.1);
      s ← jbuf_append_row_object num_buf cols (j, arena);
      fetch_rows num_buf cols rows' complete false s
  end.

(** A result set, as the driver presents it. *)
Record resultset := Resultset {
  counted : bool;
  columns : list (option coldesc * bool);
  cols_ok : bool;
  bound : bool;
  rows : list (list cell);
  complete : bool;
}.

(** [fetch_resultset_array]: why it answers [false], if it does, and the
    content of [out_buf]. *)
Definition fetch_resultset_array (num_buf : list char) (mem : Z -> option (list char))
    (rs : resultset) (out_buf : list char) (write_brackets : bool)
    : option (option failure * list char) :=
  r ← odbc_bind_resultset_metadata (columns rs) (counted rs) (cols_ok rs) (bound rs) mem;
  match r with
  | inl e => Some (Some e, out_buf)
  | inr (cols, arena) =>
      let j := new_jbuf out_buf in
      if write_brackets && (length cols =? 0)%nat then
        j ← jbuf_add (lit "[]") j; Some (None, evbuf (jbuf_flush j))
      else
        j ← (if write_brackets then jbuf_add (lit "[") j else Some j);
        r ← fetch_rows num_buf cols (rows rs) (complete rs) true (j, arena);
        let '(ok, j) := r : bool * JsonBuffer in
        if ok then
          j ← (if write_brackets then jbuf_add_char "]"%char j else Some j);
          Some (None, evbuf (jbuf_flush j))
        else Some (Some (Reported "SQLFetch failed"), evbuf (jbuf_flush j))
  end.

(** ** The buffered writer appends *)

Definition jb_wf (j : JsonBuffer) : Prop :=
  length (stack_buf j) = STACK_BUF_SIZE /\ (offset j <= STACK_BUF_SIZE)%nat.

(** What has been written so far, flushed or not. *)
Definition contents (j : JsonBuffer) : list char := evbuf j ++ take (offset j) (stack_buf j).

(** [m] appends [text], without touching memory outside the stack buffer. *)
Definition writes (m : JsonBuffer -> option JsonBuffer) (text : list char) : Prop :=
  forall j, jb_wf j -> exists j', m j = Some j' /\ jb_wf j' /\ contents j' = contents j ++ text.

Lemma stack_pos : (0 < STACK_BUF_SIZE)%nat.
Proof. unfold STACK_BUF_SIZE. lia. Qed.

Lemma new_jbuf_wf (buf : list char) : jb_wf (new_jbuf buf) /\ contents (new_jbuf buf) = buf.
Proof.
  split; [split; [apply length_replicate|simpl; lia]|]. unfold contents, new_jbuf.
  cbn [evbuf offset stack_buf]. by rewrite take_0, app_nil_r.
Qed.

Lemma jbuf_flush_ok (j : JsonBuffer) :
  jb_wf j -> jb_wf (jbuf_flush j) /\ offset (jbuf_flush j) = 0%nat
    /\ evbuf (jbuf_flush j) = contents j /\ contents (jbuf_flush j) = contents j.
Proof.
  intros [Hl Ho]. unfold jbuf_flush, contents, jb_wf. destruct (0 <? offset j)%nat eqn:E; bool_to_prop.
  - cbn [evbuf stack_buf offset]. split; [split; [done|lia]|]. split; [done|]. split; [done|].
    by rewrite take_0, app_nil_r.
  - assert (offset j = 0)%nat as E0 by lia. rewrite E0, take_0, app_nil_r.
    split; [split; [done|lia]|]. done.
Qed.

Lemma jbuf_copy_ok (data : list char) (j : JsonBuffer) :
  jb_wf j -> (offset j + length data <= STACK_BUF_SIZE)%nat ->
  exists j', jbuf_copy data j = Some j' /\ jb_wf j' /\ contents j' = contents j ++ data.
Proof.
  intros [Hl Ho] Hd. unfold jbuf_copy, memcpy_at. rewrite decide_True by lia.
  cbn [mbind option_bind]. eexists. split; [done|]. unfold jb_wf, contents.
  cbn [evbuf stack_buf offset]. split.
  - rewrite !length_app, length_take, length_drop. lia.
  - rewrite <- (assoc_L (++)). f_equal.
    assert (length (take (offset j) (stack_buf j)) = offset j) as E by (rewrite length_take; lia).
    rewrite (assoc_L (++)), take_app_le by (rewrite length_app; lia).
    apply take_ge. rewrite length_app. lia.
Qed.

Lemma writes_add (data : list char) : writes (jbuf_add data) data.
Proof.
  intros j Hj. unfold jbuf_add. destruct (_ <? _)%nat eqn:E; bool_to_prop; [|by apply jbuf_copy_ok].
  destruct (jbuf_flush_ok j Hj) as (Hf & Ho & He & Hc).
  destruct (_ <=? _)%nat eqn:L; bool_to_prop.
  - eexists. split; [done|]. split; [exact Hf|]. unfold contents at 1. cbn [evbuf stack_buf offset].
    by rewrite Ho, take_0, app_nil_r, He.
  - rewrite <- Hc. apply jbuf_copy_ok; [done|]. rewrite Ho. simpl. lia.
Qed.

Lemma writes_add_char (c : char) : writes (jbuf_add_char c) [c].
Proof.
  intros j Hj. unfold jbuf_add_char.
  set (j1 := if (_ && _)%nat then jbuf_flush j else j).
  assert (jb_wf j1 /\ contents j1 = contents j /\ (offset j1 < STACK_BUF_SIZE)%nat) as (Hf & Hc & Ho).
  { subst j1. pose proof stack_pos. destruct (jbuf_flush_ok j Hj) as (Hf & Ho & _ & Hc).
    destruct (_ && _)%nat eqn:E; [split; [done|]; split; [done|lia]|]. split; [done|]. split; [done|].
    destruct Hj as [_ Hj]. apply andb_false_iff in E as [E|E]; bool_to_prop; lia. }
  clearbody j1. destruct (jbuf_copy_ok [c] j1 Hf ltac:(simpl; lia)) as (j' & E & Hj' & Hc').
  exists j'. rewrite <- Hc. split; [|done]. rewrite <- E. unfold jbuf_copy, memcpy_at.
  destruct Hf as [Hl _]. rewrite put_Some by lia. rewrite decide_True by (simpl; lia).
  cbn [mbind option_bind length]. by rewrite insert_take_drop, Nat.add_1_r by lia.
Qed.

Lemma writes_nil : writes Some [].
Proof. intros j Hj. exists j. by rewrite app_nil_r. Qed.

Lemma writes_bind (m n : JsonBuffer -> option JsonBuffer) (a b : list char) :
  writes m a -> writes n b -> writes (fun j => j' ← m j; n j') (a ++ b).
Proof.
  intros Hm Hn j Hj. destruct (Hm j Hj) as (j1 & -> & H1 & C1). destruct (Hn j1 H1) as (j2 & E & H2 & C2).
  exists j2. cbn [mbind option_bind]. rewrite E, C2, C1, <- (assoc_L (++)). done.
Qed.

#[local] Hint Resolve writes_add writes_add_char writes_nil writes_bind : apiserver.

Lemma clean_escape (c : char) : is_clean c = true -> escape_char c = [c].
Proof. by_all_chars c. Qed.

Lemma dirty_escape (c : char) : is_clean c = false -> escaped c = escape_char c.
Proof. by_all_chars c. Qed.

Lemma writes_run (run : list char) : writes (add_run run) run.
Proof.
  unfold add_run. intros j. destruct run as [|c run]; [apply writes_nil|apply writes_add].
Qed.

Lemma writes_escape_loop (run s : list char) :
  writes (escape_loop run s) (run ++ (s ≫= escape_char)).
Proof.
  revert run. induction s as [|c s IH]; intros run; cbn [escape_loop].
  - rewrite app_nil_r. apply writes_run.
  - rewrite bind_cons. destruct (is_clean c) eqn:E.
    + rewrite (clean_escape c E), (assoc_L (++)). apply IH.
    + rewrite <- (dirty_escape c E). apply writes_bind; [apply writes_run|].
      apply writes_bind; [apply writes_add|]. apply (IH []).
Qed.

Lemma writes_escaped_str (str : list char) (len : nat) :
  (len <= length str)%nat ->
  writes (jbuf_append_escaped_str str len) (quoted (take len str ≫= escape_char)).
Proof.
  intros Hl. unfold jbuf_append_escaped_str. destruct (decide _) as [_|]; [|done].
  change (quoted (take len str ≫= escape_char))
    with ([DQUOTE] ++ ([] ++ (take len str ≫= escape_char)) ++ [DQUOTE]).
  apply writes_bind; [apply writes_add_char|]. apply writes_bind; [|apply writes_add_char].
  apply writes_escape_loop.
Qed.

Lemma evbuffer_append_escaped_str_ok (buf str : list char) (len : nat) :
  (len <= length str)%nat ->
  evbuffer_append_escaped_str buf str len = Some (buf ++ quoted (take len str ≫= escape_char)).
Proof.
  intros Hl. unfold evbuffer_append_escaped_str. destruct (new_jbuf_wf buf) as [Hw Hc].
  destruct (writes_escaped_str str len Hl (new_jbuf buf) Hw) as (j & -> & Hj & Hcj).
  cbn [mbind option_bind]. destruct (jbuf_flush_ok j Hj) as (_ & _ & -> & _). by rewrite Hcj, Hc.
Qed.

(** ** What a row should look like *)

Definition column_alloc (d : coldesc) : nat := Z.to_nat (column_type d).2.

Definition key_text (d : coldesc) : list char := quoted (d_name d ≫= escape_char) ++ [":"%char].

Definition is_decimal (d : coldesc) : Prop := d_type d = SQL_DECIMAL \/ d_type d = SQL_NUMERIC.

(** The characters of a text that fit its column. *)
Definition shown (d : coldesc) (t : list char) (known : bool) : list char :=
  if known then take (column_alloc d - 1) t else c_str (take (column_alloc d - 1) t).

Definition dtoa_text (val : double) : list char :=
  if isnan val || isinf val then lit "0"
  else if fixed_range val then fixed_text val 64
  else let w := Z.of_nat (length (printf_17g val)) in
       if ((0 <? w) && (w <? 64))%Z then printf_17g val else [].

Definition value_text (d : coldesc) (x : cell) : list char :=
  match x with
  | CNull => lit "null"
  | CBit b => if b then lit "true" else lit "false"
  | CInt z | CBigInt z => dec_text z
  | CDouble bits => dtoa_text (Validation.as_double bits)
  | CText t known =>
      if decide (is_decimal d)
      then match shown d t known with [] => lit "null" | s => s end
      else quoted (shown d t known ≫= escape_char)
  end.

Fixpoint commas (l : list (list char)) : list char :=
  match l with
  | [] => []
  | [x] => x
  | x :: l' => x ++ [","%char] ++ commas l'
  end.

Definition row_text (ds : list coldesc) (cells : list cell) : list char :=
  ["{"%char] ++ commas (zip_with (fun d x => key_text d ++ value_text d x) ds cells) ++ ["}"%char].

Definition rows_text (ds : list coldesc) (rows : list (list cell)) : list char :=
  commas (row_text ds <$> rows).

(** A column whose name, escaped, fits the buffers of the descriptor. *)
Definition good_column (d : coldesc) : Prop :=
  (length (d_name d) <= 127)%nat /\ (length (key_text d) <= 255)%nat /\ (0 <= d_size d)%Z.

(** The cell has the C type of its column. *)
Definition cell_fits (d : coldesc) (x : cell) : Prop :=
  match x, (column_type d).1 with
  | CNull, _ => True
  | CBit _, SQL_C_BIT => True
  | CInt z, SQL_C_SLONG => (- 2 ^ 31 <= z < 2 ^ 31)%Z
  | CBigInt z, SQL_C_SBIGINT => (- 2 ^ 63 <= z < 2 ^ 63)%Z
  | CDouble bits, SQL_C_DOUBLE => (0 <= bits < 2 ^ 64)%Z
  | CText t _, SQL_C_CHAR => (Z.of_nat (length t) < 2 ^ 63)%Z
  | _, _ => False
  end.

(** ** Columns *)

(** The descriptor of a described column. *)
Definition describes (d : coldesc) (c : ColumnDescriptor) : Prop :=
  alloc_size c = column_alloc d /\ c_type c = (column_type d).1 /\ sql_type c = d_type d
  /\ writes (append_key c) (key_text d).

Lemma column_size (d : coldesc) :
  (0 <= d_size d)%Z -> (1 <= (column_type d).2 <= 65600)%Z.
Proof.
  intros Hd. unfold column_type, ODBC_MAX_COL_SIZE. destruct (d_type d); cbn [snd]; try lia;
    destruct (_ || _) eqn:B; bool_to_prop; lia.
Qed.

Lemma column_alloc_pos (d : coldesc) : good_column d -> (1 <= column_alloc d)%nat.
Proof. intros (_ & _ & Hd). unfold column_alloc. pose proof (column_size d Hd). lia. Qed.

Lemma setup_column_ok (d : coldesc) (tmp_ok : bool) :
  good_column d -> exists c, setup_column d tmp_ok = Some c /\ describes d c.
Proof.
  intros (Hn & Hk & _). unfold setup_column.
  assert (take (length (d_name d)) (described_name d) = d_name d) as Ht.
  { unfold described_name. rewrite (take_ge (d_name d)) by lia. apply take_app_length. }
  assert (length (d_name d) <= length (described_name d))%nat as Hl.
  { unfold described_name. rewrite length_app, length_take. lia. }
  destruct tmp_ok; cbn [mbind option_bind].
  - rewrite evbuffer_append_escaped_str_ok, Ht by done. cbn [mbind option_bind app].
    fold (key_text d). rewrite (take_ge (key_text d)) by done.
    eexists. split; [done|]. split; [done|]. split; [done|]. split; [done|].
    unfold append_key. cbn [precomputed_key]. apply writes_add.
  - eexists. split; [done|]. split; [done|]. split; [done|]. split; [done|].
    unfold append_key. cbn [precomputed_key length Nat.ltb Nat.leb name name_len].
    unfold key_text.
    replace (d_name d ≫= escape_char)
      with (take (length (d_name d)) (described_name d) ≫= escape_char) by (by rewrite Ht).
    apply writes_bind; [by apply writes_escaped_str|apply writes_add_char].
Qed.

(** The arguments of the metadata loop when every description succeeds. *)
Definition all_described (ds : list (coldesc * bool)) : list (option coldesc * bool) :=
  (fun x => (Some x.1, x.2)) <$> ds.

Fixpoint total_alloc (ds : list coldesc) : nat :=
  match ds with [] => 0%nat | d :: ds' => (column_alloc d + total_alloc ds')%nat end.

Lemma setup_metadata_ok (ds : list (coldesc * bool)) (total : Z) :
  Forall good_column ds.*1 -> (0 <= total)%Z ->
  (total + 65600 * Z.of_nat (length ds) <= SIZE_MAX)%Z ->
  exists cols, setup_column_metadata (all_described ds) total
      = Some (inr (cols, total + Z.of_nat (total_alloc ds.*1))%Z)
    /\ Forall2 describes ds.*1 cols.
Proof.
  revert total. induction ds as [|[d tmp] ds IH]; intros total Hg Ht Hs.
  { exists []. simpl. by rewrite Z.add_0_r. }
  rewrite fmap_cons in Hg. apply Forall_cons_iff in Hg as [Hd Hg]. cbn [fst] in Hd.
  pose proof (column_size d ltac:(apply Hd)) as Hc.
  change (all_described ((d, tmp) :: ds)) with ((Some d, tmp) :: all_described ds).
  cbn [setup_column_metadata]. cbn [length] in Hs. unfold ckd_add.
  rewrite (proj2 (Z.leb_le _ _)) by lia.
  destruct (setup_column_ok d tmp Hd) as (c & -> & Hdc). cbn [mbind option_bind].
  destruct (IH (total + (column_type d).2)%Z Hg ltac:(lia) ltac:(lia)) as (cols & -> & Hcols).
  exists (c :: cols). cbn [mbind option_bind]. rewrite fmap_cons. split; [|by constructor].
  do 3 f_equal. cbn [total_alloc fst]. unfold column_alloc at 1. lia.
Qed.

(** Consecutive columns, from [off] on. *)
Fixpoint layout (off : nat) (cols : list ColumnDescriptor) : Prop :=
  match cols with
  | [] => True
  | c :: cols' => buffer c = off /\ layout (off + alloc_size c) cols'
  end.

Lemma bind_columns_ok (ds : list coldesc) (cols : list ColumnDescriptor) (off : nat) :
  Forall2 describes ds cols ->
  layout off (bind_columns off cols) /\ Forall2 describes ds (bind_columns off cols).
Proof.
  intros H. revert off. induction H as [|d c ds cols Hd _ IH]; intros off; [done|].
  cbn [bind_columns layout]. destruct (IH (off + alloc_size c)%nat) as [H1 H2].
  split; [by split|]. constructor; [exact Hd|exact H2].
Qed.

(** ** The cells of a row in the arena *)

(** The column holds the cell. *)
Definition holds (arena : list char) (c : ColumnDescriptor) (x : cell) : Prop :=
  let '(bytes, i) := store (alloc_size c) x in
  ind c = i /\ take (length bytes) (drop (buffer c) arena) = bytes
  /\ (buffer c + alloc_size c <= length arena)%nat.

Lemma slice_take (k off n : nat) (l : list char) :
  (off + n <= k)%nat -> take n (drop off (take k l)) = take n (drop off l).
Proof. intros H. rewrite skipn_firstn_comm, take_take. f_equal. lia. Qed.

(** A cell is not affected by writes behind its column, nor by writes in front
    of it. *)
Lemma holds_before (arena arena' : list char) (c : ColumnDescriptor) (x : cell) (k : nat) :
  (length (store (alloc_size c) x).1 <= alloc_size c)%nat ->
  (buffer c + alloc_size c <= k)%nat -> take k arena' = take k arena ->
  length arena' = length arena -> holds arena c x -> holds arena' c x.
Proof.
  unfold holds. destruct (store (alloc_size c) x) as [bytes i]. cbn [fst]. intros Hb Hk He Hl (? & Hs & ?).
  split; [done|]. rewrite Hl. split; [|done].
  by rewrite <- (slice_take k), He, (slice_take k) by lia.
Qed.

Lemma holds_after (arena arena' : list char) (c : ColumnDescriptor) (x : cell) (k : nat) :
  (k <= buffer c)%nat -> drop k arena' = drop k arena -> length arena' = length arena ->
  holds arena c x -> holds arena' c x.
Proof.
  unfold holds. destruct (store (alloc_size c) x) as [bytes i]. intros Hk He Hl (? & Hs & ?).
  split; [done|]. rewrite Hl. split; [|done].
  replace (buffer c) with (k + (buffer c - k))%nat by lia.
  rewrite <- drop_drop, He, drop_drop. by replace (k + (buffer c - k))%nat with (buffer c) by lia.
Qed.

Lemma length_le_bytes (n : nat) (z : Z) : length (le_bytes n z) = n.
Proof. revert z. induction n as [|n IH]; intros z; simpl; [done|by rewrite IH]. Qed.

Lemma le_Z_le_bytes (n : nat) (z : Z) : le_Z (le_bytes n z) = (z mod 256 ^ Z.of_nat n)%Z.
Proof.
  revert z. induction n as [|n IH]; intros z; cbn [le_bytes le_Z]; [by rewrite Z.mod_1_r|].
  rewrite IH.
  replace (uchar (char_of_Z z)) with (z mod 256)%Z.
  2:{ rewrite <- (uchar_char_of_Z (z mod 256)) at 1 by (apply Z.mod_pos_bound; lia).
      unfold char_of_Z. by rewrite Zmod_mod. }
  rewrite Nat2Z.inj_succ, Z.pow_succ_r by lia.
  rewrite Z.rem_mul_r by lia. done.
Qed.

Lemma store_cell_fits (d : coldesc) (x : cell) :
  good_column d -> cell_fits d x -> (length (store (column_alloc d) x).1 <= column_alloc d)%nat.
Proof.
  intros Hg Hf. pose proof (column_alloc_pos d Hg).
  destruct x; cbn [store fst]; rewrite ?length_le_bytes; cbn [length]; try lia;
    [..|by rewrite length_app, length_take; cbn [length]; lia];
    unfold cell_fits, column_alloc, column_type in *; destruct (d_type d); cbn [fst snd] in *; by try lia.
Qed.

Lemma fetch_cells_ok (ds : list coldesc) (cols : list ColumnDescriptor) (cells : list cell)
    (off : nat) (arena : list char) :
  Forall good_column ds -> Forall2 describes ds cols -> Forall2 cell_fits ds cells ->
  layout off cols -> (off + total_alloc ds <= length arena)%nat ->
  exists cols' arena', fetch_cells cols cells arena = Some (cols', arena')
    /\ length arena' = length arena /\ take off arena' = take off arena
    /\ layout off cols' /\ Forall2 describes ds cols' /\ Forall2 (holds arena') cols' cells.
Proof.
  intros Hg Hd. revert cells off arena. induction Hd as [|d c ds cols Hc Hd IH];
    intros cells off arena Hf Ho Hl.
  { apply Forall2_nil_inv_l in Hf as ->. exists [], arena. by split_and!. }
  apply Forall_cons_iff in Hg as [Hgd Hg]. apply Forall2_cons_inv_l in Hf as (x & cells' & Hx & Hf & ->).
  destruct Ho as [Hb Ho]. cbn [total_alloc] in Hl. pose proof (store_cell_fits d x Hgd Hx) as Hs.
  destruct Hc as (Ha & Hc). rewrite <- Ha in Hs, Hl. cbn [fetch_cells].
  destruct (store (alloc_size c) x) as [bytes i] eqn:Es. cbn [fst] in Hs.
  unfold memcpy_at. rewrite decide_True by lia. cbn [mbind option_bind].
  set (arena1 := take (buffer c) arena ++ bytes ++ drop (buffer c + length bytes) arena).
  assert (length arena1 = length arena) as L1.
  { subst arena1. rewrite !length_app, length_take, length_drop. lia. }
  destruct (IH Hg cells' (off + alloc_size c)%nat arena1 Hf Ho ltac:(lia))
    as (cols' & arena' & -> & L' & Ht & Ho' & Hd' & Hh). cbn [mbind option_bind].
  exists (set_ind c i :: cols'), arena'. split; [done|]. split; [lia|]. split.
  - replace (take off arena') with (take off (take (off + alloc_size c) arena'))
      by (rewrite take_take; f_equal; lia).
    rewrite Ht, take_take, Nat.min_l by lia. subst arena1. rewrite Hb, take_app_le
      by (rewrite length_take; lia). rewrite take_take. f_equal. lia.
  - split; [by split|]. split; [constructor; [by split|done]|]. constructor; [|done].
    apply (holds_before arena1 arena' (set_ind c i) x (off + alloc_size c)%nat);
      cbn [set_ind alloc_size buffer]; [by rewrite Es|lia|done|lia|].
    unfold holds. cbn [set_ind alloc_size buffer ind]. rewrite Es. split; [done|]. split; [|lia].
    subst arena1. rewrite <- (length_take_le arena (buffer c)) at 1 by lia.
    by rewrite drop_app_length, take_app_length.
Qed.

(** ** Values *)

(** A formatter that leaves [text], terminated, in [num_buf] and returns its
    length makes [add_number] append [text]. *)
Lemma writes_number (r : option (option (list char) * Z)) (text rest : list char) :
  r = Some (Some (text ++ rest), Z.of_nat (length text)) -> writes (add_number r) text.
Proof.
  intros -> . unfold add_number. cbn [mbind option_bind]. rewrite Nat2Z.id, take_app_length.
  apply writes_add.
Qed.

Lemma dec_text_unique (z : Z) (n : nat) :
  (- 2 ^ 63 <= z < 2 ^ 63)%Z -> is_ndig (Z.abs z) n -> print_int z n = dec_text z.
Proof.
  intros Hz Hn. unfold dec_text. f_equal. eapply is_ndig_unique; [exact Hn|].
  apply count_digits_u64_spec. lia.
Qed.

Lemma writes_int (z : Z) (num_buf : list char) :
  length num_buf = 64%nat -> (- 2 ^ 31 <= z < 2 ^ 31)%Z ->
  writes (add_number (fast_itoa z (Some num_buf) 64)) (dec_text z).
Proof.
  intros Hl Hz. destruct (fast_itoa_eq z 64 num_buf Hz ltac:(lia)) as (n & Hn & E).
  cbv zeta in E. rewrite (dec_text_unique z n ltac:(lia) Hn) in E.
  pose proof (length_dec_text z). rewrite (proj2 (Z.leb_le _ _)) in E by lia.
  by eapply writes_number.
Qed.

Lemma writes_bigint (z : Z) (num_buf : list char) :
  length num_buf = 64%nat -> (- 2 ^ 63 <= z < 2 ^ 63)%Z ->
  writes (add_number (fast_ltoa z (Some num_buf) 64)) (dec_text z).
Proof.
  intros Hl Hz. destruct (fast_ltoa_eq z 64 num_buf Hz ltac:(lia)) as (n & Hn & E).
  cbv zeta in E. rewrite (dec_text_unique z n ltac:(lia) Hn) in E.
  pose proof (length_dec_text z). rewrite (proj2 (Z.leb_le _ _)) in E by lia.
  by eapply writes_number.
Qed.

Lemma writes_double (val : double) (num_buf : list char) :
  length num_buf = 64%nat ->
  writes (add_number (fast_dtoa val (Some num_buf) 64)) (dtoa_text val).
Proof.
  intros Hl. unfold dtoa_text. destruct (isnan val || isinf val) eqn:Hn.
  { unfold fast_dtoa. rewrite Hn. cbn [Z.ltb]. rewrite (proj2 (Z.ltb_ge 64 2)) by lia.
    destruct num_buf as [|b0 [|b1 num_buf]]; [done..|]. cbn.
    intros j. apply (writes_add ["0"%char]). }
  destruct (fixed_range val) eqn:F.
  - pose proof (fast_dtoa_fixed val num_buf 64 F ltac:(lia)) as S. cbv zeta in S.
    rewrite (proj2 (Z.ltb_lt _ _)) in S.
    2:{ rewrite length_int_text. pose proof (count_digits_u64_le (int_of val)). destruct (signbit val); lia. }
    destruct S as (rest & E & _). by eapply writes_number.
  - unfold fixed_range in F. rewrite Hn in F. cbn [negb andb] in F. apply negb_false_iff in F.
    unfold fast_dtoa. rewrite Hn, F, (proj2 (Z.ltb_ge 64 2)) by lia. cbn zeta.
    set (w := Z.of_nat (length (printf_17g val))).
    change (Z.to_nat 64) with 64%nat. unfold snprintf, memcpy_at. rewrite decide_True.
    2:{ rewrite length_app, length_take. cbn [length]. lia. }
    cbn [mbind option_bind take app]. destruct ((0 <? w) && (w <? 64))%Z eqn:W; bool_to_prop.
    + subst w. eapply writes_number. rewrite (take_ge (printf_17g val)) by lia. by rewrite <- !(assoc_L (++)).
    + by eapply (writes_number _ []).
Qed.

Lemma c_str_cut (a rest : list char) : c_str (a ++ NUL :: rest) = c_str a.
Proof.
  induction a as [|c a IH]; cbn [app c_str]; [done|]. case_decide; [done|by rewrite IH].
Qed.

Lemma length_c_str_le (a : list char) : (length (c_str a) <= length a)%nat.
Proof. induction a as [|c a IH]; simpl; [lia|]. case_decide; simpl; lia. Qed.

Lemma c_str_prefix (a : list char) : take (length (c_str a)) a = c_str a.
Proof. induction a as [|c a IH]; simpl; [done|]. case_decide; simpl; [done|by rewrite IH]. Qed.

Lemma read_bytes_holds (arena : list char) (c : ColumnDescriptor) (x : cell) (n : nat) :
  holds arena c x -> length (store (alloc_size c) x).1 = n -> (n <= alloc_size c)%nat ->
  read_bytes arena (buffer c) n = Some (store (alloc_size c) x).1.
Proof.
  unfold holds, read_bytes. destruct (store (alloc_size c) x) as [bytes i]. cbn [fst].
  intros (_ & Hs & Hl) <- Hn. rewrite decide_True by lia. by rewrite Hs.
Qed.

Lemma swrap_mod (w z : Z) :
  (0 < w)%Z -> (- 2 ^ (w - 1) <= z < 2 ^ (w - 1))%Z -> swrap w (z mod 2 ^ w) = z.
Proof.
  intros Hw Hz. rewrite <- (swrap_small w z Hw Hz) at 2. unfold swrap.
  by rewrite Zplus_mod_idemp_l.
Qed.

(** A text cell: the bytes the code reads are the ones shown. *)
Lemma text_slice (d : coldesc) (c : ColumnDescriptor) (arena t : list char) (known : bool) :
  good_column d -> describes d c -> holds arena c (CText t known) ->
  (Z.of_nat (length t) < 2 ^ 63)%Z ->
  exists n, (if decide (ind c = SQL_NO_TOTAL) then
               if decide (NUL ∈ drop (buffer c) arena)
               then Some (length (c_str (drop (buffer c) arena))) else None
             else if (Z.of_nat (alloc_size c) <=? uwrap 64 (ind c))%Z
             then Some (alloc_size c - 1)%nat
             else Some (Z.to_nat (ind c))) = Some n
    /\ (buffer c + n <= length arena)%nat /\ take n (drop (buffer c) arena) = shown d t known.
Proof.
  intros Hg (Ha & _) Hh Ht. pose proof (column_alloc_pos d Hg) as Hp. unfold shown. rewrite <- Ha in *.
  unfold holds, store in Hh. destruct Hh as (Hi & Hs & Hl). set (al := alloc_size c) in *.
  rewrite length_app, length_take in Hs. cbn [length] in Hs.
  assert (drop (buffer c) arena = take (al - 1) t
    ++ NUL :: drop (min (al - 1) (length t) + 1) (drop (buffer c) arena)) as Hd.
  { rewrite <- (take_drop (min (al - 1) (length t) + 1) (drop (buffer c) arena)) at 1.
    rewrite Hs, <- (assoc_L (++)). done. }
  destruct known.
  - assert (ind c <> SQL_NO_TOTAL) by (rewrite Hi; unfold SQL_NO_TOTAL; lia).
    rewrite decide_False by done. rewrite Hi, (uwrap_small 64) by lia.
    assert (forall n, n = min (al - 1) (length t) ->
      (buffer c + n <= length arena)%nat /\ take n (drop (buffer c) arena) = take (al - 1) t) as Hn.
    { intros n ->. split; [lia|]. rewrite Hd, <- length_take. apply take_app_length. }
    destruct (_ <=? _)%Z eqn:B; bool_to_prop; eexists; (split; [done|]); apply Hn; lia.
  - rewrite decide_True by done. rewrite decide_True by (rewrite Hd; set_solver).
    eexists. split; [done|]. rewrite Hd, c_str_cut. set (u := take (al - 1) t) in *.
    pose proof (length_c_str_le u). assert (length u <= al - 1)%nat by (subst u; rewrite length_take; lia).
    split; [lia|]. rewrite take_app_le by done. apply c_str_prefix.
Qed.

Lemma writes_value (num_buf arena : list char) (d : coldesc) (c : ColumnDescriptor) (x : cell) :
  length num_buf = 64%nat -> good_column d -> describes d c -> cell_fits d x -> x <> CNull ->
  holds arena c x -> writes (append_col_value num_buf arena c) (value_text d x).
Proof.
  intros Hn Hg Hd Hf Hx Hh. pose proof Hd as (Ha & Hc & Hsql & _).
  pose proof (store_cell_fits d x Hg Hf) as Hst. rewrite <- Ha in Hst.
  unfold append_col_value. rewrite Hc. unfold cell_fits in Hf.
  destruct x as [|b|z|z|bits|t known]; [done|..];
    destruct ((column_type d).1) eqn:Ht; try done; cbn [value_text].
  - pose proof (read_bytes_holds _ _ _ 1 Hh eq_refl Hst) as R. cbn [store fst] in R.
    assert (arena !! buffer c = Some (char_of_Z (if b then 1 else 0))) as ->.
    { unfold read_bytes in R. case_decide; [|done]. injection R as R.
      rewrite <- (Nat.add_0_r (buffer c)), <- lookup_drop.
      destruct (drop (buffer c) arena) as [|a l]; [done|]. simpl in R. by injection R as ->. }
    cbn [mbind option_bind]. destruct b; apply writes_add.
  - rewrite (read_bytes_holds _ _ _ 4 Hh) by (try apply length_le_bytes; done).
    cbn [mbind option_bind store fst]. rewrite le_Z_le_bytes.
    change (256 ^ Z.of_nat 4)%Z with (2 ^ 32)%Z. rewrite swrap_mod by lia. by apply writes_int.
  - rewrite (read_bytes_holds _ _ _ 8 Hh) by (try apply length_le_bytes; done).
    cbn [mbind option_bind store fst]. rewrite le_Z_le_bytes.
    change (256 ^ Z.of_nat 8)%Z with (2 ^ 64)%Z. rewrite swrap_mod by lia. by apply writes_bigint.
  - rewrite (read_bytes_holds _ _ _ 8 Hh) by (try apply length_le_bytes; done).
    cbn [mbind option_bind store fst]. rewrite le_Z_le_bytes.
    change (256 ^ Z.of_nat 8)%Z with (2 ^ 64)%Z. rewrite Z.mod_small by lia. by apply writes_double.
  - destruct (text_slice d c arena t known Hg Hd Hh Hf) as (n & -> & Hl & Hs).
    cbn [mbind option_bind]. rewrite Hsql. unfold is_decimal.
    destruct (decide (d_type d = SQL_DECIMAL \/ d_type d = SQL_NUMERIC)).
    + unfold read_bytes. destruct (decide (buffer c + n <= length arena)%nat) as [_|]; [|done].
      cbn [mbind option_bind]. rewrite Hs. destruct n as [|n]; cbn [Nat.eqb].
      * rewrite <- Hs. cbn [take]. apply writes_add.
      * assert (shown d t known <> []) as Hne.
        { rewrite <- Hs. intros E%(f_equal length). rewrite length_take, length_drop in E. cbn [length] in E. lia. }
        destruct (shown d t known); [done|]. apply writes_add.
    + rewrite <- Hs. apply writes_escaped_str. rewrite length_drop. lia.
Qed.

(** ** Rows *)

Lemma commas_cons (x : list char) (l : list (list char)) :
  commas (x :: l) = x ++ concat (cons ","%char <$> l).
Proof.
  revert x. induction l as [|y l IH]; intros x; [simpl; by rewrite app_nil_r|].
  change (commas (x :: y :: l)) with (x ++ [","%char] ++ commas (y :: l)). by rewrite IH.
Qed.

Lemma store_null (alloc : nat) (x : cell) : (store alloc x).2 = SQL_NULL_DATA <-> x = CNull.
Proof.
  split; [|by intros ->]. destruct x as [| | | | |t []]; cbn [store snd]; unfold SQL_NULL_DATA, SQL_NO_TOTAL;
    try done; lia.
Qed.

(** Terminating a text buffer changes neither its cell nor the columns behind. *)
Lemma terminate_ok (arena : list char) (c : ColumnDescriptor) (t : list char) (known : bool) :
  (1 <= alloc_size c)%nat -> holds arena c (CText t known) ->
  let arena' := <[(buffer c + alloc_size c - 1)%nat := NUL]> arena in
  holds arena' c (CText t known)
  /\ drop (buffer c + alloc_size c) arena' = drop (buffer c + alloc_size c) arena.
Proof.
  intros Ha Hh arena'. unfold holds, store in *. destruct Hh as (Hi & Hs & Hl).
  split; [|apply drop_insert_lt; lia]. subst arena'. rewrite length_insert. split; [done|]. split; [|done].
  set (bytes := take (alloc_size c - 1) t ++ [NUL]) in *.
  assert (length bytes = min (alloc_size c - 1) (length t) + 1)%nat as Hb
    by (subst bytes; rewrite length_app, length_take; done).
  rewrite drop_insert_ge by lia.
  replace (buffer c + alloc_size c - 1 - buffer c)%nat with (alloc_size c - 1)%nat by lia.
  destruct (decide (length bytes = alloc_size c)) as [E|E].
  - rewrite take_insert_lt by lia. rewrite Hs. apply list_insert_id.
    subst bytes. rewrite lookup_app_r by (rewrite length_take; lia).
    rewrite length_take. replace (_ - _)%nat with 0%nat by lia. done.
  - rewrite take_insert_ge by lia. done.
Qed.

Section Printing.
Context (num_buf : list char) (Hn : length num_buf = 64%nat).

Lemma append_cell_ok (d : coldesc) (c : ColumnDescriptor) (x : cell) (j : JsonBuffer)
    (arena : list char) :
  good_column d -> describes d c -> cell_fits d x -> holds arena c x -> jb_wf j ->
  exists j' arena', append_cell num_buf c (j, arena) = Some (j', arena') /\ jb_wf j'
    /\ contents j' = contents j ++ key_text d ++ value_text d x
    /\ length arena' = length arena
    /\ drop (buffer c + alloc_size c) arena' = drop (buffer c + alloc_size c) arena.
Proof.
  intros Hg Hd Hf Hh Hj. pose proof Hd as (Ha & Hc & _ & Hk). unfold append_cell.
  destruct (Hk j Hj) as (j1 & -> & H1 & C1). cbn [mbind option_bind].
  assert (ind c = (store (alloc_size c) x).2) as Hi
    by (unfold holds in Hh; destruct (store (alloc_size c) x); apply Hh).
  destruct (decide (ind c = SQL_NULL_DATA)) as [E|E].
  { rewrite Hi in E. apply store_null in E as ->.
    destruct (writes_add (lit "null") j1 H1) as (j2 & -> & H2 & C2). cbn [mbind option_bind].
    exists j2, arena. split; [done|]. split; [done|]. by rewrite C2, C1, <- (assoc_L (++)). }
  assert (x <> CNull) as Hx by (intros ->; apply E; by rewrite Hi).
  pose proof (column_alloc_pos d Hg) as Hp. rewrite <- Ha in Hp.
  assert (exists arena', (if (0 <? alloc_size c)%nat && bool_decide (c_type c = SQL_C_CHAR)
      then put arena (buffer c + alloc_size c - 1) NUL else Some arena) = Some arena'
    /\ holds arena' c x /\ length arena' = length arena
    /\ drop (buffer c + alloc_size c) arena' = drop (buffer c + alloc_size c) arena)
    as (arena' & -> & Hh' & Hl' & Hdr).
  { destruct (_ && _) eqn:B; [|by exists arena]. bool_to_prop.
    assert (exists t known, x = CText t known) as (t & known & ->).
    { unfold cell_fits in Hf. rewrite <- Hc in Hf. destruct x, (c_type c); try done; eauto. }
    rewrite put_Some by (unfold holds, store in Hh; lia).
    destruct (terminate_ok arena c t known Hp Hh). eexists. split; [done|].
    rewrite length_insert. by split_and!. }
  destruct (writes_value num_buf arena' d c x Hn Hg Hd Hf Hx Hh' j1 H1) as (j2 & E2 & H2 & C2).
  cbn [mbind option_bind]. rewrite E2. cbn [mbind option_bind]. exists j2, arena'.
  split; [done|]. split; [done|]. rewrite C2, C1, <- (assoc_L (++)). done.
Qed.

(** The texts of the columns of a row. *)
Definition cell_texts (ds : list coldesc) (cells : list cell) : list (list char) :=
  zip_with (fun d x => key_text d ++ value_text d x) ds cells.

Lemma append_columns_ok (ds : list coldesc) (cols : list ColumnDescriptor) (cells : list cell)
    (off : nat) (j : JsonBuffer) (arena : list char) :
  Forall good_column ds -> Forall2 describes ds cols -> Forall2 cell_fits ds cells ->
  layout off cols -> Forall2 (holds arena) cols cells -> jb_wf j ->
  exists j' arena', append_columns num_buf cols (j, arena) = Some (j', arena') /\ jb_wf j'
    /\ contents j' = contents j ++ commas (cell_texts ds cells) /\ length arena' = length arena.
Proof.
  intros Hg Hd. revert cells off j arena. induction Hd as [|d c ds cols Hc Hd IH];
    intros cells off j arena Hf Ho Hh Hj.
  { apply Forall2_nil_inv_l in Hf as ->. exists j, arena. cbn [append_columns cell_texts zip_with commas].
    by rewrite app_nil_r. }
  apply Forall_cons_iff in Hg as [Hgd Hg]. apply Forall2_cons_inv_l in Hf as (x & cells' & Hx & Hf & ->).
  apply Forall2_cons_iff in Hh as [Hhx Hh]. destruct Ho as [Hb Ho].
  destruct (append_cell_ok d c x j arena Hgd Hc Hx Hhx Hj) as (j1 & a1 & E1 & H1 & C1 & L1 & D1).
  unfold cell_texts in *. cbn [zip_with].
  destruct Hd as [|d2 c2 ds cols Hc2 Hd].
  - apply Forall2_nil_inv_l in Hf as ->. cbn [append_columns zip_with commas]. exists j1, a1.
    by rewrite C1.
  - apply Forall2_cons_inv_l in Hf as (x2 & cells2 & Hx2 & Hf & ->).
    change (append_columns num_buf (c :: c2 :: cols) (j, arena))
      with ('(j, arena) ← append_cell num_buf c (j, arena);
            j ← jbuf_add_char ","%char j; append_columns num_buf (c2 :: cols) (j, arena)).
    rewrite E1. cbn [mbind option_bind].
    destruct (writes_add_char ","%char j1 H1) as (j2 & -> & H2 & C2). cbn [mbind option_bind].
    destruct (IH Hg (x2 :: cells2) (off + alloc_size c)%nat j2 a1) as (j3 & a3 & E3 & H3 & C3 & L3);
      [by constructor|done| |done|].
    { clear - Hh D1 L1 Ho Hb. rewrite <- Hb in Ho. revert Hh Ho. generalize (x2 :: cells2) as xs.
      generalize (c2 :: cols) as cs. intros cs xs Hh.
      assert (forall k, buffer c + alloc_size c <= k -> layout k cs -> Forall2 (holds a1) cs xs)%nat as G;
        [|by apply G].
      induction Hh as [|c' x' cs xs Hc' _ IH]; intros k Hk Hl; constructor.
      - destruct Hl as [Hl _]. by apply (holds_after arena a1 c' x' (buffer c + alloc_size c)); [lia|..].
      - destruct Hl as [_ Hl]. apply (IH (k + alloc_size c')%nat); [lia|done]. }
    exists j3, a3. split; [done|]. split; [done|]. split; [|lia].
    rewrite C3, C2, C1. cbn [zip_with]. set (tail := _ :: zip_with _ ds cells2).
    change (commas (?a :: tail)) with (a ++ [","%char] ++ commas tail). by rewrite <- !(assoc_L (++)).
Qed.

Lemma row_object_ok (ds : list coldesc) (cols : list ColumnDescriptor) (cells : list cell)
    (off : nat) (j : JsonBuffer) (arena : list char) :
  Forall good_column ds -> Forall2 describes ds cols -> Forall2 cell_fits ds cells ->
  layout off cols -> Forall2 (holds arena) cols cells -> jb_wf j ->
  exists j' arena', jbuf_append_row_object num_buf cols (j, arena) = Some (j', arena') /\ jb_wf j'
    /\ contents j' = contents j ++ row_text ds cells /\ length arena' = length arena.
Proof.
  intros Hg Hd Hf Ho Hh Hj. unfold jbuf_append_row_object.
  destruct (writes_add_char "{"%char j Hj) as (j1 & -> & H1 & C1). cbn [mbind option_bind].
  destruct (append_columns_ok ds cols cells off j1 arena Hg Hd Hf Ho Hh H1) as (j2 & a2 & -> & H2 & C2 & L2).
  cbn [mbind option_bind]. destruct (writes_add_char "}"%char j2 H2) as (j3 & -> & H3 & C3).
  cbn [mbind option_bind]. exists j3, a2. split; [done|]. split; [done|]. split; [|done].
  rewrite C3, C2, C1. unfold row_text, cell_texts. by rewrite <- !(assoc_L (++)).
Qed.

Lemma fetch_rows_ok (ds : list coldesc) (cols : list ColumnDescriptor) (rows : list (list cell))
    (complete first : bool) (j : JsonBuffer) (arena : list char) :
  Forall good_column ds -> Forall2 describes ds cols -> Forall (Forall2 cell_fits ds) rows ->
  layout 0 cols -> (total_alloc ds <= length arena)%nat -> jb_wf j ->
  exists j', fetch_rows num_buf cols rows complete first (j, arena) = Some (complete, j') /\ jb_wf j'
    /\ contents j' = contents j
         ++ (if first then rows_text ds rows else concat ((fun r => ","%char :: row_text ds r) <$> rows)).
Proof.
  intros Hg Hd Hr. revert cols first j arena Hd. induction Hr as [|r rows Hr _ IH];
    intros cols first j arena Hd Ho Hl Hj.
  { exists j. cbn [fetch_rows fst]. split; [done|]. split; [done|]. destruct first; by rewrite app_nil_r. }
  cbn [fetch_rows fst snd].
  destruct (fetch_cells_ok ds cols r 0 arena Hg Hd Hr Ho Hl) as (cols1 & a1 & -> & L1 & _ & Ho1 & Hd1 & Hh1).
  cbn [mbind option_bind].
  assert (exists j1, (if first then Some j else jbuf_add_char ","%char j) = Some j1 /\ jb_wf j1
    /\ contents j1 = contents j ++ if first then [] else [","%char]) as (j1 & -> & H1 & C1).
  { destruct first; [apply writes_nil, Hj|apply writes_add_char, Hj]. }
  cbn [mbind option_bind].
  destruct (row_object_ok ds cols1 r 0 j1 a1 Hg Hd1 Hr Ho1 Hh1 H1) as (j2 & a2 & -> & H2 & C2 & L2).
  cbn [mbind option_bind].
  destruct (IH cols1 false j2 a2 Hd1 Ho1 ltac:(lia) H2) as (j3 & -> & H3 & C3).
  exists j3. split; [done|]. split; [done|]. rewrite C3, C2, C1. clear.
  rewrite <- !(assoc_L (++)). f_equal. destruct first; [|done]. cbn [app]. unfold rows_text.
  rewrite fmap_cons, commas_cons, <- list_fmap_compose. done.
Qed.

End Printing.

(** ** The theorems *)

(** Memory for the arena is available. *)
Definition memory (mem : Z -> option (list char)) : Prop :=
  forall n, exists arena, mem n = Some arena /\ (n <= Z.of_nat (length arena))%Z.

Lemma metadata_ok (mem : Z -> option (list char)) (ds : list (coldesc * bool)) :
  memory mem -> ds <> [] -> (length ds <= Z.to_nat 32767)%nat -> Forall good_column ds.*1 ->
  exists cols arena,
    odbc_bind_resultset_metadata (all_described ds) true true true mem = Some (inr (cols, arena))
    /\ cols <> [] /\ Forall2 describes ds.*1 cols /\ layout 0 cols
    /\ (total_alloc ds.*1 <= length arena)%nat.
Proof.
  intros Hm Hne Hl Hg. unfold odbc_bind_resultset_metadata, alloc_metadata_cols.
  assert (length (all_described ds) <> 0)%nat as Hz.
  { unfold all_described. rewrite length_fmap. destruct ds; [done|]. simpl. lia. }
  rewrite (proj2 (Nat.eqb_neq _ _)), andb_false_r by done. cbn [negb].
  destruct (setup_metadata_ok ds 0 Hg) as (cols & -> & Hd); [lia|unfold SIZE_MAX; lia|].
  cbn [mbind option_bind]. rewrite Z.add_0_l.
  assert (total_alloc ds.*1 <> 0)%nat as Ht.
  { destruct ds as [|[d b] ds]; [done|]. rewrite fmap_cons in *. apply Forall_cons_iff in Hg as [Hg _].
    pose proof (column_alloc_pos _ Hg). cbn [total_alloc fst] in *. lia. }
  rewrite (proj2 (Z.eqb_neq _ _)) by lia. destruct (Hm (Z.of_nat (total_alloc ds.*1))) as (arena & -> & Ha).
  destruct (bind_columns_ok _ _ 0 Hd) as [Hlay Hd']. eexists _, arena. split; [done|].
  split; [|split; [done|]; split; [done|lia]]. destruct cols; [|done].
  apply Forall2_nil_inv_r in Hd. by destruct ds.
Qed.

(** What [fetch_resultset_array] leaves in the output. *)
Lemma fetch_resultset_ok (num_buf out : list char) (mem : Z -> option (list char))
    (ds : list (coldesc * bool)) (rows : list (list cell)) (complete : bool) :
  length num_buf = 64%nat -> memory mem -> ds <> [] -> (length ds <= Z.to_nat 32767)%nat ->
  Forall good_column ds.*1 -> Forall (Forall2 cell_fits ds.*1) rows ->
  let rs := Resultset true (all_described ds) true true rows complete in
  let failure := if complete then None else Some (Reported "SQLFetch failed") in
  fetch_resultset_array num_buf mem rs out true
    = Some (failure, out ++ ["["%char] ++ rows_text ds.*1 rows ++ if complete then ["]"%char] else [])
  /\ fetch_resultset_array num_buf mem rs out false = Some (failure, out ++ rows_text ds.*1 rows).
Proof.
  intros Hn Hm Hne Hl Hg Hr rs failure. unfold fetch_resultset_array.
  destruct (metadata_ok mem ds Hm Hne Hl Hg) as (cols & arena & E & Hc & Hd & Ho & Ha).
  cbn [counted columns cols_ok bound rs DbJson.rows DbJson.complete]. rewrite E. cbn [mbind option_bind].
  destruct (new_jbuf_wf out) as [Hw Hco].
  assert ((length cols =? 0)%nat = false) as -> by (apply Nat.eqb_neq; by destruct cols).
  cbn [andb]. split.
  - destruct (writes_add (lit "[") _ Hw) as (j1 & -> & H1 & C1). cbn [mbind option_bind].
    destruct (fetch_rows_ok num_buf Hn ds.*1 cols rows complete true j1 arena Hg Hd Hr Ho Ha H1)
      as (j2 & -> & H2 & C2). cbn [mbind option_bind].
    destruct complete.
    + destruct (writes_add_char "]"%char j2 H2) as (j3 & -> & H3 & C3). cbn [mbind option_bind].
      destruct (jbuf_flush_ok j3 H3) as (_ & _ & -> & _). rewrite C3, C2, C1, Hco.
      by rewrite <- !(assoc_L (++)).
    + destruct (jbuf_flush_ok j2 H2) as (_ & _ & -> & _). rewrite C2, C1, Hco, app_nil_r.
      by rewrite <- !(assoc_L (++)).
  - cbn [mbind option_bind].
    destruct (fetch_rows_ok num_buf Hn ds.*1 cols rows complete true (new_jbuf out) arena Hg Hd Hr Ho Ha Hw)
      as (j2 & -> & H2 & C2). cbn [mbind option_bind].
    destruct complete; cbn [mbind option_bind];
      destruct (jbuf_flush_ok j2 H2) as (_ & _ & -> & _); by rewrite C2, Hco.
Qed.

(** Whatever the driver answers: a column that cannot be described, a
    [SQLBindCol] that fails, and an allocation that does. *)
Definition good_resultset (rs : resultset) : Prop :=
  (length (columns rs) <= Z.to_nat 32767)%nat
  /\ Forall (fun x => match x.1 with Some d => good_column d | None => True end) (columns rs)
  /\ Forall (Forall2 (fun x c => match x.1 with Some d => cell_fits d c | None => True end) (columns rs))
       (rows rs).

(** An arena is as large as it was asked for. *)
Definition arenas (mem : Z -> option (list char)) : Prop :=
  forall n arena, mem n = Some arena -> (n <= Z.of_nat (length arena))%Z.

Lemma described_or_fails (ds : list (option coldesc * bool)) (t : Z) :
  Forall (fun x => match x.1 with Some d => good_column d | None => True end) ds ->
  (exists e, setup_column_metadata ds t = Some (inl e))
  \/ exists ds', ds = all_described ds' /\ Forall good_column ds'.*1.
Proof.
  intros H. revert t. induction H as [|[[d|] tmp] ds Hd _ IH]; intros t; cbn [fst] in *.
  - right. by exists [].
  - cbn [setup_column_metadata]. destruct (ckd_add t (column_type d).2) as [total|]; [|left; by eexists].
    destruct (setup_column_ok d tmp Hd) as (c & -> & _). cbn [mbind option_bind].
    destruct (IH total) as [[e ->]|(ds' & -> & Hg)].
    + left. cbn [mbind option_bind]. by eexists.
    + right. exists ((d, tmp) :: ds'). split; [done|]. rewrite fmap_cons. by constructor.
  - left. by eexists.
Qed.

Lemma metadata_total (mem : Z -> option (list char)) (ds : list (option coldesc * bool))
    (counted cols_ok bound : bool) :
  arenas mem -> (length ds <= Z.to_nat 32767)%nat ->
  Forall (fun x => match x.1 with Some d => good_column d | None => True end) ds ->
  (exists e, odbc_bind_resultset_metadata ds counted cols_ok bound mem = Some (inl e))
  \/ exists ds' cols arena,
     odbc_bind_resultset_metadata ds counted cols_ok bound mem = Some (inr (cols, arena))
     /\ ds = all_described ds' /\ Forall good_column ds'.*1 /\ Forall2 describes ds'.*1 cols
     /\ layout 0 cols /\ (total_alloc ds'.*1 <= length arena)%nat.
Proof.
  intros Hm Hl Hg. unfold odbc_bind_resultset_metadata, alloc_metadata_cols.
  destruct counted; [|left; by eexists]. cbn [negb].
  destruct (Nat.eqb_spec (length ds) 0) as [Hz|Hz].
  { right. apply nil_length_inv in Hz as ->. exists [], [], []. done. }
  destruct ((256 <? length ds)%nat && negb cols_ok); [left; by eexists|].
  destruct (described_or_fails ds 0 Hg) as [[e ->]|(ds' & -> & Hg')]; [left; by eexists|].
  unfold all_described in Hl. rewrite length_fmap in Hl.
  destruct (setup_metadata_ok ds' 0 Hg') as (cols & -> & Hd); [lia|unfold SIZE_MAX; lia|].
  cbn [mbind option_bind]. rewrite Z.add_0_l.
  destruct (Z.eqb_spec (Z.of_nat (total_alloc ds'.*1)) 0); [left; by eexists|].
  destruct (mem _) as [arena|] eqn:E; [|left; by eexists]. destruct bound; [|left; by eexists].
  right. destruct (bind_columns_ok _ _ 0 Hd) as [Hlay Hd']. eexists ds', _, arena. split; [done|].
  apply Hm in E. split_and!; try done. lia.
Qed.

Lemma described_cells (ds : list (coldesc * bool)) (row : list cell) :
  Forall2 (fun x c => match x.1 with Some d => cell_fits d c | None => True end) (all_described ds) row ->
  Forall2 cell_fits ds.*1 row.
Proof. unfold all_described. intros H. apply Forall2_fmap_l in H. apply Forall2_fmap_l. exact H. Qed.

(** A result set is fetched without touching memory it should not, however the
    driver and the allocator behave. *)
Lemma resultset_total (num_buf out : list char) (mem : Z -> option (list char)) (rs : resultset) (b : bool) :
  length num_buf = 64%nat -> arenas mem -> good_resultset rs ->
  is_Some (fetch_resultset_array num_buf mem rs out b).
Proof.
  intros Hn Hm (Hl & Hg & Hr). unfold fetch_resultset_array.
  destruct (metadata_total mem (columns rs) (counted rs) (cols_ok rs) (bound rs) Hm Hl Hg)
    as [[e ->]|(ds & cols & arena & -> & Ed & Hg' & Hd & Ho & Ha)]; cbn [mbind option_bind]; [by eexists|].
  rewrite Ed in Hr. assert (Forall (Forall2 cell_fits ds.*1) (rows rs)) as Hr'
    by (eapply Forall_impl; [|exact Hr]; intros row; apply described_cells).
  destruct (new_jbuf_wf out) as [Hw _]. destruct (b && (length cols =? 0)%nat).
  { destruct (writes_add (lit "[]") _ Hw) as (j1 & -> & _). by eexists. }
  assert (exists j, (if b then jbuf_add (lit "[") (new_jbuf out) else Some (new_jbuf out)) = Some j /\ jb_wf j)
    as (j & -> & Hj).
  { destruct b; [|by eauto]. destruct (writes_add (lit "[") _ Hw) as (j1 & -> & ? & _). eauto. }
  cbn [mbind option_bind].
  destruct (fetch_rows_ok num_buf Hn ds.*1 cols (rows rs) (complete rs) true j arena Hg' Hd Hr' Ho Ha Hj)
    as (j2 & -> & H2 & _). cbn [mbind option_bind].
  destruct (complete rs); [|by eexists]. destruct b; [|by eexists].
  destruct (writes_add_char "]"%char j2 H2) as (j3 & -> & _). by eexists.
Qed.

(** C28: a result set is printed exactly as its rows. For every set of at least
    one and at most 32767 columns whose names have at most 127 bytes and whose
    escaped keys have at most 255 ([good_column]; a longer name is read out of
    bounds, [long_name_overreads], and a longer key is cut), whose cells have the
    types of their columns, and when the columns can be described and bound and the
    allocations succeed: whatever the number of rows, the lengths of the texts and
    their characters, and whatever the output buffer and the arena held before,
    [fetch_resultset_array] appends the array of the row objects (each column as
    its escaped name and its value, in the order of the columns) and touches no
    byte outside its buffers: neither the 8192-byte staging buffer nor the way
    the columns share one arena can be seen in the output. If the driver fails
    after some rows, the rows so far are left in the output without the closing
    bracket and the failure is reported. That a number behind a one-byte column
    is read from an unaligned address ([unaligned_column]) is not counted as a
    fault. *)
Theorem resultset_json (num_buf out : list char) (mem : Z -> option (list char))
    (ds : list (coldesc * bool)) (rows : list (list cell)) (complete : bool) :
  length num_buf = 64%nat -> memory mem -> ds <> [] -> (length ds <= Z.to_nat 32767)%nat ->
  Forall good_column ds.*1 -> Forall (Forall2 cell_fits ds.*1) rows ->
  let rs := Resultset true (all_described ds) true true rows complete in
  let failure := if complete then None else Some (Reported "SQLFetch failed") in
  fetch_resultset_array num_buf mem rs out true
    = Some (failure, out ++ ["["%char] ++ rows_text ds.*1 rows ++ if complete then ["]"%char] else [])
  /\ fetch_resultset_array num_buf mem rs out false = Some (failure, out ++ rows_text ds.*1 rows).
Proof. apply fetch_resultset_ok. Qed.

(** A cell whose text is a JSON integer or string. *)
Definition field (d : coldesc) (x : cell) : option flat :=
  match x with
  | CInt z | CBigInt z => Some (FInt z)
  | CText t true =>
      if decide (is_decimal d) then None else Some (FString (t ≫= escape_char) t)
  | _ => None
  end.

(** A plain column and a value of it, kept whole by its buffer. *)
Definition whole_field (d : coldesc) (x : cell) (v : flat) : Prop :=
  plain (d_name d) /\ cell_fits d x /\ field d x = Some v
  /\ match x with
     | CText t _ => no_nul t /\ (length t < column_alloc d)%nat /\ (Z.of_nat (length t) <= 2 ^ 31 - 1)%Z
     | _ => True
     end.

Lemma whole_field_text (d : coldesc) (x : cell) (v : flat) :
  whole_field d x v -> key_text d ++ value_text d x = quoted (d_name d) ++ [":"%char] ++ flat_value v.
Proof.
  intros (Hp & _ & Hv & Hx). unfold key_text. rewrite (plain_escape _ Hp), <- (assoc_L (++)).
  do 2 f_equal. destruct x as [| |z|z| |t []]; try done; cbn [field value_text] in *;
    [by injection Hv as <-..|]. destruct (decide (is_decimal d)); [done|]. injection Hv as <-.
  cbn [flat_value shown]. rewrite take_ge by lia. done.
Qed.

Lemma commas_members (l : list (cstr * flat)) :
  commas ((fun kv => quoted kv.1 ++ [":"%char] ++ flat_value kv.2) <$> l) = flat_members l.
Proof.
  induction l as [|[k v] [|[k2 v2] l] IH]; [done|done|].
  rewrite !fmap_cons in *. change (commas (?a :: ?b :: ?r)) with (a ++ [","%char] ++ commas (b :: r)).
  rewrite IH. cbn [flat_members fst snd]. rewrite <- !(assoc_L (++)). done.
Qed.

(** What json-c reads from the text of a row. *)
Definition reads_row `{J : JsonC} (ds : list coldesc) (vs : list flat) (text : list char) : Prop :=
  exists o, json_tokener_parse text = Some o
    /\ json_object_get_type (Some o) = json_type_object
    /\ forall i d v, ds !! i = Some d -> vs !! i = Some v ->
       exists x, json_object_object_get_ex (Some o) (d_name d) = Some (Some x)
         /\ match v with
            | FString _ decoded => json_object_get_type (Some x) = json_type_string
                /\ json_object_get_string (Some x) = Some decoded
            | FInt z => json_object_get_type (Some x) = json_type_int
                /\ json_object_get_int64 (Some x) = z
            end.

Lemma row_text_reads `{JL : JsonCLaws} (ds : list coldesc) (cells : list cell) (vs : list flat) :
  NoDup (d_name <$> ds) -> Forall3 whole_field ds cells vs -> reads_row ds vs (row_text ds cells).
Proof.
  intros Hnd H. set (l := zip (d_name <$> ds) vs).
  assert (row_text ds cells = flat_text l) as ->.
  { unfold row_text, flat_text. rewrite <- commas_members. do 2 f_equal. subst l. clear Hnd.
    f_equal. induction H as [|d x v ds cells vs Hd _ IH]; [done|].
    cbn [zip_with]. rewrite !fmap_cons. cbn [zip zip_with]. rewrite fmap_cons. cbn [fst snd].
    rewrite (whole_field_text d x v Hd). f_equal. apply IH. }
  assert (l.*1 = d_name <$> ds) as El.
  { subst l. apply fst_zip. rewrite length_fmap. apply Forall3_length_lr in H. lia. }
  destruct (parse_flat l) as (o & Ho & Ht & Hm).
  - split; [by rewrite El|]. subst l. clear Hnd El.
    induction H as [|d x v ds cells vs Hd _ IH]; [constructor|]. cbn [zip zip_with fmap list_fmap].
    constructor; [|exact IH]. cbn [fst snd]. destruct Hd as (Hp & Hf & Hv & Hx).
    split; [by apply scans_plain|]. unfold cell_fits in Hf.
    destruct x as [| |z|z| |t []]; try done; cbn [field] in Hv.
    + injection Hv as <-. destruct ((column_type d).1); try done. lia.
    + injection Hv as <-. by destruct ((column_type d).1).
    + destruct (decide (is_decimal d)); [done|]. injection Hv as <-. destruct Hx as (? & _ & ?).
      split; [apply scans_escape|done].
  - exists o. split; [done|]. split; [done|]. intros i d v Hd Hv. apply Hm.
    apply elem_of_lookup_zip_with. exists i, (d_name d), v. rewrite list_lookup_fmap, Hd, Hv. done.
Qed.

Lemma whole_cells (ds : list coldesc) (cells : list cell) (vs : list flat) :
  Forall3 whole_field ds cells vs -> Forall2 cell_fits ds cells.
Proof. induction 1 as [|d x v ds cells vs (_ & Hf & _) _ IH]; by constructor. Qed.

(** C29: the rows read back as they were. For every result set of integer and
    text columns with distinct plain names of at most 127 bytes, the texts being
    kept whole by their columns, [fetch_resultset_array] (when the allocations
    succeed and the driver delivers the set whole) prints an array of as many
    texts as there are rows, and from the text of each row json-c reads an
    object that has under each column's name exactly the integer or the text of
    the cell: quotes, backslashes and control characters in the data cannot
    break or forge the document. *)
Theorem row_roundtrip `{JL : JsonCLaws} (num_buf out : list char) (mem : Z -> option (list char))
    (ds : list (coldesc * bool)) (rows : list (list cell)) (vss : list (list flat)) :
  length num_buf = 64%nat -> memory mem -> ds <> [] -> (length ds <= Z.to_nat 32767)%nat ->
  Forall good_column ds.*1 -> NoDup (d_name <$> ds.*1) -> Forall2 (Forall3 whole_field ds.*1) rows vss ->
  exists texts,
    fetch_resultset_array num_buf mem (Resultset true (all_described ds) true true rows true) out true
      = Some (None, out ++ lit "[" ++ commas texts ++ lit "]")
    /\ Forall2 (reads_row ds.*1) vss texts.
Proof.
  intros Hb Hm Hne Hl Hg Hnd H. exists (row_text ds.*1 <$> rows). split.
  - apply (fetch_resultset_ok num_buf out mem ds rows true Hb Hm Hne Hl Hg). clear Hnd.
    induction H as [|cells vs rows vss Hc _ IH]; constructor; [by eapply whole_cells|done].
  - clear Hl Hg. induction H as [|cells vs rows vss Hc _ IH]; rewrite ?fmap_nil, ?fmap_cons; constructor; [|done].
    by apply row_text_reads.
Qed.

(** A column name of more than 128 bytes is read beyond its array: the length
    reported by [SQLDescribeCol] is that of the whole name. *)
Lemma long_name_overreads (d : coldesc) :
  (128 < length (d_name d))%nat -> setup_column d true = None.
Proof.
  intros H. unfold setup_column, evbuffer_append_escaped_str, jbuf_append_escaped_str.
  rewrite decide_False; [done|]. unfold described_name.
  rewrite length_app, length_replicate, length_take. lia.
Qed.

(** ** Concrete applications *)

Definition sample_columns : list (coldesc * bool) :=
  [(Describe (lit "id") SQL_INTEGER 10, true); (Describe (lit "name") SQL_OTHER_TYPE 20, false)].

Definition sample_rows : list (list cell) :=
  [[CInt 7; CText (lit "a`b\") true]; [CInt (-12); CNull]].

Definition zeroed (n : Z) : option (list char) := Some (replicate (Z.to_nat n) NUL).

(** A one-byte column shifts the integers behind it off their alignment. *)
Lemma unaligned_column :
  exists cols arena c,
    odbc_bind_resultset_metadata
      [(Some (Describe (lit "b") SQL_BIT 1), true); (Some (Describe (lit "n") SQL_INTEGER 10), true)]
      true true true zeroed = Some (inr (cols, arena))
    /\ cols !! 1%nat = Some c /\ c_type c = SQL_C_SLONG /\ (buffer c mod 4 = 1)%nat.
Proof. vm_compute. do 3 eexists. split; [reflexivity|]. by split_and!. Qed.

Lemma resultset_json_witness :
  fetch_resultset_array (replicate 64 NUL) zeroed
    (Resultset true (all_described sample_columns) true true sample_rows true) (lit "x") true
  = Some (None, lit "x[{`id`:7,`name`:`a\`b\\`},{`id`:-12,`name`:null}]").
Proof.
  destruct (resultset_json (replicate 64 NUL) (lit "x") zeroed sample_columns sample_rows true) as [H _].
  - reflexivity.
  - intros n. eexists. split; [reflexivity|]. rewrite length_replicate. lia.
  - discriminate.
  - cbn. lia.
  - repeat constructor; cbn; lia.
  - repeat constructor; cbn; lia.
  - rewrite H. vm_compute. reflexivity.
Defined.

Lemma row_roundtrip_witness :
  exists texts,
    fetch_resultset_array (replicate 64 NUL) zeroed
      (Resultset true (all_described sample_columns) true true [[CInt 7; CText (lit "a`b\") true]] true) [] true
      = Some (None, lit "[" ++ commas texts ++ lit "]")
    /\ Forall2 (reads_row (J := Model.model_json_c) sample_columns.*1)
         [[FInt 7; FString (lit "a\`b\\") (lit "a`b\")]] texts.
Proof.
  apply (row_roundtrip (JL := Model.model_json_c_laws) (replicate 64 NUL) [] zeroed sample_columns
    [[CInt 7; CText (lit "a`b\") true]] [[FInt 7; FString (lit "a\`b\\") (lit "a`b\")]]).
  - reflexivity.
  - intros n. eexists. split; [reflexivity|]. rewrite length_replicate. lia.
  - discriminate.
  - cbn. lia.
  - repeat constructor; cbn; lia.
  - apply (bool_decide_unpack (NoDup _)). vm_compute. done.
  - assert (forall s, bool_decide (plain s) = true -> plain s) as Hp
      by (intros s Hs; by apply bool_decide_eq_true in Hs).
    constructor; [|constructor].
    constructor; [|constructor; [|constructor]]; (split; [apply Hp; vm_compute; done|]);
      (split; [cbn; lia|]); (split; [vm_compute; reflexivity|]); [done|].
    split; [apply (bool_decide_unpack (no_nul _)); vm_compute; done|].
    split; [vm_compute; lia|vm_compute; discriminate].
Defined.

End DbJson.
