(* ===== verification/Sodium.v ===== *)
(** * libsodium: the interface the server relies on

    libsodium is not part of the repository: the routines the server calls are
    the operations of the class [Sodium], with their documented behaviour in
    [SodiumLaws].  Random bytes are an argument of the code that draws them.
    [Base64] is the URL-safe alphabet without padding, from which the instance
    [model_sodium] is built; its message authentication code is a checksum that
    only serves to evaluate examples. *)

From S2P Require Import Prelude JsonUtil.
Import Encode.

(** [crypto_auth_hmacsha256_BYTES] and [crypto_auth_hmacsha256_KEYBYTES] *)
Definition HMAC_BYTES : nat := 32.

(** The URL-safe base64 alphabet *)
Definition BASE64URL : cstr := lit "ABCDEFGHIJKLMNOPQRSTUVWXYZabcdefghijklmnopqrstuvwxyz0123456789-_".

Class Sodium := {
  (** [crypto_auth_hmacsha256], message then key *)
  hmacsha256 : list char -> list char -> list char;
  (** [sodium_bin2base64] and [sodium_base64_ENCODED_LEN] of the URL-safe
      variant without padding *)
  bin2base64 : list char -> cstr;
  base64_ENCODED_LEN : Z -> Z;
  (** [sodium_base642bin] into a buffer of the given size; [None] on failure *)
  base642bin : nat -> cstr -> option (list char);
  (** [sodium_hex2bin], likewise; the answer is the bytes decoded *)
  hex2bin : nat -> cstr -> option (list char);
}.

Class SodiumLaws (S : Sodium) : Prop := {
  hmac_length (m k : list char) : length (hmacsha256 m k) = HMAC_BYTES;
  base64_inverse (n : nat) (b : list char) :
    (length b <= n)%nat -> base642bin n (bin2base64 b) = Some b;
  base64_fits (n : nat) (s : cstr) (b : list char) :
    base642bin n s = Some b -> (length b <= n)%nat;
  base64_alphabet (b : list char) :
    Forall (fun c => c ∈ BASE64URL) (bin2base64 b);
  base64_encoded_len (b : list char) :
    (Z.of_nat (length (bin2base64 b)) + 1 <= base64_ENCODED_LEN (Z.of_nat (length b)))%Z;
  base64_expansion (n : Z) :
    (0 <= n)%Z -> (base64_ENCODED_LEN n <= n / 3 * 4 + 4)%Z;
}.

(** ** URL-safe base64 without padding *)

(** The characters of the alphabet need no escape in JSON and are not dots. *)
Lemma base64_chars `{SodiumLaws} (b : list char) :
  Forall (fun c => (c <> NUL /\ c <> "."%char) /\ escape_char c = [c]) (bin2base64 b).
Proof.
  assert (Forall (fun c => (c <> NUL /\ c <> "."%char) /\ escape_char c = [c]) BASE64URL) as HF
    by (apply (bool_decide_unpack _); by vm_compute).
  eapply Forall_impl; [|apply base64_alphabet]. intros c Hc. by apply (proj1 (list.Forall_forall _ _) HF).
Qed.

Module Base64.

Definition alphabet : cstr := BASE64URL.

Definition sextet (v : Z) : char := default NUL (alphabet !! Z.to_nat (v mod 64)).

Definition value (c : char) : option Z :=
  if ((65 <=? uchar c) && (uchar c <=? 90))%Z then Some (uchar c - 65)%Z
  else if ((97 <=? uchar c) && (uchar c <=? 122))%Z then Some (uchar c - 71)%Z
  else if ((48 <=? uchar c) && (uchar c <=? 57))%Z then Some (uchar c + 4)%Z
  else if (uchar c =? 45)%Z then Some 62%Z
  else if (uchar c =? 95)%Z then Some 63%Z
  else None.

Fixpoint encode (b : list char) : cstr :=
  match b with
  | [] => []
  | [x] => [sextet (uchar x / 4); sextet (uchar x * 16)]
  | [x; y] => [sextet (uchar x / 4); sextet (uchar x * 16 + uchar y / 16); sextet (uchar y * 4)]
  | x :: y :: z :: b' =>
      sextet (uchar x / 4) :: sextet (uchar x * 16 + uchar y / 16)
      :: sextet (uchar y * 4 + uchar z / 64) :: sextet (uchar z) :: encode b'
  end.

Definition byte (v : Z) : char := char_of_Z v.

Fixpoint decode (s : cstr) : option (list char) :=
  match s with
  | [] => Some []
  | [_] => None
  | [a; b] =>
      p ← value a; q ← value b;
      if (q mod 16 =? 0)%Z then Some [byte (p * 4 + q / 16)] else None
  | [a; b; c] =>
      p ← value a; q ← value b; r ← value c;
      if (r mod 4 =? 0)%Z then Some [byte (p * 4 + q / 16); byte (q * 16 + r / 4)] else None
  | a :: b :: c :: d :: s' =>
      p ← value a; q ← value b; r ← value c; t ← value d;
      rest ← decode s';
      Some (byte (p * 4 + q / 16) :: byte (q * 16 + r / 4) :: byte (r * 64 + t) :: rest)
  end.

Definition bounded_decode (n : nat) (s : cstr) : option (list char) :=
  b ← decode s; if (length b <=? n)%nat then Some b else None.

Lemma value_sextet (v : Z) : value (sextet v) = Some (v mod 64)%Z.
Proof.
  unfold sextet. pose proof (Z.mod_pos_bound v 64 ltac:(lia)) as H.
  remember (Z.to_nat (v mod 64)) as k eqn:Hk. replace (v mod 64)%Z with (Z.of_nat k) by lia.
  assert (k < 64)%nat by lia. clear Hk H.
  do 64 (destruct k as [|k]; [reflexivity|]). lia.
Qed.

Lemma sextet_alphabet (v : Z) : sextet v ∈ BASE64URL.
Proof.
  unfold sextet. destruct (lookup_lt_is_Some_2 alphabet (Z.to_nat (v mod 64))) as [c Hc].
  - change (length alphabet) with 64%nat. pose proof (Z.mod_pos_bound v 64 ltac:(lia)). lia.
  - rewrite Hc. by eapply list_elem_of_lookup_2.
Qed.

Lemma byte_uchar (c : char) (z : Z) : (z mod 256 = uchar c)%Z -> byte z = c.
Proof.
  intros E. apply uchar_inj. unfold byte, char_of_Z, uchar in *.
  rewrite E. by rewrite N2Z.id, ascii_N_embedding.
Qed.

(** Induction three bytes at a time. *)
Lemma triple_ind (P : list char -> Prop) :
  P [] -> (forall x, P [x]) -> (forall x y, P [x; y]) ->
  (forall x y z b, P b -> P (x :: y :: z :: b)) -> forall b, P b.
Proof.
  intros H0 H1 H2 H3 b.
  enough (P b /\ (forall x, P (x :: b)) /\ (forall x y, P (x :: y :: b))) as [? _] by done.
  induction b as [|c b (IH0 & IH1 & IH2)]; split_and!; auto.
Qed.

Lemma decode_encode (b : list char) : decode (encode b) = Some b.
Proof.
  induction b as [|x|x y|x y z b IH] using triple_ind; [done|..];
    pose proof (uchar_range x); try pose proof (uchar_range y); try pose proof (uchar_range z);
    cbn [encode decode]; rewrite !value_sextet; cbn [mbind option_bind]; rewrite ?IH;
    cbn [mbind option_bind].
  - rewrite (proj2 (Z.eqb_eq _ _)) by lia. do 2 f_equal. apply byte_uchar. lia.
  - rewrite (proj2 (Z.eqb_eq _ _)) by lia. repeat f_equal; apply byte_uchar; lia.
  - repeat f_equal; apply byte_uchar; lia.
Qed.

Lemma encode_alphabet (b : list char) : Forall (fun c => c ∈ BASE64URL) (encode b).
Proof.
  induction b using triple_ind; cbn [encode];
    repeat (constructor; [apply sextet_alphabet|]); done || constructor.
Qed.

Definition encoded_len (n : Z) : Z :=
  (n / 3 * 4 + (if n mod 3 =? 0 then 0 else n mod 3 + 1) + 1)%Z.

Lemma length_encode (b : list char) :
  (Z.of_nat (length (encode b)) + 1)%Z = encoded_len (Z.of_nat (length b)).
Proof.
  induction b as [|x|x y|x y z b IH] using triple_ind; [done..|].
  cbn [encode length]. unfold encoded_len in *.
  replace (Z.of_nat (S (S (S (length b))))) with (Z.of_nat (length b) + 1 * 3)%Z by lia.
  rewrite Z.div_add, Z_mod_plus_full by lia. lia.
Qed.

End Base64.

(** ** A concrete instance *)

Module SodiumModel.

Definition checksum (m k : list char) : list char :=
  let h := fold_left (fun acc c => (acc * 31 + uchar c) mod 65521)%Z (k ++ m) 7%Z in
  char_of_Z (h / 256) :: char_of_Z h :: replicate 30 NUL.

Fixpoint unhex (s : cstr) : option (list char) :=
  match s with
  | [] => Some []
  | a :: b :: s' =>
      p ← hex_val a; q ← hex_val b; rest ← unhex s'; Some (char_of_Z (p * 16 + q) :: rest)
  | _ => None
  end.

#[export] Instance model_sodium : Sodium := {
  hmacsha256 := checksum;
  bin2base64 := Base64.encode;
  base64_ENCODED_LEN := Base64.encoded_len;
  base642bin := Base64.bounded_decode;
  hex2bin n s := b ← unhex s; if (length b <=? n)%nat then Some b else None;
}.

#[export] Instance model_sodium_laws : SodiumLaws model_sodium.
Proof.
  split; simpl.
  - done.
  - intros n b Hb. unfold Base64.bounded_decode. rewrite Base64.decode_encode. simpl.
    by rewrite (proj2 (Nat.leb_le _ _)).
  - intros n s b. unfold Base64.bounded_decode. destruct (Base64.decode s); [|done]. simpl.
    destruct (Nat.leb_spec (length l) n); [|done]. by intros [= <-].
  - apply Base64.encode_alphabet.
  - intros b. by rewrite Base64.length_encode.
  - intros n Hn. unfold Base64.encoded_len. case_ifs; bool_to_prop; lia.
Qed.

End SodiumModel.
