(* ===== verification/Jwt.v ===== *)
(** * lib/jwt.c: session tokens

    [secret] is the static array [g_jwt_secret_bytes] and [now] the result of
    [time(nullptr)].  A character array that is only used as a string is its
    content; [snprintf] into it truncates at the size of the array, and the
    code compares the untruncated length it returns. *)

From S2P Require Import Prelude JsonUtil Dtoa JsonC Sodium.
Import Encode Itoa.

Module Jwt.

(** ** [generate_uuidv4] *)

(** The dash in front of byte [i], and its two hexadecimal digits. *)
Definition uuid_chars (i : nat) (b : Z) : list char :=
  (if (i =? 4)%nat || (i =? 6)%nat || (i =? 8)%nat || (i =? 10)%nat then ["-"%char] else [])
  ++ [hex (Z.shiftr b 4); hex (Z.land b 15)].

Fixpoint uuid_loop (i : nat) (bytes : list Z) (out : list char) (p : nat)
    : option (list char * nat) :=
  match bytes with
  | [] => Some (out, p)
  | b :: bytes' => '(out', p') ← put_all out p (uuid_chars i b); uuid_loop (S i) bytes' out' p'
  end.

Definition set_version (bytes : list Z) : list Z :=
  let bytes := alter (fun b => Z.lor (Z.land b 15) 64) 6 bytes in
  alter (fun b => Z.lor (Z.land b 63) 128) 8 bytes.

(** [bytes] is what [randombytes_buf] drew. *)
Definition generate_uuidv4 (bytes : list Z) (out : list char) : option (list char) :=
  '(out', p) ← uuid_loop 0 (set_version bytes) out 0;
  put out' p NUL.

(** The string left in the buffer. *)
Fixpoint uuid_from (i : nat) (bytes : list Z) : cstr :=
  match bytes with [] => [] | b :: bytes' => uuid_chars i b ++ uuid_from (S i) bytes' end.
Definition uuid_text (bytes : list Z) : cstr := uuid_from 0 (set_version bytes).

(** ** Tokens *)

Section Tokens.
Context `{J : JsonC, S : Sodium}.
Context (secret : list char).

(** [jwt_init]: the key, unless the process exits. *)
Definition jwt_init (secret_hex : cstr) : option (list char) :=
  b ← hex2bin HMAC_BYTES secret_hex;
  if (length b =? HMAC_BYTES)%nat then Some b else None.

(** [b64_decode_segment]: the bytes stored in front of the terminator. *)
Definition b64_decode_segment (start : cstr) (out_maxlen : nat) : option (list char) :=
  if (out_maxlen =? 0)%nat then None else base642bin (out_maxlen - 1) start.

(** [jwt_decode_header] and [jwt_decode_payload] *)
Definition jwt_decode_header (jwt : cstr) (out_maxlen : nat) : option (list char) :=
  '(seg, _) ← strchr jwt "."%char;
  b64_decode_segment seg out_maxlen.

Definition jwt_decode_payload (jwt : cstr) (out_maxlen : nat) : option (list char) :=
  '(_, payload_start) ← strchr jwt "."%char;
  '(seg, _) ← strchr payload_start "."%char;
  b64_decode_segment seg out_maxlen.

(** The size of the [payload_json] arrays. *)
Definition PAYLOAD_JSON_SIZE : nat := 8 * 1024.

(** [jwt_get_expiration] *)
Definition jwt_get_expiration (jwt : cstr) : Z :=
  match jwt_decode_payload jwt PAYLOAD_JSON_SIZE with
  | None => 0%Z
  | Some payload_json =>
      match json_tokener_parse (c_str payload_json) with
      | None => 0%Z
      | Some jwt_obj =>
          match json_object_object_get_ex (Some jwt_obj) (lit "exp") with
          | Some exp_obj => json_object_get_int64 exp_obj
          | None => 0%Z
          end
      end
  end.

Definition payload_text (escaped_user session_id : cstr) (now exp : Z) : cstr :=
  lit "{`username`:`" ++ escaped_user ++ lit "`,`sessionId`:`" ++ session_id
  ++ lit "`,`iat`:" ++ dec_text now ++ lit ",`exp`:" ++ dec_text exp ++ lit "}".

(** [jwt_build_payload]: the payload, or [None] when it does not fit. *)
Definition jwt_build_payload (username session_id : cstr) (timeout_seconds : Z)
    (payload_max : nat) (now : Z) : option cstr :=
  let escaped_user := json_encode 128 username in
  let text := payload_text escaped_user session_id now (now + timeout_seconds) in
  if (length text <? payload_max)%nat then Some text else None.

(** [jwt_sign_msg] *)
Definition jwt_sign_msg (msg : cstr) (out_jwt_size : nat) : option cstr :=
  let mac := hmacsha256 msg secret in
  if (128 <? base64_ENCODED_LEN (Z.of_nat HMAC_BYTES))%Z then None else
  let final := msg ++ lit "." ++ bin2base64 mac in
  if (length final <? out_jwt_size)%nat then Some final else None.

Definition jwt_header : cstr := lit "{`alg`:`HS256`,`typ`:`JWT`}".

(** [jwt_create]: the token, or [None] for [false]. *)
Definition jwt_create (username session_id : option cstr) (timeout_seconds : Z)
    (out_jwt_size : nat) (now : Z) : option cstr :=
  username ← username;
  session_id ← session_id;
  if (out_jwt_size =? 0)%nat then None else
  payload ← jwt_build_payload username session_id timeout_seconds 512 now;
  if (128 <? base64_ENCODED_LEN (Z.of_nat (length jwt_header)))%Z
     || (512 <? base64_ENCODED_LEN (Z.of_nat (length payload)))%Z then None else
  let text := bin2base64 jwt_header ++ lit "." ++ bin2base64 payload in
  if (768 <=? length text)%nat then None else jwt_sign_msg text out_jwt_size.

(** [jwt_check_header_alg] *)
Definition jwt_check_header_alg (token : cstr) : bool :=
  match jwt_decode_header token 1024 with
  | None => false
  | Some header_json =>
      strstr (c_str header_json) (lit "`alg`:`HS256`")
      || strstr (c_str header_json) (lit "`alg`: `HS256`")
  end.

(** [jwt_verify_mac] *)
Definition jwt_verify_mac (msg : cstr) (msg_len : nat) (signature : cstr) : bool :=
  let mac := hmacsha256 (take msg_len msg) secret in
  match base642bin HMAC_BYTES signature with
  | None => false
  | Some provided_mac =>
      if (length provided_mac =? HMAC_BYTES)%nat then bool_decide (mac = provided_mac) else false
  end.

(** The return code, and what was stored in the output buffers. *)
Inductive jwt_code := JWT_OK | JWT_ERR_EXPIRED | JWT_ERR_INVALID.

Record jwt_result := Result {
  code : jwt_code;
  out_username : option cstr;
  out_session_id : option cstr;
}.

Definition invalid : jwt_result := Result JWT_ERR_INVALID None None.

(** A claim copied into a buffer: [None] makes the token invalid, [Some None]
    is a caller without a buffer. *)
Definition copy_claim (obj : option jobj) (key : cstr) (size : option nat)
    : option (option cstr) :=
  match size with
  | None => Some None
  | Some n =>
      o ← json_object_object_get_ex obj key;
      text ← json_object_get_string o;
      if (n <=? length text)%nat then None else Some (Some (strlcpy n text))
  end.

(** [jwt_parse_payload] *)
Definition jwt_parse_payload (payload_json : cstr) (uname_size sess_size : option nat) (now : Z)
    : jwt_result :=
  match json_tokener_parse payload_json with
  | None => invalid
  | Some jwt_obj =>
      match json_object_object_get_ex (Some jwt_obj) (lit "exp") with
      | None => invalid
      | Some exp_obj =>
          if (json_object_get_int64 exp_obj <? now)%Z then Result JWT_ERR_EXPIRED None None else
          match copy_claim (Some jwt_obj) (lit "username") uname_size with
          | None => invalid
          | Some uname =>
              match copy_claim (Some jwt_obj) (lit "sessionId") sess_size with
              | None => Result JWT_ERR_INVALID uname None
              | Some sess => Result JWT_OK uname sess
              end
          end
      end
  end.

(** [jwt_verify] *)
Definition jwt_verify (token : option cstr) (uname_size sess_size : option nat) (now : Z)
    : jwt_result :=
  match token with
  | None => invalid
  | Some token =>
      match strchr token "."%char with
      | None => invalid
      | Some (hdr, rest) =>
          match strchr rest "."%char with
          | None => invalid
          | Some (pay, signature) =>
              match strchr signature "."%char with
              | Some _ => invalid
              | None =>
                  let msg_len := (length hdr + 1 + length pay)%nat in
                  if negb (jwt_check_header_alg token) then invalid
                  else if negb (jwt_verify_mac token msg_len signature) then invalid
                  else match jwt_decode_payload token PAYLOAD_JSON_SIZE with
                       | None => invalid
                       | Some payload_json =>
                           jwt_parse_payload (c_str payload_json) uname_size sess_size now
                       end
              end
          end
      end
  end.

End Tokens.

(** ** Lemmas on [generate_uuidv4] *)

Lemma uuid_loop_spec (bytes : list Z) (i : nat) (pre post : list char) :
  (length (uuid_from i bytes) <= length post)%nat ->
  uuid_loop i bytes (pre ++ post) (length pre)
  = Some (pre ++ uuid_from i bytes ++ drop (length (uuid_from i bytes)) post,
          length pre + length (uuid_from i bytes))%nat.
Proof.
  revert i pre post. induction bytes as [|b bytes IH]; intros i pre post Hl; cbn [uuid_loop uuid_from] in *.
  { by rewrite Nat.add_0_r. }
  rewrite length_app in Hl. rewrite put_all_spec by lia. cbn [mbind option_bind].
  rewrite (assoc_L (++)). specialize (IH (S i) (pre ++ uuid_chars i b) (drop (length (uuid_chars i b)) post)).
  rewrite !length_app in IH. rewrite IH by (rewrite length_drop; lia).
  rewrite <- !(assoc_L (++)), drop_drop, length_app. f_equal. f_equal. lia.
Qed.

(** A statement about a byte, from its 256 instances. *)
Lemma byte_cases (P : Z -> Prop) :
  (forall c, P (uchar c)) -> forall b, (0 <= b < 256)%Z -> P b.
Proof. intros H b Hb. rewrite <- (uchar_char_of_Z b Hb). apply H. Qed.

Definition is_hex (c : char) : bool := isdigit c || ((97 <=? uchar c) && (uchar c <=? 102))%Z.

(** Both digits of a byte are hexadecimal and denote it. *)
Lemma hex_digits (b : Z) :
  (0 <= b < 256)%Z ->
  is_hex (hex (Z.shiftr b 4)) && is_hex (hex (Z.land b 15)) = true
  /\ hex_val (hex (Z.shiftr b 4)) = Some (b / 16)%Z /\ hex_val (hex (Z.land b 15)) = Some (b mod 16)%Z
  /\ hex (Z.shiftr b 4) <> "-"%char /\ hex (Z.land b 15) <> "-"%char.
Proof. revert b. apply byte_cases. intros c. split_and!; by_all_chars c. Qed.

Lemma version_byte (b : Z) :
  (0 <= b < 256)%Z ->
  (0 <= Z.lor (Z.land b 15) 64 < 256)%Z /\ hex (Z.shiftr (Z.lor (Z.land b 15) 64) 4) = "4"%char
  /\ (Z.lor (Z.land b 15) 64 mod 16 = b mod 16)%Z.
Proof. revert b. apply byte_cases. intros c. split_and!; by_all_chars c. Qed.

Lemma variant_byte (b : Z) :
  (0 <= b < 256)%Z ->
  (0 <= Z.lor (Z.land b 63) 128 < 256)%Z
  /\ hex (Z.shiftr (Z.lor (Z.land b 63) 128) 4) ∈ lit "89ab"
  /\ (Z.lor (Z.land b 63) 128 mod 64 = b mod 64)%Z.
Proof.
  revert b. apply byte_cases. intros c. split_and!; [by_all_chars c..| |by_all_chars c].
  apply (bool_decide_unpack (hex (Z.shiftr (Z.lor (Z.land (uchar c) 63) 128) 4) ∈ lit "89ab")).
  by_all_chars c.
Qed.

(** The shape of a UUID, and the bytes its digits denote. *)
Definition dash_at (i : nat) : bool :=
  (i =? 8)%nat || (i =? 13)%nat || (i =? 18)%nat || (i =? 23)%nat.

Definition uuid_shape (s : cstr) : Prop :=
  length s = 36%nat
  /\ (forall i c, s !! i = Some c -> if dash_at i then c = "-"%char else is_hex c = true)
  /\ s !! 14%nat = Some "4"%char
  /\ exists v, s !! 19%nat = Some v /\ v ∈ lit "89ab".

Fixpoint hex_bytes (s : cstr) : option (list Z) :=
  match s with
  | [] => Some []
  | a :: b :: s' =>
      p ← hex_val a; q ← hex_val b; rest ← hex_bytes s'; Some ((p * 16 + q)%Z :: rest)
  | _ => None
  end.

Definition uuid_bytes (s : cstr) : option (list Z) :=
  hex_bytes (filter (fun c => c <> "-"%char) s).

Lemma set_version_range (bytes : list Z) :
  Forall (fun b => 0 <= b < 256)%Z bytes -> Forall (fun b => 0 <= b < 256)%Z (set_version bytes).
Proof.
  intros H. unfold set_version. apply Forall_alter; [apply Forall_alter; [done|]|];
    intros b Hb Hr; [by apply version_byte|by apply variant_byte].
Qed.

Lemma uuid_bytes_from (i : nat) (bytes : list Z) :
  Forall (fun b => 0 <= b < 256)%Z bytes -> uuid_bytes (uuid_from i bytes) = Some bytes.
Proof.
  intros H. revert i. induction H as [|b bytes Hb _ IH]; intros i; [done|].
  destruct (hex_digits b Hb) as (_ & H1 & H2 & H3 & H4). specialize (IH (S i)).
  unfold uuid_bytes in *. cbn [uuid_from]. rewrite list.filter_app. unfold uuid_chars.
  assert (forall b : bool,
    filter (fun c => c <> "-"%char) (if b then ["-"%char] else []) = []) as D by (by intros []).
  rewrite list.filter_app, D.
  rewrite !list.filter_cons_True by done. simpl. rewrite H1, H2, IH. simpl.
  do 2 f_equal. lia.
Qed.

(** Sixteen bytes, as sixteen variables. *)
Lemma uuid_text_shape (bytes : list Z) :
  length bytes = 16%nat -> Forall (fun b => 0 <= b < 256)%Z bytes -> uuid_shape (uuid_text bytes).
Proof.
  intros Hl H. pose proof (set_version_range bytes H) as R. unfold uuid_text.
  do 16 (destruct bytes as [|? bytes]; [done|]). destruct bytes; [|done]. clear Hl.
  cbn [set_version alter list_alter] in *.
  assert (0 <= z5 < 256 /\ 0 <= z7 < 256)%Z as [H6 H8].
  { repeat (apply Forall_cons_iff in H as [? H]). done. }
  destruct (version_byte _ H6) as (_ & V & _). destruct (variant_byte _ H8) as (_ & W & _).
  split; [done|]. split; [|split; [simpl; by rewrite V|eexists; split; [reflexivity|done]]].
  clear V W H H6 H8. intros i c Hc.
  repeat match goal with
    | H : Forall _ (_ :: _) |- _ =>
        apply Forall_cons_iff in H as [[?%andb_true_iff _]%hex_digits H]
    end.
  destruct_and!.
  do 36 (destruct i as [|i]; [simpl in Hc |- *; injection Hc as <-; done|]). done.
Qed.

(** ** Lemmas on tokens *)

(** The members of a token's payload. *)
Definition payload_flat (user session_id : cstr) (now exp : Z) : list (cstr * flat) :=
  [(lit "username", FString (user ≫= escape_char) user);
   (lit "sessionId", FString session_id session_id);
   (lit "iat", FInt now); (lit "exp", FInt exp)].

Lemma payload_text_flat (user session_id : cstr) (now exp : Z) :
  payload_text (user ≫= escape_char) session_id now exp
  = flat_text (payload_flat user session_id now exp).
Proof.
  unfold payload_text, flat_text, payload_flat.
  cbn [flat_members flat_value]. unfold quoted.
  repeat first [progress rewrite <- !(assoc_L (++)) | progress simpl]. done.
Qed.

Lemma payload_flat_wf (user session_id : cstr) (now exp : Z) :
  no_nul user -> (length user <= 128)%nat -> plain session_id -> (length session_id <= 36)%nat ->
  (- 2 ^ 63 <= now < 2 ^ 63)%Z -> (- 2 ^ 63 <= exp < 2 ^ 63)%Z ->
  flat_wf (payload_flat user session_id now exp).
Proof.
  intros Hu Hul Hs Hsl Hn He. split; [by apply (bool_decide_unpack (NoDup _)); vm_compute|].
  repeat constructor; simpl; try done; try (intros rest; reflexivity); try lia;
    auto using scans_escape, scans_plain, plain_no_nul.
Qed.

Lemma payload_no_nul (escaped session_id : cstr) (now exp : Z) :
  no_nul escaped -> no_nul session_id -> no_nul (payload_text escaped session_id now exp).
Proof.
  intros Hu Hs. unfold payload_text. rewrite !no_nul_app.
  split_and!; try done; try apply print_int_no_nul;
    apply (bool_decide_unpack (no_nul _)); vm_compute; done.
Qed.

Lemma length_payload (escaped session_id : cstr) (now exp : Z) :
  (length escaped <= 127)%nat -> (length session_id <= 36)%nat ->
  (length (payload_text escaped session_id now exp) <= 255)%nat.
Proof.
  intros. unfold payload_text. rewrite !length_app.
  pose proof (length_dec_text now). pose proof (length_dec_text exp). simpl. lia.
Qed.

Section Roundtrip.
Context `{J : JsonC, !JsonCLaws J, S : Sodium, !SodiumLaws S}.
Context (secret : list char).

Definition token_of (payload : cstr) : cstr :=
  let text := bin2base64 jwt_header ++ lit "." ++ bin2base64 payload in
  text ++ lit "." ++ bin2base64 (hmacsha256 text secret).

Lemma length_base64 (b : list char) :
  (Z.of_nat (length (bin2base64 b)) < Z.of_nat (length b) / 3 * 4 + 4)%Z.
Proof.
  pose proof (base64_encoded_len b). pose proof (base64_expansion (Z.of_nat (length b)) ltac:(lia)).
  lia.
Qed.

Lemma jwt_create_eq (user session_id : cstr) (timeout now : Z) :
  (length session_id <= 36)%nat ->
  jwt_create secret (Some user) (Some session_id) timeout 1024 now
  = Some (token_of (payload_text (json_encode 128 user) session_id now (now + timeout))).
Proof.
  intros Hs. pose proof (length_json_encode 128 user ltac:(lia)) as Hu.
  pose proof (length_payload (json_encode 128 user) session_id now (now + timeout) ltac:(lia) Hs) as Hp.
  unfold jwt_create, jwt_build_payload. cbn [mbind option_bind].
  set (payload := payload_text _ _ _ _) in *. cbn zeta.
  rewrite (proj2 (Nat.ltb_lt _ 512)) by lia. cbn [mbind option_bind].
  pose proof (base64_expansion (Z.of_nat (length jwt_header)) ltac:(lia)) as E1.
  pose proof (base64_expansion (Z.of_nat (length payload)) ltac:(lia)) as E2.
  pose proof (base64_expansion (Z.of_nat HMAC_BYTES) ltac:(lia)) as E3.
  pose proof (length_base64 jwt_header) as L1. pose proof (length_base64 payload) as L2.
  change (Z.of_nat (length jwt_header)) with 27%Z in *. change (Z.of_nat HMAC_BYTES) with 32%Z in *.
  rewrite (proj2 (Z.ltb_ge _ _)), (proj2 (Z.ltb_ge _ _)) by lia. cbn [orb Nat.eqb].
  rewrite (proj2 (Nat.leb_gt 768 _)) by (rewrite !length_app; simpl; lia).
  unfold jwt_sign_msg, token_of. set (text := bin2base64 jwt_header ++ _).
  assert (length text <= 400)%nat as Ht by (subst text; rewrite !length_app; simpl; lia).
  pose proof (length_base64 (hmacsha256 text secret)) as L3. rewrite hmac_length in L3.
  change (Z.of_nat HMAC_BYTES) with 32%Z in *. rewrite (proj2 (Z.ltb_ge _ _)) by lia.
  cbv zeta. by rewrite (proj2 (Nat.ltb_lt _ 1024)) by (rewrite !length_app; simpl; lia).
Qed.

Lemma base64_no_dot (b : list char) : "."%char ∉ bin2base64 b.
Proof.
  intros [i Hi]%list_elem_of_lookup.
  by destruct (Forall_lookup_1 _ _ _ _ (base64_chars b) Hi) as [[? ?] _].
Qed.

Lemma token_plain (payload : cstr) : plain (token_of payload).
Proof.
  assert (forall b, plain (bin2base64 b)) as HB.
  { intros b. eapply Forall_impl; [|apply base64_chars]. naive_solver. }
  assert (plain (lit ".")) by (apply (bool_decide_unpack _); by vm_compute).
  unfold token_of. repeat (apply Forall_app; split); first [apply HB|done].
Qed.

Lemma dot_cons (s : cstr) : lit "." ++ s = "."%char :: s.
Proof. done. Qed.

(** A token of this key passes every check in front of the claims. *)
Lemma jwt_verify_token (payload : cstr) (us ss : option nat) (now : Z) :
  no_nul payload -> (length payload <= 255)%nat ->
  jwt_verify secret (Some (token_of payload)) us ss now = jwt_parse_payload payload us ss now.
Proof.
  intros Hn Hl. unfold jwt_verify, jwt_check_header_alg, jwt_decode_header, jwt_decode_payload, token_of.
  set (h := bin2base64 jwt_header). set (p := bin2base64 payload).
  set (mac := hmacsha256 (h ++ lit "." ++ p) secret).
  rewrite <- !(assoc_L (++)), !dot_cons.
  rewrite !(strchr_app "."%char h) by apply base64_no_dot. cbn [mbind option_bind].
  rewrite !(strchr_app "."%char p) by apply base64_no_dot. cbn [mbind option_bind].
  rewrite (proj2 (strchr_None (bin2base64 mac) _)) by apply base64_no_dot.
  unfold b64_decode_segment. cbn [Nat.eqb]. subst h p.
  rewrite base64_inverse by (simpl; lia).
  replace (strstr _ _ || _) with true by (symmetry; vm_compute; reflexivity). cbn [negb].
  unfold jwt_verify_mac.
  assert (take (length (bin2base64 jwt_header) + 1 + length (bin2base64 payload))
    (bin2base64 jwt_header ++ "."%char :: bin2base64 payload ++ "."%char :: bin2base64 mac)
    = bin2base64 jwt_header ++ lit "." ++ bin2base64 payload) as ->.
  { rewrite dot_cons. change ("."%char :: ?a ++ ?b) with (("."%char :: a) ++ b).
    rewrite (assoc_L (++)), take_app_length'; [done|].
    rewrite length_app. simpl. lia. }
  fold mac. rewrite base64_inverse by (unfold mac; rewrite hmac_length; lia).
  unfold mac at 1. rewrite hmac_length, Nat.eqb_refl, bool_decide_true by done. cbn [negb].
  replace (PAYLOAD_JSON_SIZE =? 0)%nat with false by done.
  rewrite base64_inverse by (unfold PAYLOAD_JSON_SIZE; lia).
  by rewrite c_str_whole.
Qed.

(** The claims of a payload. *)
Lemma jwt_parse_payload_flat (user session_id : cstr) (iat exp : Z) (un sn : nat) (now : Z) :
  flat_wf (payload_flat user session_id iat exp) ->
  jwt_parse_payload (payload_text (user ≫= escape_char) session_id iat exp) (Some un) (Some sn) now
  = if (exp <? now)%Z then Result JWT_ERR_EXPIRED None None
    else if (un <=? length user)%nat then invalid
    else if (sn <=? length session_id)%nat then Result JWT_ERR_INVALID (Some user) None
    else Result JWT_OK (Some user) (Some session_id).
Proof.
  intros Hw. rewrite payload_text_flat. destruct (parse_flat _ Hw) as (o & P & _ & M).
  unfold jwt_parse_payload. rewrite P.
  destruct (M (lit "exp") (FInt exp)) as (e & -> & _ & ->); [set_solver|].
  destruct (exp <? now)%Z; [done|]. unfold copy_claim.
  destruct (M (lit "username") (FString (user ≫= escape_char) user)) as (u & -> & _ & Hu); [set_solver|].
  cbn [mbind option_bind]. rewrite Hu. cbn [mbind option_bind].
  destruct (Nat.leb_spec un (length user)); [done|].
  destruct (M (lit "sessionId") (FString session_id session_id)) as (t & -> & _ & Ht); [set_solver|].
  cbn [mbind option_bind]. rewrite Ht. cbn [mbind option_bind].
  destruct (Nat.leb_spec sn (length session_id)); rewrite !strlcpy_fits by lia; done.
Qed.

(** What the checks of an accepted token say. *)
Lemma jwt_mac_sound (h p sig : cstr) :
  jwt_verify_mac secret (h ++ "."%char :: p ++ "."%char :: sig) (length h + 1 + length p) sig = true ->
  base642bin HMAC_BYTES sig = Some (hmacsha256 (h ++ lit "." ++ p) secret).
Proof.
  unfold jwt_verify_mac. change ("."%char :: p ++ ?b) with (("."%char :: p) ++ b).
  rewrite (assoc_L (++)), take_app_length' by (rewrite length_app; simpl; lia).
  destruct (base642bin HMAC_BYTES sig); [|done]. destruct (_ =? _)%nat; [|done].
  intros H%bool_decide_eq_true. f_equal. symmetry. exact H.
Qed.

Lemma copy_claim_sound (obj : option jobj) (key : cstr) (n : nat) (r : option cstr) :
  copy_claim obj key (Some n) = Some r ->
  exists o t, json_object_object_get_ex obj key = Some o /\ json_object_get_string o = Some t
    /\ r = Some t /\ (length t < n)%nat.
Proof.
  unfold copy_claim. destruct (json_object_object_get_ex obj key) as [o|]; [|done].
  cbn [mbind option_bind]. destruct (json_object_get_string o) as [t|] eqn:T; [|done].
  cbn [mbind option_bind]. destruct (Nat.leb_spec n (length t)); [done|].
  rewrite strlcpy_fits by done. intros [= <-]. eauto 6.
Qed.

Lemma jwt_claims_sound (payload : cstr) (un sn : nat) (now : Z) (user session_id : option cstr) :
  jwt_parse_payload payload (Some un) (Some sn) now = Result JWT_OK user session_id ->
  exists o exp uo so u t,
    json_tokener_parse payload = Some o
    /\ json_object_object_get_ex (Some o) (lit "exp") = Some exp
    /\ (now <= json_object_get_int64 exp)%Z
    /\ json_object_object_get_ex (Some o) (lit "username") = Some uo
    /\ json_object_get_string uo = Some u /\ user = Some u /\ (length u < un)%nat
    /\ json_object_object_get_ex (Some o) (lit "sessionId") = Some so
    /\ json_object_get_string so = Some t /\ session_id = Some t /\ (length t < sn)%nat.
Proof.
  unfold jwt_parse_payload. destruct (json_tokener_parse payload) as [o|]; [|done].
  destruct (json_object_object_get_ex (Some o) (lit "exp")) as [exp|] eqn:E; [|done].
  destruct (Z.ltb_spec (json_object_get_int64 exp) now); [done|].
  destruct (copy_claim (Some o) (lit "username") (Some un)) as [u|] eqn:U; [|done].
  destruct (copy_claim (Some o) (lit "sessionId") (Some sn)) as [t|] eqn:T; [|done].
  intros [= -> ->]. apply copy_claim_sound in U as (uo & u & ? & ? & -> & ?).
  apply copy_claim_sound in T as (so & t & ? & ? & -> & ?). exists o, exp, uo, so, u, t. done.
Qed.

Lemma issued_token (user session_id : cstr) (timeout now : Z) :
  no_nul user -> plain session_id -> (length session_id <= 36)%nat ->
  (- 2 ^ 63 <= now < 2 ^ 63)%Z -> (- 2 ^ 63 <= now + timeout < 2 ^ 63)%Z ->
  exists token n,
    jwt_create secret (Some user) (Some session_id) timeout 1024 now = Some token
    /\ goes_in 128 user n
    /\ (length (user ≫= escape_char) <= 121 -> take n user = user)%nat
    /\ forall later,
       jwt_verify secret (Some token) (Some 33%nat) (Some 37%nat) later
       = if (now + timeout <? later)%Z then Result JWT_ERR_EXPIRED None None
         else if (33 <=? length (take n user))%nat then invalid
         else Result JWT_OK (Some (take n user)) (Some session_id).
Proof.
  intros Hu Hs Hl Hn He. destruct (json_encode_cut 128 user) as (n & E & Hnl).
  exists (token_of (payload_text (json_encode 128 user) session_id now (now + timeout))), n.
  split; [by apply jwt_create_eq|]. split; [done|].
  split; [intros Hf; eapply goes_in_whole; [exact Hnl|lia]|].
  intros later. pose proof (length_json_encode 128 user ltac:(lia)) as Hj.
  assert (no_nul (take n user)) as Ht by (by apply no_nul_take).
  rewrite jwt_verify_token.
  - rewrite E, jwt_parse_payload_flat.
    + by rewrite (proj2 (Nat.leb_gt 37 _)) by lia.
    + apply payload_flat_wf; try done. rewrite E in Hj.
      pose proof (length_escapes (take n user)). lia.
  - apply payload_no_nul; [|by apply plain_no_nul]. rewrite E. by apply escapes_no_nul.
  - apply length_payload; lia.
Qed.

(** C18: a token that the server issues is accepted until it expires. Whatever the
    user name and for any plain session id of at most 36 characters (the times being
    64-bit integers), [jwt_create] succeeds in the 1024-byte buffer of the login
    handler. The name that goes into the token is cut to its first [n] characters: a
    character goes in exactly while the escaped forms of those before it take at
    most 120 bytes, so that a name whose escaped form has at most 121 is there
    whole. If the name in the token has at most 32 bytes, [jwt_verify] with the 33-
    and 37-byte buffers of the worker accepts the token up to and including second
    [now + timeout] and returns that name and the session id; if it has more, the
    token is refused (a name of 33 control characters is cut to 21 and accepted as
    these, one of 33 letters is whole and refused); after that second the answer is
    that the token has expired. *)
Theorem jwt_roundtrip (user session_id : cstr) (timeout now : Z) :
  no_nul user -> plain session_id -> (length session_id <= 36)%nat ->
  (- 2 ^ 63 <= now < 2 ^ 63)%Z -> (- 2 ^ 63 <= now + timeout < 2 ^ 63)%Z ->
  exists token n,
    jwt_create secret (Some user) (Some session_id) timeout 1024 now = Some token
    /\ goes_in 128 user n
    /\ (length (user ≫= escape_char) <= 121 -> take n user = user)%nat
    /\ forall later,
       jwt_verify secret (Some token) (Some 33%nat) (Some 37%nat) later
       = if (now + timeout <? later)%Z then Result JWT_ERR_EXPIRED None None
         else if (33 <=? length (take n user))%nat then invalid
         else Result JWT_OK (Some (take n user)) (Some session_id).
Proof. apply issued_token. Qed.

(** C9: [jwt_verify] accepts only signed, unexpired tokens. When the answer is
    [JWT_OK], the token is three segments without dots; the third decodes to the
    32-byte authentication code of the first two under the server's key; the
    first decodes to a header that names HS256; the second decodes to a JSON
    object whose expiry is not past and whose user name and session id are the
    strings returned, both of which fit the buffers of the caller. *)
Theorem jwt_verify_sound (token : cstr) (un sn : nat) (now : Z) (user session_id : option cstr) :
  jwt_verify secret (Some token) (Some un) (Some sn) now = Result JWT_OK user session_id ->
  exists h p sig header payload o exp uo so u t,
    token = h ++ lit "." ++ p ++ lit "." ++ sig
    /\ ("."%char ∉ h) /\ ("."%char ∉ p) /\ ("."%char ∉ sig)
    /\ base642bin HMAC_BYTES sig = Some (hmacsha256 (h ++ lit "." ++ p) secret)
    /\ base642bin 1023 h = Some header
    /\ (strstr (c_str header) (lit "`alg`:`HS256`") = true
        \/ strstr (c_str header) (lit "`alg`: `HS256`") = true)
    /\ base642bin (PAYLOAD_JSON_SIZE - 1) p = Some payload /\ json_tokener_parse (c_str payload) = Some o
    /\ json_object_object_get_ex (Some o) (lit "exp") = Some exp
    /\ (now <= json_object_get_int64 exp)%Z
    /\ json_object_object_get_ex (Some o) (lit "username") = Some uo
    /\ json_object_get_string uo = Some u /\ user = Some u /\ (length u < un)%nat
    /\ json_object_object_get_ex (Some o) (lit "sessionId") = Some so
    /\ json_object_get_string so = Some t /\ session_id = Some t /\ (length t < sn)%nat.
Proof.
  unfold jwt_verify. intros V.
  destruct (strchr token "."%char) as [[h rest]|] eqn:E1; [|done].
  pose proof E1 as [Hh Nh]%strchr_Some.
  destruct (strchr rest "."%char) as [[p sig]|] eqn:E2; [|done].
  pose proof E2 as [Hp Np]%strchr_Some.
  destruct (strchr sig "."%char) eqn:E3; [done|]. apply strchr_None in E3.
  destruct (jwt_check_header_alg token) eqn:A; [|done].
  destruct (jwt_verify_mac secret token (length h + 1 + length p) sig) eqn:M; [|done].
  cbn [negb] in V. unfold jwt_check_header_alg, jwt_decode_header in A.
  unfold jwt_decode_payload in V. rewrite E1 in *. cbn [mbind option_bind] in *.
  rewrite E2 in V. cbn [mbind option_bind] in V.
  unfold b64_decode_segment in *. cbn [Nat.eqb] in A.
  destruct (base642bin (1024 - 1) h) as [header|] eqn:B1; [|done].
  replace (PAYLOAD_JSON_SIZE =? 0)%nat with false in V by done.
  destruct (base642bin (PAYLOAD_JSON_SIZE - 1) p) as [payload|] eqn:B2; [|done].
  destruct (jwt_claims_sound _ _ _ _ _ _ V) as (o & exp & uo & so & u & t & C).
  exists h, p, sig, header, payload, o, exp, uo, so, u, t.
  split; [by rewrite Hh, Hp|]. do 3 (split; [done|]). split.
  - by apply jwt_mac_sound; rewrite <- Hp, <- Hh.
  - split; [done|]. split; [by apply orb_true_iff in A|]. done.
Qed.

End Roundtrip.

(** [generate_uuidv4] writes a version 4 UUID. For every sixteen random
    bytes, the 37-byte buffer is filled exactly, with no write outside it: 36
    characters, dashes at positions 8, 13, 18 and 23 and lower-case hexadecimal
    digits elsewhere, a 4 at position 14 and one of 8, 9, a, b at position 19,
    then the terminator; and the digits denote the random bytes with only the
    six version and variant bits replaced, so no randomness is lost. *)
Lemma generate_uuidv4_correct (bytes : list Z) (out : list char) :
  length bytes = 16%nat -> Forall (fun b => 0 <= b < 256)%Z bytes -> length out = 37%nat ->
  generate_uuidv4 bytes out = Some (uuid_text bytes ++ [NUL])
  /\ uuid_shape (uuid_text bytes)
  /\ exists drawn, uuid_bytes (uuid_text bytes) = Some drawn /\ length drawn = 16%nat
     /\ (forall i, i <> 6%nat -> i <> 8%nat -> drawn !! i = bytes !! i)
     /\ (forall b, bytes !! 6%nat = Some b -> exists d, drawn !! 6%nat = Some d /\ d mod 16 = b mod 16)%Z
     /\ (forall b, bytes !! 8%nat = Some b -> exists d, drawn !! 8%nat = Some d /\ d mod 64 = b mod 64)%Z.
Proof.
  intros Hl H Ho. pose proof (uuid_text_shape bytes Hl H) as Sh. split; [|split; [done|]].
  - destruct Sh as [L _]. unfold generate_uuidv4. change (length out) with (length ([] ++ out)) in Ho.
    pose proof (uuid_loop_spec (set_version bytes) 0 [] out) as P. simpl app in P.
    fold (uuid_text bytes) in P. rewrite L in P. change (length (@nil char)) with 0%nat in P.
    rewrite P by (simpl in Ho; lia). cbn [mbind option_bind]. simpl in Ho.
    rewrite put_Some by (rewrite length_app, length_drop, L; lia). f_equal.
    rewrite insert_app_r_alt, L by lia. f_equal.
    do 37 (destruct out as [|? out]; [done|]). by destruct out.
  - exists (set_version bytes). split; [by apply uuid_bytes_from, set_version_range|].
    unfold set_version. rewrite !length_alter. split; [done|]. split_and!.
    + intros i H6 H8. by rewrite !list_lookup_alter_ne by done.
    + intros b Hb. rewrite list_lookup_alter_ne, list_lookup_alter_eq, Hb by done.
      eexists. split; [done|]. apply version_byte. exact (Forall_lookup_1 _ _ _ _ H Hb).
    + intros b Hb. rewrite list_lookup_alter_eq, list_lookup_alter_ne, Hb by done.
      eexists. split; [done|]. apply variant_byte. exact (Forall_lookup_1 _ _ _ _ H Hb).
Qed.

Import Model SodiumModel.

Definition sample_session : cstr := lit "ffffffff-ffff-4fff-bfff-ffffffffffff".

Lemma jwt_roundtrip_witness :
  exists token n,
    jwt_create [] (Some (lit "ana")) (Some sample_session) 60 1024 1000 = Some token
    /\ goes_in 128 (lit "ana") n
    /\ (length (lit "ana" ≫= escape_char) <= 121 -> take n (lit "ana") = lit "ana")%nat
    /\ forall later,
       jwt_verify [] (Some token) (Some 33%nat) (Some 37%nat) later
       = if (1060 <? later)%Z then Result JWT_ERR_EXPIRED None None
         else if (33 <=? length (take n (lit "ana")))%nat then invalid
         else Result JWT_OK (Some (take n (lit "ana"))) (Some sample_session).
Proof.
  apply (jwt_roundtrip [] (lit "ana") sample_session 60 1000).
  - repeat (constructor; [discriminate|]). constructor.
  - repeat (constructor; [split; [discriminate|reflexivity]|]). constructor.
  - simpl. lia.
  - lia.
  - lia.
Defined.

Lemma jwt_verify_sound_witness :
  exists sig, base642bin HMAC_BYTES sig
    = Some (hmacsha256 (bin2base64 jwt_header ++ lit "." ++ bin2base64
        (payload_text (lit "ana") sample_session 1000 1060)) []).
Proof.
  destruct (jwt_verify_sound [] (token_of [] (payload_text (lit "ana") sample_session 1000 1060))
    33 37 1000 (Some (lit "ana")) (Some sample_session))
    as (h & p & sig & header & payload & o & exp & uo & so & u & t & E & Nh & Np & _ & M & _).
  - vm_compute. reflexivity.
  - exists sig. unfold token_of in E. rewrite <- !(assoc_L (++)), !dot_cons in E.
    assert (strchr (h ++ "."%char :: p ++ "."%char :: sig) "."%char
      = Some (bin2base64 jwt_header, bin2base64 (payload_text (lit "ana") sample_session 1000 1060)
          ++ "."%char :: bin2base64 (hmacsha256 (bin2base64 jwt_header ++ "."%char :: bin2base64
            (payload_text (lit "ana") sample_session 1000 1060)) []))) as X.
    { rewrite <- E. apply strchr_app, base64_no_dot. }
    rewrite strchr_app in X by done. injection X as Eh Ep. subst h.
    apply (f_equal (fun s => strchr s "."%char)) in Ep.
    rewrite !strchr_app in Ep by (done || apply base64_no_dot). injection Ep as -> _. exact M.
Defined.

End Jwt.
