(* ===== verification/TaskPool.v ===== *)
(** * lib/task_pool.c, include/apiserver/worker_pool.h: tasks and their slab

    A [http_task_t *] is the index of the task in the slab.  The free stack
    and the thread caches are the lists of their live entries, the top first:
    [g_free_stack[g_stack_top - 1]] and [tl_cache[tl_cache_count - 1]] are the
    heads.  [evbuffer]s are their contents; whether [evbuffer_new] finds memory
    is an argument.  The parts of the code under [g_pool_mutex], and the parts
    that only touch the calling thread's cache and a task it owns, are one step
    of the system. *)

From S2P Require Import Prelude.

Module TaskPool.

(** [http_task_t], over the types of requests, documents and routes. *)
Record http_task (R B C : Type) := {
  start_time : Z * Z;
  req : option R;
  parsed_body : option B;
  middleware_ctx : option C;
  status_txt : option cstr;
  worker_buf : option (list char);
  next : option nat;
  reactor_id : nat;
  status_code : Z;
  cancelled : bool;
  out_content_type : cstr;
  username : cstr;
  session_id : cstr;
  client_ip : cstr;
  request_id : cstr;
  uri : cstr;
}.
#[global] Arguments start_time {_ _ _} _.
#[global] Arguments req {_ _ _} _.
#[global] Arguments parsed_body {_ _ _} _.
#[global] Arguments middleware_ctx {_ _ _} _.
#[global] Arguments status_txt {_ _ _} _.
#[global] Arguments worker_buf {_ _ _} _.
#[global] Arguments next {_ _ _} _.
#[global] Arguments reactor_id {_ _ _} _.
#[global] Arguments status_code {_ _ _} _.
#[global] Arguments cancelled {_ _ _} _.
#[global] Arguments out_content_type {_ _ _} _.
#[global] Arguments username {_ _ _} _.
#[global] Arguments session_id {_ _ _} _.
#[global] Arguments client_ip {_ _ _} _.
#[global] Arguments request_id {_ _ _} _.
#[global] Arguments uri {_ _ _} _.

Definition TL_CACHE_SIZE : nat := 64.
Definition sizeof_http_task : Z := 1472.

Section Pool.
Context {R B C : Type}.
Abbreviation task := (http_task R B C).

(** A task as [memset] leaves it, and as [task_pool_alloc] hands it out. *)
Definition zero_task (buf : option (list char)) : task := {|
  start_time := (0, 0)%Z; req := None; parsed_body := None; middleware_ctx := None;
  status_txt := None; worker_buf := buf; next := None; reactor_id := 0; status_code := 0;
  cancelled := false; out_content_type := []; username := []; session_id := [];
  client_ip := []; request_id := []; uri := [] |}.

(** The statics of the file that all threads share. *)
Record pool := Pool {
  g_task_slab : list task;
  g_free_stack : list nat;
  g_is_free_flag : list bool;
  g_pool_size : nat;
}.

(** [task_pool_init]; [mem] says whether the three allocations succeed. *)
Definition task_pool_init (pool_size : nat) (mem : bool) : option pool :=
  let pool_size := if (pool_size =? 0)%nat then (1000 * 100)%nat else pool_size in
  match ckd_mul (Z.of_nat pool_size) 8 with
  | None => None
  | Some _ =>
      if mem then
        Some {| g_task_slab := replicate pool_size (zero_task None);
                g_free_stack := rev (seq 0 pool_size);
                g_is_free_flag := replicate pool_size true;
                g_pool_size := pool_size |}
      else None
  end.

(** The loop of [task_pool_alloc] that moves [batch] tasks into the cache. *)
Fixpoint take_batch (batch : nat) (p : pool) (cache : list nat) : pool * list nat :=
  match batch, g_free_stack p with
  | S batch', t :: stack =>
      take_batch batch'
        {| g_task_slab := g_task_slab p; g_free_stack := stack;
           g_is_free_flag := <[t := false]> (g_is_free_flag p); g_pool_size := g_pool_size p |}
        (t :: cache)
  | _, _ => (p, cache)
  end.

Inductive outcome (A : Type) := Done (a : A) | Abort.
#[global] Arguments Done {_} _.
#[global] Arguments Abort {_}.

Definition set_flag (p : pool) (t : nat) (b : bool) : pool :=
  {| g_task_slab := g_task_slab p; g_free_stack := g_free_stack p;
     g_is_free_flag := <[t := b]> (g_is_free_flag p); g_pool_size := g_pool_size p |}.
Definition set_task (p : pool) (t : nat) (x : task) : pool :=
  {| g_task_slab := <[t := x]> (g_task_slab p); g_free_stack := g_free_stack p;
     g_is_free_flag := g_is_free_flag p; g_pool_size := g_pool_size p |}.
Definition set_stack (p : pool) (s : list nat) : pool :=
  {| g_task_slab := g_task_slab p; g_free_stack := s;
     g_is_free_flag := g_is_free_flag p; g_pool_size := g_pool_size p |}.

(** [task->req = nullptr; task->parsed_body = nullptr;] *)
Definition drop_request (x : task) : task := {|
  start_time := start_time x; req := None; parsed_body := None;
  middleware_ctx := middleware_ctx x; status_txt := status_txt x; worker_buf := worker_buf x;
  next := next x; reactor_id := reactor_id x; status_code := status_code x;
  cancelled := cancelled x; out_content_type := out_content_type x; username := username x;
  session_id := session_id x; client_ip := client_ip x; request_id := request_id x;
  uri := uri x |}.

(** [task_pool_free] of a pointer that is not null. *)
Definition task_pool_free (p : pool) (cache : list nat) (t : nat) : outcome (pool * list nat) :=
  if (g_pool_size p <=? t)%nat then Done (p, cache) else
  match g_task_slab p !! t, g_is_free_flag p !! t with
  | Some x, Some false =>
      let p := set_flag (set_task p t (drop_request x)) t true in
      if (length cache <? TL_CACHE_SIZE)%nat then Done (p, t :: cache)
      else if (g_pool_size p <? length (g_free_stack p) + length cache)%nat then Abort
      else Done (set_stack p (cache ++ g_free_stack p), [t])
  | _, _ => Abort
  end.

(** [task_pool_alloc]: the pool, the cache and the task, if any. *)
Definition task_pool_alloc (p : pool) (cache : list nat) (new_ok : bool)
    : outcome (pool * list nat * option nat) :=
  let '(p, cache) :=
    match cache with
    | [] => take_batch (Nat.min (length (g_free_stack p)) TL_CACHE_SIZE) p []
    | _ => (p, cache)
    end in
  match cache with
  | [] => Done (p, [], None)
  | t :: cache =>
      let p := set_flag p t false in
      match g_task_slab p !! t with
      | None => Abort
      | Some x =>
          match worker_buf x with
          | Some _ => Done (set_task p t (zero_task (Some [])), cache, Some t)
          | None =>
              if new_ok then Done (set_task p t (zero_task (Some [])), cache, Some t)
              else
                match task_pool_free (set_task p t (zero_task None)) cache t with
                | Done (p, cache) => Done (p, cache, None)
                | Abort => Abort
                end
          end
      end
  end.

(** [task_pool_shutdown]: the buffers it releases. *)
Definition task_pool_shutdown (p : pool) : list (list char) :=
  omap worker_buf (g_task_slab p).

(** ** The system: threads that lease and return tasks *)

Record system := System {
  shared : pool;
  caches : list (list nat);
  leased : list nat;
}.

(** Removes one occurrence. *)
Fixpoint remove_one (t : nat) (l : list nat) : list nat :=
  match l with
  | [] => []
  | x :: l' => if decide (x = t) then l' else x :: remove_one t l'
  end.

Inductive step : system -> system -> Prop :=
  | step_alloc i cache new_ok p cache' t s :
      caches s !! i = Some cache ->
      task_pool_alloc (shared s) cache new_ok = Done (p, cache', Some t) ->
      step s (System p (<[i := cache']> (caches s)) (t :: leased s))
  | step_alloc_null i cache new_ok p cache' s :
      caches s !! i = Some cache ->
      task_pool_alloc (shared s) cache new_ok = Done (p, cache', None) ->
      step s (System p (<[i := cache']> (caches s)) (leased s))
  | step_use t x s :
      t ∈ leased s ->
      step s (System (set_task (shared s) t x) (caches s) (leased s))
  | step_free i cache t p cache' s :
      caches s !! i = Some cache -> t ∈ leased s ->
      task_pool_free (shared s) cache t = Done (p, cache') ->
      step s (System p (<[i := cache']> (caches s)) (remove_one t (leased s))).

(** A fresh pool and [threads] empty caches. *)
Definition start (p : pool) (threads : nat) : system := System p (replicate threads []) [].

Inductive reachable (pool_size threads : nat) : system -> Prop :=
  | reach_start p :
      task_pool_init pool_size true = Some p -> reachable pool_size threads (start p threads)
  | reach_step s s' : reachable pool_size threads s -> step s s' -> reachable pool_size threads s'.

(** Every task is in exactly one place, a leased task is not flagged free, and
    no cache is over-full. *)
Definition invariant (s : system) : Prop :=
  let p := shared s in
  g_free_stack p ++ concat (caches s) ++ leased s ≡ₚ seq 0 (g_pool_size p)
  /\ length (g_task_slab p) = g_pool_size p
  /\ length (g_is_free_flag p) = g_pool_size p
  /\ Forall (fun t => g_is_free_flag p !! t = Some false) (leased s)
  /\ Forall (fun c => length c <= TL_CACHE_SIZE)%nat (caches s).

(** ** Lemmas *)

Lemma concat_insert (l : list (list nat)) (i : nat) (old new : list nat) :
  l !! i = Some old ->
  exists rest, concat l ≡ₚ old ++ rest /\ concat (<[i := new]> l) ≡ₚ new ++ rest.
Proof.
  intros Hi. exists (concat (take i l) ++ concat (drop (S i) l)).
  rewrite <- (take_drop_middle l i old Hi) at 1. rewrite insert_take_drop by (by eapply lookup_lt_Some).
  rewrite !concat_app. cbn [concat]. split; solve_Permutation.
Qed.

Lemma remove_one_perm (t : nat) (l : list nat) : t ∈ l -> l ≡ₚ t :: remove_one t l.
Proof.
  induction l as [|x l IH]; intros Hin; [by apply not_elem_of_nil in Hin|]. simpl.
  destruct (decide (x = t)) as [->|Hne]; [done|].
  apply elem_of_cons in Hin as [->|Hin]; [done|]. rewrite <- Permutation_swap. by constructor; apply IH.
Qed.

Lemma take_batch_spec (n : nat) (p : pool) (cache : list nat) :
  (n <= length (g_free_stack p))%nat ->
  let '(p', cache') := take_batch n p cache in
  g_task_slab p' = g_task_slab p /\ g_pool_size p' = g_pool_size p
  /\ length (g_is_free_flag p') = length (g_is_free_flag p)
  /\ g_free_stack p' = drop n (g_free_stack p)
  /\ cache' = rev (take n (g_free_stack p)) ++ cache
  /\ (forall t, t ∉ take n (g_free_stack p) -> g_is_free_flag p' !! t = g_is_free_flag p !! t).
Proof.
  revert p cache. induction n as [|n IH]; intros p cache Hn; [by destruct p|].
  destruct p as [slab [|t stack] flags size]; simpl in Hn; [lia|]. cbn [take_batch g_free_stack].
  specialize (IH (Pool slab stack (<[t:=false]> flags) size) (t :: cache) ltac:(simpl; lia)).
  cbn [g_task_slab g_is_free_flag g_pool_size g_free_stack] in *.
  destruct (take_batch _ _ _) as [p' cache']. destruct IH as (-> & -> & Hl & -> & -> & Hf).
  rewrite length_insert in Hl. split_and!; try done.
  - simpl. by rewrite <- (assoc_L (++)).
  - intros u Hu. simpl in Hu. apply not_elem_of_cons in Hu as [? ?].
    rewrite Hf by done. by rewrite list_lookup_insert_ne by done.
Qed.

(** The index of a task found somewhere is a valid one. *)
Lemma invariant_lt (s : system) (t : nat) :
  invariant s -> t ∈ g_free_stack (shared s) ++ concat (caches s) ++ leased s ->
  (t < g_pool_size (shared s))%nat.
Proof. intros (P & _) Hin. rewrite P in Hin. apply elem_of_seq in Hin. lia. Qed.

(** No task is in two places. *)
Lemma invariant_nodup (s : system) :
  invariant s -> NoDup (g_free_stack (shared s) ++ concat (caches s) ++ leased s).
Proof. intros (P & _). rewrite P. apply NoDup_seq. Qed.

Lemma forall_flag_insert (flags : list bool) (l : list nat) (t : nat) (b : bool) :
  Forall (fun u => flags !! u = Some false) l -> t ∉ l ->
  Forall (fun u => <[t := b]> flags !! u = Some false) l.
Proof.
  intros H Hn. induction H as [|u l Hu _ IH]; constructor.
  - rewrite list_lookup_insert_ne; [done|]. intros ->. apply Hn. by left.
  - apply IH. intros Hin. apply Hn. by right.
Qed.

Lemma elem_of_take_inv (n : nat) (l : list nat) (t : nat) : t ∈ take n l -> t ∈ l.
Proof. rewrite <- (take_drop n l) at 2. rewrite elem_of_app. by left. Qed.

(** Moving a batch from the stack to an empty cache keeps the invariant. *)
Lemma take_batch_invariant (s : system) (i : nat) (p : pool) (cache : list nat) :
  invariant s -> caches s !! i = Some [] ->
  take_batch (Nat.min (length (g_free_stack (shared s))) TL_CACHE_SIZE) (shared s) [] = (p, cache) ->
  invariant (System p (<[i := cache]> (caches s)) (leased s)).
Proof.
  intros Hinv Hi E. pose proof (invariant_nodup s Hinv) as ND.
  destruct Hinv as (P & Hs & Hf & Hl & Hc).
  set (n := Nat.min _ _) in *.
  pose proof (take_batch_spec n (shared s) [] ltac:(lia)) as T. rewrite E in T.
  destruct T as (E1 & E2 & E3 & E4 & E5 & E6). rewrite app_nil_r in E5.
  unfold invariant. cbn [shared caches leased]. rewrite E1, E2, E3, E4. split_and!; try done.
  - destruct (concat_insert (caches s) i [] cache Hi) as (rest & C1 & C2). rewrite C2.
    rewrite <- P, C1, E5, <- (Permutation_rev (take n _)).
    transitivity ((take n (g_free_stack (shared s)) ++ drop n (g_free_stack (shared s)))
      ++ rest ++ leased s); [solve_Permutation|by rewrite take_drop].
  - apply list.Forall_forall. intros u Hu. rewrite E6.
    + by apply (proj1 (list.Forall_forall _ _) Hl).
    + apply list.NoDup_app in ND as (_ & ND & _). intros Ht%elem_of_take_inv.
      apply (ND u Ht). apply elem_of_app. by right.
  - apply Forall_insert; [done|]. rewrite E5, length_rev, length_take. lia.
Qed.


(** Taking the top of a cache makes it leased. *)
Lemma lease_invariant (s : system) (i t : nat) (cache : list nat) :
  invariant s -> caches s !! i = Some (t :: cache) ->
  invariant (System (set_flag (shared s) t false) (<[i := cache]> (caches s)) (t :: leased s)).
Proof.
  intros Hinv Hi. destruct (concat_insert (caches s) i (t :: cache) cache Hi) as (rest & C1 & C2).
  assert (t < g_pool_size (shared s))%nat as Ht.
  { apply (invariant_lt s t Hinv). rewrite !elem_of_app, C1. right. left. by left. }
  pose proof (invariant_nodup s Hinv) as ND. destruct Hinv as (P & Hs & Hf & Hl & Hc).
  unfold invariant. cbn [shared caches leased set_flag g_free_stack g_pool_size g_task_slab g_is_free_flag].
  rewrite length_insert. split_and!; try done.
  - rewrite <- P, C1, C2. solve_Permutation.
  - constructor; [apply list_lookup_insert_eq; lia|]. apply forall_flag_insert; [done|].
    rewrite C1 in ND. apply list.NoDup_app in ND as (_ & _ & ND).
    apply list.NoDup_app in ND as (_ & ND & _). apply ND. by left.
  - apply Forall_insert; [done|]. pose proof (Forall_lookup_1 _ _ _ _ Hc Hi) as H. simpl in H. lia.
Qed.

(** Writing to a task of the slab keeps the invariant. *)
Lemma use_invariant (s : system) (t : nat) (x : task) :
  invariant s -> invariant (System (set_task (shared s) t x) (caches s) (leased s)).
Proof.
  intros (P & Hs & Hf & Hl & Hc). unfold invariant.
  cbn [shared caches leased set_task g_free_stack g_pool_size g_task_slab g_is_free_flag].
  by rewrite length_insert.
Qed.

(** Returning a leased task succeeds and keeps the invariant. *)
Lemma free_invariant (s : system) (i t : nat) (cache : list nat) :
  invariant s -> caches s !! i = Some cache -> t ∈ leased s ->
  exists p cache', task_pool_free (shared s) cache t = Done (p, cache')
    /\ invariant (System p (<[i := cache']> (caches s)) (remove_one t (leased s)))
    /\ g_is_free_flag p !! t = Some true.
Proof.
  intros Hinv Hi Hin.
  assert (t < g_pool_size (shared s))%nat as Ht.
  { apply (invariant_lt s t Hinv). rewrite !elem_of_app. by right; right. }
  pose proof (invariant_nodup s Hinv) as ND. destruct Hinv as (P & Hs & Hf & Hl & Hc).
  unfold task_pool_free. rewrite (proj2 (Nat.leb_gt _ _)) by lia.
  destruct (lookup_lt_is_Some_2 (g_task_slab (shared s)) t) as [x Hx]; [lia|]. rewrite Hx.
  rewrite (proj1 (list.Forall_forall _ _) Hl t Hin).
  pose proof (remove_one_perm t (leased s) Hin) as RP.
  assert (t ∉ remove_one t (leased s)) as Hn.
  { apply list.NoDup_app in ND as (_ & _ & ND). apply list.NoDup_app in ND as (_ & _ & ND).
    rewrite RP in ND. by apply list.NoDup_cons in ND as [? _]. }
  assert (Forall (fun u => <[t := true]> (g_is_free_flag (shared s)) !! u = Some false)
    (remove_one t (leased s))) as Hl'.
  { apply forall_flag_insert; [|done]. rewrite RP in Hl. by apply Forall_cons_iff in Hl as [_ Hl]. }
  pose proof (Forall_lookup_1 _ _ _ _ Hc Hi) as Hcl. cbv beta in Hcl. unfold TL_CACHE_SIZE in *.
  assert (<[t := true]> (g_is_free_flag (shared s)) !! t = Some true) as Hflag
    by (apply list_lookup_insert_eq; lia).
  set (rest_leased := remove_one t (leased s)) in *. clearbody rest_leased.
  destruct (Nat.ltb_spec (length cache) 64) as [H64|H64].
  - eexists _, _. split; [reflexivity|]. split; [|exact Hflag]. unfold invariant.
    cbn [shared caches leased set_flag set_task g_free_stack g_pool_size g_task_slab g_is_free_flag].
    rewrite !length_insert. split_and!; try done.
    + destruct (concat_insert (caches s) i cache (t :: cache) Hi) as (rest & C1 & C2).
      rewrite C2, <- P, C1, RP. solve_Permutation.
    + apply Forall_insert; [done|]. simpl. unfold TL_CACHE_SIZE. lia.
  - destruct (concat_insert (caches s) i cache [t] Hi) as (rest & C1 & C2).
    cbn [set_flag set_task set_stack g_free_stack g_pool_size g_task_slab g_is_free_flag].
    assert (length (g_free_stack (shared s)) + length cache <= g_pool_size (shared s))%nat as Hle.
    { pose proof (Permutation_length P) as L.
      rewrite length_seq, !length_app, C1, length_app in L. lia. }
    rewrite (proj2 (Nat.ltb_ge _ _)) by lia.
    eexists _, _. split; [reflexivity|]. split; [|exact Hflag]. unfold invariant.
    cbn [shared caches leased set_flag set_task set_stack g_free_stack g_pool_size g_task_slab g_is_free_flag].
    rewrite !length_insert. split_and!; try done.
    + rewrite C2, <- P, C1, RP. solve_Permutation.
    + apply Forall_insert; [done|]. simpl. unfold TL_CACHE_SIZE. lia.
Qed.

(** What an allocation may answer, and the state it leaves. *)
Lemma alloc_invariant (s : system) (i : nat) (cache : list nat) (new_ok : bool) :
  invariant s -> caches s !! i = Some cache ->
  exists p cache' r, task_pool_alloc (shared s) cache new_ok = Done (p, cache', r)
    /\ match r with
       | Some t => invariant (System p (<[i := cache']> (caches s)) (t :: leased s))
           /\ g_task_slab p !! t = Some (zero_task (Some []))
       | None => invariant (System p (<[i := cache']> (caches s)) (leased s))
           /\ (new_ok = false \/ (cache = [] /\ g_free_stack (shared s) = []))
       end.
Proof.
  intros Hinv Hi. pose proof (lookup_lt_Some _ _ _ Hi) as Hlt. unfold task_pool_alloc.
  assert (exists p1 c1, match cache with
      | [] => take_batch (Nat.min (length (g_free_stack (shared s))) TL_CACHE_SIZE) (shared s) []
      | _ => (shared s, cache)
      end = (p1, c1)
    /\ invariant (System p1 (<[i := c1]> (caches s)) (leased s))
    /\ (c1 = [] -> cache = [] /\ g_free_stack (shared s) = [])) as (p1 & c1 & -> & Hinv1 & He).
  { destruct cache as [|t cache].
    - destruct (take_batch _ _ _) as [p1 c1] eqn:E. exists p1, c1. split; [done|].
      split; [by apply take_batch_invariant|]. intros ->.
      pose proof (take_batch_spec (Nat.min (length (g_free_stack (shared s))) TL_CACHE_SIZE)
        (shared s) [] ltac:(lia)) as T. rewrite E in T. destruct T as (_ & _ & _ & _ & T & _).
      apply (f_equal length) in T. rewrite app_nil_r, length_rev, length_take in T.
      unfold TL_CACHE_SIZE in T. destruct (g_free_stack (shared s)); [done|]. simpl in T. lia.
    - exists (shared s), (t :: cache). split; [done|]. split; [|done].
      rewrite list_insert_id by done. by destruct s. }
  destruct c1 as [|t c1].
  { eexists _, _, None. split; [reflexivity|]. split; [exact Hinv1|]. right. by apply He. }
  pose proof (lease_invariant _ i t c1 Hinv1) as Hinv2. cbn [shared caches leased] in Hinv2.
  rewrite list_lookup_insert_eq, list_insert_insert_eq in Hinv2 by done. specialize (Hinv2 eq_refl).
  assert (t < length (g_task_slab p1))%nat as Ht.
  { pose proof Hinv2 as (_ & Hs & _). cbn [shared set_flag g_task_slab g_pool_size] in Hs.
    rewrite Hs. apply (invariant_lt _ t Hinv2). cbn [shared caches leased].
    rewrite !elem_of_app. right. right. by left. }
  destruct (lookup_lt_is_Some_2 (g_task_slab p1) t Ht) as [x Hx].
  cbn [set_flag g_task_slab]. rewrite Hx.
  pose proof (use_invariant _ t (zero_task (Some [])) Hinv2) as Hinv3.
  assert (g_task_slab (set_task (set_flag p1 t false) t (zero_task (Some []))) !! t
    = Some (zero_task (Some []))) as Hz by (by apply list_lookup_insert_eq).
  destruct (worker_buf x); [|destruct new_ok].
  1,2: by eexists _, _, (Some t); split; [reflexivity|]; split.
  pose proof (use_invariant _ t (zero_task None) Hinv2) as Hinv4. cbn [shared caches leased] in Hinv4.
  destruct (free_invariant _ i t c1 Hinv4) as (p2 & c2 & E & Hinv5 & _).
  { cbn [caches]. by apply list_lookup_insert_eq. }
  { cbn [leased]. by left. }
  cbn [shared caches leased remove_one] in *. rewrite E.
  rewrite list_insert_insert_eq, decide_True in Hinv5 by done.
  eexists _, _, None. split; [reflexivity|]. split; [done|]. by left.
Qed.

Lemma start_invariant (n threads : nat) (p : pool) :
  task_pool_init n true = Some p -> invariant (start p threads).
Proof.
  unfold task_pool_init. set (k := if (n =? 0)%nat then _ else _). clearbody k.
  destruct (ckd_mul _ _); [|done]. intros [= <-]. unfold invariant, start.
  cbn [shared caches leased g_free_stack g_pool_size g_task_slab g_is_free_flag].
  assert (concat (replicate threads (@nil nat)) = []) as -> by (by induction threads).
  rewrite !app_nil_r, !length_replicate. split_and!; try done.
  - symmetry. apply Permutation_rev.
  - apply Forall_replicate. simpl. lia.
Qed.

Lemma pool_reachable_invariant (n threads : nat) (s : system) : reachable n threads s -> invariant s.
Proof.
  induction 1 as [p Hp|s s' _ IH Hstep]; [by eapply start_invariant|].
  destruct Hstep as [i cache ok p cache' t s Hi E|i cache ok p cache' s Hi E|t x s Hin
    |i cache t p cache' s Hi Hin E].
  - destruct (alloc_invariant s i cache ok IH Hi) as (? & ? & r & E' & H).
    rewrite E' in E. injection E as <- <- ->. by destruct H.
  - destruct (alloc_invariant s i cache ok IH Hi) as (? & ? & r & E' & H).
    rewrite E' in E. injection E as <- <- ->. by destruct H.
  - by apply use_invariant.
  - destruct (free_invariant s i t cache IH Hi Hin) as (? & ? & E' & H & _).
    rewrite E' in E. by injection E as <- <-.
Qed.

(** ** The properties *)

(** C8: no task is ever lost or duplicated. In every state that any
    interleaving of allocations and frees of any number of threads can reach,
    each task of the slab is in exactly one place: on the free stack, in one
    thread's cache, or leased; and no cache holds more than its 64 entries. *)
Theorem task_pool_conserves (n threads : nat) (s : system) :
  reachable n threads s ->
  g_free_stack (shared s) ++ concat (caches s) ++ leased s ≡ₚ seq 0 (g_pool_size (shared s))
  /\ Forall (fun c => length c <= TL_CACHE_SIZE)%nat (caches s).
Proof. intros H%pool_reachable_invariant. by destruct H as (? & _ & _ & _ & ?). Qed.

(** [task_pool_alloc] hands out a task exclusively and clean. In every
    reachable state an allocation by any thread returns: either a task of the
    slab that nobody has leased, with every field reset and an empty body
    buffer, so that nothing of an earlier request is left in it; or a null
    pointer, and then only because the thread's cache and the free stack are
    both empty or no buffer could be allocated.  It never aborts. *)
Lemma task_alloc_exclusive (n threads : nat) (s : system) (i : nat) (cache : list nat)
    (new_ok : bool) :
  reachable n threads s -> caches s !! i = Some cache ->
  exists p cache' r, task_pool_alloc (shared s) cache new_ok = Done (p, cache', r)
    /\ match r with
       | Some t => (t ∉ leased s) /\ (t < g_pool_size p)%nat
           /\ g_task_slab p !! t = Some (zero_task (Some []))
       | None => new_ok = false \/ (cache = [] /\ g_free_stack (shared s) = [])
       end.
Proof.
  intros H%pool_reachable_invariant Hi.
  destruct (alloc_invariant s i cache new_ok H Hi) as (p & c & r & E & Hr).
  exists p, c, r. split; [done|]. destruct r as [t|]; [|by destruct Hr]. destruct Hr as [Hinv Hz].
  pose proof (invariant_nodup _ Hinv) as ND. cbn [shared caches leased] in ND.
  apply list.NoDup_app in ND as (_ & _ & ND). apply list.NoDup_app in ND as (_ & _ & ND).
  apply list.NoDup_cons in ND as [? _]. split; [done|]. split; [|done].
  apply (invariant_lt _ t Hinv). cbn [shared caches leased]. rewrite !elem_of_app. by do 2 right; left.
Qed.

(** Returning a leased task succeeds, and returning it again is caught. In
    every reachable state [task_pool_free] of a leased task, by any thread,
    neither aborts nor overflows the free stack; and a second free of the same
    task by any thread, before it is allocated again, aborts. *)
Lemma task_free_safe (n threads : nat) (s : system) (i t : nat) (cache : list nat) :
  reachable n threads s -> caches s !! i = Some cache -> t ∈ leased s ->
  exists p cache', task_pool_free (shared s) cache t = Done (p, cache')
    /\ (length (g_free_stack p) <= g_pool_size p)%nat
    /\ forall other, task_pool_free p other t = Abort.
Proof.
  intros H%pool_reachable_invariant Hi Hin.
  destruct (free_invariant s i t cache H Hi Hin) as (p & c & E & Hinv & Hf).
  exists p, c. split; [done|]. destruct Hinv as (P & Hs & Hfl & _). cbn [shared caches leased] in *.
  pose proof (Permutation_length P) as L. rewrite length_app, length_seq in L. split; [lia|].
  intros other. unfold task_pool_free. apply lookup_lt_Some in Hf as Ht.
  rewrite (proj2 (Nat.leb_gt _ _)), Hf by lia. by destruct (g_task_slab p !! t).
Qed.

End Pool.

(** A slab of three tasks shared by two threads, for the witnesses. *)
Definition small_pool : @pool unit unit unit :=
  {| g_task_slab := replicate 3 (zero_task None); g_free_stack := [2; 1; 0]%nat;
     g_is_free_flag := [true; true; true]; g_pool_size := 3 |}.

Definition leased_one : @system unit unit unit :=
  {| shared := {| g_task_slab := [zero_task (Some []); zero_task None; zero_task None];
                  g_free_stack := []; g_is_free_flag := [false; false; false]; g_pool_size := 3 |};
     caches := [[1; 2]; []]%nat; leased := [0]%nat |}.

Lemma leased_one_reachable : reachable 3 2 leased_one.
Proof.
  eapply reach_step; [apply (reach_start 3 2 small_pool); reflexivity|].
  apply (step_alloc 0 [] true _ [1; 2]%nat 0 (start small_pool 2)); reflexivity.
Qed.

Lemma task_pool_conserves_witness :
  g_free_stack (shared leased_one) ++ concat (caches leased_one) ++ leased leased_one
    ≡ₚ seq 0 (g_pool_size (shared leased_one))
  /\ Forall (fun c => length c <= TL_CACHE_SIZE)%nat (caches leased_one).
Proof. apply (task_pool_conserves 3 2 leased_one), leased_one_reachable. Defined.

End TaskPool.
