(* ===== verification/ThreadState.v ===== *)
(** * lib/context.c and lib/thread_error.c: the thread-local state of a request

    The thread-local arrays are the strings they hold, each cut at the size of
    its array. *)

From S2P Require Import Prelude.

Module ThreadState.

(** ** lib/context.c *)

Record context := Context {
  tl_user : cstr;
  tl_session : cstr;
  tl_client_ip : cstr;
  tl_uri : cstr;
  tl_content_type : cstr;
}.

(** [strlcpy] into an array, or the empty string for a null pointer. *)
Definition store (size : nat) (s : option cstr) : cstr :=
  match s with Some s => strlcpy size s | None => [] end.

(** A pointer to the array, or null when it holds the empty string. *)
Definition nonempty_str (s : cstr) : option cstr := match s with [] => None | _ => Some s end.

Definition context_set (c : context) (user session client_ip uri : option cstr) : context := {|
  tl_user := store 33 user;
  tl_session := store 37 session;
  tl_client_ip := store 64 client_ip;
  tl_uri := store 1024 uri;
  tl_content_type := tl_content_type c |}.

Definition context_clear (c : context) : context := Context [] [] [] [] [].

Definition context_get_user (c : context) : option cstr := nonempty_str (tl_user c).
Definition context_get_session_id (c : context) : option cstr := nonempty_str (tl_session c).
Definition context_get_client_ip (c : context) : option cstr := nonempty_str (tl_client_ip c).

Definition context_set_content_type (c : context) (ctype : option cstr) : context := {|
  tl_user := tl_user c; tl_session := tl_session c; tl_client_ip := tl_client_ip c;
  tl_uri := tl_uri c; tl_content_type := store 128 ctype |}.

Definition context_get_content_type (c : context) : option cstr := nonempty_str (tl_content_type c).

(** ** lib/thread_error.c *)

Inductive ThreadErrorLevel := TL_ERR_NONE | TL_ERR_WARN | TL_ERR_ERROR.

Definition MAX_ERR_MSG_LEN : nat := 1024.

Record thread_error := ThreadError {
  tl_err_level : ThreadErrorLevel;
  tl_err_msg : cstr;
}.

(** [text] is the message as [vsnprintf] formats it. *)
Definition set_thread_error (level : ThreadErrorLevel) (text : cstr) : thread_error :=
  ThreadError level (snprintf MAX_ERR_MSG_LEN text).

Definition get_thread_error_msg (e : thread_error) : cstr := tl_err_msg e.
Definition get_thread_error_level (e : thread_error) : ThreadErrorLevel := tl_err_level e.
Definition clear_thread_error : thread_error := ThreadError TL_ERR_NONE [].

(** ** What a worker thread carries from one request to the next *)

Record tls := Tls {
  ctx_of : context;
  err_of : thread_error;
  log_request_id : cstr;
}.

Definition clean_tls : tls := Tls (Context [] [] [] [] []) clear_thread_error [].

Lemma store_fits (size : nat) (s : cstr) : (length s < size)%nat -> store size (Some s) = s.
Proof. apply strlcpy_fits. Qed.

Lemma nonempty_str_store (size : nat) (s : cstr) :
  (length s < size)%nat -> s <> [] -> nonempty_str (store size (Some s)) = Some s.
Proof. intros H Hn. rewrite store_fits by done. by destruct s. Qed.

Lemma length_store (size : nat) (s : option cstr) :
  (0 < size)%nat -> (length (store size s) < size)%nat.
Proof. intros H. destruct s; simpl; [by apply length_strlcpy|done]. Qed.

End ThreadState.
