(* ===== verification/TaskQueue.v ===== *)
(** * The intrusive task queues of lib/worker_pool.c and lib/server.c

    [pool_t] and [reactor_queue_t] link tasks through their [next] field.
    The field is a map from tasks to successors, so that the linked list and
    the field of a task that is in no queue are both explicit.  [Queue] has
    the operations of the code and proves that they implement a list;
    [Workers] is the protocol of the workers and the producers around the
    mutex and the condition variable of a pool; [Completion] is the protocol of
    the completion queue and the eventfd of a reactor. *)

From S2P Require Import Prelude.

(** ** The linked list *)

Module Queue.

(** [task->next] of every task. *)
Abbreviation links := (gmap nat (option nat)).

(** The fields of [pool_t] that the queue operations touch. *)
Record pool_t := {
  head : option nat;
  tail : option nat;
  size : Z;
  shutdown : bool;
}.

Definition empty_pool : pool_t := {| head := None; tail := None; size := 0; shutdown := false |}.

(** Appends a task: lines shared by [worker_pool_enqueue] and
    [server_notify_task_done]. *)
Definition append (h : links) (hd tl : option nat) (t : nat)
    : links * option nat * option nat :=
  let h := <[t := None]> h in
  match tl with
  | None => (h, Some t, Some t)
  | Some last => (<[last := Some t]> h, hd, Some t)
  end.

(** The critical section of [worker_pool_enqueue]. *)
Definition worker_pool_enqueue (max_size : Z) (h : links) (q : pool_t) (t : nat)
    : links * pool_t * bool :=
  if shutdown q then (h, q, false)
  else if ((0 <? max_size) && (max_size <=? size q))%Z then (h, q, false)
  else
    let '(h, hd, tl) := append h (head q) (tail q) t in
    (h, {| head := hd; tail := tl; size := uwrap 64 (size q + 1); shutdown := false |}, true).

(** What a worker does with the mutex held: sleep, leave, or run a task. *)
Inductive action := Wait | Exit | Run (t : nat) | Fault.

(** The critical section of [worker_thread_main]. *)
Definition worker_dequeue (h : links) (q : pool_t) : pool_t * action :=
  match head q with
  | None => (q, if shutdown q then Exit else Wait)
  | Some t =>
      match h !! t with
      | None => (q, Fault)
      | Some nxt =>
          ({| head := nxt; tail := match nxt with None => None | Some _ => tail q end;
              size := uwrap 64 (size q - 1); shutdown := shutdown q |}, Run t)
      end
  end.

(** [pool->shutdown = true] *)
Definition stop (q : pool_t) : pool_t :=
  {| head := head q; tail := tail q; size := size q; shutdown := true |}.

(** ** The abstraction *)

(** The tasks from [hd] on are [l]. *)
Fixpoint chain (h : links) (hd : option nat) (l : list nat) : Prop :=
  match l with
  | [] => hd = None
  | t :: l' => hd = Some t /\ exists nxt, h !! t = Some nxt /\ chain h nxt l'
  end.

Definition represents (h : links) (q : pool_t) (l : list nat) : Prop :=
  chain h (head q) l /\ tail q = list.last l /\ NoDup l /\ size q = Z.of_nat (length l)
  /\ (Z.of_nat (length l) < 2 ^ 64)%Z.

Lemma chain_frame (h : links) (hd : option nat) (l : list nat) (t : nat) (v : option nat) :
  t ∉ l -> chain h hd l -> chain (<[t := v]> h) hd l.
Proof.
  revert hd. induction l as [|x l IH]; intros hd Hn; [done|].
  apply not_elem_of_cons in Hn as [Hx Hn]. intros (-> & nxt & Hl & Hc).
  split; [done|]. exists nxt. rewrite lookup_insert_ne by done. auto.
Qed.

(** Linking a new task behind the last one appends it. *)
Lemma chain_snoc (h : links) (hd : option nat) (l : list nat) (z t : nat) :
  chain h hd (l ++ [z]) -> NoDup (l ++ [z]) -> t ∉ l ++ [z] -> h !! t = Some None ->
  chain (<[z := Some t]> h) hd (l ++ [z; t]).
Proof.
  revert hd. induction l as [|x l IH]; intros hd; simpl.
  - intros (-> & nxt & _ & _) _ Hn Ht. split; [done|]. exists (Some t).
    rewrite lookup_insert_eq. split; [done|]. split; [done|]. exists None.
    rewrite lookup_insert_ne by set_solver. done.
  - intros (-> & nxt & Hl & Hc) [Hx ND]%list.NoDup_cons Hn Ht. split; [done|]. exists nxt.
    rewrite lookup_insert_ne by set_solver. split; [done|]. apply IH; [done..| |done]. set_solver.
Qed.

Lemma append_chain (h : links) (hd : option nat) (l : list nat) (t : nat) :
  chain h hd l -> NoDup l -> t ∉ l ->
  let '(h', hd', tl') := append h hd (list.last l) t in
  chain h' hd' (l ++ [t]) /\ tl' = list.last (l ++ [t]).
Proof.
  intros Hc ND Hn. unfold append. rewrite last_snoc.
  destruct l as [|z l _] using rev_ind; simpl.
  - split; [|done]. split; [done|]. exists None. by rewrite lookup_insert_eq.
  - rewrite last_snoc. split; [|done]. rewrite <- (assoc_L (++)). simpl.
    apply chain_snoc; [by apply chain_frame|done..|]. apply lookup_insert_eq.
Qed.

(** A refused task leaves everything as it was; an accepted one is last. *)
Lemma enqueue_represents (max_size : Z) (h : links) (q : pool_t) (l : list nat) (t : nat) :
  represents h q l -> t ∉ l -> (Z.of_nat (length l) + 1 < 2 ^ 64)%Z ->
  let '(h', q', ok) := worker_pool_enqueue max_size h q t in
  ok = negb (shutdown q || ((0 <? max_size) && (max_size <=? Z.of_nat (length l)))%Z)
  /\ shutdown q' = shutdown q
  /\ represents h' q' (if ok then l ++ [t] else l).
Proof.
  intros (Hc & Ht & ND & Hs & Hb) Hn Hw. unfold worker_pool_enqueue. rewrite Hs.
  destruct (shutdown q) eqn:Sd; [done|]. cbn [orb].
  destruct ((0 <? max_size) && (max_size <=? Z.of_nat (length l)))%Z; [done|].
  pose proof (append_chain h (head q) l t Hc ND Hn) as A. rewrite Ht.
  destruct (append h (head q) (list.last l) t) as [[h' hd'] tl']. destruct A as [A1 A2].
  split; [done|]. split; [done|]. unfold represents. cbn [head tail size shutdown].
  rewrite length_app. simpl length. split_and!; try done; [| |lia].
  - apply list.NoDup_app. split; [done|]. split; [set_solver|]. apply NoDup_singleton.
  - rewrite uwrap_small by lia. lia.
Qed.

Lemma dequeue_represents (h : links) (q : pool_t) (l : list nat) :
  represents h q l ->
  match l with
  | [] => worker_dequeue h q = (q, if shutdown q then Exit else Wait)
  | t :: l' => exists q', worker_dequeue h q = (q', Run t) /\ shutdown q' = shutdown q
      /\ represents h q' l'
  end.
Proof.
  intros (Hc & Ht & ND & Hs & Hb). unfold worker_dequeue. destruct l as [|t l]; simpl in Hc.
  { by rewrite Hc. }
  destruct Hc as (-> & nxt & Hl & Hc). rewrite Hl. eexists. split; [done|]. split; [done|].
  apply list.NoDup_cons in ND as [_ ND]. simpl length in *.
  unfold represents. cbn [head tail size]. split_and!; try done; [| |lia].
  - destruct l as [|t' l]; simpl in Hc; [by subst nxt|]. destruct Hc as (-> & _).
    rewrite Ht. by rewrite last_cons_cons.
  - rewrite uwrap_small by lia. lia.
Qed.

(** ** Traces *)

(** The operations on one pool, in the order in which its mutex is taken. *)
Inductive op := Enqueue (t : nat) | Dequeue | Stop.
Inductive reply := Accepted (b : bool) | Acted (a : action) | Stopped.

Fixpoint run (max_size : Z) (h : links) (q : pool_t) (ops : list op) : list reply :=
  match ops with
  | [] => []
  | Enqueue t :: ops' =>
      let '(h', q', ok) := worker_pool_enqueue max_size h q t in
      Accepted ok :: run max_size h' q' ops'
  | Dequeue :: ops' =>
      let '(q', a) := worker_dequeue h q in Acted a :: run max_size h q' ops'
  | Stop :: ops' => Stopped :: run max_size h (stop q) ops'
  end.

(** The specification: a bounded first-in first-out list. *)
Fixpoint spec (max_size : Z) (l : list nat) (closed : bool) (ops : list op) : list reply :=
  match ops with
  | [] => []
  | Enqueue t :: ops' =>
      if closed || ((0 <? max_size) && (max_size <=? Z.of_nat (length l)))%Z
      then Accepted false :: spec max_size l closed ops'
      else Accepted true :: spec max_size (l ++ [t]) closed ops'
  | Dequeue :: ops' =>
      match l with
      | [] => Acted (if closed then Exit else Wait) :: spec max_size [] closed ops'
      | t :: l' => Acted (Run t) :: spec max_size l' closed ops'
      end
  | Stop :: ops' => Stopped :: spec max_size l true ops'
  end.

(** No task is enqueued while it is in the queue. *)
Fixpoint owned (max_size : Z) (l : list nat) (closed : bool) (ops : list op) : bool :=
  match ops with
  | [] => true
  | Enqueue t :: ops' =>
      bool_decide (t ∉ l)
      && if closed || ((0 <? max_size) && (max_size <=? Z.of_nat (length l)))%Z
         then owned max_size l closed ops' else owned max_size (l ++ [t]) closed ops'
  | Dequeue :: ops' => owned max_size (drop 1 l) closed ops'
  | Stop :: ops' => owned max_size l true ops'
  end.

Lemma run_spec (max_size : Z) (ops : list op) (h : links) (q : pool_t) (l : list nat) :
  represents h q l -> owned max_size l (shutdown q) ops = true ->
  (Z.of_nat (length l) + Z.of_nat (length ops) < 2 ^ 64)%Z ->
  run max_size h q ops = spec max_size l (shutdown q) ops.
Proof.
  revert h q l. induction ops as [|[t| |] ops IH]; intros h q l Hr Ho Hb; [done|..];
    cbn [run spec owned length] in *.
  - apply andb_true_iff in Ho as [Hn Ho]. apply bool_decide_eq_true in Hn.
    pose proof (enqueue_represents max_size h q l t Hr Hn ltac:(lia)) as E.
    destruct (worker_pool_enqueue max_size h q t) as [[h' q'] ok]. destruct E as (Hok & Hsd & E).
    destruct (shutdown q || _); cbn [negb] in Hok; subst ok; f_equal;
      (rewrite <- Hsd; apply IH; [done|by rewrite Hsd|rewrite ?length_app; simpl; lia]).
  - pose proof (dequeue_represents h q l Hr) as D. destruct l as [|t l].
    + rewrite D. f_equal. apply IH; [done..|]. lia.
    + destruct D as (q' & -> & Hsd & D). f_equal. rewrite <- Hsd. apply IH; [done|by rewrite Hsd|].
      simpl in Hb. lia.
  - f_equal. apply (IH h (stop q) l); [done..|lia].
Qed.

(** The linked queue is a bounded FIFO. For every sequence of enqueues,
    dequeues and stops on a pool that starts empty, in which a task is not
    enqueued while it is still queued, the code (its head and tail pointers,
    its [next] links and its counter) answers exactly as the specification: a
    task is accepted unless the pool is stopped or already holds [max_size]
    tasks, accepted tasks come out once each in order of arrival, and a worker
    that finds nothing sleeps, or leaves once the pool is stopped. *)
Lemma queue_refines_fifo (max_size : Z) (ops : list op) :
  owned max_size [] false ops = true -> (Z.of_nat (length ops) < 2 ^ 64)%Z ->
  run max_size ∅ empty_pool ops = spec max_size [] false ops.
Proof.
  intros Ho Hb. apply (run_spec max_size ops ∅ empty_pool []); [|done|simpl; lia].
  split_and!; try done. constructor.
Qed.

End Queue.

(** ** The workers of a pool *)

Module Workers.
Import Queue.

(** A worker is about to take the mutex, asleep on the condition variable,
    running a task, or gone; [signals] counts the producers between their
    unlock and their [pthread_cond_signal], [broadcast] tells whether
    [worker_pool_stop] still has to broadcast. *)
Record state := State {
  nexts : links;
  pool : pool_t;
  checking : nat;
  waiting : nat;
  busy : nat;
  exited : nat;
  signals : nat;
  broadcast : bool;
}.

Inductive worker_step (max_size : Z) : state -> state -> Prop :=
  (** [worker_pool_enqueue] up to its unlock *)
  | step_enqueue t h q ok s :
      (forall l, represents (nexts s) (pool s) l -> (t ∉ l) /\ Z.of_nat (length l) + 1 < 2 ^ 64)%Z ->
      worker_pool_enqueue max_size (nexts s) (pool s) t = (h, q, ok) ->
      worker_step max_size s (State h q (checking s) (waiting s) (busy s) (exited s)
        (if ok then S (signals s) else signals s) (broadcast s))
  (** [pthread_cond_signal] with and without a sleeper *)
  | step_signal h q c w b e n br :
      worker_step max_size (State h q c (S w) b e (S n) br) (State h q (S c) w b e n br)
  | step_signal_none h q c b e n br :
      worker_step max_size (State h q c 0 b e (S n) br) (State h q c 0 b e n br)
  (** a spurious wake-up *)
  | step_spurious h q c w b e n br :
      worker_step max_size (State h q c (S w) b e n br) (State h q (S c) w b e n br)
  (** a worker with the mutex *)
  | step_run h q q' t c w b e n br :
      worker_dequeue h q = (q', Run t) ->
      worker_step max_size (State h q (S c) w b e n br) (State h q' c w (S b) e n br)
  | step_wait h q q' c w b e n br :
      worker_dequeue h q = (q', Wait) ->
      worker_step max_size (State h q (S c) w b e n br) (State h q' c (S w) b e n br)
  | step_exit h q q' c w b e n br :
      worker_dequeue h q = (q', Exit) ->
      worker_step max_size (State h q (S c) w b e n br) (State h q' c w b (S e) n br)
  | step_finish h q c w b e n br :
      worker_step max_size (State h q c w (S b) e n br) (State h q (S c) w b e n br)
  (** [worker_pool_stop] *)
  | step_stop h q c w b e n br :
      worker_step max_size (State h q c w b e n br) (State h (stop q) c w b e n true)
  | step_broadcast h q c w b e n :
      worker_step max_size (State h q c w b e n true) (State h q (c + w) 0 b e n false).

Inductive reachable (max_size : Z) (workers : nat) : state -> Prop :=
  | reach_start : reachable max_size workers (State ∅ empty_pool workers 0 0 0 0 false)
  | reach_step s s' :
      reachable max_size workers s -> worker_step max_size s s' -> reachable max_size workers s'.

Definition invariant (workers : nat) (s : state) : Prop :=
  exists l, represents (nexts s) (pool s) l
    /\ (waiting s = 0 \/ length l <= checking s + signals s)%nat
    /\ (shutdown (pool s) = true -> broadcast s = true \/ waiting s = 0%nat)
    /\ (0 < exited s -> shutdown (pool s) = true /\ l = [])%nat
    /\ (checking s + waiting s + busy s + exited s = workers)%nat.

Lemma dequeue_cases (h : links) (q q' : pool_t) (l : list nat) (a : action) :
  represents h q l -> worker_dequeue h q = (q', a) ->
  shutdown q' = shutdown q
  /\ match a with
     | Run t => exists l', l = t :: l' /\ represents h q' l'
     | Wait => l = [] /\ q' = q /\ shutdown q = false
     | Exit => l = [] /\ q' = q /\ shutdown q = true
     | Fault => False
     end.
Proof.
  intros Hr E. pose proof (dequeue_represents h q l Hr) as D. destruct l as [|t l].
  - rewrite E in D. injection D as -> ->. by destruct (shutdown q).
  - destruct D as (q2 & D & ? & ?). rewrite E in D. injection D as -> ->. eauto.
Qed.

Lemma workers_step_invariant (max_size : Z) (workers : nat) (s s' : state) :
  invariant workers s -> worker_step max_size s s' -> invariant workers s'.
Proof.
  intros (l & Hr & Hw & Hb & He & Hn) Hstep. destruct Hstep;
    unfold invariant; cbn [nexts pool checking waiting busy exited signals broadcast] in *.
  - destruct (H l Hr) as [Hf Hs]. pose proof (enqueue_represents max_size _ _ l t Hr Hf Hs) as E.
    rewrite H0 in E. destruct E as (Hok & Hsd & E). exists (if ok then l ++ [t] else l).
    rewrite Hsd. split; [done|]. split_and!; try done.
    + destruct ok; [rewrite length_app; simpl|]; lia.
    + intros Hex. destruct (He Hex) as [Hs1 Hl]. rewrite Hs1 in Hok. simpl in Hok. by subst ok.
  - exists l. split; [done|]. split_and!; try done; try lia.
    intros Hs. destruct (Hb Hs); [by left|lia].
  - exists l. split_and!; try done; lia.
  - exists l. split; [done|]. split_and!; try done; try lia.
    intros Hs. destruct (Hb Hs); [by left|lia].
  - apply (dequeue_cases _ _ _ l) in H as (Hsd & l' & -> & Hr'); [|done]. exists l'. rewrite Hsd.
    simpl in Hw. split_and!; try done; try lia. intros Hex. by destruct (He Hex).
  - apply (dequeue_cases _ _ _ l) in H as (_ & -> & -> & Hs); [|done]. exists []. rewrite Hs in *.
    simpl. split_and!; try done; try lia.
  - apply (dequeue_cases _ _ _ l) in H as (_ & -> & -> & Hs); [|done]. exists [].
    simpl. split_and!; try done; lia.
  - exists l. split_and!; try done; lia.
  - exists l. split; [done|]. split_and!; try done; try lia; try (intros _; by left).
    intros Hex. split; [done|]. by apply He.
  - exists l. split_and!; try done; lia.
Qed.

Lemma workers_reachable_invariant (max_size : Z) (workers : nat) (s : state) :
  reachable max_size workers s -> invariant workers s.
Proof.
  induction 1 as [|s s' _ IH Hs]; [|by eapply workers_step_invariant].
  exists []. cbn. split_and!; try done; try lia. split_and!; try done. constructor.
Qed.

(** C7: no wake-up is lost. In every reachable state of a pool, if some worker
    sleeps, then there are at least as many workers about to look at the queue
    and signals about to be sent as there are queued tasks.  So whenever
    every signal has been sent and every awake worker is running a task, no
    task waits in the queue while a worker sleeps, although the producer
    signals after it has released the mutex. *)
Theorem workers_no_lost_wakeup (max_size : Z) (workers : nat) (s : state) :
  reachable max_size workers s ->
  exists l, represents (nexts s) (pool s) l
    /\ (waiting s = 0 \/ length l <= checking s + signals s)%nat
    /\ (checking s = 0 -> signals s = 0 -> 0 < waiting s -> head (pool s) = None)%nat.
Proof.
  intros (l & Hr & Hw & _)%workers_reachable_invariant. exists l. split; [done|]. split; [done|].
  intros Hc Hs Hwait. destruct l; [|simpl in Hw; lia]. by destruct Hr as [-> _].
Qed.

(** Stopping a pool drains it. In every reachable state, once the pool is
    stopped and the broadcast made no worker sleeps any more, and as soon as
    one worker has left, the queue is empty and stays so: every accepted task
    has been handed to a worker. *)
Lemma workers_drain_on_stop (max_size : Z) (workers : nat) (s : state) :
  reachable max_size workers s ->
  (shutdown (pool s) = true -> broadcast s = false -> waiting s = 0%nat)
  /\ (0 < exited s -> shutdown (pool s) = true /\ head (pool s) = None /\ size (pool s) = 0%Z)%nat
  /\ (checking s + waiting s + busy s + exited s = workers)%nat.
Proof.
  intros (l & Hr & _ & Hb & He & Hn)%workers_reachable_invariant. split; [|split; [|done]].
  - intros Hs Hf. destruct (Hb Hs); [congruence|done].
  - intros Hex. destruct (He Hex) as [Hs ->]. destruct Hr as (Hc & _ & _ & Hz & _). done.
Qed.

(** One worker, one accepted task, and the state in which the worker runs it. *)
Definition one_running : state :=
  State {[7%nat := None]} {| head := None; tail := None; size := 0; shutdown := false |} 0 0 1 0 1 false.

Lemma one_running_reachable : reachable 10 1 one_running.
Proof.
  set (q := {| head := Some 7%nat; tail := Some 7%nat; size := 1; shutdown := false |}).
  apply (reach_step 10 1 (State {[7%nat := None]} q 1 0 0 0 1 false));
    [apply (reach_step 10 1 (State ∅ empty_pool 1 0 0 0 0 false)); [apply reach_start|]|].
  - apply (step_enqueue 10 7 {[7%nat := None]} q true (State ∅ empty_pool 1 0 0 0 0 false));
      [|reflexivity].
    intros l (Hc & _). destruct l as [|x l]; [|by destruct Hc]. split; [apply not_elem_of_nil|]. simpl. lia.
  - apply step_run with (t := 7%nat). reflexivity.
Qed.

Lemma workers_no_lost_wakeup_witness :
  exists l, represents (nexts one_running) (pool one_running) l
    /\ (waiting one_running = 0 \/ length l <= checking one_running + signals one_running)%nat
    /\ (checking one_running = 0 -> signals one_running = 0 -> 0 < waiting one_running ->
        head (pool one_running) = None)%nat.
Proof. apply (workers_no_lost_wakeup 10 1 one_running), one_running_reachable. Defined.

End Workers.

(** ** The completion queue of a reactor *)

Module Completion.
Import Queue.

(** [reactor_queue_t]; [counter] is the value of its eventfd. *)
Record reactor_queue := RQ {
  nexts : links;
  rq_head : option nat;
  rq_tail : option nat;
  counter : nat;
}.

(** [server_notify_task_done] up to its unlock: the flag tells the caller to
    write to the eventfd. *)
Definition server_notify_task_done (r : reactor_queue) (t : nat) : reactor_queue * bool :=
  let was_empty := match rq_tail r with None => true | Some _ => false end in
  let '(h, hd, tl) := append (nexts r) (rq_head r) (rq_tail r) t in
  (RQ h hd tl (counter r), was_empty).

(** [write(eventfd, &one, sizeof(one))] and the loop of reads that drains it. *)
Definition eventfd_write (r : reactor_queue) : reactor_queue :=
  RQ (nexts r) (rq_head r) (rq_tail r) (S (counter r)).
Definition eventfd_drain (r : reactor_queue) : reactor_queue :=
  RQ (nexts r) (rq_head r) (rq_tail r) 0.

(** The critical section of [reactor_eventfd_cb]. *)
Definition take_all (r : reactor_queue) : reactor_queue * option nat :=
  (RQ (nexts r) None None (counter r), rq_head r).

(** The loop over the taken tasks: [curr->next] is read before the task is
    processed, since processing returns it to the slab. *)
Fixpoint walk (fuel : nat) (h : links) (curr : option nat) : option (list nat) :=
  match curr with
  | None => Some []
  | Some t =>
      match fuel with
      | O => None
      | S fuel' => nxt ← h !! t; l ← walk fuel' h nxt; Some (t :: l)
      end
  end.

Lemma walk_chain (h : links) (hd : option nat) (l : list nat) (fuel : nat) :
  chain h hd l -> (length l <= fuel)%nat -> walk fuel h hd = Some l.
Proof.
  revert hd fuel. induction l as [|t l IH]; intros hd fuel Hc Hf; simpl in Hc.
  { by subst hd; destruct fuel. }
  destruct Hc as (-> & nxt & Hn & Hc). destruct fuel as [|fuel]; simpl in Hf; [lia|].
  simpl. rewrite Hn. simpl. by rewrite (IH nxt fuel) by (done || lia).
Qed.

(** The workers between their unlock and their write, and the reactor: in its
    event loop, or in the callback between the drain and the lock. *)
Record state := State {
  queue : reactor_queue;
  writers : nat;
  draining : bool;
  notified : list nat;
  delivered : list nat;
}.

Inductive completion_step : state -> state -> Prop :=
  | step_notify t r wake s :
      (forall l, chain (nexts (queue s)) (rq_head (queue s)) l -> t ∉ l) ->
      server_notify_task_done (queue s) t = (r, wake) ->
      completion_step s (State r (if wake then S (writers s) else writers s) (draining s)
        (notified s ++ [t]) (delivered s))
  | step_write r w d n l :
      completion_step (State r (S w) d n l) (State (eventfd_write r) w d n l)
  (** the eventfd is readable, so the loop runs the callback *)
  | step_callback r w n l :
      (0 < counter r)%nat -> completion_step (State r w false n l) (State (eventfd_drain r) w true n l)
  | step_take r r' hd fuel ts w n l :
      take_all r = (r', hd) -> walk fuel (nexts r) hd = Some ts ->
      completion_step (State r w true n l) (State r' w false n (l ++ ts)).

Inductive reachable : state -> Prop :=
  | reach_start : reachable (State (RQ ∅ None None 0) 0 false [] [])
  | reach_step s s' : reachable s -> completion_step s s' -> reachable s'.

Definition invariant (s : state) : Prop :=
  exists l, chain (nexts (queue s)) (rq_head (queue s)) l
    /\ rq_tail (queue s) = list.last l /\ NoDup l
    /\ notified s = delivered s ++ l
    /\ (l = [] \/ 0 < writers s \/ 0 < counter (queue s) \/ draining s = true)%nat.

Lemma chain_unique (h : links) (hd : option nat) (l l' : list nat) :
  chain h hd l -> chain h hd l' -> l = l'.
Proof.
  revert hd l'. induction l as [|t l IH]; intros hd [|t' l']; simpl.
  - done.
  - intros -> (? & _). done.
  - intros (-> & _) ?. done.
  - intros (-> & n & Hn & Hc) ([= <-] & n' & Hn' & Hc'). f_equal. apply (IH n); [done|]. congruence.
Qed.

Lemma walk_sound (fuel : nat) (h : links) (hd : option nat) (l : list nat) :
  walk fuel h hd = Some l -> chain h hd l.
Proof.
  revert hd l. induction fuel as [|fuel IH]; intros [t|] l; simpl; try done; try (by intros [= <-]).
  destruct (h !! t) as [nxt|] eqn:E; [|done]. simpl.
  destruct (walk fuel h nxt) as [l'|] eqn:W; [|done]. simpl. intros [= <-].
  split; [done|]. exists nxt. split; [done|]. by apply IH.
Qed.

Lemma completion_step_invariant (s s' : state) : invariant s -> completion_step s s' -> invariant s'.
Proof.
  intros (l & Hc & Ht & ND & Hn & Hw) Hstep. destruct Hstep;
    unfold invariant; cbn [queue writers draining notified delivered] in *.
  - pose proof (H l Hc) as Hf. unfold server_notify_task_done in H0. rewrite Ht in H0.
    pose proof (append_chain _ _ l t Hc ND Hf) as A.
    destruct (append _ _ _ _) as [[h hd] tl]. destruct A as [A1 A2]. injection H0 as <- <-.
    exists (l ++ [t]). cbn [nexts rq_head rq_tail counter]. split_and!; try done.
    + apply list.NoDup_app. split; [done|]. split; [|apply NoDup_singleton].
      intros x Hx ->%list_elem_of_singleton. done.
    + by rewrite Hn, <- (assoc_L (++)).
    + right. destruct l as [|a l]; [simpl; lia|]. destruct Hw as [Hw|Hw]; [done|].
      destruct (list.last (a :: l)); destruct_or!; auto; left; lia.
  - exists l. cbn [eventfd_write nexts rq_head rq_tail counter]. split_and!; try done.
    destruct Hw as [|[|[|]]]; auto; right; right; left; lia.
  - exists l. cbn [eventfd_drain nexts rq_head rq_tail counter]. split_and!; try done. auto.
  - unfold take_all in H. injection H as <- <-. apply walk_sound in H0.
    rewrite (chain_unique _ _ _ _ H0 Hc). exists []. cbn [nexts rq_head rq_tail].
    split_and!; try done; [constructor| |by left]. by rewrite app_nil_r.
Qed.

Lemma completion_reachable_invariant (s : state) : reachable s -> invariant s.
Proof.
  induction 1 as [|s s' _ IH Hs]; [|by eapply completion_step_invariant].
  exists []. split_and!; try done; [constructor|by left].
Qed.

(** C17: every completed task reaches its reactor, once and in order. In every
    reachable state the tasks that the workers have handed in are the tasks
    already delivered to the reactor followed by the linked list of the queue;
    and when no worker still has to write, the eventfd is zero and the callback
    is not running, nothing is left in the queue, although only the worker that
    finds the queue empty writes to the eventfd. *)
Theorem completion_no_lost_task (s : state) :
  reachable s ->
  exists l, chain (nexts (queue s)) (rq_head (queue s)) l /\ notified s = delivered s ++ l
    /\ (writers s = 0%nat -> counter (queue s) = 0%nat -> draining s = false ->
        l = [] /\ delivered s = notified s)
    /\ (draining s = true -> exists s', completion_step s s' /\ delivered s' = notified s
        /\ notified s' = notified s).
Proof.
  intros (l & Hc & Ht & ND & Hn & Hw)%completion_reachable_invariant. exists l. split; [done|]. split; [done|].
  split.
  - intros H1 H2 H3. assert (l = []) as -> by (destruct_or! Hw; [done|lia|lia|congruence]).
    split; [done|]. by rewrite Hn, app_nil_r.
  - destruct s as [r w d n dl]. cbn [draining queue writers notified delivered] in *. intros ->.
    eexists. split; [eapply (step_take r _ _ (length l)); [reflexivity|by apply walk_chain]|]. done.
Qed.

(** Two tasks notified, one write pending. *)
Definition two_notified : state :=
  State (RQ (<[3%nat := Some 8%nat]> (<[8%nat := None]> {[3%nat := None]})) (Some 3%nat) (Some 8%nat) 0)
    1 false [3; 8]%nat [].

Lemma two_notified_reachable : reachable two_notified.
Proof.
  set (r := RQ {[3%nat := None]} (Some 3%nat) (Some 3%nat) 0).
  apply (reach_step (State r 1 false [3%nat] []));
    [apply (reach_step (State (RQ ∅ None None 0) 0 false [] [])); [apply reach_start|]|].
  - apply (step_notify 3 r true (State (RQ ∅ None None 0) 0 false [] [])); [|reflexivity].
    intros [|x l]; [by intros _ ?%not_elem_of_nil|]. by intros [? _].
  - apply (step_notify 8 (queue two_notified) false (State r 1 false [3%nat] [])); [|reflexivity].
    intros l Hc.
    assert (chain {[3%nat := None]} (Some 3%nat) [3%nat]) as Hc' by (split; [done|by exists None]).
    rewrite (chain_unique _ _ _ _ Hc Hc'). by apply (bool_decide_unpack (8%nat ∉ [3%nat])).
Qed.

Lemma completion_no_lost_task_witness :
  exists l, chain (nexts (queue two_notified)) (rq_head (queue two_notified)) l
    /\ notified two_notified = delivered two_notified ++ l
    /\ (writers two_notified = 0%nat -> counter (queue two_notified) = 0%nat ->
        draining two_notified = false -> l = [] /\ delivered two_notified = notified two_notified)
    /\ (draining two_notified = true -> exists s', completion_step two_notified s'
        /\ delivered s' = notified two_notified /\ notified s' = notified two_notified).
Proof. apply (completion_no_lost_task two_notified), two_notified_reachable. Defined.

End Completion.
