(* ===== verification/TaskFlow.v ===== *)
(** * lib/worker_pool.c and lib/server.c: all queues on one [next] field

    The two pools, the completion queues of the reactors and the lists that running
    callbacks walk all link tasks through the one field [next] of the task, and the
    slab clears it.  Here all of them share one store of links, and together they
    implement plain lists: no queue disturbs another.  The operations of all
    threads come in the order in which they take effect. *)

From S2P Require Import Prelude TaskPool TaskQueue.
Import Queue.

Module TaskFlow.
Import TaskPool (remove_one, remove_one_perm, concat_insert).

Section TaskFlow.
(** [config_get_max_queue_size()] *)
Context (max_size : Z).

(** ** The code *)

(** [nexts] is [task->next] of every task; [rqueues] the [head] and [tail] of each
    [reactor_queue_t]; [curr] the variable of [reactor_eventfd_cb] on each reactor.
    [idle] are the tasks in the slab and [held] those in the hands of a thread, in a
    local variable. *)
Record impl := Impl {
  nexts : links;
  fast : pool_t;
  slow : pool_t;
  rqueues : list (option nat * option nat);
  curr : list (option nat);
  idle : list nat;
  held : list nat;
}.

Inductive op :=
  | Alloc (t : nat) | Release (t : nat)
  | Enqueue (is_fast : bool) (t : nat) | Dequeue (is_fast : bool) | Stop (is_fast : bool)
  | Notify (i : nat) (t : nat) | Take (i : nat) | Next (i : nat).

(** [Refused]: no thread can make this call, since it does not have the task or the
    callback is not there; [Woken] tells whether the eventfd is written; [Dropped] is
    the early return for an unknown reactor; [Fault] a read of no task's field. *)
Inductive reply :=
  | Refused | Done | Accepted (b : bool) | Acted (a : action) | Woken (b : bool) | Dropped | Got (t : nat) | Fault.

Definition pool (is_fast : bool) (s : impl) : pool_t := if is_fast then fast s else slow s.

Definition set_pool (is_fast : bool) (h : links) (q : pool_t) (held' : list nat) (s : impl) : impl :=
  if is_fast then Impl h q (slow s) (rqueues s) (curr s) (idle s) held'
  else Impl h (fast s) q (rqueues s) (curr s) (idle s) held'.

(** [task_pool_alloc] and [task_pool_free], of which only the field [next] matters here *)
Definition slab_alloc (s : impl) (t : nat) : impl * reply :=
  if decide (t ∈ idle s) then
    (Impl (<[t := None]> (nexts s)) (fast s) (slow s) (rqueues s) (curr s) (remove_one t (idle s)) (t :: held s), Done)
  else (s, Refused).

Definition slab_release (s : impl) (t : nat) : impl * reply :=
  if decide (t ∈ held s) then
    (Impl (nexts s) (fast s) (slow s) (rqueues s) (curr s) (t :: idle s) (remove_one t (held s)), Done)
  else (s, Refused).

(** [worker_pool_enqueue]; a refused task stays with the caller *)
Definition pool_enqueue (s : impl) (f : bool) (t : nat) : impl * reply :=
  if decide (t ∈ held s) then
    let '(h, q, ok) := worker_pool_enqueue max_size (nexts s) (pool f s) t in
    (set_pool f h q (if ok then remove_one t (held s) else held s) s, Accepted ok)
  else (s, Refused).

(** The critical section of [worker_thread_main] *)
Definition pool_dequeue (s : impl) (f : bool) : impl * reply :=
  let '(q, a) := worker_dequeue (nexts s) (pool f s) in
  (set_pool f (nexts s) q (match a with Run t => t :: held s | _ => held s end) s, Acted a).

(** One half of [worker_pool_stop] *)
Definition pool_stop (s : impl) (f : bool) : impl * reply :=
  (set_pool f (nexts s) (stop (pool f s)) (held s) s, Done).

(** [server_notify_task_done] up to its unlock *)
Definition notify_done (s : impl) (i t : nat) : impl * reply :=
  if decide (t ∈ held s) then
    match rqueues s !! i with
    | None => (s, Dropped)
    | Some (hd, tl) =>
        let '(r, wake) := Completion.server_notify_task_done (Completion.RQ (nexts s) hd tl 0) t in
        (Impl (Completion.nexts r) (fast s) (slow s)
           (<[i := (Completion.rq_head r, Completion.rq_tail r)]> (rqueues s)) (curr s) (idle s)
           (remove_one t (held s)), Woken wake)
    end
  else (s, Refused).

(** The critical section of [reactor_eventfd_cb] *)
Definition callback_take (s : impl) (i : nat) : impl * reply :=
  match rqueues s !! i, curr s !! i with
  | Some (hd, tl), Some None =>
      let '(r, c) := Completion.take_all (Completion.RQ (nexts s) hd tl 0) in
      (Impl (nexts s) (fast s) (slow s) (<[i := (Completion.rq_head r, Completion.rq_tail r)]> (rqueues s))
         (<[i := c]> (curr s)) (idle s) (held s), Done)
  | _, _ => (s, Refused)
  end.

(** [task = curr; curr = curr->next] *)
Definition callback_next (s : impl) (i : nat) : impl * reply :=
  match curr s !! i with
  | Some (Some t) =>
      match nexts s !! t with
      | None => (s, Fault)
      | Some nxt =>
          (Impl (nexts s) (fast s) (slow s) (rqueues s) (<[i := nxt]> (curr s)) (idle s) (t :: held s), Got t)
      end
  | _ => (s, Refused)
  end.

Definition exec (s : impl) (o : op) : impl * reply :=
  match o with
  | Alloc t => slab_alloc s t
  | Release t => slab_release s t
  | Enqueue f t => pool_enqueue s f t
  | Dequeue f => pool_dequeue s f
  | Stop f => pool_stop s f
  | Notify i t => notify_done s i t
  | Take i => callback_take s i
  | Next i => callback_next s i
  end.

(** A slab of [n] tasks and [m] reactors, with nothing queued. *)
Definition start (n m : nat) : impl :=
  Impl ∅ empty_pool empty_pool (replicate m (None, None)) (replicate m None) (seq 0 n) [].

(** ** The specification: lists *)

Record flow := Flow {
  fast_queue : list nat;
  slow_queue : list nat;
  fast_closed : bool;
  slow_closed : bool;
  finished : list (list nat);
  taken : list (list nat);
  free : list nat;
  in_hand : list nat;
}.

Definition queued (f : bool) (s : flow) : list nat := if f then fast_queue s else slow_queue s.
Definition closed (f : bool) (s : flow) : bool := if f then fast_closed s else slow_closed s.

Definition set_queue (f : bool) (l : list nat) (c : bool) (hands : list nat) (s : flow) : flow :=
  if f then Flow l (slow_queue s) c (slow_closed s) (finished s) (taken s) (free s) hands
  else Flow (fast_queue s) l (fast_closed s) c (finished s) (taken s) (free s) hands.

Definition spec (s : flow) (o : op) : flow * reply :=
  match o with
  | Alloc t =>
      if decide (t ∈ free s) then
        (Flow (fast_queue s) (slow_queue s) (fast_closed s) (slow_closed s) (finished s) (taken s)
           (remove_one t (free s)) (t :: in_hand s), Done)
      else (s, Refused)
  | Release t =>
      if decide (t ∈ in_hand s) then
        (Flow (fast_queue s) (slow_queue s) (fast_closed s) (slow_closed s) (finished s) (taken s)
           (t :: free s) (remove_one t (in_hand s)), Done)
      else (s, Refused)
  | Enqueue f t =>
      if decide (t ∈ in_hand s) then
        if closed f s || ((0 <? max_size) && (max_size <=? Z.of_nat (length (queued f s))))%Z
        then (s, Accepted false)
        else (set_queue f (queued f s ++ [t]) (closed f s) (remove_one t (in_hand s)) s, Accepted true)
      else (s, Refused)
  | Dequeue f =>
      match queued f s with
      | [] => (s, Acted (if closed f s then Exit else Wait))
      | t :: l => (set_queue f l (closed f s) (t :: in_hand s) s, Acted (Run t))
      end
  | Stop f => (set_queue f (queued f s) true (in_hand s) s, Done)
  | Notify i t =>
      if decide (t ∈ in_hand s) then
        match finished s !! i with
        | None => (s, Dropped)
        | Some l =>
            (Flow (fast_queue s) (slow_queue s) (fast_closed s) (slow_closed s) (<[i := l ++ [t]]> (finished s))
               (taken s) (free s) (remove_one t (in_hand s)), Woken (bool_decide (l = [])))
        end
      else (s, Refused)
  | Take i =>
      match finished s !! i, taken s !! i with
      | Some l, Some [] =>
          (Flow (fast_queue s) (slow_queue s) (fast_closed s) (slow_closed s) (<[i := []]> (finished s))
             (<[i := l]> (taken s)) (free s) (in_hand s), Done)
      | _, _ => (s, Refused)
      end
  | Next i =>
      match taken s !! i with
      | Some (t :: l) =>
          (Flow (fast_queue s) (slow_queue s) (fast_closed s) (slow_closed s) (finished s)
             (<[i := l]> (taken s)) (free s) (t :: in_hand s), Got t)
      | _ => (s, Refused)
      end
  end.

Definition spec_start (n m : nat) : flow :=
  Flow [] [] false false (replicate m []) (replicate m []) (seq 0 n) [].

Fixpoint replies {S} (step : S -> op -> S * reply) (s : S) (ops : list op) : list reply :=
  match ops with
  | [] => []
  | o :: ops => let '(s, r) := step s o in r :: replies step s ops
  end.

(** ** Chains on one store *)

Lemma nodup_concat (L : list (list nat)) (j k : nat) (l l' : list nat) (x : nat) :
  NoDup (concat L) -> L !! k = Some l -> L !! j = Some l' -> j <> k -> x ∈ l -> x ∉ l'.
Proof.
  intros ND Hk Hj Hne Hx Hx'. destruct (concat_insert L k l [] Hk) as (rest & C1 & C2).
  rewrite C1 in ND. apply list.NoDup_app in ND as (_ & ND & _). apply (ND x Hx). cbn in C2. rewrite <- C2.
  destruct (concat_insert (<[k := []]> L) j l' []) as (rest' & -> & _).
  { by rewrite list_lookup_insert_ne. }
  apply elem_of_app. by left.
Qed.

Lemma in_concat (L : list (list nat)) (k : nat) (l : list nat) (x : nat) : L !! k = Some l -> x ∈ l -> x ∈ concat L.
Proof. intros Hk Hx. destruct (concat_insert L k l [] Hk) as (rest & -> & _). apply elem_of_app. by left. Qed.

(** Appending to one list leaves a disjoint one as it is. *)
Lemma append_frame (h : links) (hd c : option nat) (l l' : list nat) (t : nat) :
  chain h c l' -> t ∉ l' -> (forall x, x ∈ l -> x ∉ l') -> chain (append h hd (list.last l) t).1.1 c l'.
Proof.
  intros Hc Ht Hd. unfold append. destruct (list.last l) as [z|] eqn:Hz; cbn [fst]; [apply chain_frame|];
    try by apply chain_frame.
  apply Hd. apply last_Some in Hz as [l0 ->]. apply elem_of_app. right. by left.
Qed.

Definition chains (h : links) : list (option nat) -> list (list nat) -> Prop := Forall2 (chain h).

Lemma chains_put (h : links) (C : list (option nat)) (L : list (list nat)) (t : nat) (v : option nat) :
  chains h C L -> t ∉ concat L -> chains (<[t := v]> h) C L.
Proof.
  unfold chains. intros H. induction H as [|c l C L Hc _ IH]; intros Ht; [constructor|].
  cbn [concat] in Ht. rewrite elem_of_app in Ht. constructor; [apply chain_frame; tauto|apply IH; tauto].
Qed.

Lemma chains_append (h : links) (C : list (option nat)) (L : list (list nat)) (k t : nat) (hd : option nat) (l : list nat) :
  chains h C L -> NoDup (concat L) -> t ∉ concat L -> C !! k = Some hd -> L !! k = Some l ->
  let '(h', hd', tl') := append h hd (list.last l) t in
  chains h' (<[k := hd']> C) (<[k := l ++ [t]]> L) /\ tl' = list.last (l ++ [t]).
Proof.
  intros H ND Ht HC HL. pose proof (Forall2_lookup_lr _ _ _ _ _ _ H HC HL) as Hc.
  destruct (concat_insert L k l [] HL) as (rest & C1 & _).
  assert (NoDup l) as NDl by (rewrite C1 in ND; by apply list.NoDup_app in ND as [? _]).
  assert (t ∉ l) as Htl by (intros Hx; by apply Ht, (in_concat L k l)).
  pose proof (append_chain h hd l t Hc NDl Htl) as A.
  pose proof (fun c l' => append_frame h hd c l l' t) as Fr.
  destruct (append h hd (list.last l) t) as [[h' hd'] tl']. destruct A as [A1 A2]. split; [|done]. cbn [fst] in Fr.
  unfold chains in *. apply Forall2_same_length_lookup. rewrite !length_insert.
  split; [by eapply Forall2_length|]. intros j c l' Hj Hj'.
  apply list_lookup_insert_Some in Hj as [(<- & <- & _)|(Hne & Hj)].
  - rewrite list_lookup_insert_eq in Hj' by (by eapply lookup_lt_Some). by injection Hj' as <-.
  - rewrite list_lookup_insert_ne in Hj' by done. apply Fr.
    + by apply (Forall2_lookup_lr _ _ _ _ _ _ H Hj Hj').
    + intros Hx. by apply Ht, (in_concat L j l').
    + intros x Hx. apply (nodup_concat L j k l l'); [done..| |done]. by intros ->.
Qed.

(** The first task of a list, and the rest of it. *)
Lemma chains_get (h : links) (C : list (option nat)) (L : list (list nat)) (k t : nat) (hd : option nat) (l : list nat) :
  chains h C L -> C !! k = Some hd -> L !! k = Some (t :: l) ->
  hd = Some t /\ exists nxt, h !! t = Some nxt /\ chains h (<[k := nxt]> C) (<[k := l]> L)
    /\ (nxt = None <-> l = []).
Proof.
  intros H HC HL. pose proof (Forall2_lookup_lr _ _ _ _ _ _ H HC HL) as (-> & nxt & Hn & Hc).
  split; [done|]. exists nxt. split; [done|]. split; [by apply Forall2_insert|].
  destruct l as [|x l]; cbn in Hc; [done|]. by destruct Hc as (-> & _).
Qed.

Lemma chains_none (h : links) (C : list (option nat)) (L : list (list nat)) (k : nat) (hd : option nat) (l : list nat) :
  chains h C L -> C !! k = Some hd -> L !! k = Some l -> (hd = None <-> l = []).
Proof.
  intros H HC HL. pose proof (Forall2_lookup_lr _ _ _ _ _ _ H HC HL) as Hc.
  destruct l as [|t l]; cbn in Hc; [done|]. by destruct Hc as (-> & _).
Qed.

(** Tasks change hands. *)
Lemma put_perm (L : list (list nat)) (F hands l : list nat) (k t : nat) :
  L !! k = Some l -> t ∈ hands -> F ++ remove_one t hands ++ concat (<[k := l ++ [t]]> L) ≡ₚ F ++ hands ++ concat L.
Proof.
  intros Hk Ht. destruct (concat_insert L k l (l ++ [t]) Hk) as (rest & -> & ->).
  rewrite (remove_one_perm t hands Ht) at 2. solve_Permutation.
Qed.

Lemma get_perm (L : list (list nat)) (F hands l : list nat) (k t : nat) :
  L !! k = Some (t :: l) -> F ++ (t :: hands) ++ concat (<[k := l]> L) ≡ₚ F ++ hands ++ concat L.
Proof. intros Hk. destruct (concat_insert L k _ l Hk) as (rest & -> & ->). solve_Permutation. Qed.

Lemma take_perm (L : list (list nat)) (l : list nat) (j k : nat) :
  j <> k -> L !! j = Some l -> L !! k = Some [] -> concat (<[k := l]> (<[j := []]> L)) ≡ₚ concat L.
Proof.
  intros Hne Hj Hk. destruct (concat_insert L j l [] Hj) as (rest & -> & C2).
  destruct (concat_insert (<[j := []]> L) k [] l) as (rest' & C1' & ->).
  { by rewrite list_lookup_insert_ne. }
  cbn in C1', C2. by rewrite <- C1', C2.
Qed.

(** ** The simulation *)

Definition heads (s : impl) : list (option nat) := head (fast s) :: head (slow s) :: (fst <$> rqueues s) ++ curr s.
Definition lists (a : flow) : list (list nat) := fast_queue a :: slow_queue a :: finished a ++ taken a.

Definition pool_ok (q : pool_t) (l : list nat) (c : bool) : Prop :=
  tail q = list.last l /\ size q = Z.of_nat (length l) /\ shutdown q = c.

Definition tails_ok : list (option nat * option nat) -> list (list nat) -> Prop :=
  Forall2 (fun q l => q.2 = list.last l).

(** Each of the [n] tasks is in one place, and the code's pointers describe the lists. *)
Definition related (n : nat) (s : impl) (a : flow) : Prop :=
  idle s = free a /\ held s = in_hand a
  /\ free a ++ in_hand a ++ concat (lists a) ≡ₚ seq 0 n
  /\ chains (nexts s) (heads s) (lists a)
  /\ pool_ok (fast s) (fast_queue a) (fast_closed a) /\ pool_ok (slow s) (slow_queue a) (slow_closed a)
  /\ tails_ok (rqueues s) (finished a).

Definition agrees (n : nat) (s : impl) (a : flow) (o : op) : Prop :=
  (exec s o).2 = (spec a o).2 /\ related n (exec s o).1 (spec a o).1.

Lemma related_nodup (n : nat) (s : impl) (a : flow) :
  related n s a -> NoDup (concat (lists a)) /\ (forall t, t ∈ free a \/ t ∈ in_hand a -> t ∉ concat (lists a)).
Proof.
  intros (_ & _ & P & _). assert (NoDup (free a ++ in_hand a ++ concat (lists a))) as ND
    by (rewrite P; apply NoDup_seq).
  rewrite (assoc_L (++)) in ND. apply list.NoDup_app in ND as (_ & Hd & ND). split; [done|].
  intros t Ht. apply Hd. by rewrite elem_of_app.
Qed.

Lemma related_bound (n : nat) (s : impl) (a : flow) (k : nat) (l : list nat) :
  related n s a -> lists a !! k = Some l -> (length l <= n)%nat.
Proof.
  intros (_ & _ & P & _) Hk. destruct (concat_insert (lists a) k l [] Hk) as (rest & C & _).
  rewrite C in P. apply Permutation_length in P. rewrite !length_app, length_seq in P. lia.
Qed.

Definition pk (f : bool) : nat := if f then 0 else 1.

Lemma pool_related (n : nat) (s : impl) (a : flow) (f : bool) :
  related n s a -> heads s !! pk f = Some (head (pool f s)) /\ lists a !! pk f = Some (queued f a)
    /\ pool_ok (pool f s) (queued f a) (closed f a).
Proof. intros (_ & _ & _ & _ & Hf & Hs & _). by destruct f. Qed.

Lemma set_pool_id (f : bool) (s : impl) : set_pool f (nexts s) (pool f s) (held s) s = s.
Proof. by destruct s, f. Qed.

(** A pool has changed. *)
Lemma related_set_pool (n : nat) (s : impl) (a : flow) (f : bool) (h : links) (q : pool_t) (l hands : list nat) (c : bool) :
  related n s a -> chains h (<[pk f := head q]> (heads s)) (<[pk f := l]> (lists a)) -> pool_ok q l c ->
  free a ++ hands ++ concat (<[pk f := l]> (lists a)) ≡ₚ free a ++ in_hand a ++ concat (lists a) ->
  related n (set_pool f h q hands s) (set_queue f l c hands a).
Proof. intros (H1 & H2 & P & _ & Hf & Hs & Ht) Hc Hq P'. rewrite P in P'. destruct f; by split_and!. Qed.

Lemma alloc_agrees (n : nat) (s : impl) (a : flow) (t : nat) : related n s a -> agrees n s a (Alloc t).
Proof.
  intros H. pose proof (related_nodup _ _ _ H) as [_ Hd]. pose proof H as (H1 & H2 & P & Hc & Hr).
  unfold agrees, exec, slab_alloc, spec. rewrite H1. case_decide as Ht; [|done]. split; [done|]. cbn [fst].
  unfold related, heads, lists. cbn [idle free held in_hand nexts fast slow rqueues curr fast_queue slow_queue
    fast_closed slow_closed finished taken].
  rewrite H2. split; [done|]. split; [done|]. split; [|split; [apply chains_put; [exact Hc|by apply Hd; left]|exact Hr]].
  rewrite <- P. unfold lists. rewrite (remove_one_perm t (free a)) at 2 by done. solve_Permutation.
Qed.

Lemma release_agrees (n : nat) (s : impl) (a : flow) (t : nat) : related n s a -> agrees n s a (Release t).
Proof.
  intros H. pose proof H as (H1 & H2 & P & Hr).
  unfold agrees, exec, slab_release, spec. rewrite H2. case_decide as Ht; [|done]. split; [done|]. cbn [fst].
  unfold related, heads, lists. cbn [idle free held in_hand nexts fast slow rqueues curr fast_queue slow_queue
    fast_closed slow_closed finished taken].
  rewrite H1. split; [done|]. split; [done|]. split; [|exact Hr].
  rewrite <- P. unfold lists. rewrite (remove_one_perm t (in_hand a)) at 2 by done. solve_Permutation.
Qed.

Lemma enqueue_agrees (n : nat) (s : impl) (a : flow) (f : bool) (t : nat) :
  (Z.of_nat n + 1 < 2 ^ 64)%Z -> related n s a -> agrees n s a (Enqueue f t).
Proof.
  intros Hn H. pose proof (related_nodup _ _ _ H) as [ND Hd]. pose proof H as (_ & H2 & _ & Hc & _).
  destruct (pool_related n s a f H) as (Hh & Hl & Ht & Hs & Hsd).
  pose proof (related_bound _ _ _ _ _ H Hl) as Hb.
  unfold agrees, exec, pool_enqueue, spec. rewrite H2. case_decide as Hin; [|done].
  unfold worker_pool_enqueue. rewrite Hs, Hsd.
  destruct (closed f a) eqn:Ec; cbn [orb].
  { split; [done|]. cbn [fst]. by rewrite <- H2, set_pool_id. }
  destruct ((0 <? max_size) && (max_size <=? Z.of_nat (length (queued f a))))%Z.
  { split; [done|]. cbn [fst]. by rewrite <- H2, set_pool_id. }
  pose proof (chains_append _ _ _ _ t _ _ Hc ND (Hd t (or_intror Hin)) Hh Hl) as A. rewrite Ht.
  destruct (append _ _ _ _) as [[h' hd'] tl']. destruct A as [A1 A2]. split; [done|]. cbn [fst].
  rewrite <- Ec. apply related_set_pool; [done|exact A1| |by apply put_perm].
  split; [exact A2|]. rewrite length_app. cbn [size shutdown length]. split; [|done]. rewrite uwrap_small; lia.
Qed.

Lemma dequeue_agrees (n : nat) (s : impl) (a : flow) (f : bool) :
  (Z.of_nat n + 1 < 2 ^ 64)%Z -> related n s a -> agrees n s a (Dequeue f).
Proof.
  intros Hn H. pose proof H as (_ & H2 & _ & Hc & _).
  destruct (pool_related n s a f H) as (Hh & Hl & Ht & Hs & Hsd).
  pose proof (related_bound _ _ _ _ _ H Hl) as Hb.
  unfold agrees, exec, pool_dequeue, spec, worker_dequeue. destruct (queued f a) as [|t l] eqn:El.
  { rewrite (proj2 (chains_none _ _ _ _ _ _ Hc Hh Hl) eq_refl), Hsd.
    split; [by destruct (closed f a)|]. cbn [fst]. destruct (closed f a); by rewrite set_pool_id. }
  destruct (chains_get _ _ _ _ _ _ _ Hc Hh Hl) as (-> & nxt & -> & Hc' & Hnil). split; [done|]. cbn [fst]. rewrite H2.
  apply related_set_pool; [done|exact Hc'| |by apply get_perm]. unfold pool_ok. cbn [tail size shutdown].
  cbn [length] in Hs, Hb. split; [|split; [rewrite uwrap_small; lia|done]].
  destruct nxt as [x|]; [|by rewrite (proj1 Hnil eq_refl)].
  destruct l as [|y l]; [by pose proof (proj2 Hnil eq_refl)|]. by rewrite Ht, last_cons_cons.
Qed.

Lemma stop_agrees (n : nat) (s : impl) (a : flow) (f : bool) : related n s a -> agrees n s a (Stop f).
Proof.
  intros H. pose proof H as (_ & H2 & _ & Hc & _). destruct (pool_related n s a f H) as (Hh & Hl & Ht & Hs & Hsd).
  split; [done|]. unfold exec, pool_stop, spec. cbn [fst]. rewrite H2.
  apply related_set_pool; [done| |done|]; rewrite ?(list_insert_id _ _ _ Hl); [|done].
  cbn [stop head]. by rewrite (list_insert_id _ _ _ Hh).
Qed.

(** ** The reactors *)

Lemma rqueue_related (n i : nat) (s : impl) (a : flow) (hd tl : option nat) :
  related n s a -> rqueues s !! i = Some (hd, tl) ->
  exists l, finished a !! i = Some l /\ tl = list.last l
    /\ heads s !! (2 + i)%nat = Some hd /\ lists a !! (2 + i)%nat = Some l.
Proof.
  intros (_ & _ & _ & _ & _ & _ & Ht) Hq. destruct (Forall2_lookup_l _ _ _ _ _ Ht Hq) as (l & Hl & E).
  exists l. split; [done|]. split; [done|]. change (((fst <$> rqueues s) ++ curr s) !! i = Some hd /\ (finished a ++ taken a) !! i = Some l).
  rewrite !lookup_app_l by (rewrite ?length_fmap; by eapply lookup_lt_Some). by rewrite list_lookup_fmap, Hq.
Qed.

Lemma rqueue_none (n i : nat) (s : impl) (a : flow) : related n s a -> rqueues s !! i = None -> finished a !! i = None.
Proof.
  intros (_ & _ & _ & _ & _ & _ & Ht) Hq. apply lookup_ge_None. rewrite <- (Forall2_length Ht).
  by apply lookup_ge_None.
Qed.

(** The place of the walk of reactor [i]. *)
Definition walk_at (s : impl) (i : nat) : nat := 2 + (length (rqueues s) + i).

Lemma curr_related (n i : nat) (s : impl) (a : flow) (c : option nat) :
  related n s a -> curr s !! i = Some c ->
  exists l, taken a !! i = Some l /\ heads s !! walk_at s i = Some c /\ lists a !! walk_at s i = Some l.
Proof.
  intros (_ & _ & _ & Hc & _ & _ & Ht) Hi. pose proof (Forall2_length Ht) as Hlen.
  assert (heads s !! walk_at s i = Some c) as Hh.
  { change (((fst <$> rqueues s) ++ curr s) !! (length (rqueues s) + i)%nat = Some c). rewrite lookup_app_r by (rewrite length_fmap; lia).
    rewrite length_fmap. by replace (length (rqueues s) + i - length (rqueues s))%nat with i by lia. }
  destruct (Forall2_lookup_l _ _ _ _ _ Hc Hh) as (l & Hl & _). exists l. split; [|done].
  change ((finished a ++ taken a) !! (length (rqueues s) + i)%nat = Some l) in Hl. rewrite lookup_app_r in Hl by lia.
  by replace (length (rqueues s) + i - length (finished a))%nat with i in Hl by lia.
Qed.

Lemma curr_none (n i : nat) (s : impl) (a : flow) : related n s a -> curr s !! i = None -> taken a !! i = None.
Proof.
  intros (_ & _ & _ & Hc & _ & _ & Ht) Hi. apply lookup_ge_None in Hi. apply lookup_ge_None.
  pose proof (Forall2_length Ht) as Hlen. pose proof (Forall2_length Hc) as Hlen'.
  unfold heads, lists in Hlen'. cbn in Hlen'. rewrite !length_app, length_fmap in Hlen'. lia.
Qed.

Lemma heads_rqueue (s : impl) (i : nat) (q : option nat * option nat) :
  (i < length (rqueues s))%nat ->
  head (fast s) :: head (slow s) :: (fst <$> <[i := q]> (rqueues s)) ++ curr s = <[(2 + i)%nat := q.1]> (heads s).
Proof.
  intros Hi. change (<[(2 + i)%nat := q.1]> (heads s))
    with (head (fast s) :: head (slow s) :: <[i := q.1]> ((fst <$> rqueues s) ++ curr s)).
  rewrite list_fmap_insert, insert_app_l; [done|]. by rewrite length_fmap.
Qed.

Lemma lists_finished (a : flow) (i : nat) (l : list nat) :
  (i < length (finished a))%nat ->
  fast_queue a :: slow_queue a :: <[i := l]> (finished a) ++ taken a = <[(2 + i)%nat := l]> (lists a).
Proof.
  intros Hi. change (<[(2 + i)%nat := l]> (lists a))
    with (fast_queue a :: slow_queue a :: <[i := l]> (finished a ++ taken a)). by rewrite insert_app_l.
Qed.

Lemma heads_curr (s : impl) (i : nat) (c : option nat) :
  head (fast s) :: head (slow s) :: (fst <$> rqueues s) ++ <[i := c]> (curr s) = <[walk_at s i := c]> (heads s).
Proof.
  change (<[walk_at s i := c]> (heads s))
    with (head (fast s) :: head (slow s) :: <[(length (rqueues s) + i)%nat := c]> ((fst <$> rqueues s) ++ curr s)).
  rewrite insert_app_r_alt; rewrite length_fmap; [|lia]. do 4 f_equal. lia.
Qed.

Lemma lists_taken (s : impl) (a : flow) (i : nat) (l : list nat) :
  tails_ok (rqueues s) (finished a) ->
  fast_queue a :: slow_queue a :: finished a ++ <[i := l]> (taken a) = <[walk_at s i := l]> (lists a).
Proof.
  intros Ht. pose proof (Forall2_length Ht) as Hlen.
  change (<[walk_at s i := l]> (lists a))
    with (fast_queue a :: slow_queue a :: <[(length (rqueues s) + i)%nat := l]> (finished a ++ taken a)).
  rewrite insert_app_r_alt by lia. do 4 f_equal. lia.
Qed.

Lemma notify_agrees (n : nat) (s : impl) (a : flow) (i t : nat) : related n s a -> agrees n s a (Notify i t).
Proof.
  intros H. pose proof (related_nodup _ _ _ H) as [ND Hd]. pose proof H as (H1 & H2 & P & Hc & Hf & Hs & Ht).
  unfold agrees, exec, notify_done, spec. rewrite H2. case_decide as Hin; [|done].
  destruct (rqueues s !! i) as [[hd tl]|] eqn:Hq; [|by rewrite (rqueue_none _ _ _ _ H Hq)].
  destruct (rqueue_related _ _ _ _ _ _ H Hq) as (l & Hl & -> & Hh & HL). rewrite Hl.
  pose proof (lookup_lt_Some _ _ _ Hq) as Hi. pose proof (lookup_lt_Some _ _ _ Hl) as Hi'.
  unfold Completion.server_notify_task_done. cbn [Completion.nexts Completion.rq_head Completion.rq_tail].
  pose proof (chains_append _ _ _ _ t _ _ Hc ND (Hd t (or_intror Hin)) Hh HL) as A.
  destruct (append _ _ _ _) as [[h' hd'] tl']. destruct A as [A1 A2]. split.
  { cbn [snd]. f_equal. destruct l as [|x l _] using rev_ind; [done|].
    rewrite last_snoc. symmetry. apply bool_decide_eq_false. by destruct l. }
  cbn [fst]. unfold related, heads, lists. cbn [idle free held in_hand nexts fast slow rqueues curr fast_queue slow_queue
    fast_closed slow_closed finished taken Completion.nexts Completion.rq_head Completion.rq_tail].
  rewrite heads_rqueue, lists_finished by done.
  split; [done|]. split; [done|]. split; [by rewrite put_perm|]. split; [exact A1|]. split; [done|]. split; [done|].
  apply Forall2_insert; [exact Ht|exact A2].
Qed.

Lemma take_agrees (n : nat) (s : impl) (a : flow) (i : nat) : related n s a -> agrees n s a (Take i).
Proof.
  intros H. pose proof H as (H1 & H2 & P & Hc & Hf & Hs & Ht).
  unfold agrees, exec, callback_take, spec.
  destruct (rqueues s !! i) as [[hd tl]|] eqn:Hq; [|by rewrite (rqueue_none _ _ _ _ H Hq)].
  destruct (rqueue_related _ _ _ _ _ _ H Hq) as (l & Hl & -> & Hh & HL). rewrite Hl.
  destruct (curr s !! i) as [c|] eqn:Hk; [|by rewrite (curr_none _ _ _ _ H Hk)].
  destruct (curr_related _ _ _ _ _ H Hk) as (l' & Hl' & Hh' & HL'). rewrite Hl'.
  pose proof (chains_none _ _ _ _ _ _ Hc Hh' HL') as Hnone.
  destruct c as [x|]; [destruct l' as [|x' l']; [by pose proof (proj2 Hnone eq_refl)|done]|].
  rewrite (proj1 Hnone eq_refl) in *. split; [done|]. cbn [fst snd Completion.take_all].
  pose proof (lookup_lt_Some _ _ _ Hq) as Hi. pose proof (lookup_lt_Some _ _ _ Hl) as Hi'.
  assert ((2 + i)%nat <> walk_at s i) as Hne by (unfold walk_at; lia).
  set (s1 := Impl (nexts s) (fast s) (slow s) (<[i := (None, None)]> (rqueues s)) (curr s) (idle s) (held s)).
  set (a1 := Flow (fast_queue a) (slow_queue a) (fast_closed a) (slow_closed a) (<[i := []]> (finished a)) (taken a)
    (free a) (in_hand a)).
  assert (tails_ok (rqueues s1) (finished a1)) as Ht1 by (apply Forall2_insert; [exact Ht|done]).
  assert (walk_at s1 i = walk_at s i) as Ew by (unfold walk_at; cbn [s1 rqueues]; by rewrite length_insert).
  unfold related, heads, lists. cbn [idle free held in_hand nexts fast slow rqueues curr fast_queue slow_queue
    fast_closed slow_closed finished taken Completion.rq_head Completion.rq_tail Completion.nexts].
  pose proof (heads_curr s1 i hd) as E1. pose proof (lists_taken s1 a1 i l Ht1) as E2.
  cbn [s1 a1 fast slow rqueues curr fast_queue slow_queue finished taken] in E1, E2. rewrite E1, E2, Ew.
  unfold s1, a1, heads, lists. cbn [fast slow rqueues curr fast_queue slow_queue finished taken].
  rewrite heads_rqueue, lists_finished by done. cbn [fst]. unfold chains in *.
  split; [done|]. split; [done|]. split; [by rewrite take_perm|]. split; [|by split_and!].
  apply Forall2_insert; [by apply Forall2_insert|].
  by apply (Forall2_lookup_lr _ _ _ _ _ _ Hc Hh HL).
Qed.

Lemma next_agrees (n : nat) (s : impl) (a : flow) (i : nat) : related n s a -> agrees n s a (Next i).
Proof.
  intros H. pose proof H as (H1 & H2 & P & Hc & Hf & Hs & Ht). unfold agrees, exec, callback_next, spec.
  destruct (curr s !! i) as [c|] eqn:Hk; [|by rewrite (curr_none _ _ _ _ H Hk)].
  destruct (curr_related _ _ _ _ _ H Hk) as (l & Hl & Hh & HL). rewrite Hl.
  destruct l as [|t l]; [by rewrite (proj2 (chains_none _ _ _ _ _ _ Hc Hh HL) eq_refl)|].
  destruct (chains_get _ _ _ _ _ _ _ Hc Hh HL) as (-> & nxt & -> & Hc' & _). split; [done|]. cbn [fst].
  unfold related, heads, lists. cbn [idle free held in_hand nexts fast slow rqueues curr fast_queue slow_queue
    fast_closed slow_closed finished taken]. rewrite heads_curr, (lists_taken s a i l Ht), H2.
  split; [done|]. split; [done|]. split; [by rewrite get_perm|]. by split_and!.
Qed.

Lemma op_agrees (n : nat) (s : impl) (a : flow) (o : op) :
  (Z.of_nat n + 1 < 2 ^ 64)%Z -> related n s a -> agrees n s a o.
Proof.
  intros Hn H. destruct o;
    eauto using alloc_agrees, release_agrees, enqueue_agrees, dequeue_agrees, stop_agrees, notify_agrees, take_agrees,
      next_agrees.
Qed.

Lemma start_related (n m : nat) : related n (start n m) (spec_start n m).
Proof.
  unfold related, start, spec_start, heads, lists. cbn [idle free held in_hand nexts fast slow rqueues curr fast_queue
    slow_queue fast_closed slow_closed finished taken head empty_pool].
  assert (forall k, concat (replicate k (@nil nat)) = []) as Hnil by (intros k; by induction k).
  split; [done|]. split; [done|]. cbn [concat app]. rewrite concat_app, !Hnil, !app_nil_r.
  split; [done|]. split; [|split; [done|split; [done|]]].
  - constructor; [done|]. constructor; [done|]. apply Forall2_app.
    + rewrite fmap_replicate. by apply Forall2_replicate.
    + by apply Forall2_replicate.
  - by apply Forall2_replicate.
Qed.

Lemma replies_agree (n : nat) (ops : list op) (s : impl) (a : flow) :
  (Z.of_nat n + 1 < 2 ^ 64)%Z -> related n s a -> replies exec s ops = replies spec a ops.
Proof.
  intros Hn. revert s a. induction ops as [|o ops IH]; intros s a H; [done|]. cbn [replies].
  destruct (op_agrees n s a o Hn H) as [Hr H']. destruct (exec s o) as [s' r], (spec a o) as [a' r'].
  cbn [fst snd] in *. subst r'. f_equal. by apply IH.
Qed.

(** C6: the queues of the server are independent lists, although they share the one
    [next] field of the tasks. For every number of tasks and reactors, every limit and every
    sequence of calls of all threads (taking a task from the slab and returning it,
    enqueuing and dequeuing on both pools, stopping them, handing a finished task to
    a reactor, and the two parts of the callback's walk), the code answers each call
    exactly as the specification with one list per queue does: no queue loses,
    repeats or reorders a task, a task that a callback has passed can be reused while
    the walk goes on, the eventfd is written exactly when the queue was empty, and
    no field of a missing task is read. *)
Theorem flow_refines_lists (n m : nat) (ops : list op) :
  (Z.of_nat n + 1 < 2 ^ 64)%Z ->
  replies exec (start n m) ops = replies spec (spec_start n m) ops
  /\ Forall (fun r => r <> Fault /\ r <> Acted Queue.Fault) (replies exec (start n m) ops).
Proof.
  intros Hn. pose proof (replies_agree n ops _ _ Hn (start_related n m)) as E. split; [exact E|]. rewrite E. clear E.
  generalize (spec_start n m). induction ops as [|o ops IH]; intros a; [constructor|]. cbn [replies].
  destruct (spec a o) as [a' r] eqn:Es. constructor; [|apply IH]. revert Es. clear IH.
  destruct o; cbn [spec]; repeat case_match; by intros [= <- <-].
Qed.

End TaskFlow.

(** Two tasks go through a pool and back to a reactor; the first is reused while
    the callback still walks to the second. *)
Definition sample_ops : list op :=
  [Alloc 0; Alloc 1; Enqueue true 0; Enqueue true 1; Dequeue true; Dequeue true; Notify 1 0; Notify 1 1; Take 1;
   Next 1; Release 0; Alloc 0; Enqueue false 0; Next 1; Next 1].

Lemma flow_refines_lists_witness :
  replies (exec 10) (start 2 2) sample_ops
  = [Done; Done; Accepted true; Accepted true; Acted (Run 0); Acted (Run 1); Woken true; Woken false; Done;
     Got 0; Done; Done; Accepted true; Got 1; Refused].
Proof. apply (flow_refines_lists 10 2 2 sample_ops). reflexivity. Defined.

End TaskFlow.
