(* ===== verification/EvHttp.v ===== *)
(** * libevent's HTTP requests and json-c's incremental parser: interfaces

    libevent owns the requests: the class [EvHttp] has the accessors the
    server calls.  The input buffer of a request is the list of its contiguous
    extents, which is what [evbuffer_peek] hands out one after the other.
    [JsonTokener] is json-c's incremental parser, with the documented law that
    it may be fed a document piecewise.  [Sample] instantiates both. *)

From S2P Require Import Prelude JsonC.

(** [enum evhttp_cmd_type] *)
Inductive evhttp_cmd_type := EVHTTP_REQ_GET | EVHTTP_REQ_POST | EVHTTP_REQ_OPTIONS | EVHTTP_REQ_OTHER.

#[export] Instance evhttp_cmd_type_eq_dec : EqDecision evhttp_cmd_type.
Proof. solve_decision. Defined.

Class EvHttp := {
  request : Type;
  evhttp_request_get_command : request -> evhttp_cmd_type;
  (** [evhttp_find_header] on the input headers *)
  evhttp_find_header : request -> cstr -> option cstr;
  evhttp_request_get_uri : request -> cstr;
  (** the extents of the input buffer *)
  input_extents : request -> list (list char);
  (** the connection, if any, and the address of its peer, if any *)
  evhttp_request_get_connection : request -> option (option cstr);
}.

(** Header values and URIs are C strings. *)
Class EvHttpLaws (E : EvHttp) : Prop := {
  header_no_nul (r : request) (k v : cstr) : evhttp_find_header r k = Some v -> no_nul v;
}.

Inductive json_tokener_error := json_tokener_success | json_tokener_continue | json_tokener_failed.

#[export] Instance json_tokener_error_eq_dec : EqDecision json_tokener_error.
Proof. solve_decision. Defined.

Class JsonTokener (J : JsonC) := {
  tokener : Type;
  json_tokener_new : tokener;
  json_tokener_parse_ex : tokener -> list char -> tokener * option jobj;
  json_tokener_get_error : tokener -> json_tokener_error;
}.

Class JsonTokenerLaws (J : JsonC) (T : JsonTokener J) : Prop := {
  (** While the parser asks for more, it has no object, and a document may be
      given in pieces; once it has stopped, more input changes nothing. *)
  parse_pieces (t t' : tokener) (a b : list char) (o : option jobj) :
    json_tokener_parse_ex t a = (t', o) ->
    match json_tokener_get_error t' with
    | json_tokener_continue => o = None
        /\ json_tokener_parse_ex t (a ++ b) = json_tokener_parse_ex t' b
    | _ => exists t'', json_tokener_parse_ex t (a ++ b) = (t'', o)
        /\ json_tokener_get_error t'' = json_tokener_get_error t'
    end;
  (** A parser that has been given nothing, or an empty piece, asks for more. *)
  parse_empty (t : tokener) :
    json_tokener_get_error t = json_tokener_continue ->
    json_tokener_parse_ex t [] = (t, None);
  new_continues : json_tokener_get_error json_tokener_new = json_tokener_continue;
}.

(** ** Concrete instances *)

Module HttpModel.

Record http_request := {
  command : evhttp_cmd_type;
  headers : list (cstr * cstr);
  target : cstr;
  extents : list (list char);
  connection : option (option cstr);
}.

Fixpoint find_header (hs : list (cstr * cstr)) (name : cstr) : option cstr :=
  match hs with
  | [] => None
  | (k, v) :: hs' => if strcaseeq k name then Some (c_str v) else find_header hs' name
  end.

#[export] Instance model_evhttp : EvHttp := {
  request := http_request;
  evhttp_request_get_command := command;
  evhttp_find_header r := find_header (headers r);
  evhttp_request_get_uri := target;
  input_extents := extents;
  evhttp_request_get_connection := connection;
}.

#[export] Instance model_evhttp_laws : EvHttpLaws model_evhttp.
Proof.
  split. intros r k v. cbn [evhttp_find_header model_evhttp]. induction (headers r) as [|[a b] hs IH];
    simpl; [done|]. destruct (strcaseeq a k); [|done]. intros [= <-]. apply c_str_is_no_nul.
Qed.

(** An incremental parser: it collects the input until a closing brace, which
    ends the flat objects of [Model.parse]. *)
Record collector := { collected : list char; verdict : json_tokener_error }.

Fixpoint feed (acc : list char) (s : list char) : list char * bool :=
  match s with
  | [] => (acc, false)
  | c :: s' => if decide (c = "}"%char) then (acc ++ [c], true) else feed (acc ++ [c]) s'
  end.

Definition parse_ex (t : collector) (s : list char) : collector * option Model.json :=
  let '(acc, complete) := feed (collected t) s in
  if complete then
    match Model.parse acc with
    | Some v => ({| collected := acc; verdict := json_tokener_success |}, Some v)
    | None => ({| collected := acc; verdict := json_tokener_failed |}, None)
    end
  else ({| collected := acc; verdict := json_tokener_continue |}, None).

#[export] Instance model_tokener : JsonTokener Model.model_json_c := {
  tokener := collector;
  json_tokener_new := {| collected := []; verdict := json_tokener_continue |};
  json_tokener_parse_ex := parse_ex;
  json_tokener_get_error := verdict;
}.

Lemma feed_app (a b acc : list char) :
  feed acc (a ++ b)
  = let '(acc', complete) := feed acc a in if complete then (acc', true) else feed acc' b.
Proof.
  revert acc. induction a as [|c a IH]; intros acc; simpl; [done|]. case_decide; [done|apply IH].
Qed.

#[export] Instance model_tokener_laws : JsonTokenerLaws Model.model_json_c model_tokener.
Proof.
  split.
  - intros t t' a b o. cbn [json_tokener_parse_ex json_tokener_get_error model_tokener].
    unfold parse_ex. rewrite feed_app. destruct (feed (collected t) a) as [acc []].
    + destruct (Model.parse acc); intros [= <- <-]; eexists; done.
    + intros [= <- <-]. done.
  - intros [acc e]. cbn [json_tokener_get_error model_tokener verdict]. by intros ->.
  - done.
Qed.

End HttpModel.
