(* ===== verification/Worker.v ===== *)
(** * lib/worker_pool.c: what a worker does with a task

    The pipeline of [worker_process_task]: the token, the body, the schema,
    the handler.  A handler is a function of the thread-local state, the
    document and the status code it finds: it answers the status code, the
    bytes it adds to the body and the thread-local state it leaves.  The
    outermost [option] is [None] on undefined behaviour, which only the
    validators of a schema can bring in.  Log lines are left out. *)

From S2P Require Import Prelude JsonUtil Dtoa JsonC Sodium Validation Jwt ThreadState TaskPool EvHttp.
Import Validation Jwt ThreadState TaskPool.

Module Worker.

(** ** The split of the workers *)

(** The sizes [worker_pool_init] computes; [pct] is [FAST_POOL_PERCENTAGE]. *)
Definition split_workers (num_workers pct : Z) : Z * Z :=
  let fast_workers := (uwrap 64 (num_workers * pct) / 100)%Z in
  let fast_workers := if (fast_workers =? 0)%Z then 1%Z else fast_workers in
  let fast_workers :=
    if ((fast_workers =? num_workers) && (1 <? num_workers))%Z
    then (num_workers - 1)%Z else fast_workers in
  let slow_workers :=
    if (fast_workers <? num_workers)%Z then (num_workers - fast_workers)%Z else 1%Z in
  (fast_workers, slow_workers).

(** ** Routes and tasks *)

Inductive auth_mode_t := AUTH_NONE | AUTH_JWT | AUTH_API_KEY.

#[export] Instance auth_mode_t_eq_dec : EqDecision auth_mode_t.
Proof. solve_decision. Defined.

Definition get_http_status_text (code : Z) : cstr :=
  lit match code with
      | 200 => "OK"
      | 400 => "Bad Request"
      | 401 => "Unauthorized"
      | 403 => "Forbidden"
      | 404 => "Not Found"
      | 429 => "Too Many Requests"
      | 500 => "Internal Server Error"
      | 502 => "Bad Gateway"
      | 503 => "Service Unavailable"
      | _ => "Unknown Status"
      end%Z.

Section Pipeline.
Context `{J : JsonC, T : !JsonTokener J, S : Sodium, E : EvHttp}.

Definition handler_fn : Type := tls -> option jobj -> Z -> Z * list char * tls.

(** [middleware_ctx_t] *)
Record middleware_ctx_t := Route {
  path : cstr;
  validation_ctx : option ValidationContext;
  handler : option handler_fn;
  allowed_method : evhttp_cmd_type;
  auth_mode : auth_mode_t;
  is_fast : bool;
}.

Abbreviation task := (http_task request jobj middleware_ctx_t).

(** A task with some fields replaced. *)
Definition update (x : task) (body : option jobj) (code : Z) (txt : option cstr)
    (buf : option (list char)) (ctype user sess : cstr) : task := {|
  start_time := start_time x; req := req x; parsed_body := body;
  middleware_ctx := middleware_ctx x; status_txt := txt; worker_buf := buf; next := next x;
  reactor_id := reactor_id x; status_code := code; cancelled := cancelled x;
  out_content_type := ctype; username := user; session_id := sess; client_ip := client_ip x;
  request_id := request_id x; uri := uri x |}.

(** The status, the text and an [evbuffer_add] of an error path. *)
Definition reply_error (x : task) (code : Z) (txt : string) (msg : cstr) : task :=
  update x (parsed_body x) code (Some (lit txt)) ((fun b => b ++ msg) <$> worker_buf x)
    (out_content_type x) (username x) (session_id x).

Definition set_names (x : task) (user sess : option cstr) : task :=
  update x (parsed_body x) (status_code x) (status_txt x) (worker_buf x) (out_content_type x)
    (default (username x) user) (default (session_id x) sess).

Definition set_body (x : task) (body : option jobj) : task :=
  update x body (status_code x) (status_txt x) (worker_buf x) (out_content_type x)
    (username x) (session_id x).

Definition set_ctx (l : tls) (c : context) : tls := Tls c (err_of l) (log_request_id l).

Section Process.
Context (secret : list char) (now : Z).

(** [worker_process_jwt] *)
Definition worker_process_jwt (x : task) (r : request) (ctx : option middleware_ctx_t) (l : tls)
    : task * tls * bool :=
  match ctx with
  | Some c =>
      if decide (auth_mode c = AUTH_JWT) then
        match evhttp_find_header r (lit "Authorization") with
        | Some auth_hdr =>
            if strncaseeq auth_hdr (lit "Bearer ") 7 then
              let res := jwt_verify secret (Some (drop 7 auth_hdr)) (Some 33%nat) (Some 37%nat) now in
              let x := set_names x (out_username res) (out_session_id res) in
              match code res with
              | JWT_ERR_EXPIRED =>
                  (reply_error x 401 "Unauthorized" (lit "{`error`:`Token has expired`}"), l, false)
              | JWT_ERR_INVALID =>
                  (reply_error x 401 "Unauthorized" (lit "{`error`:`Invalid token`}"), l, false)
              | JWT_OK =>
                  (x, set_ctx l (context_set (ctx_of l) (Some (username x)) (Some (session_id x))
                         (Some (client_ip x)) (Some (uri x))), true)
              end
            else (reply_error x 401 "Unauthorized"
                    (lit "{`error`:`Missing or invalid Authorization header`}"), l, false)
        | None => (reply_error x 401 "Unauthorized"
                     (lit "{`error`:`Missing or invalid Authorization header`}"), l, false)
        end
      else (x, set_ctx l (context_set (ctx_of l) None None (Some (client_ip x)) (Some (uri x))), true)
  | None => (x, set_ctx l (context_set (ctx_of l) None None (Some (client_ip x)) (Some (uri x))), true)
  end.

(** The loop of the slow path over the extents of the buffer. *)
Fixpoint parse_extents (t : tokener) (body : option jobj) (es : list (list char))
    : tokener * option jobj :=
  match es with
  | [] => (t, body)
  | e :: es' =>
      let '(t, obj) := json_tokener_parse_ex t e in
      let body := match obj with Some _ => obj | None => body end in
      if decide (json_tokener_get_error t = json_tokener_continue)
      then parse_extents t body es' else (t, body)
  end.

(** The body of a request with a buffer of [len] bytes. *)
Definition parse_body (es : list (list char)) : tokener * option jobj :=
  let len := length (concat es) in
  let contig := match es with [] => 0%nat | e :: _ => length e end in
  if (len <=? contig)%nat then json_tokener_parse_ex json_tokener_new (concat es)
  else parse_extents json_tokener_new None es.

(** [Content-Type: application/json], perhaps with parameters *)
Definition is_json_type (ctype : cstr) : bool :=
  strncaseeq ctype (lit "application/json") 16
  && match rd ctype 16 with
     | Some c => bool_decide (c = NUL \/ c = ";"%char \/ c = " "%char)
     | None => false
     end.

(** [worker_process_payload]; [tok_ok] says whether a parser was allocated. *)
Definition worker_process_payload (x : task) (r : request) (tok_ok : bool) : task * bool :=
  if decide (evhttp_request_get_command r <> EVHTTP_REQ_POST) then (x, true) else
  match evhttp_find_header r (lit "Content-Type") with
  | None => (reply_error x 400 "Bad Request"
      (lit "{`error`:`Invalid Content-Type. Expected application/json.`}"), false)
  | Some ctype =>
      if negb (is_json_type ctype) then (reply_error x 400 "Bad Request"
        (lit "{`error`:`Invalid Content-Type. Expected application/json.`}"), false)
      else if (length (concat (input_extents r)) =? 0)%nat then
        (reply_error x 400 "Bad Request" (lit "{`error`:`Empty request body.`}"), false)
      else if negb tok_ok then
        (reply_error x 503 "Service Unavailable"
           (lit "{`error`:`Out of memory allocating JSON parser`}"), false)
      else
        let '(t, obj) := parse_body (input_extents r) in
        let x := match obj with Some _ => set_body x obj | None => x end in
        if bool_decide (parsed_body x = None)
           || negb (bool_decide (json_tokener_get_error t = json_tokener_success))
           || negb (json_object_is_type (parsed_body x) json_type_object)
        then (reply_error x 400 "Bad Request"
                (lit "{`error`:`Invalid JSON payload or not a JSON object.`}"), false)
        else (x, true)
  end.

(** [worker_process_validation] *)
Definition worker_process_validation (x : task) (ctx : option middleware_ctx_t)
    : option (task * bool) :=
  match ctx with
  | Some c =>
      match validation_ctx c, parsed_body x with
      | Some v, Some _ =>
          verdict ← validate_json (Some v) (parsed_body x) (Some MAX_ERR_MSG_LEN);
          match verdict with
          | Pass => Some (x, true)
          | Reject msg =>
              let text := lit "{`error`:`" ++ default [] msg ++ lit "`}" in
              Some (reply_error x 400 "Bad Request" (snprintf 1024 text), false)
          end
      | _, _ => Some (x, true)
      end
  | None => Some (x, true)
  end.

(** The call of the handler and the content type it may have set. *)
Definition run_handler (x : task) (ctx : option middleware_ctx_t) (l : tls) : task * tls :=
  match ctx with
  | Some c =>
      match handler c with
      | Some h =>
          let '(code, out, l) := h l (parsed_body x) (status_code x) in
          (update x (parsed_body x) code (status_txt x) ((fun b => b ++ out) <$> worker_buf x)
             (store 128 (context_get_content_type (ctx_of l))) (username x) (session_id x), l)
      | None => (x, l)
      end
  | None => (x, l)
  end.

(** [worker_process_task] *)
Definition worker_process_task (x : task) (r : request) (tok_ok : bool) (l : tls)
    : option (task * tls) :=
  let ctx := middleware_ctx x in
  let l := Tls (ctx_of l) (err_of l) (request_id x) in
  let '(x, l, ok) := worker_process_jwt x r ctx l in
  '(x, l) ← (if (ok : bool) then
       let '(x, ok) := worker_process_payload x r tok_ok in
       if (ok : bool) then
         '(x, ok) ← worker_process_validation x ctx;
         Some (if (ok : bool) then run_handler x ctx l else (x, l))
       else Some (x, l)
     else Some (x, l));
  let txt := match status_txt x with
             | None => Some (get_http_status_text (status_code x))
             | t => t
             end in
  let x := update x (parsed_body x) (status_code x) txt (worker_buf x) (out_content_type x)
             (username x) (session_id x) in
  Some (x, Tls (context_clear (ctx_of l)) clear_thread_error []).

(** One task of the loop of [worker_thread_main]. *)
Definition worker_run (x : task) (r : request) (tok_ok : bool) (l : tls) : option (task * tls) :=
  if cancelled x then Some (x, l) else worker_process_task x r tok_ok l.

(** ** What the pipeline requires of a request *)

(** The request carries a token that verifies as user [u], session [t]. *)
Definition authenticated (r : request) (u t : cstr) : Prop :=
  exists hdr, evhttp_find_header r (lit "Authorization") = Some hdr
    /\ strncaseeq hdr (lit "Bearer ") 7 = true
    /\ jwt_verify secret (Some (drop 7 hdr)) (Some 33%nat) (Some 37%nat) now
       = Result JWT_OK (Some u) (Some t).

(** The identity the handler sees: none on a route without tokens. *)
Definition identity (c : middleware_ctx_t) (r : request) (u t : option cstr) : Prop :=
  (auth_mode c <> AUTH_JWT /\ u = None /\ t = None)
  \/ (auth_mode c = AUTH_JWT /\ exists u' t', authenticated r u' t' /\ u = Some u' /\ t = Some t').

(** The request is a POST whose body is the JSON object [o]. *)
Definition json_post (r : request) (o : jobj) : Prop :=
  evhttp_request_get_command r = EVHTTP_REQ_POST
  /\ (exists ctype, evhttp_find_header r (lit "Content-Type") = Some ctype
      /\ is_json_type ctype = true)
  /\ concat (input_extents r) <> []
  /\ (exists t, json_tokener_parse_ex json_tokener_new (concat (input_extents r)) = (t, Some o)
      /\ json_tokener_get_error t = json_tokener_success)
  /\ json_object_get_type (Some o) = json_type_object.

(** The document the handler is given. *)
Definition document (r : request) (b : option jobj) : Prop :=
  (evhttp_request_get_command r <> EVHTTP_REQ_POST /\ b = None)
  \/ exists o, json_post r o /\ b = Some o.

End Process.

(** ** Lemmas *)

Section Proofs.
Context (secret : list char) (now : Z) `{TL : !JsonTokenerLaws J T}.

Lemma parse_extents_concat (t : tokener) (es : list (list char)) :
  json_tokener_get_error t = json_tokener_continue ->
  exists t', json_tokener_parse_ex t (concat es) = (t', (parse_extents t None es).2)
    /\ json_tokener_get_error t' = json_tokener_get_error (parse_extents t None es).1.
Proof.
  revert t. induction es as [|e es IH]; intros t Ht; cbn [parse_extents concat].
  { exists t. split; [by apply parse_empty|done]. }
  destruct (json_tokener_parse_ex t e) as [t1 o] eqn:P.
  pose proof (parse_pieces t t1 e (concat es) o P) as L.
  destruct (json_tokener_get_error t1) eqn:Er.
  - destruct L as (t2 & L & Er2). rewrite decide_False by done. exists t2. simpl.
    by destruct o; rewrite L, Er2, Er.
  - destruct L as (-> & ->). rewrite decide_True by done. by apply IH.
  - destruct L as (t2 & L & Er2). rewrite decide_False by done. exists t2. simpl.
    by destruct o; rewrite L, Er2, Er.
Qed.

Lemma parse_body_concat (es : list (list char)) :
  exists t', json_tokener_parse_ex json_tokener_new (concat es) = (t', (parse_body es).2)
    /\ json_tokener_get_error t' = json_tokener_get_error (parse_body es).1.
Proof.
  unfold parse_body. destruct (_ <=? _)%nat.
  - destruct (json_tokener_parse_ex _ _) as [t o]. eauto.
  - apply parse_extents_concat, new_continues.
Qed.

Lemma jwt_accepts (x : task) (r : request) (c : middleware_ctx_t) (l : tls) (u t : option cstr) :
  identity secret now c r u t ->
  worker_process_jwt secret now x r (Some c) l
  = (set_names x u t,
     set_ctx l (context_set (ctx_of l)
       (if decide (auth_mode c = AUTH_JWT) then Some (default (username x) u) else None)
       (if decide (auth_mode c = AUTH_JWT) then Some (default (session_id x) t) else None)
       (Some (client_ip x)) (Some (uri x))), true).
Proof.
  intros [(Hm & -> & ->)|(Hm & u' & t' & (hdr & Hh & Hb & Hv) & -> & ->)]; unfold worker_process_jwt.
  - rewrite !decide_False by done. by destruct x.
  - rewrite !decide_True, Hh, Hb, Hv by done. done.
Qed.

Lemma payload_accepts (x : task) (r : request) (b : option jobj) :
  document r b -> parsed_body x = None ->
  worker_process_payload x r true = (set_body x b, true).
Proof.
  intros [[Hc ->]|(o & (Hc & (ct & Hct & Hj) & Hne & (t & Hp & He) & Ho) & ->)] Hx;
    unfold worker_process_payload.
  - rewrite decide_True by done. destruct x; simpl in *; by subst.
  - rewrite decide_False by congruence. rewrite Hct, Hj. cbn [negb].
    rewrite (proj2 (Nat.eqb_neq _ 0)) by (by destruct (concat (input_extents r))).
    destruct (parse_body_concat (input_extents r)) as (t' & Hp' & He'). rewrite Hp in Hp'.
    destruct (parse_body (input_extents r)) as [t1 o1]. cbn [fst snd] in *.
    injection Hp' as -> <-. rewrite <- He', He. cbn [parsed_body set_body update].
    rewrite bool_decide_false, bool_decide_true by done. unfold json_object_is_type.
    by rewrite Ho, bool_decide_true.
Qed.

Lemma payload_rejects (x : task) (r : request) :
  parsed_body x = None -> evhttp_request_get_command r = EVHTTP_REQ_POST ->
  (forall o, ~ json_post r o) ->
  exists y, worker_process_payload x r true = (y, false) /\ status_code y = 400%Z.
Proof.
  intros Hx Hp Hn. unfold worker_process_payload. rewrite decide_False by congruence.
  destruct (evhttp_find_header r (lit "Content-Type")) as [ct|] eqn:Hct; [|by eexists].
  destruct (is_json_type ct) eqn:Hj; cbn [negb]; [|by eexists].
  destruct (Nat.eqb_spec (length (concat (input_extents r))) 0) as [|Hl]; [by eexists|].
  destruct (parse_body_concat (input_extents r)) as (t' & Hp' & He').
  destruct (parse_body (input_extents r)) as [t1 o1]. cbn [fst snd] in *.
  match goal with |- context [if ?b then _ else _] => destruct b eqn:B end.
  { by eexists. }
  exfalso. rewrite !orb_false_iff, !negb_false_iff in B. destruct B as [[B1 B2] B3].
  apply bool_decide_eq_false in B1. apply bool_decide_eq_true in B2, B3.
  destruct o1 as [o|]; [|by rewrite Hx in B1]. apply (Hn o). cbn [parsed_body set_body update] in B3.
  split; [done|]. split; [eauto|]. split; [by intros E0; rewrite E0 in Hl|].
  split; [|done]. exists t'. split; [done|]. congruence.
Qed.

(** An accepted token always names a user and a session. *)
Lemma jwt_verify_claims (token : cstr) (un sn : nat) (n : Z) (user sess : option cstr) :
  jwt_verify secret (Some token) (Some un) (Some sn) n = Result JWT_OK user sess ->
  exists u t, user = Some u /\ sess = Some t.
Proof.
  unfold jwt_verify. destruct (strchr token "."%char) as [[h rest]|]; [|done].
  destruct (strchr rest "."%char) as [[p sig]|]; [|done].
  destruct (strchr sig "."%char); [done|]. destruct (negb _); [done|]. destruct (negb _); [done|].
  destruct (jwt_decode_payload _ _); [|done]. intros H%jwt_claims_sound.
  destruct H as (? & ? & ? & ? & u & t & _ & _ & _ & _ & _ & -> & _ & _ & _ & -> & _). eauto.
Qed.

(** The body is parsed the same however the network splits it. Whatever the
    extents in which libevent holds the body, the parser ends with the same
    object and the same error state as when it is given the whole body at
    once, on the contiguous fast path and on the piecewise slow path. *)
Lemma parse_body_split_independent (es : list (list char)) (t t' : tokener)
    (o o' : option jobj) :
  parse_body es = (t, o) ->
  json_tokener_parse_ex json_tokener_new (concat es) = (t', o') ->
  o = o' /\ json_tokener_get_error t = json_tokener_get_error t'.
Proof.
  intros P Q. destruct (parse_body_concat es) as (t1 & Q1 & Er).
  rewrite P in *. cbn [fst snd] in *. rewrite Q in Q1. injection Q1 as -> ->. done.
Qed.

(** C13: on a route that requires a token, nothing runs without one. If the
    request has no bearer token that [jwt_verify] accepts, then whatever the
    handler, the schema and the body are, the task ends with status 401 and a
    body that is one of the three error messages, no document is parsed, and
    the thread keeps no trace of the request. *)
Theorem worker_denies_unauthenticated (x : task) (r : request) (c : middleware_ctx_t)
    (tok_ok : bool) (l : tls) :
  middleware_ctx x = Some c -> auth_mode c = AUTH_JWT ->
  (forall u t, ~ authenticated secret now r u t) ->
  exists x' msg,
    worker_process_task secret now x r tok_ok l = Some (x', clean_tls)
    /\ status_code x' = 401%Z /\ status_txt x' = Some (lit "Unauthorized")
    /\ worker_buf x' = (fun b => b ++ msg) <$> worker_buf x
    /\ msg ∈ [lit "{`error`:`Missing or invalid Authorization header`}";
              lit "{`error`:`Token has expired`}"; lit "{`error`:`Invalid token`}"]
    /\ parsed_body x' = parsed_body x.
Proof.
  intros Hc Hm Hn. unfold worker_process_task, worker_process_jwt. rewrite Hc.
  rewrite decide_True by done.
  destruct (evhttp_find_header r (lit "Authorization")) as [hdr|] eqn:Hh.
  2:{ eexists _, _. split; [reflexivity|]. split_and!; try done. by left. }
  destruct (strncaseeq hdr (lit "Bearer ") 7) eqn:Hb.
  2:{ eexists _, _. split; [reflexivity|]. split_and!; try done. by left. }
  destruct (jwt_verify secret _ _ _ now) as [[] uo so] eqn:Hv; cbn [code out_username out_session_id].
  - exfalso. destruct (jwt_verify_claims _ _ _ _ _ _ Hv) as (u & t & -> & ->).
    apply (Hn u t). by exists hdr.
  - eexists _, _. split; [reflexivity|]. split_and!; try done. by right; left.
  - eexists _, _. split; [reflexivity|]. split_and!; try done. by right; right; left.
Qed.

(** C33: a request that passes every gate reaches its handler, in a fresh
    context. If the identity check succeeds, the body is absent or a JSON
    object, and the schema of the route accepts it, then the handler runs
    exactly once, on that document, in a thread-local state that holds this
    request's user, session, address and URI and nothing of earlier requests;
    the status, the body and the content type of the reply are what it
    produced; and the thread-local state is clean again afterwards. *)
Theorem worker_runs_handler (x : task) (r : request) (c : middleware_ctx_t) (h : handler_fn)
    (u t : option cstr) (b : option jobj) :
  middleware_ctx x = Some c -> handler c = Some h -> parsed_body x = None ->
  identity secret now c r u t -> document r b ->
  (forall v o, validation_ctx c = Some v -> b = Some o ->
     validate_json (Some v) (Some o) (Some MAX_ERR_MSG_LEN) = Some Pass) ->
  let jwt := bool_decide (auth_mode c = AUTH_JWT) in
  let seen := Tls (Context (if jwt then store 33 (Some (default (username x) u)) else [])
                           (if jwt then store 37 (Some (default (session_id x) t)) else [])
                           (store 64 (Some (client_ip x))) (store 1024 (Some (uri x))) [])
                  clear_thread_error (request_id x) in
  let '(status, out, l') := h seen b (status_code x) in
  exists x', worker_process_task secret now x r true clean_tls = Some (x', clean_tls)
    /\ status_code x' = status /\ parsed_body x' = b
    /\ worker_buf x' = (fun buf => buf ++ out) <$> worker_buf x
    /\ out_content_type x' = store 128 (context_get_content_type (ctx_of l')).
Proof.
  intros Hc Hh Hx Hi Hd Hv. cbv zeta. unfold worker_process_task.
  rewrite Hc, (jwt_accepts _ _ _ _ _ _ Hi). cbn [ctx_of err_of log_request_id clean_tls set_ctx].
  rewrite (payload_accepts _ _ b Hd) by done.
  assert (forall y, parsed_body y = b -> worker_process_validation y (Some c) = Some (y, true)) as V.
  { intros y Hy. unfold worker_process_validation. rewrite Hy.
    destruct (validation_ctx c) as [v|]; [|done]. destruct b as [o|]; [|done].
    by rewrite (Hv v o). }
  rewrite V by done. cbn [mbind option_bind]. unfold run_handler. rewrite Hh.
  unfold context_set. cbn [parsed_body set_body update status_code tl_content_type set_names].
  case_bool_decide as Hm; [rewrite !decide_True by done|rewrite !decide_False by done];
    cbn [store]; destruct (h _ b (status_code x)) as [[status out] l'];
    eexists; split; [reflexivity| |reflexivity|]; done.
Qed.

(** C34: an invalid body never reaches a handler. On a POST whose identity check
    succeeds, a body that is not a JSON object sent as application/json is
    answered with status 400, and one that the schema rejects is answered with
    status 400 and the validator's message, whatever the handler is. *)
Theorem worker_rejects_invalid_body (x : task) (r : request) (c : middleware_ctx_t)
    (u t : option cstr) (l : tls) :
  middleware_ctx x = Some c -> parsed_body x = None -> identity secret now c r u t ->
  evhttp_request_get_command r = EVHTTP_REQ_POST ->
  ((forall o, ~ json_post r o) ->
   exists x', worker_process_task secret now x r true l = Some (x', clean_tls)
     /\ status_code x' = 400%Z)
  /\ (forall o v msg, json_post r o -> validation_ctx c = Some v ->
      validate_json (Some v) (Some o) (Some MAX_ERR_MSG_LEN) = Some (Reject msg) ->
      exists x', worker_process_task secret now x r true l = Some (x', clean_tls)
        /\ status_code x' = 400%Z
        /\ worker_buf x' = (fun buf => buf ++ snprintf 1024
             (lit "{`error`:`" ++ default [] msg ++ lit "`}")) <$> worker_buf x).
Proof.
  intros Hc Hx Hi Hp. unfold worker_process_task. rewrite Hc, (jwt_accepts _ _ _ _ _ _ Hi).
  split.
  - intros Hn. pose proof (payload_rejects (set_names x u t) r Hx Hp Hn) as (y & -> & Hs).
    eexists. split; [reflexivity|]. done.
  - intros o v msg Ho Hv Hr. rewrite (payload_accepts _ _ (Some o)); [|right; eauto|done].
    unfold worker_process_validation. rewrite Hv. cbn [parsed_body set_body update].
    rewrite Hr. cbn [mbind option_bind]. eexists. split; [reflexivity|]. done.
Qed.

End Proofs.

End Pipeline.

(** The bulkhead split. For every number of workers and every percentage
    up to 100, both pools get at least one thread, so that neither kind of
    request can starve, and for two workers or more the two pools together have
    exactly the configured number (a single worker becomes one in each). *)
Lemma split_workers_sound (n pct fast slow : Z) :
  (1 <= n)%Z -> (0 <= pct <= 100)%Z -> (n * 100 < 2 ^ 64)%Z ->
  split_workers n pct = (fast, slow) ->
  (1 <= fast)%Z /\ (1 <= slow)%Z /\ (2 <= n -> fast + slow = n)%Z.
Proof.
  intros Hn Hp Hb. unfold split_workers. rewrite uwrap_small by nia.
  assert (n * pct / 100 <= n)%Z as Hle by (apply Z.div_le_upper_bound; nia).
  assert (0 <= n * pct / 100)%Z as Hge by (apply Z.div_pos; nia).
  set (f := (n * pct / 100)%Z) in *. clearbody f.
  case_ifs; bool_to_prop; intros [= <- <-]; try lia;
    repeat match goal with H : _ && _ = false |- _ =>
      apply andb_false_iff in H as [H|H] end; bool_to_prop; lia.
Qed.

(** ** A concrete route for the witnesses *)

Module Example.
Import Model SodiumModel HttpModel.

Definition echo : handler_fn := fun l body status =>
  (200%Z, default [] (context_get_user (ctx_of l)),
   Tls (context_set_content_type (ctx_of l) (Some (lit "text/plain"))) (err_of l) (log_request_id l)).

Definition route (auth : auth_mode_t) : middleware_ctx_t := {|
  path := lit "/echo"; validation_ctx := Some Sample.sample_schema; handler := Some echo;
  allowed_method := EVHTTP_REQ_POST; auth_mode := auth; is_fast := true |}.

Definition token : cstr :=
  token_of [] (payload_text (lit "ana") sample_session 1000 1060).

Definition post (token : cstr) (es : list (list char)) : http_request := {|
  command := EVHTTP_REQ_POST;
  headers := [(lit "authorization", lit "Bearer " ++ token);
              (lit "Content-Type", lit "application/json; charset=utf-8")];
  target := lit "/echo"; extents := es; connection := Some (Some (lit "10.0.0.1")) |}.

Definition good_body : list (list char) :=
  [lit "{`id`:7,`na"; lit "me`:`Ana`,`day`:`1996-"; lit "12-31`}"].

Definition fresh (auth : auth_mode_t) : http_task http_request json middleware_ctx_t := {|
  start_time := (0, 0)%Z; req := None; parsed_body := None; middleware_ctx := Some (route auth);
  status_txt := None; worker_buf := Some []; next := None; reactor_id := 0; status_code := 0;
  cancelled := false; out_content_type := []; username := []; session_id := [];
  client_ip := lit "10.0.0.1"; request_id := lit "r1"; uri := lit "/echo" |}.

Definition parsed : json :=
  JObject [(lit "id", JInt 7); (lit "name", JString (lit "Ana"));
           (lit "day", JString (lit "1996-12-31"))].

End Example.

Import Model SodiumModel HttpModel Example.

Lemma worker_denies_unauthenticated_witness :
  exists x' msg,
    worker_process_task [] 1000 (fresh AUTH_JWT) (post (lit "a.b.c") good_body) true clean_tls
      = Some (x', clean_tls)
    /\ status_code x' = 401%Z /\ status_txt x' = Some (lit "Unauthorized")
    /\ worker_buf x' = (fun b => b ++ msg) <$> Some []
    /\ msg ∈ [lit "{`error`:`Missing or invalid Authorization header`}";
              lit "{`error`:`Token has expired`}"; lit "{`error`:`Invalid token`}"]
    /\ parsed_body x' = None.
Proof.
  apply (worker_denies_unauthenticated (J := model_json_c) (T := model_tokener) (S := model_sodium)
    (E := model_evhttp) [] 1000 (fresh AUTH_JWT) (post (lit "a.b.c") good_body)
    (route AUTH_JWT) true clean_tls); [reflexivity|reflexivity|].
  intros u t (hdr & Hh & _ & Hv). vm_compute in Hh. injection Hh as <-. vm_compute in Hv. discriminate.
Defined.

Lemma worker_runs_handler_witness :
  exists x', worker_process_task [] 1000 (fresh AUTH_JWT) (post token good_body) true clean_tls
      = Some (x', clean_tls)
    /\ status_code x' = 200%Z /\ parsed_body x' = Some parsed
    /\ worker_buf x' = (fun buf => buf ++ lit "ana") <$> Some []
    /\ out_content_type x' = lit "text/plain".
Proof.
  apply (worker_runs_handler (J := model_json_c) (T := model_tokener) (S := model_sodium)
    (E := model_evhttp) [] 1000 (fresh AUTH_JWT) (post token good_body) (route AUTH_JWT) echo
    (Some (lit "ana")) (Some sample_session) (Some parsed)); try reflexivity.
  - right. split; [reflexivity|]. exists (lit "ana"), sample_session. split; [|by split].
    exists (lit "Bearer " ++ token). split_and!; vm_compute; reflexivity.
  - right. exists parsed. split; [|reflexivity]. split; [reflexivity|]. split.
    + exists (lit "application/json; charset=utf-8"). split; vm_compute; reflexivity.
    + split; [discriminate|]. split; [|reflexivity].
      exists {| collected := concat good_body; verdict := json_tokener_success |}.
      split; vm_compute; reflexivity.
  - intros v o [= <-] [= <-]. vm_compute. reflexivity.
Defined.

Lemma worker_rejects_invalid_body_witness :
  exists x', worker_process_task [] 1000 (fresh AUTH_NONE) (post [] [lit "[1,2]"]) true clean_tls
      = Some (x', clean_tls) /\ status_code x' = 400%Z.
Proof.
  apply (worker_rejects_invalid_body (J := model_json_c) (T := model_tokener) (S := model_sodium)
    (E := model_evhttp) [] 1000 (fresh AUTH_NONE) (post [] [lit "[1,2]"])
    (route AUTH_NONE) None None clean_tls); try reflexivity.
  - left. split; [discriminate|]. by split.
  - intros o (_ & _ & _ & (t & Hp & He) & _). vm_compute in Hp. discriminate.
Defined.

End Worker.
