(* ===== verification/Config.v ===== *)
(** * lib/config.c: configuration

    The environment is an association list of C strings.  A configuration file
    is its text; the two places it is searched are an argument.  [config_reload]
    answers [None] when the process exits: [LOG_FATAL] does not return. *)

From S2P Require Import Prelude.

Module Config.

Definition MAX_CONFIG_STR : nat := 1024.

(** ** The number parsers of the C library *)

(** [isspace] characters are skipped, then a sign, then the decimal digits:
    sign, value and number of digits, and what [endptr] points to. *)
Fixpoint skip_space (s : cstr) : cstr :=
  match s with
  | c :: s' => if isspace c then skip_space s' else s
  | [] => []
  end.

Fixpoint scan_digits (acc : Z) (n : nat) (s : cstr) : Z * nat * cstr :=
  match s with
  | c :: s' => if isdigit c then scan_digits (acc * 10 + (uchar c - 48)) (S n) s' else (acc, n, s)
  | [] => (acc, n, [])
  end.

Definition scan_sign (s : cstr) : bool * cstr :=
  match s with
  | c :: s' =>
      if decide (c = "-"%char) then (true, s')
      else if decide (c = "+"%char) then (false, s') else (false, s)
  | [] => (false, [])
  end.

(** The value, the rest behind the number, and whether [errno] is set. *)
Definition strtoul (s : cstr) : Z * cstr * bool :=
  let '(neg, s1) := scan_sign (skip_space s) in
  let '(v, n, rest) := scan_digits 0 0 s1 in
  if (n =? 0)%nat then (0%Z, s, false)
  else if (2 ^ 64 <=? v)%Z then ((2 ^ 64 - 1)%Z, rest, true)
  else (if neg then uwrap 64 (- v) else v, rest, false).

Definition strtol (s : cstr) : Z * cstr * bool :=
  let '(neg, s1) := scan_sign (skip_space s) in
  let '(v, n, rest) := scan_digits 0 0 s1 in
  let z := if neg then (- v)%Z else v in
  if (n =? 0)%nat then (0%Z, s, false)
  else if (z <? - 2 ^ 63)%Z then ((- 2 ^ 63)%Z, rest, true)
  else if (2 ^ 63 <=? z)%Z then ((2 ^ 63 - 1)%Z, rest, true)
  else (z, rest, false).

(** [safe_strtoul_env] *)
Definition safe_strtoul_env (env_val : option cstr) (default_val max_val : Z) : Z :=
  match env_val with
  | None | Some [] => default_val
  | Some s =>
      let '(val, rest, erange) := strtoul s in
      if erange || negb (bool_decide (rest = [])) then default_val
      else if (max_val <? val)%Z then max_val else val
  end.

(** [safe_strtol_env] *)
Definition safe_strtol_env (env_val : option cstr) (default_val min_val max_val : Z) : Z :=
  match env_val with
  | None | Some [] => default_val
  | Some s =>
      let '(val, rest, erange) := strtol s in
      if erange || negb (bool_decide (rest = [])) then default_val
      else if (val <? min_val)%Z then min_val
      else if (max_val <? val)%Z then max_val else val
  end.

(** ** The environment file *)

Fixpoint rtrim (s : cstr) : cstr :=
  match s with
  | [] => []
  | c :: s' =>
      match rtrim s' with
      | [] => if isspace c then [] else [c]
      | r => c :: r
      end
  end.

(** [trim_whitespace] *)
Definition trim_whitespace (s : cstr) : cstr := rtrim (skip_space s).

(** The lines [fgets] reads into a buffer of [size] bytes. *)
Fixpoint fgets_lines (size : nat) (room : nat) (acc : cstr) (s : cstr) : list cstr :=
  match s with
  | [] => match acc with [] => [] | _ => [acc] end
  | c :: s' =>
      if decide (c = "010"%char) then (acc ++ [c]) :: fgets_lines size (size - 1) [] s'
      else match room with
           | S (S room') => fgets_lines size (S room') (acc ++ [c]) s'
           | _ => (acc ++ [c]) :: fgets_lines size (size - 1) [] s'
           end
  end.

(** A value without its quotes. *)
Definition unquote (val : cstr) : cstr :=
  match val with
  | q :: rest =>
      if decide (q = DQUOTE \/ q = "'"%char) then
        match list.last rest with
        | Some z => if decide (z = q) then take (length rest - 1) rest else rest
        | None => rest
        end
      else val
  | [] => []
  end.

(** The body of the loop of [load_env_file]: the key and the value of a line. *)
Definition parse_line (line : cstr) : option (cstr * cstr) :=
  let trimmed_line := trim_whitespace line in
  match trimmed_line with
  | [] => None
  | c :: _ =>
      if decide (c = "#"%char) then None
      else '(before, after) ← strchr trimmed_line "="%char;
           Some (trim_whitespace before, unquote (trim_whitespace after))
  end.

Definition file_lines (text : cstr) : list cstr :=
  fgets_lines MAX_CONFIG_STR (MAX_CONFIG_STR - 1) [] text.

(** [parse_boolean_env] *)
Definition parse_boolean_env (env_val : option cstr) (default_val : bool) : bool :=
  match env_val with
  | None => default_val
  | Some v =>
      negb (strcaseeq v (lit "false") || strcaseeq v (lit "0")
            || strcaseeq v (lit "off") || strcaseeq v (lit "no"))
  end.

Abbreviation environment := (list (cstr * cstr)).

Fixpoint getenv (e : environment) (k : cstr) : option cstr :=
  match e with
  | [] => None
  | (k', v) :: e' => if decide (k' = k) then Some v else getenv e' k
  end.
Definition unsetenv (e : environment) (k : cstr) : environment :=
  filter (fun kv => kv.1 <> k) e.
Definition setenv (e : environment) (k v : cstr) : environment := (k, v) :: unsetenv e k.

(** ** The configuration *)

Record config := {
  odbc_conn_strs : list cstr;
  api_url : cstr;
  api_user : cstr;
  api_pass : cstr;
  login_provider : cstr;
  login_uri : cstr;
  jwt_secret : cstr;
  remote_api_key : cstr;
  telemetry_api_key : cstr;
  jwt_timeout_seconds : Z;
  trust_proxy_ip : cstr;
  allowed_origins : list cstr;
  access_log : bool;
  num_threads : Z;
  max_queue_size : Z;
  fast_pool_percentage : Z;
  max_payload_size : Z;
  uploads_dir : cstr;
  server_port : Z;
}.

(** The initial values of the statics. *)
Definition initial_config : config := {|
  odbc_conn_strs := replicate 4 []; api_url := []; api_user := []; api_pass := [];
  login_provider := []; login_uri := []; jwt_secret := []; remote_api_key := [];
  telemetry_api_key := []; jwt_timeout_seconds := 3600; trust_proxy_ip := [];
  allowed_origins := []; access_log := true; num_threads := 0; max_queue_size := 10000;
  fast_pool_percentage := 25; max_payload_size := 5242880; uploads_dir := [];
  server_port := 8080 |}.

(** The statics of the file and the process environment. *)
Record state := State { conf : config; env : environment; is_first_load : bool }.

(** [load_env_string]: the new content of the destination. *)
Definition load_env_string (e : environment) (key : string) (dest : cstr) (clear_on_miss : bool)
    : cstr :=
  match getenv e (lit key) with
  | Some val => strlcpy MAX_CONFIG_STR val
  | None => if clear_on_miss then [] else dest
  end.

(** The tokens of [strtok_r(s, ",")]. *)
Fixpoint strtok (acc : cstr) (s : cstr) : list cstr :=
  match s with
  | [] => match acc with [] => [] | _ => [acc] end
  | c :: s' =>
      if decide (c = ","%char) then
        match acc with [] => strtok [] s' | _ => acc :: strtok [] s' end
      else strtok (acc ++ [c]) s'
  end.

(** The loop of [parse_cors_origins] from [count] entries on. *)
Fixpoint take_origins (count : nat) (tokens : list cstr) : list cstr :=
  match tokens with
  | [] => []
  | t :: tokens' =>
      if (count <? 64)%nat then
        match trim_whitespace t with
        | [] => take_origins count tokens'
        | o => o :: take_origins (S count) tokens'
        end
      else []
  end.

(** [parse_cors_origins] *)
Definition parse_cors_origins (allowed_origin : cstr) : list cstr :=
  match allowed_origin with
  | [] => []
  | _ => take_origins 0 (strtok [] (strlcpy MAX_CONFIG_STR allowed_origin))
  end.

Definition DB_KEYS : list string := ["DB_0"; "DB_1"; "DB_2"; "DB_3"].

(** [apply_initial_config_vars] *)
Definition apply_initial_config_vars (e : environment) (c : config) : config := {|
  odbc_conn_strs := zip_with (fun k old => load_env_string e k old false) DB_KEYS (odbc_conn_strs c);
  api_url := load_env_string e "API_URL" (api_url c) false;
  api_user := load_env_string e "API_USER" (api_user c) false;
  api_pass := load_env_string e "API_PASS" (api_pass c) false;
  login_provider := load_env_string e "LOGIN_PROVIDER" (login_provider c) false;
  login_uri := load_env_string e "LOGIN_URI" (login_uri c) false;
  jwt_secret := load_env_string e "JWT_SECRET" (jwt_secret c) false;
  remote_api_key := load_env_string e "REMOTE_API_KEY" (remote_api_key c) true;
  telemetry_api_key := load_env_string e "TELEMETRY_API_KEY" (telemetry_api_key c) true;
  jwt_timeout_seconds :=
    match getenv e (lit "JWT_TIMEOUT_SECONDS") with
    | Some _ => safe_strtol_env (getenv e (lit "JWT_TIMEOUT_SECONDS")) 3600 1 (86400 * 30)
    | None => jwt_timeout_seconds c
    end;
  trust_proxy_ip := load_env_string e "TRUST_PROXY_IP" (trust_proxy_ip c) true;
  allowed_origins :=
    allowed_origins c ++ parse_cors_origins (load_env_string e "CORS_ALLOWED_ORIGINS" [] true);
  access_log := access_log c;
  num_threads := num_threads c;
  max_queue_size := max_queue_size c;
  fast_pool_percentage := fast_pool_percentage c;
  max_payload_size := max_payload_size c;
  uploads_dir := load_env_string e "UPLOADS_DIR" (uploads_dir c) true;
  server_port := server_port c |}.

(** The numeric limits and the access log flag, set before. *)
Definition apply_limits (e : environment) (c : config) : config := {|
  odbc_conn_strs := odbc_conn_strs c; api_url := api_url c; api_user := api_user c;
  api_pass := api_pass c; login_provider := login_provider c; login_uri := login_uri c;
  jwt_secret := jwt_secret c; remote_api_key := remote_api_key c;
  telemetry_api_key := telemetry_api_key c; jwt_timeout_seconds := jwt_timeout_seconds c;
  trust_proxy_ip := trust_proxy_ip c; allowed_origins := allowed_origins c;
  access_log := parse_boolean_env (getenv e (lit "ACCESS_LOG")) true;
  num_threads := safe_strtoul_env (getenv e (lit "NUM_THREADS")) 0 1024;
  max_queue_size := safe_strtoul_env (getenv e (lit "MAX_QUEUE_SIZE")) 10000 1000000;
  fast_pool_percentage := safe_strtoul_env (getenv e (lit "FAST_POOL_PERCENTAGE")) 25 100;
  max_payload_size := safe_strtoul_env (getenv e (lit "MAX_PAYLOAD_SIZE")) 5242880 104857600;
  uploads_dir := uploads_dir c;
  server_port := safe_strtol_env (getenv e (lit "SERVER_PORT")) 8080 1 65535 |}.

Definition set_access_log (c : config) (b : bool) : config := {|
  odbc_conn_strs := odbc_conn_strs c; api_url := api_url c; api_user := api_user c;
  api_pass := api_pass c; login_provider := login_provider c; login_uri := login_uri c;
  jwt_secret := jwt_secret c; remote_api_key := remote_api_key c;
  telemetry_api_key := telemetry_api_key c; jwt_timeout_seconds := jwt_timeout_seconds c;
  trust_proxy_ip := trust_proxy_ip c; allowed_origins := allowed_origins c;
  access_log := b; num_threads := num_threads c; max_queue_size := max_queue_size c;
  fast_pool_percentage := fast_pool_percentage c; max_payload_size := max_payload_size c;
  uploads_dir := uploads_dir c; server_port := server_port c |}.

(** The effect of one line of the file. *)
Definition load_line (hot_reload : bool) (s : state) (line : cstr) : state :=
  match parse_line line with
  | None => s
  | Some (key, val) =>
      if hot_reload then
        if decide (key = lit "ACCESS_LOG")
        then State (set_access_log (conf s) (parse_boolean_env (Some val) true)) (env s) (is_first_load s)
        else s
      else match key with
           | [] => s
           | _ => State (conf s) (setenv (env s) key val) (is_first_load s)
           end
  end.

(** [load_env_file] on a file that opens *)
Definition load_env_file (hot_reload : bool) (text : cstr) (s : state) : state :=
  fold_left (load_line hot_reload) (file_lines text) s.

(** [locate_and_load_env]: the file beside the executable, else the one in the
    working directory; [None] is a file that does not open. *)
Definition locate_and_load_env (hot_reload : bool) (beside cwd : option cstr) (s : state) : state :=
  match beside, cwd with
  | Some text, _ | None, Some text => load_env_file hot_reload text s
  | None, None => s
  end.

Definition REQUIRED : list string :=
  ["DB_0"; "API_URL"; "API_USER"; "API_PASS"; "JWT_SECRET"; "JWT_TIMEOUT_SECONDS";
   "TELEMETRY_API_KEY"].

Definition SCRUBBED : list string :=
  ["JWT_SECRET"; "API_PASS"; "REMOTE_API_KEY"; "TELEMETRY_API_KEY"] ++ DB_KEYS.

Definition scrub_env_var (e : environment) (name : string) : environment := unsetenv e (lit name).

(** [scrub_env_var] over the secrets *)
Definition scrub_env_vars (e : environment) : environment := fold_left scrub_env_var SCRUBBED e.

(** [config_reload] *)
Definition config_reload (beside cwd : option cstr) (s : state) : option state :=
  if negb (is_first_load s) then Some (locate_and_load_env true beside cwd s) else
  let s := locate_and_load_env false beside cwd s in
  if existsb (fun k => bool_decide (getenv (env s) (lit k) = None)) REQUIRED then None else
  let c := apply_initial_config_vars (env s) (apply_limits (env s) (conf s)) in
  Some (State c (scrub_env_vars (env s)) false).

Definition config_init (beside cwd : option cstr) (s : state) : option state := config_reload beside cwd s.

(** [config_get_odbc_conn_str] *)
Definition config_get_odbc_conn_str (c : config) (db_id : Z) : cstr :=
  if ((0 <=? db_id) && (db_id <? 4))%Z then default [] (odbc_conn_strs c !! Z.to_nat db_id) else [].

(** The accessors of single fields *)
Definition config_get_api_url (c : config) : cstr := api_url c.
Definition config_get_api_user (c : config) : cstr := api_user c.
Definition config_get_api_pass (c : config) : cstr := api_pass c.
Definition config_get_login_provider (c : config) : cstr := login_provider c.
Definition config_get_login_uri (c : config) : cstr := login_uri c.
Definition config_get_jwt_secret (c : config) : cstr := jwt_secret c.
Definition config_get_remote_api_key (c : config) : cstr := remote_api_key c.
Definition config_get_telemetry_api_key (c : config) : cstr := telemetry_api_key c.
Definition config_get_trust_proxy_ip (c : config) : cstr := trust_proxy_ip c.
Definition config_get_uploads_dir (c : config) : cstr := uploads_dir c.
Definition config_get_jwt_timeout_seconds (c : config) : Z := jwt_timeout_seconds c.
Definition config_get_access_log (c : config) : bool := access_log c.
Definition config_get_server_port (c : config) : Z := server_port c.
Definition config_get_num_threads (c : config) : Z := num_threads c.
Definition config_get_max_queue_size (c : config) : Z := max_queue_size c.
Definition config_get_fast_pool_percentage (c : config) : Z := fast_pool_percentage c.
Definition config_get_max_payload_size (c : config) : Z := max_payload_size c.

(** [config_is_origin_allowed] *)
Definition config_is_origin_allowed (c : config) (origin : option cstr) : bool :=
  match origin with
  | None => false
  | Some o =>
      existsb (fun p => match strcmp p o with Eq => true | _ => false end) (allowed_origins c)
  end.

(** ** Lemmas *)

Lemma safe_strtoul_range (v : option cstr) (d hi : Z) :
  (0 <= d <= hi)%Z -> (0 <= safe_strtoul_env v d hi <= hi)%Z.
Proof.
  intros Hd. unfold safe_strtoul_env. destruct v as [[|c s]|]; [done| |done].
  assert (0 <= (strtoul (c :: s)).1.1)%Z as H.
  { unfold strtoul. destruct (scan_sign _) as [neg s1].
    assert (forall acc n s, 0 <= acc -> 0 <= (scan_digits acc n s).1.1)%Z as D.
    { intros acc n t. revert acc n. induction t as [|x t IH]; intros acc n Ha; simpl; [done|].
      destruct (isdigit x) eqn:E; [|done]. unfold isdigit in E. bool_to_prop. apply IH. lia. }
    specialize (D 0 0%nat s1 ltac:(lia))%Z. destruct (scan_digits 0 0 s1) as [[v n] rest]. simpl in D.
    case_ifs; simpl; try lia. apply uwrap_range. lia. }
  destruct (strtoul (c :: s)) as [[v rest] e]. simpl in H. case_ifs; bool_to_prop; lia.
Qed.

Lemma safe_strtol_range (v : option cstr) (d lo hi : Z) :
  (lo <= d <= hi)%Z -> (lo <= safe_strtol_env v d lo hi <= hi)%Z.
Proof.
  intros Hd. unfold safe_strtol_env. destruct v as [[|c s]|]; [done| |done].
  destruct (strtol (c :: s)) as [[v rest] e]. case_ifs; bool_to_prop; lia.
Qed.

Lemma getenv_unsetenv (e : environment) (k k' : cstr) :
  getenv (unsetenv e k) k' = if decide (k' = k) then None else getenv e k'.
Proof.
  induction e as [|[a v] e IH]; [by case_decide|].
  unfold unsetenv. rewrite list.filter_cons. fold (unsetenv e k). cbn [fst].
  destruct (decide (a = k)) as [->|Hak].
  - rewrite decide_False by tauto. rewrite IH. cbn [getenv]. repeat case_decide; congruence.
  - rewrite decide_True by done. cbn [getenv]. rewrite IH. repeat case_decide; congruence.
Qed.

Lemma fold_unset_None (ks : list string) (e : environment) (k : cstr) :
  getenv e k = None -> getenv (fold_left (fun e k => unsetenv e (lit k)) ks e) k = None.
Proof.
  revert e. induction ks as [|x ks IH]; intros e H; simpl; [done|].
  apply IH. rewrite getenv_unsetenv. by case_decide.
Qed.

Lemma fold_unset_In (ks : list string) (e : environment) (k : string) :
  k ∈ ks -> getenv (fold_left (fun e k => unsetenv e (lit k)) ks e) (lit k) = None.
Proof.
  revert e. induction ks as [|x ks IH]; intros e Hin; simpl; [by apply not_elem_of_nil in Hin|].
  apply elem_of_cons in Hin as [->|Hin]; [|by apply IH].
  apply fold_unset_None. rewrite getenv_unsetenv. by rewrite decide_True.
Qed.

(** Lines of a hot reload touch the access log flag alone. *)
Lemma load_hot (lines : list cstr) (s : state) :
  exists b, fold_left (load_line true) lines s
    = State (set_access_log (conf s) b) (env s) (is_first_load s).
Proof.
  revert s. induction lines as [|l lines IH]; intros s; simpl.
  - exists (access_log (conf s)). by destruct s as [[] ? ?].
  - assert (exists b, load_line true s l = State (set_access_log (conf s) b) (env s) (is_first_load s))
      as (b & ->).
    { unfold load_line. destruct (parse_line l) as [[k v]|].
      - case_decide; [by eexists|]. exists (access_log (conf s)). by destruct s as [[] ? ?].
      - exists (access_log (conf s)). by destruct s as [[] ? ?]. }
    destruct (IH (State (set_access_log (conf s) b) (env s) (is_first_load s))) as (b' & ->).
    by exists b'.
Qed.

(** Lines of the first load touch the environment alone. *)
Lemma load_cold (lines : list cstr) (s : state) :
  exists e, fold_left (load_line false) lines s = State (conf s) e (is_first_load s).
Proof.
  revert s. induction lines as [|l lines IH]; intros s; simpl; [exists (env s); by destruct s|].
  assert (exists e, load_line false s l = State (conf s) e (is_first_load s)) as (e & ->).
  { unfold load_line. destruct (parse_line l) as [[[|x k] v]|];
      [exists (env s); by destruct s|by eexists|exists (env s); by destruct s]. }
  apply (IH (State (conf s) e (is_first_load s))).
Qed.

Lemma locate_cold (beside cwd : option cstr) (s : state) :
  exists e, locate_and_load_env false beside cwd s = State (conf s) e (is_first_load s).
Proof.
  unfold locate_and_load_env, load_env_file.
  destruct beside, cwd; try apply load_cold. exists (env s). by destruct s.
Qed.

(** The environment once the configuration file has been read. *)
Definition loaded_env (beside cwd : option cstr) (e : environment) : environment :=
  env (locate_and_load_env false beside cwd (State initial_config e true)).

(** What a start-up load that returns has done. *)
Lemma config_reload_first (beside cwd : option cstr) (e : environment) (s : state) :
  config_reload beside cwd (State initial_config e true) = Some s ->
  let e' := loaded_env beside cwd e in
  s = State (apply_initial_config_vars e' (apply_limits e' initial_config)) (scrub_env_vars e') false
  /\ Forall (fun k => getenv e' (lit k) <> None) REQUIRED.
Proof.
  unfold config_reload, loaded_env. cbn [is_first_load negb].
  destruct (locate_cold beside cwd (State initial_config e true)) as (e' & ->).
  cbn [env conf is_first_load]. destruct (existsb _ REQUIRED) eqn:R; [done|]. intros [= <-].
  split; [done|]. apply list.Forall_forall. intros k Hk%list_elem_of_In Hn.
  rewrite <- not_true_iff_false in R. apply R. apply existsb_exists. exists k.
  split; [done|]. by apply bool_decide_eq_true.
Qed.

Lemma limits_hold (beside cwd : option cstr) (e : environment) (s : state) :
  config_reload beside cwd (State initial_config e true) = Some s ->
  let c := conf s in
  (0 <= num_threads c <= 1024)%Z /\ (0 <= max_queue_size c <= 1000000)%Z
  /\ (0 <= fast_pool_percentage c <= 100)%Z /\ (0 <= max_payload_size c <= 104857600)%Z
  /\ (1 <= server_port c <= 65535)%Z /\ (1 <= jwt_timeout_seconds c <= 2592000)%Z.
Proof.
  intros [-> HR]%config_reload_first. set (e' := loaded_env beside cwd e) in *.
  cbn [conf env apply_initial_config_vars apply_limits num_threads max_queue_size
    fast_pool_percentage max_payload_size server_port jwt_timeout_seconds].
  split; [apply safe_strtoul_range; lia|]. split; [apply safe_strtoul_range; lia|].
  split; [apply safe_strtoul_range; lia|]. split; [apply safe_strtoul_range; lia|].
  split; [apply safe_strtol_range; lia|].
  destruct (getenv e' (lit "JWT_TIMEOUT_SECONDS")) as [l|]; [|simpl; lia].
  pose proof (safe_strtol_range (Some l) 3600 1 (86400 * 30)). lia.
Qed.

(** ** Origins *)

(** A comma-separated list, the empty entries kept. *)
Fixpoint split_commas (s : cstr) : list cstr :=
  match s with
  | [] => [[]]
  | c :: s' =>
      if decide (c = ","%char) then [] :: split_commas s'
      else match split_commas s' with [] => [[c]] | x :: l => (c :: x) :: l end
  end.

Definition blank (s : cstr) : bool := match trim_whitespace s with [] => true | _ => false end.

(** The entries of a list of origins: trimmed, the blank ones dropped. *)
Definition origin_entries (s : cstr) : list cstr :=
  trim_whitespace <$> filter (fun t => blank t = false) (split_commas s).

Definition prepend (acc : cstr) (l : list cstr) : list cstr :=
  match l with [] => [acc] | x :: l' => (acc ++ x) :: l' end.

Lemma split_commas_nonnil (s : cstr) : split_commas s <> [].
Proof. destruct s as [|c s]; simpl; [done|]. case_decide; [done|]. by destruct (split_commas s). Qed.

Lemma strtok_split (s acc : cstr) :
  strtok acc s = filter (fun t => t <> []) (prepend acc (split_commas s)).
Proof.
  revert acc. induction s as [|c s IH]; intros acc; simpl.
  { rewrite app_nil_r. by destruct acc. }
  case_decide as Hc.
  - simpl. rewrite app_nil_r, list.filter_cons.
    pose proof (IH []) as IH0. destruct (split_commas s) as [|x l] eqn:E;
      [by apply split_commas_nonnil in E|]. simpl in IH0. destruct acc; simpl; by rewrite IH0.
  - rewrite IH. destruct (split_commas s) as [|x l] eqn:E; [by apply split_commas_nonnil in E|].
    simpl. by rewrite <- (assoc_L (++)).
Qed.

Lemma take_origins_eq (tokens : list cstr) (count : nat) :
  (count <= 64)%nat ->
  take_origins count tokens
  = take (64 - count) (trim_whitespace <$> filter (fun t => blank t = false) tokens).
Proof.
  revert count. induction tokens as [|t tokens IH]; intros count Hc; simpl; [by rewrite take_nil|].
  destruct (Nat.ltb_spec count 64) as [Hl|Hl].
  2:{ by replace (64 - count)%nat with 0%nat by lia. }
  unfold blank at 1. rewrite list.filter_cons. unfold blank at 1.
  destruct (trim_whitespace t) as [|c o] eqn:E; simpl.
  - by apply IH.
  - replace (64 - count)%nat with (S (64 - S count)) by lia. simpl. rewrite E, IH by lia. done.
Qed.

Lemma blank_filter (l : list cstr) :
  filter (fun t => blank t = false) (filter (fun t => t <> []) l) = filter (fun t => blank t = false) l.
Proof.
  rewrite list_filter_filter. apply list_filter_iff. intros t. split; [by intros [? _]|].
  intros H. split; [done|]. by intros ->.
Qed.

Lemma parse_cors_origins_eq (s : cstr) :
  (length s < MAX_CONFIG_STR)%nat -> parse_cors_origins s = take 64 (origin_entries s).
Proof.
  intros Hl. unfold parse_cors_origins, origin_entries. destruct s as [|c s]; [done|].
  rewrite strlcpy_fits, take_origins_eq, strtok_split, blank_filter by (done || lia).
  f_equal. destruct (split_commas (c :: s)) eqn:E; [by apply split_commas_nonnil in E|done].
Qed.

Lemma strcmp_existsb (l : list cstr) (o : cstr) :
  existsb (fun p => match strcmp p o with Eq => true | _ => false end) l = true <-> o ∈ l.
Proof.
  rewrite existsb_exists. split.
  - intros (p & Hin & Hp). destruct (strcmp p o) eqn:E; try done. apply strcmp_eq in E as ->.
    by apply list_elem_of_In.
  - intros Hin. exists o. rewrite strcmp_refl. split; [by apply list_elem_of_In|done].
Qed.

(** ** The properties *)

(** C40: every loaded configuration is within its limits. Whatever the
    environment and the configuration files hold, if the start-up load returns,
    the limits the server sizes its structures with are in range: at most 1024
    threads, 10^6 queued requests, 100 per cent, 100 MB of payload, a port
    between 1 and 65535 and a token lifetime between one second and thirty
    days; and all the required variables are present. *)
Theorem config_reload_limits (beside cwd : option cstr) (e : environment) (s : state) :
  config_reload beside cwd (State initial_config e true) = Some s ->
  let c := conf s in
  (0 <= num_threads c <= 1024)%Z /\ (0 <= max_queue_size c <= 1000000)%Z
  /\ (0 <= fast_pool_percentage c <= 100)%Z /\ (0 <= max_payload_size c <= 104857600)%Z
  /\ (1 <= server_port c <= 65535)%Z /\ (1 <= jwt_timeout_seconds c <= 2592000)%Z
  /\ Forall (fun k => getenv (loaded_env beside cwd e) (lit k) <> None) REQUIRED.
Proof.
  intros H. pose proof (config_reload_first _ _ _ _ H) as [_ R].
  pose proof (limits_hold _ _ _ _ H) as L. cbv zeta in *. tauto.
Qed.

(** Secrets do not stay in the environment. After a successful start-up
    load, none of the variables that hold the token key, the passwords, the API
    keys or the connection strings can be read from the process environment. *)
Lemma config_reload_scrubs (beside cwd : option cstr) (e : environment) (s : state) (k : string) :
  config_reload beside cwd (State initial_config e true) = Some s -> k ∈ SCRUBBED ->
  getenv (env s) (lit k) = None.
Proof.
  intros [-> _]%config_reload_first Hk. by apply fold_unset_In.
Qed.

(** A hot reload changes nothing but the access log. Once the start-up load
    has been done, [config_reload] never exits and leaves every other setting,
    which worker threads read without a lock, and the environment untouched. *)
Lemma config_hot_reload_only_access_log (beside cwd : option cstr) (c : config) (e : environment) :
  exists b, config_reload beside cwd (State c e false) = Some (State (set_access_log c b) e false).
Proof.
  unfold config_reload, locate_and_load_env, load_env_file. cbn [is_first_load negb].
  destruct beside as [t|], cwd as [t'|];
    try (destruct (load_hot (file_lines t) (State c e false)) as (b & ->); by exists b).
  - destruct (load_hot (file_lines t') (State c e false)) as (b & ->). by exists b.
  - exists (access_log c). by destruct c.
Qed.

(** An origin is allowed exactly when it is listed. After a successful
    start-up load with a list of origins of less than 1024 bytes, a request's
    origin is allowed if and only if it is, character for character, one of the
    first 64 entries of the comma-separated list, trimmed and not blank; with
    no list, none is. *)
Lemma origin_allowed_iff_listed (beside cwd : option cstr) (e : environment) (s : state)
    (origin : cstr) :
  config_reload beside cwd (State initial_config e true) = Some s ->
  let listed := default [] (getenv (loaded_env beside cwd e) (lit "CORS_ALLOWED_ORIGINS")) in
  (length listed < MAX_CONFIG_STR)%nat ->
  config_is_origin_allowed (conf s) (Some origin) = true <-> origin ∈ take 64 (origin_entries listed).
Proof.
  intros [-> _]%config_reload_first. cbv zeta. intros Hl.
  unfold config_is_origin_allowed. rewrite strcmp_existsb.
  cbn [conf apply_initial_config_vars allowed_origins apply_limits initial_config app].
  unfold load_env_string.
  destruct (getenv (loaded_env beside cwd e) (lit "CORS_ALLOWED_ORIGINS")) as [l|]; simpl in Hl.
  - by rewrite strlcpy_fits, parse_cors_origins_eq.
  - by rewrite parse_cors_origins_eq.
Qed.

(** A negative limit selects the maximum. [strtoul] accepts a minus sign,
    so that [NUM_THREADS=-1] is neither malformed nor too small: the value is
    2^64 - 1, which is clamped to the largest setting instead of the default. *)
Lemma negative_limit_selects_maximum (d hi : Z) :
  (0 <= hi < 2 ^ 64 - 1)%Z -> safe_strtoul_env (Some (lit "-1")) d hi = hi.
Proof.
  intros H. change (safe_strtoul_env (Some (lit "-1")) d hi)
    with (if (hi <? 2 ^ 64 - 1)%Z then hi else (2 ^ 64 - 1)%Z).
  by rewrite (proj2 (Z.ltb_lt _ _)) by lia.
Qed.

(** A complete file for the witnesses. *)
Definition sample_file : cstr :=
  lit "# sample" ++ ["010"%char] ++ lit "DB_0 = `Driver=X;PWD=y`" ++ ["010"%char]
  ++ lit "API_URL=http://h" ++ ["010"%char] ++ lit "API_USER=u" ++ ["010"%char]
  ++ lit "API_PASS='p'" ++ ["010"%char] ++ lit "JWT_SECRET=00" ++ ["010"%char]
  ++ lit "JWT_TIMEOUT_SECONDS=99999999" ++ ["010"%char] ++ lit "TELEMETRY_API_KEY=k" ++ ["010"%char]
  ++ lit "NUM_THREADS=8" ++ ["010"%char] ++ lit "TRUST_PROXY_IP=10.0.0.1" ++ ["010"%char]
  ++ lit "CORS_ALLOWED_ORIGINS=http://a, http://b".

Definition sample_state : state :=
  default (State initial_config [] true)
    (config_reload None (Some sample_file) (State initial_config [] true)).

Lemma sample_loads :
  config_reload None (Some sample_file) (State initial_config [] true) = Some sample_state.
Proof. vm_compute. reflexivity. Qed.

Lemma config_reload_limits_witness :
  (1 <= jwt_timeout_seconds (conf sample_state) <= 2592000)%Z
  /\ num_threads (conf sample_state) = 8%Z.
Proof.
  destruct (config_reload_limits None (Some sample_file) [] sample_state sample_loads)
    as (_ & _ & _ & _ & _ & H & _). split; [exact H|vm_compute; reflexivity].
Defined.

End Config.
