(* ===== verification/Logger.v ===== *)
(** * lib/logger.c: the asynchronous logger

    The pool of entries, the ring of queued entries and the loops that write
    them are functions; module [Pipeline] is the logger thread with the threads
    that log, as a step relation in which a critical section is one step.  An
    access outside an array, through a null pointer or outside an entry is
    [None].  The answers of [write] and [writev] are arguments. *)

From S2P Require Import Prelude JsonUtil JsonC.
Import Encode.

Module Logger.

Definition POOL_SIZE : nat := Z.to_nat 4096.
Definition SYNC_BUF_SIZE : nat := Z.to_nat 4096.
Definition BATCH_SIZE : nat := 128.

Inductive LogLevel := LOG_LEVEL_INFO | LOG_LEVEL_WARN | LOG_LEVEL_AUDIT | LOG_LEVEL_ERROR | LOG_LEVEL_FATAL.

(** ** Writing to the standard error *)

(** The answer of [write] or [writev]: a number of bytes, [EINTR] or another error. *)
Inductive write_result := Wrote (n : nat) | Interrupted | Failed.

#[export] Instance write_result_eq_dec : EqDecision write_result.
Proof. solve_decision. Defined.

(** [robust_write]: what reaches the file, and whether all of it did; [None] when
    the loop still runs after the given answers.  A call writes at most what it
    was given. *)
Fixpoint robust_write (answers : list write_result) (buf : list char) : option (list char * bool) :=
  match buf with
  | [] => Some ([], true)
  | _ =>
      match answers with
      | [] => None
      | Wrote n :: answers =>
          '(text, ok) ← robust_write answers (drop n buf); Some (take n buf ++ text, ok)
      | Interrupted :: answers => robust_write answers buf
      | Failed :: _ => Some ([], false)
      end
  end.

(** [advance_iovecs]: the offset and the vectors after [bytes_written] bytes *)
Fixpoint advance_iovecs (fuel : nat) (iov : list (list char)) (offset bytes_written : nat)
    : option (list (list char) * nat) :=
  if (0 <? bytes_written)%nat && (offset <? length iov)%nat then
    match fuel with
    | O => None
    | S fuel =>
        v ← iov !! offset;
        if (length v <=? bytes_written)%nat
        then advance_iovecs fuel iov (S offset) (bytes_written - length v)
        else advance_iovecs fuel (<[offset := drop bytes_written v]> iov) offset 0
    end
  else Some (iov, offset).

(** The loop of [write_batch_iovecs]; [advance_iovecs] is entered once for every
    vector. *)
Fixpoint write_loop (answers : list write_result) (iov : list (list char)) (offset total_written total : nat)
    : option (list char * bool) :=
  if (total_written <? total)%nat && (offset <? length iov)%nat then
    match answers with
    | [] => None
    | Wrote n :: answers =>
        let text := take n (concat (drop offset iov)) in
        if (0 <? length text)%nat then
          '(iov, offset) ← advance_iovecs (S (length iov)) iov offset (length text);
          '(rest, ok) ← write_loop answers iov offset (total_written + length text) total;
          Some (text ++ rest, ok)
        else write_loop answers iov offset total_written total
    | Interrupted :: answers => write_loop answers iov offset total_written total
    | Failed :: _ => Some ([], false)
    end
  else Some ([], true).

Definition write_batch_iovecs (answers : list write_result) (iov : list (list char)) : option (list char * bool) :=
  write_loop answers iov 0 0 (length (concat iov)).

(** ** The pool and the ring *)

(** [log_entry_t] *)
Record log_entry_t := Entry { len : nat; data : list char }.

(** The static variables; an entry is its index in [g_log_buffers]. *)
Record logger := Log {
  g_log_buffers : list log_entry_t;
  g_free_stack : list (option nat);
  g_free_top : nat;
  g_log_queue : list (option nat);
  g_log_head : nat;
  g_log_tail : nat;
  g_log_count : nat;
}.

Definition set_at {A} (l : list A) (i : nat) (x : A) : option (list A) :=
  if decide (i < length l)%nat then Some (<[i := x]> l) else None.

(** [logger_init_routine] *)
Definition logger_init_routine : logger := {|
  g_log_buffers := replicate POOL_SIZE (Entry 0 (replicate SYNC_BUF_SIZE NUL));
  g_free_stack := Some <$> seq 0 POOL_SIZE;
  g_free_top := POOL_SIZE;
  g_log_queue := replicate POOL_SIZE None;
  g_log_head := 0; g_log_tail := 0; g_log_count := 0;
|}.

(** The critical section of [try_enqueue_log]: whether the line was accepted and
    whether the condition variable is signalled. *)
Definition try_enqueue_log (g : logger) (sync_buf : list char) : option (logger * bool * bool) :=
  if (0 <? g_free_top g)%nat && (g_log_count g <? POOL_SIZE)%nat then
    let top := (g_free_top g - 1)%nat in
    entry ← mjoin (g_free_stack g !! top);
    e ← g_log_buffers g !! entry;
    d ← memcpy_at (data e) 0 sync_buf;
    q ← set_at (g_log_queue g) (g_log_head g) (Some entry);
    let count := (g_log_count g + 1)%nat in
    Some (Log (<[entry := Entry (length sync_buf) d]> (g_log_buffers g)) (g_free_stack g) top
            q ((g_log_head g + 1) mod POOL_SIZE)%nat (g_log_tail g) count,
          true, (count =? 1)%nat)
  else Some (g, false, false).

(** The loop of [logger_thread_func] that takes entries from the ring; [room] is
    what is left of the batch. *)
Fixpoint collect (room : nat) (g : logger) : option (list nat * logger) :=
  match room with
  | O => Some ([], g)
  | S room =>
      if (g_log_count g =? 0)%nat then Some ([], g) else
      e ← mjoin (g_log_queue g !! g_log_tail g);
      '(batch, g) ← collect room (Log (g_log_buffers g) (g_free_stack g) (g_free_top g) (g_log_queue g)
        (g_log_head g) ((g_log_tail g + 1) mod POOL_SIZE)%nat (g_log_count g - 1));
      Some (e :: batch, g)
  end.

(** [return_batch_to_pool] *)
Fixpoint return_batch_to_pool (g : logger) (batch : list nat) : option logger :=
  match batch with
  | [] => Some g
  | e :: batch =>
      if (g_free_top g <? POOL_SIZE)%nat then
        st ← set_at (g_free_stack g) (g_free_top g) (Some e);
        return_batch_to_pool (Log (g_log_buffers g) st (S (g_free_top g)) (g_log_queue g) (g_log_head g)
          (g_log_tail g) (g_log_count g)) batch
      else return_batch_to_pool g batch
  end.

(** What the logger thread does with the mutex. *)
Inductive action := Sleep | Quit | Flush (batch : list nat).

Definition logger_round (g : logger) (running : bool) : option (action * logger) :=
  if (g_log_count g =? 0)%nat then Some (if running then Sleep else Quit, g)
  else '(batch, g) ← collect BATCH_SIZE g; Some (Flush batch, g).

(** The vectors for [writev]: [len] bytes of each entry. *)
Definition iov_of (g : logger) (batch : list nat) : option (list (list char)) :=
  mapM (fun e => x ← g_log_buffers g !! e;
                 if decide (len x <= length (data x))%nat then Some (take (len x) (data x)) else None) batch.

(** ** One line *)

Definition level_string (level : LogLevel) : cstr :=
  lit match level with
      | LOG_LEVEL_INFO => "INFO" | LOG_LEVEL_WARN => "WARN" | LOG_LEVEL_AUDIT => "AUDIT"
      | LOG_LEVEL_ERROR => "ERROR" | LOG_LEVEL_FATAL => "FATAL"
      end.

(** [logger_set_request_id] and [logger_clear_request_id] *)
Definition logger_set_request_id (req_id : option cstr) : cstr :=
  match req_id with Some s => strlcpy 128 s | None => [] end.
Definition logger_clear_request_id : cstr := [].

(** [msg_buf] of [logger_log], for the formatted message [text] *)
Definition message (text : cstr) : cstr :=
  if (2048 <=? Z.of_nat (length text))%Z then take (Z.to_nat 2032) text ++ lit "... [TRUNCATED]" else text.

(** The line before it is cut to the buffer. *)
Definition line_text (level : LogLevel) (request_id text tid : cstr) : cstr :=
  let escaped_msg := json_encode (Z.to_nat 12288) (message text) in
  match request_id with
  | [] => lit "{`level`:`" ++ level_string level ++ lit "`,`msg`:`" ++ escaped_msg ++ lit "`,`threadID`:`"
            ++ tid ++ lit "`}" ++ ["010"%char]
  | _ => lit "{`level`:`" ++ level_string level ++ lit "`,`reqID`:`" ++ json_encode 256 request_id
            ++ lit "`,`msg`:`" ++ escaped_msg ++ lit "`,`threadID`:`" ++ tid ++ lit "`}" ++ ["010"%char]
  end.

(** [sync_buf], of which [to_write] bytes are the line *)
Definition log_line (level : LogLevel) (request_id text tid : cstr) : list char :=
  snprintf SYNC_BUF_SIZE (line_text level request_id text tid).

(** [fallback_write_log]: what is written at once, and the counter of lost lines *)
Definition fallback_write_log (answers : list write_result) (level : LogLevel) (sync_buf : list char)
    (g_dropped_logs : Z) : option (list char * Z) :=
  match level with
  | LOG_LEVEL_INFO =>
      let drops := uwrap 64 (g_dropped_logs + 1) in
      if (drops mod 100 =? 0)%Z then
        '(text, _) ← robust_write answers
          (lit "{`level`:`WARN`,`msg`:`Logger dropping messages. Total dropped: " ++ dec_text drops ++ lit "`}"
           ++ ["010"%char]);
        Some (text, drops)
      else Some ([], drops)
  | _ => '(text, _) ← robust_write answers sync_buf; Some (text, g_dropped_logs)
  end.

(** [logger_log] after the line was made: [accepted] is the answer of
    [try_enqueue_log]; the results are what is written at once, the counter and
    whether the process ends. *)
Definition logger_log (answers : list write_result) (level : LogLevel) (request_id text tid : cstr)
    (accepted : bool) (g_dropped_logs : Z) : option (list char * Z * bool) :=
  let line := log_line level request_id text tid in
  '(direct, dropped) ← (if (0 <? length line)%nat && negb accepted
                        then fallback_write_log answers level line g_dropped_logs
                        else Some ([], g_dropped_logs));
  Some (direct, dropped, match level with LOG_LEVEL_FATAL => true | _ => false end).

(** ** The write loops *)

(** The bytes a list of answers can take. *)
Fixpoint capacity (answers : list write_result) : nat :=
  match answers with
  | [] => 0
  | Wrote n :: answers => n + capacity answers
  | _ :: answers => capacity answers
  end.

Lemma robust_write_prefix (answers : list write_result) (buf text : list char) (ok : bool) :
  robust_write answers buf = Some (text, ok) -> text `prefix_of` buf /\ (ok = true <-> text = buf).
Proof.
  revert buf text ok. induction answers as [|a answers IH]; intros [|c buf] text ok; cbn [robust_write]; try done.
  1,2: intros [= <- <-]; done.
  destruct a as [n| |].
  - destruct (robust_write answers (drop n (c :: buf))) as [[t k]|] eqn:E; [|done]. intros [= <- <-].
    destruct (IH _ _ _ E) as [[r Hr] Hk]. split.
    + exists r. by rewrite <- (assoc_L (++)), <- Hr, take_drop.
    + rewrite Hk. split; [intros ->; apply take_drop|]. rewrite <- (take_drop n (c :: buf)) at 2. apply app_inv_head.
  - apply IH.
  - intros [= <- <-]. split; [apply prefix_nil|done].
Qed.

Lemma robust_write_ends (answers : list write_result) (buf : list char) :
  ~ Failed ∈ answers -> (length buf <= capacity answers)%nat -> robust_write answers buf = Some (buf, true).
Proof.
  revert buf. induction answers as [|a answers IH]; intros [|c buf] Hf Hc; cbn [robust_write]; try done.
  { cbn in Hc. lia. }
  apply not_elem_of_cons in Hf as [Ha Hf]. cbn [capacity] in Hc.
  destruct a as [n| |]; [|by apply IH|done].
  rewrite IH; [|done|rewrite length_drop; lia]. cbn [mbind option_bind]. by rewrite take_drop.
Qed.

Lemma advance_ok (fuel : nat) (iov : list (list char)) (offset k : nat) :
  (length iov < fuel + offset)%nat -> (k <= length (concat (drop offset iov)))%nat ->
  exists iov' offset', advance_iovecs fuel iov offset k = Some (iov', offset')
    /\ concat (drop offset' iov') = drop k (concat (drop offset iov)).
Proof.
  revert iov offset k. induction fuel as [|fuel IH]; intros iov offset k Hf Hk; cbn [advance_iovecs].
  { rewrite drop_ge in Hk by lia. cbn in Hk. assert (k = 0%nat) as -> by lia. by exists iov, offset. }
  destruct (Nat.ltb_spec 0 k) as [Hp|]; cbn [andb].
  2:{ assert (k = 0%nat) as -> by lia. by exists iov, offset. }
  destruct (Nat.ltb_spec offset (length iov)) as [Hl|Hl].
  2:{ rewrite drop_ge in Hk by lia. cbn in Hk. lia. }
  destruct (lookup_lt_is_Some_2 iov offset Hl) as [v Hv]. rewrite Hv. cbn [mbind option_bind].
  rewrite (drop_S _ _ _ Hv) in Hk |- *. cbn [concat] in *. rewrite length_app in Hk.
  destruct (Nat.leb_spec (length v) k) as [Hle|Hgt].
  - destruct (IH iov (S offset) (k - length v)%nat) as (iov' & o' & E & Hc); [lia|lia|].
    exists iov', o'. split; [done|]. by rewrite Hc, drop_app_ge.
  - exists (<[offset := drop k v]> iov), offset. split; [by destruct fuel|].
    rewrite (drop_S _ (drop k v)) by by apply list_lookup_insert_eq. cbn [concat].
    rewrite drop_insert_lt by lia. by rewrite drop_app_le by lia.
Qed.

(** The gathering loop is a plain write of the lines put together. *)
Lemma write_loop_robust (answers : list write_result) (iov : list (list char)) (offset written total : nat) :
  (written + length (concat (drop offset iov)) = total)%nat ->
  write_loop answers iov offset written total = robust_write answers (concat (drop offset iov)).
Proof.
  revert iov offset written. induction answers as [|a answers IH]; intros iov offset written Ht;
    cbn [write_loop robust_write].
  all: destruct (concat (drop offset iov)) as [|c text] eqn:ER; cbn [length] in Ht.
  1,3: by rewrite (proj2 (Nat.ltb_ge written total)) by lia.
  all: rewrite (proj2 (Nat.ltb_lt written total)) by lia; cbn [andb].
  all: rewrite (proj2 (Nat.ltb_lt offset (length iov)))
    by (apply Nat.lt_nge; intros ?; rewrite drop_ge in ER by lia; done).
  { done. }
  destruct a as [n| |].
  - rewrite length_take. destruct (Nat.ltb_spec 0 (n `min` length (c :: text))) as [Hp|Hp].
    + destruct (advance_ok (S (length iov)) iov offset (n `min` length (c :: text))) as (iov' & o' & -> & Hc);
        [lia|rewrite ER; lia|]. cbn [mbind option_bind]. rewrite ER in Hc.
      rewrite IH by (rewrite Hc, length_drop; cbn [length] in *; lia). rewrite Hc.
      destruct (Nat.le_gt_cases n (length (c :: text))).
      * by rewrite Nat.min_l by done.
      * rewrite Nat.min_r by lia. by rewrite !drop_ge by lia.
    + assert (n = 0%nat) as -> by (cbn [length] in Hp; lia). rewrite IH by (rewrite ER; cbn [length]; lia).
      rewrite ER. rewrite drop_0. by destruct (robust_write _ _) as [[]|].
  - rewrite IH by (rewrite ER; cbn [length]; lia). by rewrite ER.
  - done.
Qed.

Lemma batch_robust (answers : list write_result) (iov : list (list char)) :
  write_batch_iovecs answers iov = robust_write answers (concat iov).
Proof. unfold write_batch_iovecs. by rewrite write_loop_robust. Qed.

(** C37: a batch of lines reaches the file byte for byte. However the kernel cuts
    the writes and however often it interrupts them, [write_batch_iovecs] puts
    out exactly what one [robust_write] of the lines put together would: a
    prefix of them, and all of them unless a write fails; and it ends as soon
    as the answers cover the text. *)
Theorem write_batch_whole (answers : list write_result) (iov : list (list char)) :
  write_batch_iovecs answers iov = robust_write answers (concat iov)
  /\ (forall text ok, write_batch_iovecs answers iov = Some (text, ok) ->
        text `prefix_of` concat iov /\ (ok = true <-> text = concat iov))
  /\ (~ Failed ∈ answers -> (length (concat iov) <= capacity answers)%nat ->
      write_batch_iovecs answers iov = Some (concat iov, true)).
Proof.
  rewrite batch_robust. split; [done|]. split.
  - intros text ok. apply robust_write_prefix.
  - apply robust_write_ends.
Qed.

(** ** The pool and the ring, abstractly *)

Lemma pool_positive : (0 < POOL_SIZE)%nat.
Proof. unfold POOL_SIZE. lia. Qed.

(** The arrays hold a stack of free entries and a queue of filled ones. *)
Record represents (g : logger) (free queue : list nat) : Prop := {
  r_buffers : length (g_log_buffers g) = POOL_SIZE;
  r_entries : Forall (fun e => length (data e) = SYNC_BUF_SIZE /\ len e <= SYNC_BUF_SIZE)%nat (g_log_buffers g);
  r_stack : length (g_free_stack g) = POOL_SIZE;
  r_top : g_free_top g = length free;
  r_free i e : free !! i = Some e -> g_free_stack g !! i = Some (Some e);
  r_ring : length (g_log_queue g) = POOL_SIZE;
  r_tail : (g_log_tail g < POOL_SIZE)%nat;
  r_head : g_log_head g = ((g_log_tail g + length queue) mod POOL_SIZE)%nat;
  r_count : g_log_count g = length queue;
  r_queue i e : queue !! i = Some e ->
    g_log_queue g !! ((g_log_tail g + i) mod POOL_SIZE)%nat = Some (Some e);
}.

(** The line an entry holds. *)
Definition line_of (g : logger) (e : nat) : list char :=
  match g_log_buffers g !! e with Some x => take (len x) (data x) | None => [] end.

Lemma init_represents : represents logger_init_routine (seq 0 POOL_SIZE) [].
Proof.
  pose proof pool_positive.
  split; cbn [logger_init_routine g_log_buffers g_free_stack g_free_top g_log_queue g_log_head g_log_tail g_log_count].
  - apply length_replicate.
  - apply Forall_replicate. cbn [data len]. rewrite length_replicate. lia.
  - by rewrite length_fmap, length_seq.
  - by rewrite length_seq.
  - intros i e He. by rewrite list_lookup_fmap, He.
  - apply length_replicate.
  - done.
  - cbn [length]. rewrite Nat.add_0_r, Nat.mod_small; lia.
  - done.
  - done.
Qed.

(** Two places of the ring. *)
Lemma ring_distinct (t i j : nat) :
  (i < POOL_SIZE)%nat -> (j < POOL_SIZE)%nat -> i <> j ->
  ((t + i) mod POOL_SIZE <> (t + j) mod POOL_SIZE)%nat.
Proof.
  pose proof pool_positive. generalize dependent POOL_SIZE. intros P HP Hi Hj Hn E. apply Hn.
  pose proof (Nat.div_mod_eq (t + i) P) as Ei. pose proof (Nat.div_mod_eq (t + j) P) as Ej. rewrite E in Ei.
  revert Ei Ej. generalize ((t + i) / P)%nat ((t + j) / P)%nat ((t + j) mod P)%nat. clear -Hi Hj. intros a b r Ei Ej.
  destruct (Nat.lt_trichotomy a b) as [Hab|[->|Hab]]; [nia|lia|nia].
Qed.

Lemma line_inserted (g g' : logger) (e : nat) (x : log_entry_t) (e' : nat) :
  g_log_buffers g' = <[e := x]> (g_log_buffers g) -> e' <> e -> line_of g' e' = line_of g e'.
Proof. intros E Hn. unfold line_of. rewrite E. by rewrite list_lookup_insert_ne. Qed.

Lemma enqueue_ok (g : logger) (free queue : list nat) (e : nat) (line : list char) :
  represents g (free ++ [e]) queue -> (e < POOL_SIZE)%nat -> (length queue < POOL_SIZE)%nat ->
  (length line <= SYNC_BUF_SIZE)%nat ->
  exists g', try_enqueue_log g line = Some (g', true, bool_decide (queue = []))
    /\ represents g' free (queue ++ [e]) /\ line_of g' e = line
    /\ forall e', e' <> e -> line_of g' e' = line_of g e'.
Proof.
  intros R He Hq Hl. pose proof pool_positive as HP. destruct R. unfold try_enqueue_log.
  rewrite r_top0, r_count0, length_app. cbn [length].
  rewrite (proj2 (Nat.ltb_lt 0 _)), (proj2 (Nat.ltb_lt (length queue) _)) by lia. cbn [andb].
  replace (length free + 1 - 1)%nat with (length free) by lia.
  rewrite (r_free0 (length free) e) by by rewrite list_lookup_middle. cbn [mjoin option_join mbind option_bind].
  destruct (lookup_lt_is_Some_2 (g_log_buffers g) e ltac:(lia)) as [x Hx]. rewrite Hx. cbn [mbind option_bind].
  destruct (proj1 (Forall_lookup _ _) r_entries0 e x Hx) as [Hd _].
  unfold memcpy_at. rewrite decide_True by lia. rewrite take_0. cbn [mbind option_bind Nat.add app].
  unfold set_at. rewrite decide_True by (rewrite r_head0, r_ring0; apply Nat.mod_upper_bound; lia).
  cbn [mbind option_bind]. eexists. split.
  { replace (length queue + 1 =? 1)%nat with (bool_decide (queue = [])) by (by destruct queue as [|? []]). done. }
  set (g' := Log _ _ _ _ _ _ _). assert (g_log_buffers g' = <[e := Entry (length line) (line ++ drop (length line) (data x))]>
    (g_log_buffers g)) as Eb by done. split; [|split].
  - split; subst g'; cbn [g_log_buffers g_free_stack g_free_top g_log_queue g_log_head g_log_tail g_log_count];
      try assumption.
    + by rewrite length_insert.
    + apply Forall_insert; [done|]. cbn [data len]. rewrite length_app, length_drop. lia.
    + reflexivity.
    + intros i e' Hi. apply r_free0. by apply lookup_app_l_Some.
    + by rewrite length_insert.
    + rewrite r_head0, length_app. cbn [length]. rewrite Nat.Div0.add_mod_idemp_l. f_equal. lia.
    + rewrite length_app. cbn [length]. lia.
    + intros i e' Hi. destruct (decide (i = length queue)) as [->|Hn].
      * rewrite list_lookup_middle in Hi by done. injection Hi as ->. rewrite r_head0, list_lookup_insert_eq; [done|].
        rewrite r_ring0. apply Nat.mod_upper_bound. lia.
      * assert (i < length queue)%nat as Hlt.
        { apply lookup_lt_Some in Hi. rewrite length_app in Hi. cbn [length] in Hi. lia. }
        rewrite lookup_app_l in Hi by done. rewrite list_lookup_insert_ne; [by apply r_queue0|].
        rewrite r_head0. apply ring_distinct; lia.
  - unfold line_of. rewrite Eb, list_lookup_insert_eq by lia. cbn [len data]. apply take_app_length.
  - intros e' Hn. by apply (line_inserted g g' e _ e' Eb).
Qed.

Lemma enqueue_full (g : logger) (queue : list nat) (line : list char) :
  represents g [] queue -> try_enqueue_log g line = Some (g, false, false).
Proof. intros R. unfold try_enqueue_log. by rewrite (r_top _ _ _ R). Qed.

Lemma collect_ok (room : nat) (g : logger) (free queue : list nat) :
  represents g free queue ->
  exists g', collect room g = Some (take room queue, g') /\ represents g' free (drop room queue)
    /\ g_log_buffers g' = g_log_buffers g.
Proof.
  pose proof pool_positive as HP. revert g queue. induction room as [|room IH]; intros g queue R; cbn [collect].
  { exists g. by rewrite take_0, drop_0. }
  rewrite (r_count _ _ _ R). destruct queue as [|e queue]; cbn [length Nat.eqb take drop].
  { by exists g. }
  destruct R. pose proof (r_queue0 0%nat e eq_refl) as Hq. rewrite Nat.add_0_r, Nat.mod_small in Hq by lia.
  rewrite Hq. cbn [mjoin option_join mbind option_bind]. set (g1 := Log _ _ _ _ _ _ _).
  destruct (IH g1 queue) as (g' & -> & R' & Eb); [|by exists g'].
  split; subst g1; cbn [g_log_buffers g_free_stack g_free_top g_log_queue g_log_head g_log_tail g_log_count]; try done.
  - apply Nat.mod_upper_bound. lia.
  - rewrite r_head0. rewrite Nat.Div0.add_mod_idemp_l. f_equal. cbn [length]. lia.
  - cbn [length]. lia.
  - intros i e' Hi. rewrite Nat.Div0.add_mod_idemp_l.
    replace (g_log_tail g + 1 + i)%nat with (g_log_tail g + S i)%nat by lia. by apply r_queue0.
Qed.

Lemma return_ok (batch : list nat) (g : logger) (free queue : list nat) :
  represents g free queue -> (length free + length batch <= POOL_SIZE)%nat ->
  exists g', return_batch_to_pool g batch = Some g' /\ represents g' (free ++ batch) queue
    /\ g_log_buffers g' = g_log_buffers g.
Proof.
  revert g free. induction batch as [|e batch IH]; intros g free R Hl; cbn [return_batch_to_pool].
  { exists g. by rewrite app_nil_r. }
  cbn [length] in Hl. destruct R. rewrite r_top0. rewrite (proj2 (Nat.ltb_lt _ _)) by lia.
  unfold set_at. rewrite decide_True by lia. cbn [mbind option_bind]. set (g1 := Log _ _ _ _ _ _ _).
  destruct (IH g1 (free ++ [e])) as (g' & -> & R' & Eb).
  - split; subst g1; cbn [g_log_buffers g_free_stack g_free_top g_log_queue g_log_head g_log_tail g_log_count];
      try done.
    + by rewrite length_insert.
    + rewrite length_app. cbn [length]. lia.
    + intros i e' Hi. destruct (decide (i = length free)) as [->|Hn].
      * rewrite list_lookup_middle in Hi by done. injection Hi as ->. rewrite list_lookup_insert_eq; [done|lia].
      * rewrite list_lookup_insert_ne by done. apply r_free0.
        apply lookup_app_Some in Hi as [?|[? Hi]]; [done|]. apply lookup_lt_Some in Hi. cbn [length] in Hi. lia.
  - rewrite length_app. cbn [length]. lia.
  - exists g'. rewrite <- (assoc_L (++)) in R'. done.
Qed.

Lemma iov_ok (g : logger) (free queue batch : list nat) :
  represents g free queue -> Forall (fun e => e < POOL_SIZE)%nat batch ->
  iov_of g batch = Some (line_of g <$> batch).
Proof.
  intros R. induction 1 as [|e batch He _ IH]; [done|]. unfold iov_of in *. cbn [mapM fmap list_fmap].
  destruct (lookup_lt_is_Some_2 (g_log_buffers g) e) as [x Hx]; [rewrite (r_buffers _ _ _ R); done|].
  rewrite Hx. cbn [mbind option_bind]. destruct (proj1 (Forall_lookup _ _) (r_entries _ _ _ R) e x Hx) as [Hd Hn].
  rewrite decide_True by lia. cbn [mbind option_bind]. rewrite IH. unfold line_of at 2. by rewrite Hx.
Qed.

(** ** The logger thread and the threads that log *)

Module Pipeline.

(** Where the logger thread is. *)
Inductive pc := Checking | Waiting | Writing (batch : list nat) | Returning (batch : list nat) | Exited.

(** [ready] are the lines of threads that have seen the logger run and are about to
    take the mutex; [accepted] are the lines that were queued, [written] those the
    logger thread has passed to [writev], in order, [output] what reached the file. *)
Record state := State {
  log : logger;
  running : bool;
  thread : pc;
  ready : list (list char);
  accepted : list (list char);
  written : list (list char);
  output : list char;
  failed : bool;
}.

Definition wake (t : pc) : pc := match t with Waiting => Checking | _ => t end.

Definition pc_of (a : action) : pc :=
  match a with Sleep => Waiting | Quit => Exited | Flush batch => Writing batch end.

(** A line of [logger_log] fits its buffer. *)
Definition sized (line : list char) : Prop := (length line < SYNC_BUF_SIZE)%nat.

Inductive log_step : state -> state -> Prop :=
  (** [try_enqueue_log] before its mutex *)
  | step_check line s :
      running s = true -> sized line ->
      log_step s (State (log s) true (thread s) (line :: ready s) (accepted s) (written s) (output s) (failed s))
  (** its critical section *)
  | step_enqueue line r1 r2 g ok signal s :
      ready s = r1 ++ line :: r2 -> try_enqueue_log (log s) line = Some (g, ok, signal) ->
      log_step s (State g (running s) (if signal : bool then wake (thread s) else thread s) (r1 ++ r2)
        (if ok : bool then accepted s ++ [line] else accepted s) (written s) (output s) (failed s))
  | step_spurious s :
      thread s = Waiting ->
      log_step s (State (log s) (running s) Checking (ready s) (accepted s) (written s) (output s) (failed s))
  (** [logger_shutdown] *)
  | step_shutdown s :
      log_step s (State (log s) false (wake (thread s)) (ready s) (accepted s) (written s) (output s) (failed s))
  (** [logger_thread_func] *)
  | step_round a g s :
      thread s = Checking -> logger_round (log s) (running s) = Some (a, g) ->
      log_step s (State g (running s) (pc_of a) (ready s) (accepted s) (written s) (output s) (failed s))
  | step_write batch iov answers text ok s :
      thread s = Writing batch -> iov_of (log s) batch = Some iov ->
      write_batch_iovecs answers iov = Some (text, ok) ->
      log_step s (State (log s) (running s) (Returning batch) (ready s) (accepted s) (written s ++ iov)
        (output s ++ text) (failed s || negb ok))
  | step_return batch g s :
      thread s = Returning batch -> return_batch_to_pool (log s) batch = Some g ->
      log_step s (State g (running s) Checking (ready s) (accepted s) (written s) (output s) (failed s)).

Definition start : state := State logger_init_routine true Checking [] [] [] [] false.

Definition reachable : state -> Prop := rtc log_step start.

(** The entries the logger thread has, and those it has not yet written. *)
Definition taken (t : pc) : list nat := match t with Writing b | Returning b => b | _ => [] end.
Definition unwritten (t : pc) : list nat := match t with Writing b => b | _ => [] end.

Record invariant (s : state) (free queue : list nat) : Prop := {
  i_log : represents (log s) free queue;
  i_pool : free ++ queue ++ taken (thread s) ≡ₚ seq 0 POOL_SIZE;
  i_lines : accepted s = written s ++ (line_of (log s) <$> unwritten (thread s) ++ queue);
  i_waiting : thread s = Waiting -> queue = [] /\ running s = true;
  i_exited : thread s = Exited -> running s = false;
  i_output : failed s = false -> output s = concat (written s);
  i_ready : Forall sized (ready s);
}.

Lemma pipeline_start : invariant start (seq 0 POOL_SIZE) [].
Proof.
  split; cbn [start log thread taken unwritten accepted written running failed output ready];
    [apply init_represents|by rewrite app_nil_r|done..].
Qed.

Lemma in_pool (s : state) (free queue : list nat) (e : nat) :
  invariant s free queue -> e ∈ free ++ queue ++ taken (thread s) -> (e < POOL_SIZE)%nat.
Proof. intros I. rewrite (i_pool _ _ _ I), elem_of_seq. lia. Qed.

Lemma pool_count (s : state) (free queue : list nat) :
  invariant s free queue -> (length free + length queue + length (taken (thread s)) = POOL_SIZE)%nat.
Proof.
  intros I. pose proof (Permutation_length (i_pool _ _ _ I)) as H. rewrite !length_app, length_seq in H. lia.
Qed.

Lemma pool_distinct (s : state) (free queue : list nat) :
  invariant s free queue -> NoDup (free ++ queue ++ taken (thread s)).
Proof. intros I. rewrite (i_pool _ _ _ I). apply NoDup_seq. Qed.

Lemma wake_taken (t : pc) : taken (wake t) = taken t /\ unwritten (wake t) = unwritten t.
Proof. by destruct t. Qed.

Lemma unwritten_taken (t : pc) (e : nat) : e ∈ unwritten t -> e ∈ taken t.
Proof. destruct t; cbn [unwritten taken]; try done; by intros ?%elem_of_nil. Qed.

Lemma same_lines (g g' : logger) (l : list nat) :
  g_log_buffers g' = g_log_buffers g -> line_of g' <$> l = line_of g <$> l.
Proof. intros E. unfold line_of. by rewrite E. Qed.

(** Signalling the first line and waking on shutdown keep the thread's entries. *)
Lemma woken (b : bool) (t : pc) :
  taken (if b then wake t else t) = taken t /\ unwritten (if b then wake t else t) = unwritten t
  /\ ((if b then wake t else t) = Exited -> t = Exited).
Proof. by destruct b, t. Qed.

Lemma enqueue_invariant (s : state) (free queue : list nat) line r1 r2 g ok signal :
  invariant s free queue -> ready s = r1 ++ line :: r2 -> try_enqueue_log (log s) line = Some (g, ok, signal) ->
  exists free' queue',
    invariant (State g (running s) (if signal : bool then wake (thread s) else thread s) (r1 ++ r2)
      (if ok : bool then accepted s ++ [line] else accepted s) (written s) (output s) (failed s)) free' queue'.
Proof.
  intros I Er E. pose proof (i_ready _ _ _ I) as Hr. rewrite Er in Hr.
  apply Forall_app in Hr as [Hr1 [Hl Hr2]%Forall_cons_iff].
  assert (Forall sized (r1 ++ r2)) as Hr by by apply Forall_app.
  destruct free as [|e f _] using rev_ind.
  { rewrite (enqueue_full _ _ _ (i_log _ _ _ I)) in E. injection E as <- <- <-. exists [], queue. by destruct I. }
  pose proof (pool_count _ _ _ I) as Hc. pose proof (pool_distinct _ _ _ I) as Hd. rewrite length_app in Hc.
  cbn [length] in Hc. assert (e < POOL_SIZE)%nat as He.
  { apply (in_pool _ _ _ _ I), elem_of_app. left. apply elem_of_app. right. by left. }
  destruct (enqueue_ok (log s) f queue e line (i_log _ _ _ I) He) as (g' & E' & R' & Hline & Hother);
    [lia|unfold sized in Hl; lia|]. rewrite E' in E. injection E as -> <- <-.
  apply list.NoDup_app in Hd as (_ & Hd & _). specialize (Hd e). rewrite elem_of_app in Hd.
  assert (e ∉ queue ++ taken (thread s)) as Hn by (apply Hd; right; by left).
  destruct (woken (bool_decide (queue = [])) (thread s)) as (Ht & Hu & Hx). destruct I.
  exists f, (queue ++ [e]). split; cbn [log running thread ready accepted written output failed]; try done.
  - rewrite Ht, <- i_pool0. solve_Permutation.
  - rewrite Hu, i_lines0. rewrite !fmap_app. rewrite <- !(assoc_L (++)). cbn [fmap list_fmap]. rewrite Hline.
    f_equal. f_equal; [|f_equal]; apply list_fmap_ext; intros ? e' He'%list_elem_of_lookup_2;
      symmetry; apply Hother; intros ->; apply Hn, elem_of_app; [right; by apply unwritten_taken|by left].
  - intros Hw. exfalso. destruct (thread s) eqn:Es; try (by case_bool_decide).
    destruct (i_waiting0 eq_refl) as [-> _]. by rewrite bool_decide_eq_true_2 in Hw.
  - intros Hw. by apply i_exited0, Hx.
Qed.

Lemma round_invariant (s : state) (free queue : list nat) a g :
  invariant s free queue -> thread s = Checking -> logger_round (log s) (running s) = Some (a, g) ->
  invariant (State g (running s) (pc_of a) (ready s) (accepted s) (written s) (output s) (failed s))
    free (drop BATCH_SIZE queue).
Proof.
  intros [] Et. unfold logger_round. generalize BATCH_SIZE. intros b. rewrite (r_count _ _ _ i_log0). rewrite Et in *. cbn [taken unwritten app] in *.
  destruct queue as [|e queue]; cbn [length Nat.eqb].
  - intros [= <- <-]. rewrite drop_nil. split; try done; cbn [thread log]; by destruct (running s).
  - destruct (collect_ok b _ _ _ i_log0) as (g' & -> & R' & Eb). cbn [mbind option_bind].
    intros [= <- <-]. split; cbn [log running thread ready accepted written output failed pc_of taken unwritten]; try done.
    + by rewrite <- i_pool0, app_nil_r, (comm (++) (drop _ _)), take_drop.
    + rewrite take_drop. by rewrite (same_lines _ _ _ Eb).
Qed.

Lemma write_invariant (s : state) (free queue : list nat) batch iov answers text ok :
  invariant s free queue -> thread s = Writing batch -> iov_of (log s) batch = Some iov ->
  write_batch_iovecs answers iov = Some (text, ok) ->
  invariant (State (log s) (running s) (Returning batch) (ready s) (accepted s) (written s ++ iov)
    (output s ++ text) (failed s || negb ok)) free queue.
Proof.
  intros I Et Ei Ew.
  assert (iov = line_of (log s) <$> batch) as ->.
  { rewrite (iov_ok (log s) free queue) in Ei; [by injection Ei|apply I|]. apply list.Forall_forall. intros e He.
    apply (in_pool _ _ _ _ I). rewrite Et. cbn [taken]. rewrite !elem_of_app. auto. }
  rewrite batch_robust in Ew. destruct (robust_write_prefix _ _ _ _ Ew) as [_ Hok]. destruct I.
  rewrite Et in *. cbn [taken unwritten] in *.
  split; cbn [log running thread ready accepted written output failed taken unwritten app]; try done.
  - by rewrite i_lines0, fmap_app, (assoc_L (++)).
  - intros [Hf Ho]%orb_false_iff. apply negb_false_iff in Ho. rewrite concat_app, i_output0 by done.
    by rewrite (proj1 Hok Ho).
Qed.

Lemma return_invariant (s : state) (free queue : list nat) batch g :
  invariant s free queue -> thread s = Returning batch -> return_batch_to_pool (log s) batch = Some g ->
  invariant (State g (running s) Checking (ready s) (accepted s) (written s) (output s) (failed s))
    (free ++ batch) queue.
Proof.
  intros I Et E. pose proof (pool_count _ _ _ I) as Hc. destruct I. rewrite Et in *. cbn [taken unwritten app] in *.
  destruct (return_ok batch _ _ _ i_log0) as (g' & E' & R' & Eb); [lia|]. rewrite E' in E. injection E as ->.
  split; cbn [log running thread ready accepted written output failed taken unwritten app]; try done.
  - rewrite <- i_pool0. solve_Permutation.
  - by rewrite i_lines0, (same_lines _ _ _ Eb).
Qed.

Lemma step_invariant (s s' : state) :
  log_step s s' -> (exists free queue, invariant s free queue) -> exists free queue, invariant s' free queue.
Proof.
  intros Hs (free & queue & I). destruct Hs.
  - exists free, queue. destruct I. split; [exact i_log0|exact i_pool0|exact i_lines0| | |exact i_output0|].
    + intros Hw. by destruct (i_waiting0 Hw).
    + intros Hx. specialize (i_exited0 Hx). congruence.
    + by constructor.
  - by eapply enqueue_invariant.
  - exists free, queue. destruct I. rewrite H in *.
    split; [exact i_log0|exact i_pool0|exact i_lines0|done|done|exact i_output0|exact i_ready0].
  - exists free, queue. destruct I. destruct (wake_taken (thread s)) as [Ht Hu].
    split; cbn [log running thread ready accepted written]; rewrite ?Ht, ?Hu;
      [exact i_log0|exact i_pool0|exact i_lines0|by destruct (thread s)|done|exact i_output0|exact i_ready0].
  - eexists _, _. by eapply round_invariant.
  - exists free, queue. by eapply write_invariant.
  - eexists _, queue. by eapply return_invariant.
Qed.

Lemma reachable_invariant (s : state) : reachable s -> exists free queue, invariant s free queue.
Proof.
  intros H. assert (exists free queue, invariant start free queue) as H0 by (eexists _, _; apply pipeline_start).
  induction H as [|s1 s2 s3 Hs _ IH]; [done|]. apply IH. by eapply step_invariant.
Qed.

(** A batch can be written, and its entries returned. *)
Lemma finish_batch (s : state) (free queue b : list nat) :
  invariant s free queue -> thread s = Writing b ->
  exists s', rtc log_step s s' /\ invariant s' (free ++ b) queue /\ thread s' = Checking /\ accepted s' = accepted s.
Proof.
  intros I Et.
  assert (iov_of (log s) b = Some (line_of (log s) <$> b)) as Ei.
  { apply (iov_ok (log s) free queue); [apply I|]. apply list.Forall_forall. intros x Hx. apply (in_pool _ _ _ _ I).
    rewrite Et. cbn [taken]. rewrite !elem_of_app. auto. }
  set (text := concat (line_of (log s) <$> b)).
  assert (write_batch_iovecs [Wrote (length text)] (line_of (log s) <$> b) = Some (text, true)) as Ew.
  { rewrite batch_robust. apply robust_write_ends; [|cbn [capacity]; fold text; lia].
    by intros [?|?%elem_of_nil]%elem_of_cons. }
  pose proof (write_invariant _ _ _ _ _ _ _ _ I Et Ei Ew) as I2. pose proof (pool_count _ _ _ I2) as Hc.
  destruct (return_ok b (log s) free queue) as (g & Eg & _ & _); [apply I|cbn [thread taken] in Hc; lia|].
  eexists. split; [eapply rtc_l; [by apply (step_write b _ _ _ _ s Et Ei Ew)|]; apply rtc_once;
    by apply (step_return b g (State _ _ (Returning b) _ _ _ _ _) eq_refl Eg)|].
  split; [exact (return_invariant _ _ _ _ _ I2 eq_refl Eg)|done].
Qed.

(** From any state in which the logger thread is alive it can write everything. *)
Lemma drains (n : nat) (s : state) (free queue : list nat) :
  invariant s free queue -> (length queue <= n)%nat -> thread s = Checking ->
  exists s', rtc log_step s s' /\ accepted s' = accepted s /\ written s' = accepted s.
Proof.
  revert s free queue. induction n as [|n IH]; intros s free queue I Hn Et.
  - destruct queue; [|cbn in Hn; lia]. exists s. split; [done|]. split; [done|].
    rewrite (i_lines _ _ _ I), Et. cbn [unwritten fmap list_fmap app]. by rewrite app_nil_r.
  - destruct (collect_ok BATCH_SIZE _ _ _ (i_log _ _ _ I)) as (g & Ec & _ & _).
    destruct queue as [|e queue]; [by apply (IH s free [] I ltac:(cbn; lia))|].
    assert (logger_round (log s) (running s) = Some (Flush (take BATCH_SIZE (e :: queue)), g)) as Er.
    { unfold logger_round. by rewrite (r_count _ _ _ (i_log _ _ _ I)), Ec. }
    destruct (finish_batch _ _ _ _ (round_invariant _ _ _ _ _ I Et Er) eq_refl) as (s2 & R2 & I2 & T2 & A2).
    destruct (IH s2 _ _ I2) as (s' & R & Ea & Ew); [rewrite length_drop; cbn [length] in *; unfold BATCH_SIZE; lia|done|].
    cbn [accepted] in A2. exists s'. split; [|by rewrite Ea, Ew, A2].
    eapply rtc_l; [by apply (step_round _ _ s Et Er)|]. by etrans.
Qed.

Lemma can_drain (s : state) :
  reachable s -> thread s <> Exited ->
  exists s', rtc log_step s s' /\ accepted s' = accepted s /\ written s' = accepted s.
Proof.
  intros (free & queue & I)%reachable_invariant Hx. destruct (thread s) as [| |b|b|] eqn:Et; [| | | |done].
  - by eapply (drains (length queue)).
  - exists s. split; [done|]. split; [done|]. rewrite (i_lines _ _ _ I), Et. destruct (i_waiting _ _ _ I Et) as [-> _].
    cbn [unwritten fmap list_fmap app]. by rewrite app_nil_r.
  - destruct (finish_batch _ _ _ _ I Et) as (s2 & R2 & I2 & T2 & A2).
    destruct (drains (length queue) s2 _ _ I2) as (s' & R & Ea & Ew); [done|done|].
    exists s'. split; [by etrans|]. by rewrite Ea, Ew, A2.
  - pose proof (pool_count _ _ _ I) as Hc. rewrite Et in Hc.
    destruct (return_ok b (log s) free queue) as (g & Eg & _ & _); [apply I|cbn [taken] in Hc; lia|].
    destruct (drains (length queue) _ _ _ (return_invariant _ _ _ _ _ I Et Eg)) as (s' & R & Ea & Ew); [done|done|].
    exists s'. split; [|done]. eapply rtc_l; [by apply (step_return b g s Et Eg)|done].
Qed.


(** A line is lost if its thread saw the logger run but takes the mutex only
    after the logger thread has ended: it is accepted and never written. *)
Lemma line_after_exit (line : list char) :
  sized line -> exists s, reachable s /\ thread s = Exited /\ accepted s = [line] /\ written s = [].
Proof.
  intros Hl. pose proof init_represents as R. pose proof pool_positive as HP.
  destruct (seq 0 POOL_SIZE) as [|e f _] eqn:Eq using rev_ind; [by apply (f_equal length) in Eq; rewrite length_seq in Eq; cbn in Eq; lia|].
  destruct (enqueue_ok logger_init_routine f [] e line R) as (g & E & _); [|done|unfold sized in Hl; lia|].
  { assert (e ∈ seq 0 POOL_SIZE) as [_ ?]%elem_of_seq by (rewrite Eq, elem_of_app; right; by left). lia. }
  eexists. split; [|split; [|split]].
  - eapply rtc_l; [by apply (step_check line start)|]. eapply rtc_l; [by apply step_shutdown|].
    eapply rtc_l; [by apply (step_round Quit logger_init_routine)|].
    apply rtc_once. by apply (step_enqueue line [] []).
  - reflexivity.
  - reflexivity.
  - reflexivity.
Qed.

(** A run in which lines are logged: the logger thread goes to sleep, a first line
    wakes it and a second one comes before it looks; it takes both as one batch,
    and while it writes them in two pieces a third line is queued. *)
Definition line_a : list char := lit "a" ++ ["010"%char].
Definition line_b : list char := lit "bc" ++ ["010"%char].
Definition line_c : list char := lit "d" ++ ["010"%char].

Definition the_state (r : option state) : state := default start r.

Definition enqueue (line : list char) (s : state) : option state :=
  r ← try_enqueue_log (log s) line;
  let '(g, ok, signal) := r : logger * bool * bool in
  Some (State g (running s) (if signal : bool then wake (thread s) else thread s) []
          (if ok : bool then accepted s ++ [line] else accepted s) (written s) (output s) (failed s)).

Definition look (s : state) : option state :=
  r ← logger_round (log s) (running s);
  let '(a, g) := r : action * logger in
  Some (State g (running s) (pc_of a) (ready s) (accepted s) (written s) (output s) (failed s)).

Definition write (answers : list write_result) (s : state) : option state :=
  match thread s with
  | Writing batch =>
      iov ← iov_of (log s) batch;
      r ← write_batch_iovecs answers iov;
      let '(text, ok) := r : list char * bool in
      Some (State (log s) (running s) (Returning batch) (ready s) (accepted s) (written s ++ iov)
              (output s ++ text) (failed s || negb ok))
  | _ => None
  end.

Definition asleep : option state := look start.
Definition one_line : option state := asleep ≫= enqueue line_a.
Definition two_lines : option state := one_line ≫= enqueue line_b.
Definition batch_taken : option state := two_lines ≫= look.
Definition three_lines : option state := batch_taken ≫= enqueue line_c.
Definition batch_written : option state := three_lines ≫= write [Wrote 1; Interrupted; Wrote 4].

(** What a step of the run asks of the state it starts in. *)
Definition may_enqueue (s : state) : bool := running s && match ready s with [] => true | _ => false end.
Definition may_look (s : state) : bool := match thread s with Checking => true | _ => false end.

Definition reached (m : option state) : Prop := forall s, m = Some s -> reachable s.

Lemma enqueue_reached (line : list char) (m : option state) :
  reached m -> sized line -> may_enqueue <$> m = Some true -> reached (m ≫= enqueue line).
Proof.
  intros Hm Hl. destruct m as [s|]; [|done]. intros [= Hs]. specialize (Hm s eq_refl).
  apply andb_true_iff in Hs as [Hr Er]. destruct (ready s) eqn:Ey; [clear Er|done].
  intros s'. cbn [mbind option_bind]. unfold enqueue.
  destruct (try_enqueue_log (log s) line) as [[[g ok] signal]|] eqn:E; [|done]. intros [= <-].
  eapply rtc_r; [eapply rtc_r; [exact Hm|by apply (step_check line s)]|]. rewrite Ey, <- Hr.
  exact (step_enqueue line [] [] g ok signal (State _ _ _ [line] _ _ _ _) eq_refl E).
Qed.

Lemma look_reached (m : option state) : reached m -> may_look <$> m = Some true -> reached (m ≫= look).
Proof.
  intros Hm. destruct m as [s|]; [|done]. intros [= Hs]. unfold may_look in Hs.
  destruct (thread s) eqn:Et; try discriminate.
  intros s'. cbn [mbind option_bind]. unfold look. destruct (logger_round _ _) as [[a g]|] eqn:E; [|done].
  intros [= <-]. eapply rtc_r; [exact (Hm s eq_refl)|]. by apply step_round.
Qed.

Lemma write_reached (answers : list write_result) (m : option state) : reached m -> reached (m ≫= write answers).
Proof.
  intros Hm. destruct m as [s|]; [|done]. intros s'. cbn [mbind option_bind]. unfold write.
  destruct (thread s) as [| |batch| |] eqn:Et; try done.
  destruct (iov_of (log s) batch) as [iov|] eqn:Ei; [|done]. cbn [mbind option_bind].
  destruct (write_batch_iovecs answers iov) as [[text ok]|] eqn:Ew; [|done]. intros [= <-].
  eapply rtc_r; [exact (Hm s eq_refl)|]. by apply (step_write batch iov answers).
Qed.

Lemma run_reached : reached batch_written.
Proof.
  assert (forall line, (length line <= 10)%nat -> sized line) as Hl.
  { intros line H. unfold sized, SYNC_BUF_SIZE. lia. }
  apply write_reached, (enqueue_reached line_c); [|apply Hl; cbn; lia|by vm_compute].
  apply look_reached; [|by vm_compute].
  apply (enqueue_reached line_b); [|apply Hl; cbn; lia|by vm_compute].
  apply (enqueue_reached line_a); [|apply Hl; cbn; lia|by vm_compute].
  apply (look_reached (Some start)); [|by vm_compute]. intros s [= <-]. apply rtc_refl.
Qed.

Lemma run_reachable : reachable (the_state batch_written).
Proof. destruct batch_written as [s|] eqn:E; [by apply run_reached|apply rtc_refl]. Qed.


End Pipeline.

(** ** The text of a line *)

Definition NEWLINE : char := "010"%char.

Lemma escapes_no_newline (s : cstr) : ~ NEWLINE ∈ s ≫= escape_char.
Proof.
  assert (forall c, bool_decide (~ NEWLINE ∈ escape_char c) = true) as HB by (intros c; by_all_chars c).
  intros (c & Hc & _)%list_elem_of_bind. specialize (HB c). by apply bool_decide_eq_true in HB.
Qed.

Lemma length_message (text : cstr) : (length (message text) < 2048)%nat.
Proof.
  unfold message. destruct (Z.leb_spec 2048 (Z.of_nat (length text))); [|lia].
  rewrite length_app, length_take. cbn [length]. change (length (lit "... [TRUNCATED]")) with 15%nat. lia.
Qed.

Lemma message_no_nul (text : cstr) : no_nul text -> no_nul (message text).
Proof.
  intros H. unfold message. destruct (_ <=? _)%Z; [|done]. apply no_nul_app. split; [by apply no_nul_take|].
  apply (bool_decide_unpack _). by vm_compute.
Qed.

(** The message is always encoded whole. *)
Lemma message_encoded (text : cstr) :
  json_encode (Z.to_nat 12288) (message text) = message text ≫= escape_char.
Proof. apply json_encode_full. left. pose proof (length_message text). lia. Qed.

(** The members of a line. *)
Definition line_members (level : LogLevel) (req : option cstr) (text tid : cstr) : list (cstr * flat) :=
  (lit "level", FString (level_string level) (level_string level))
  :: (match req with Some r => [(lit "reqID", FString (r ≫= escape_char) r)] | None => [] end)
  ++ [(lit "msg", FString (message text ≫= escape_char) (message text)); (lit "threadID", FString tid tid)].

(** The request id in the line: as much of it as its buffer holds. *)
Definition shown_id (request_id : cstr) (req : option cstr) : Prop :=
  match request_id, req with
  | [], None => True
  | _ :: _, Some r => r `prefix_of` request_id /\ no_nul r /\ ((length request_id <= 42)%nat -> r = request_id)
      /\ (length (r ≫= escape_char) < 256)%nat
  | _, _ => False
  end.

(** Two ways to put the same pieces together. *)
Ltac flatten :=
  unfold quoted;
  repeat match goal with |- context [level_string ?l] => generalize (level_string l); intros ? end;
  repeat match goal with |- context [message ?t ≫= ?f] => generalize (message t ≫= f); intros ? end;
  repeat first [progress rewrite <- !(assoc_L (++)) | progress simpl]; done.

Lemma line_flat (level : LogLevel) (request_id text tid : cstr) :
  no_nul request_id ->
  exists req, shown_id request_id req
    /\ line_text level request_id text tid = flat_text (line_members level req text tid) ++ [NEWLINE].
Proof.
  intros Hr. unfold line_text. rewrite message_encoded. destruct request_id as [|c r].
  - exists None. split; [done|]. unfold flat_text, line_members. cbn [app flat_members flat_value]. flatten.
  - destruct (encoded_prefix 256 (c :: r) Hr) as (t & Pt & E & Wt & Nt & _); [lia|lia|].
    pose proof (length_json_encode 256 (c :: r) ltac:(lia)) as Hl. rewrite E in *.
    exists (Some t). split; [split_and!; try done; intros; apply Wt; lia|].
    unfold flat_text, line_members. cbn [app flat_members flat_value]. generalize (t ≫= escape_char). intros. flatten.
Qed.

Section Lines.
Context `{JL : JsonCLaws}.

(** The member [key] of a document is the string [v]. *)
Definition member (o : jobj) (key : string) (v : cstr) : Prop :=
  exists x, json_object_object_get_ex (Some o) (lit key) = Some (Some x)
    /\ json_object_get_type (Some x) = json_type_string /\ json_object_get_string (Some x) = Some v.

Lemma level_plain (level : LogLevel) : plain (level_string level).
Proof. destruct level; apply (bool_decide_unpack _); by vm_compute. Qed.

Lemma members_wf (level : LogLevel) (req : option cstr) (request_id text tid : cstr) :
  shown_id request_id req -> no_nul text -> plain tid -> (length tid <= 31)%nat ->
  flat_wf (line_members level req text tid).
Proof.
  intros Hreq Ht Htid Hl.
  assert (forall k, plain (lit k) -> scans (lit k) (lit k)) as HK by (intros; by apply scans_plain).
  assert (forall v, plain v -> (length v <= 256)%nat ->
    scans v v /\ no_nul v /\ (Z.of_nat (length v) <= 2 ^ 31 - 1)%Z) as HP.
  { intros v Hv Hn. split; [by apply scans_plain|]. split; [by apply plain_no_nul|lia]. }
  assert (forall v, no_nul v -> (length v <= 2048)%nat ->
    scans (v ≫= escape_char) v /\ no_nul v /\ (Z.of_nat (length v) <= 2 ^ 31 - 1)%Z) as HE.
  { intros v Hv Hn. split; [apply scans_escape|]. split; [done|lia]. }
  assert (length (level_string level) <= 256)%nat as Hlv by (destruct level; cbn; lia).
  pose proof (length_message text) as Hm. pose proof (message_no_nul text Ht) as Hn.
  split.
  - destruct req; apply (bool_decide_unpack _); by vm_compute.
  - assert (Forall (fun k => plain (lit k)) ["level"; "reqID"; "msg"; "threadID"]%string) as Hk
      by (apply (bool_decide_unpack _); by vm_compute).
    rewrite !Forall_cons_iff in Hk. destruct Hk as (K1 & K2 & K3 & K4 & _). unfold line_members.
    constructor; [split; [by apply HK|by apply HP; [apply level_plain|]]|]. apply Forall_app. split.
    + destruct req as [r|]; [|done]. constructor; [|done]. split; [by apply HK|].
      destruct request_id; [done|]. destruct Hreq as (_ & Hr & _ & Hrl). pose proof (length_escapes r). apply HE; [done|lia].
    + constructor; [split; [by apply HK|apply HE; [done|lia]]|]. constructor; [|done].
      split; [by apply HK|apply HP; [done|lia]].
Qed.

(** The size of a line without its newline. *)
Lemma length_line (level : LogLevel) (req : option cstr) (request_id text tid : cstr) :
  shown_id request_id req -> (length tid <= 31)%nat ->
  (length (flat_text (line_members level req text tid)) <= 338 + length (message text ≫= escape_char))%nat.
Proof.
  intros Hreq Hl. assert (length (level_string level) <= 5)%nat as Hlv by (destruct level; cbn; lia).
  unfold flat_text, line_members.
  destruct req as [r|]; cbn [app flat_members flat_value]; unfold quoted;
    repeat (rewrite length_cons || rewrite length_app);
    repeat match goal with |- context [length (lit ?k)] =>
      let n := eval vm_compute in (length (lit k)) in change (length (lit k)) with n end; cbn [length].
  - destruct request_id; [done|]. destruct Hreq as (_ & _ & _ & Hr). lia.
  - lia.
Qed.

Lemma line_no_newline (level : LogLevel) (req : option cstr) (text tid : cstr) :
  plain tid -> ~ NEWLINE ∈ flat_text (line_members level req text tid).
Proof.
  intros Ht. assert (~ NEWLINE ∈ level_string level) as Hlv by (destruct level; apply (bool_decide_unpack _); by vm_compute).
  assert (~ NEWLINE ∈ tid) as Htid.
  { intros Hin. by apply (proj1 (list.Forall_forall _ _) Ht) in Hin as [_ Hin]. }
  pose proof (escapes_no_newline (message text)) as Hm.
  assert (~ NEWLINE ∈ lit "level" /\ ~ NEWLINE ∈ lit "reqID" /\ ~ NEWLINE ∈ lit "msg" /\ ~ NEWLINE ∈ lit "threadID")
    as (K1 & K2 & K3 & K4) by (apply (bool_decide_unpack _); by vm_compute).
  unfold flat_text, line_members.
  destruct req as [r|]; [pose proof (escapes_no_newline r) as Hr|]; cbn [app flat_members flat_value];
    unfold quoted; repeat (rewrite elem_of_cons || rewrite elem_of_app).
  all: intros Hin; repeat match type of Hin with _ \/ _ => destruct Hin as [Hin|Hin] end;
    first [contradiction|discriminate Hin|by apply elem_of_nil in Hin].
Qed.

(** C36: a log line is one line and one JSON document. Whatever a client puts into
    the message or the request id, the line has no newline before its end, so no
    client can forge a second line; and if the encoded message has at most 3700
    bytes, the line ends with a newline and json-c reads from it exactly the
    level, the message (or its first 2032 bytes and a note that it was cut), the
    thread, and the request id, whole up to 42 bytes. *)
Theorem log_line_roundtrip (level : LogLevel) (request_id text tid : cstr) :
  no_nul request_id -> no_nul text -> plain tid -> (length tid <= 31)%nat ->
  exists body, ~ NEWLINE ∈ body /\ log_line level request_id text tid `prefix_of` body ++ [NEWLINE]
    /\ ((length (message text ≫= escape_char) <= 3700)%nat ->
        log_line level request_id text tid = body ++ [NEWLINE]
        /\ exists o, json_tokener_parse body = Some o
             /\ member o "level" (level_string level) /\ member o "msg" (message text)
             /\ member o "threadID" tid
             /\ (request_id <> [] -> (length request_id <= 42)%nat -> member o "reqID" request_id)).
Proof.
  intros Hr Ht Htid Hl. destruct (line_flat level request_id text tid Hr) as (req & Hreq & E).
  exists (flat_text (line_members level req text tid)). unfold log_line. rewrite E.
  split; [|split].
  - by apply line_no_newline.
  - apply prefix_take.
  - intros Hm. rewrite snprintf_fits; [split; [done|]|].
    + destruct (parse_flat _ (members_wf level req request_id text tid Hreq Ht Htid Hl)) as (o & Ho & _ & Hg).
      exists o. split; [done|].
      assert (forall k raw v, (lit k, FString raw v) ∈ line_members level req text tid -> member o k v) as HM.
      { intros k raw v Hin. destruct (Hg _ _ Hin) as (x & Hx & Hv). exists x. by split. }
      split_and!; [eapply HM; by left|eapply HM, elem_of_cons; right; apply elem_of_app; right; by left|
        eapply HM, elem_of_cons; right; apply elem_of_app; right; right; by left|].
      intros Hn Hlr. destruct request_id as [|c r]; [done|]. destruct req as [t|]; [|done].
      destruct Hreq as (_ & _ & Hw & _). pose proof (Hw Hlr) as ->. eapply HM. right. by left.
    + pose proof (length_line level req request_id text tid Hreq Hl). rewrite length_app. cbn [length].
      unfold SYNC_BUF_SIZE. lia.
Qed.

End Lines.

(** ** Refused lines *)

(** A refused line of any level but INFO is written at once, whole if the writes
    succeed; a refused INFO line is counted. *)
Lemma refused_line (answers : list write_result) (level : LogLevel) (request_id text tid : cstr) (d : Z) :
  level <> LOG_LEVEL_INFO -> ~ Failed ∈ answers -> (SYNC_BUF_SIZE <= capacity answers)%nat ->
  logger_log answers level request_id text tid false d
  = Some (log_line level request_id text tid, d, match level with LOG_LEVEL_FATAL => true | _ => false end).
Proof.
  intros Hi Hf Hc. unfold logger_log. set (line := log_line level request_id text tid).
  assert (length line <= SYNC_BUF_SIZE)%nat as Hl.
  { subst line. unfold log_line, snprintf. rewrite length_take. lia. }
  destruct (Nat.ltb_spec 0 (length line)) as [|Hz]; cbn [andb negb].
  - unfold fallback_write_log. destruct level; [done|..]; by rewrite robust_write_ends by (done || lia).
  - destruct line; [done|cbn in Hz; lia].
Qed.

Lemma info_counted (answers : list write_result) (request_id text tid : cstr) (d : Z) :
  (uwrap 64 (d + 1) mod 100 <> 0)%Z -> (0 < length (log_line LOG_LEVEL_INFO request_id text tid))%nat ->
  logger_log answers LOG_LEVEL_INFO request_id text tid false d = Some ([], uwrap 64 (d + 1), false).
Proof.
  intros Hd Hl. unfold logger_log. rewrite (proj2 (Nat.ltb_lt _ _) Hl). cbn [andb negb]. unfold fallback_write_log.
  by rewrite (proj2 (Z.eqb_neq _ _) Hd).
Qed.

(** A message that encodes to more than its room in the line buffer makes a
    line without its end and without its newline. *)
Lemma long_line_cut :
  list.last (log_line LOG_LEVEL_INFO [] (replicate (Z.to_nat 2047) DQUOTE) (lit "7")) = Some DQUOTE
  /\ length (log_line LOG_LEVEL_INFO [] (replicate (Z.to_nat 2047) DQUOTE) (lit "7")) = (SYNC_BUF_SIZE - 1)%nat.
Proof. split; vm_compute; reflexivity. Qed.

(** ** Concrete applications *)

Lemma write_batch_whole_witness :
  write_batch_iovecs [Wrote 3; Interrupted; Wrote 0; Wrote 100] [lit "ab"; lit "cde"; lit "f"]
  = Some (lit "abcdef", true).
Proof.
  apply (write_batch_whole [Wrote 3; Interrupted; Wrote 0; Wrote 100] [lit "ab"; lit "cde"; lit "f"]).
  - apply (bool_decide_unpack (~ _)). by vm_compute.
  - cbn. lia.
Defined.

Lemma log_line_roundtrip_witness :
  exists o, Model.parse (lit "{`level`:`WARN`,`reqID`:`r-1`,`msg`:`a\`b`,`threadID`:`7`}") = Some o.
Proof.
  destruct (log_line_roundtrip (JL := Model.model_json_c_laws) LOG_LEVEL_WARN (lit "r-1") (lit "a`b") (lit "7"))
    as (body & _ & _ & H); [apply (bool_decide_unpack _); by vm_compute..|].
  destruct H as (E & o & Ho & _); [vm_compute; lia|]. exists o. etrans; [|exact Ho]. cbn [json_tokener_parse Model.model_json_c]. f_equal.
  apply (app_inv_tail [NEWLINE]). rewrite <- E. vm_compute. reflexivity.
Defined.

End Logger.
