(* ===== verification/DbApi.v ===== *)
(** * lib/dbapi.c: connections, statements and queries

    The first half of dbapi.c: the handles a thread keeps, the error reports and
    the query functions.  ODBC is not part of the repository: the class [Odbc]
    gives its answers, call by call, and every theorem holds for all of them.
    Using a handle that has been freed is undefined behaviour and [None], so
    that a theorem that an operation returns is also the absence of a use after
    free.  A statement handle has a state of its own, because the code keeps
    statements between queries: the parameters and columns bound to it and
    whether a cursor is open. *)

From stdpp Require Import gmap.
From S2P Require Import Prelude JsonUtil Dtoa JsonC ThreadState DbJson Config.
Import Encode Itoa ThreadState DbJson.

Module DbApi.

Inductive SQLRETURN := SQL_SUCCESS | SQL_SUCCESS_WITH_INFO | SQL_NO_DATA | SQL_ERROR.

#[export] Instance SQLRETURN_eq_dec : EqDecision SQLRETURN.
Proof. solve_decision. Defined.

Definition SQL_SUCCEEDED (r : SQLRETURN) : bool :=
  match r with SQL_SUCCESS | SQL_SUCCESS_WITH_INFO => true | _ => false end.

(** [QueryParam]: the type with what the pointer points to; the last one stands
    for a type outside the enumeration. *)
Inductive QueryParam :=
  | PARAM_STRING (value : option cstr)
  | PARAM_INT (value : option Z)
  | PARAM_DOUBLE (value : option Z)
  | PARAM_NULL
  | PARAM_UNSUPPORTED.

(** What is bound: a value, or SQL's NULL. *)
Inductive binding := BString (s : cstr) | BInt (z : Z) | BDouble (bits : Z) | BNull.

(** The indicator and the value [db_bind_param] hands to [SQLBindParameter]; an
    empty string is sent as NULL. *)
Definition binding_of (p : QueryParam) : option binding :=
  match p with
  | PARAM_STRING (Some (c :: s)) => Some (BString (c :: s))
  | PARAM_STRING _ => Some BNull
  | PARAM_INT (Some z) => Some (BInt z)
  | PARAM_INT None => Some BNull
  | PARAM_DOUBLE (Some b) => Some (BDouble b)
  | PARAM_DOUBLE None => Some BNull
  | PARAM_NULL => Some BNull
  | PARAM_UNSUPPORTED => None
  end.

(** ** Handles *)

(** The state behind a live handle. *)
Inductive hstate :=
  | Conn
  | Stmt (params : list binding) (columns : nat) (cursor : bool).

Definition clean : hstate := Stmt [] 0 false.

(** A diagnostic record. *)
Record diag := Diag { sqlState : cstr; nativeError : Z; message : cstr }.

(** The thread-local variables of dbapi.c and the driver. [tick] counts the
    calls, and [executed] lists the statements that ran, with the values given to
    their parameter markers. [refused] collects the handles of which the driver
    refused to release something, and [reported] the records that the code has
    read: the code has no such variables, the theorems speak of them. *)
Record world := World {
  tl_hdbc : list (option nat);
  tl_hstmt : list (option nat);
  live : gmap nat hstate;
  tl_err : thread_error;
  tl_last_native_error : Z;
  tl_last_error_msg : cstr;
  tick : nat;
  executed : list (cstr * list binding);
  refused : gset nat;
  reported : list diag;
}.

(** What the driver answers at each call. *)
Class Odbc := {
  new_handle : gmap nat hstate -> nat;
  answer : nat -> SQLRETURN;
  diagnostics : nat -> list diag;
}.

(** A new handle is not in use; it may have been used before. *)
Class OdbcLaws (Drv : Odbc) : Prop := {
  new_handle_fresh (m : gmap nat hstate) : m !! new_handle m = None;
  (** Messages are C strings and native codes 32-bit integers. *)
  diagnostics_text (n : nat) :
    Forall (fun r => no_nul (message r) /\ (nativeError r < 2 ^ 31)%Z) (diagnostics n);
}.

Definition MAX_DB_CONNECTIONS : nat := 4.
Definition SQL_MAX_MESSAGE_LENGTH : nat := 512.

(** ** Native JSON results *)

(** One cell of a native result: SQL's NULL or a text, whether the driver knows
    its length in advance, and the number of calls of [SQLGetData] after which it
    fails, if it does. *)
Record ncell := NCell { n_text : option (list char); n_known : bool; n_fail : option nat }.

Definition ODBC_FETCH_CHUNK_SIZE : nat := 4 * 1024.

(** [SQLGetData] into a buffer of [ODBC_FETCH_CHUNK_SIZE] bytes, for a text of
    which [rest] has not been delivered: the answer, the indicator, the bytes it
    writes and what remains. *)
Definition SQLGetData (rest : list char) (known : bool) : SQLRETURN * Z * list char * list char :=
  let room := (ODBC_FETCH_CHUNK_SIZE - 1)%nat in
  if (room <? length rest)%nat
  then (SQL_SUCCESS_WITH_INFO, if known then Z.of_nat (length rest) else SQL_NO_TOTAL,
        take room rest ++ [NUL], drop room rest)
  else (SQL_SUCCESS, Z.of_nat (length rest), rest ++ [NUL], []).

(** The loop of [fetch_json_native_col_loop] over a text; it is entered once
    more for every full chunk. *)
Fixpoint get_text (fuel : nat) (rest : list char) (known : bool) (fail : option nat)
    (out_buf : list char) (written : bool) : option (option failure * list char * bool) :=
  match fuel with
  | O => None
  | S fuel' =>
      if decide (fail = Some 0%nat)
      then Some (Some (Reported "SQLGetData failed (code -1)"), out_buf, written)
      else
        let '(r, indicator, chunk, rest) := SQLGetData rest known in
        let max_payload := (ODBC_FETCH_CHUNK_SIZE - 1)%nat in
        let bytes_to_write :=
          if bool_decide (indicator = SQL_NO_TOTAL) || (Z.of_nat max_payload <=? indicator)%Z
          then max_payload
          else if (0 <=? indicator)%Z then Z.to_nat indicator else length (c_str chunk) in
        bytes ← read_bytes chunk 0 bytes_to_write;
        let out_buf := if (0 <? bytes_to_write)%nat then out_buf ++ bytes else out_buf in
        let written := written || (0 <? bytes_to_write)%nat in
        if decide (r = SQL_SUCCESS_WITH_INFO)
        then get_text fuel' rest known (pred <$> fail) out_buf written
        else Some (None, out_buf, written)
  end.

(** [fetch_json_native_col_loop] *)
Definition fetch_json_native_col_loop (x : ncell) (out_buf : list char) (has_data_written : bool)
    : option (option failure * list char * bool) :=
  match n_text x with
  | None =>
      if decide (n_fail x = Some 0%nat)
      then Some (Some (Reported "SQLGetData failed (code -1)"), out_buf, has_data_written)
      else Some (None, if has_data_written then out_buf else out_buf ++ lit "null", true)
  | Some t => get_text (S (length t)) t (n_known x) (n_fail x) out_buf has_data_written
  end.

(** The loop of [db_fetch_json_native] over the rows, of which the first column
    is read; [complete] is whether [SQLFetch] ends with [SQL_NO_DATA]. *)
Fixpoint native_rows (xs : list ncell) (complete : bool) (out_buf : list char) (has_rows written : bool)
    : option (option failure * list char) :=
  match xs with
  | [] =>
      if complete then Some (None, if has_rows then out_buf else out_buf ++ lit "[]")
      else Some (Some (Reported "SQLFetch failed"), out_buf)
  | x :: xs' =>
      r ← fetch_json_native_col_loop x out_buf written;
      match r with
      | (Some e, out_buf, _) => Some (Some e, out_buf)
      | (None, out_buf, written) => native_rows xs' complete out_buf true written
      end
  end.

(** ** Reading a text in chunks *)

Definition room : nat := (ODBC_FETCH_CHUNK_SIZE - 1)%nat.

Lemma room_pos : (0 < room)%nat.
Proof. unfold room, ODBC_FETCH_CHUNK_SIZE. lia. Qed.

Lemma read_prefix (a b : list char) (n : nat) :
  n = length a -> read_bytes (a ++ b) 0 n = Some a.
Proof.
  intros ->. unfold read_bytes. rewrite decide_True by (rewrite length_app; lia).
  by rewrite drop_0, take_app_length.
Qed.

(** One round of the loop: a full chunk is written and the loop goes on, or the
    rest is written and it ends. *)
Lemma get_text_step (fuel : nat) (rest : list char) (known : bool) (fail : option nat)
    (out : list char) (written : bool) :
  get_text (S fuel) rest known fail out written =
    if decide (fail = Some 0%nat)
    then Some (Some (Reported "SQLGetData failed (code -1)"), out, written)
    else if (room <? length rest)%nat
    then get_text fuel (drop room rest) known (pred <$> fail) (out ++ take room rest) true
    else Some (None, out ++ rest, written || (0 <? length rest)%nat).
Proof.
  cbn [get_text]. destruct (decide (fail = Some 0%nat)); [done|]. unfold SQLGetData. fold room.
  pose proof room_pos as Hr. destruct (Nat.ltb_spec room (length rest)) as [Hl|Hl].
  - match goal with |- context [read_bytes _ 0 ?n] => assert (n = room) as -> end.
    { destruct known; [|done].
      rewrite (proj2 (Z.leb_le _ _)) by lia. by rewrite orb_true_r. }
    rewrite read_prefix by (rewrite length_take; lia). cbn [mbind option_bind].
    rewrite (proj2 (Nat.ltb_lt 0 room)) by done. by rewrite orb_true_r.
  - match goal with |- context [read_bytes _ 0 ?n] => assert (n = length rest) as -> end.
    { rewrite bool_decide_false by (unfold SQL_NO_TOTAL; lia). cbn [orb].
      destruct (Z.leb_spec (Z.of_nat room) (Z.of_nat (length rest))); [lia|].
      rewrite (proj2 (Z.leb_le _ _)) by lia. lia. }
    rewrite read_prefix by done. cbn [mbind option_bind]. destruct rest; [|done].
    by rewrite app_nil_r.
Qed.

Lemma get_text_total (fuel : nat) (rest : list char) (known : bool) (fail : option nat)
    (out : list char) (written : bool) :
  (length rest < fuel)%nat -> exists r, get_text fuel rest known fail out written = Some r.
Proof.
  revert rest fail out written. induction fuel as [|fuel IH]; intros rest fail out written Hl; [lia|].
  rewrite get_text_step. case_decide; [by eexists|].
  destruct (Nat.ltb_spec room (length rest)); [|by eexists]. apply IH. rewrite length_drop.
  pose proof room_pos. lia.
Qed.

Lemma get_text_whole (fuel : nat) (rest : list char) (known : bool) (out : list char) (written : bool) :
  (length rest < fuel)%nat ->
  get_text fuel rest known None out written
  = Some (None, out ++ rest, written || (0 <? length rest)%nat).
Proof.
  revert rest out written. induction fuel as [|fuel IH]; intros rest out written Hl; [lia|].
  pose proof room_pos. rewrite get_text_step, decide_False by done.
  destruct (Nat.ltb_spec room (length rest)); [|done]. cbn [fmap option_fmap option_map].
  rewrite IH by (rewrite length_drop; lia). rewrite <- (assoc_L (++)), take_drop.
  rewrite (proj2 (Nat.ltb_lt 0 (length rest))) by lia. by rewrite orb_true_r.
Qed.

Lemma native_rows_total (xs : list ncell) (complete : bool) (out : list char) (has_rows written : bool) :
  exists r, native_rows xs complete out has_rows written = Some r.
Proof.
  revert out has_rows written. induction xs as [|x xs IH]; intros out has_rows written; cbn [native_rows].
  { destruct complete; by eexists. }
  assert (exists r, fetch_json_native_col_loop x out written = Some r) as [[[e o] b] ->].
  { unfold fetch_json_native_col_loop. destruct (n_text x) as [t|].
    - apply get_text_total. lia.
    - case_decide; by eexists. }
  cbn [mbind option_bind]. destruct e; [by eexists|apply IH].
Qed.

(** The text of a native result: the cells one after the other, and [null] for
    the first NULL before any data. *)
Fixpoint native_body (cells : list (option (list char))) (written : bool) : list char :=
  match cells with
  | [] => []
  | None :: cells' => (if written then [] else lit "null") ++ native_body cells' true
  | Some t :: cells' => t ++ native_body cells' (written || (0 <? length t)%nat)
  end.

Definition native_text (cells : list (option (list char))) : list char :=
  match cells with [] => lit "[]" | _ => native_body cells false end.

Lemma native_rows_body (xs : list ncell) (out : list char) (written : bool) :
  Forall (fun x => n_fail x = None) xs ->
  native_rows xs true out true written = Some (None, out ++ native_body (n_text <$> xs) written).
Proof.
  intros H. revert out written. induction H as [|x xs Hx _ IH]; intros out written; cbn [native_rows].
  { by rewrite app_nil_r. }
  rewrite fmap_cons. unfold fetch_json_native_col_loop. rewrite Hx. cbn [native_body].
  destruct (n_text x) as [t|].
  - rewrite get_text_whole by lia. cbn [mbind option_bind]. by rewrite IH, <- (assoc_L (++)).
  - rewrite decide_False by done. cbn [mbind option_bind]. rewrite IH.
    destruct written; by rewrite <- ?(assoc_L (++)).
Qed.

(** C32: a native JSON result arrives whole. Whatever the lengths of the cells,
    whether or not the driver knows them in advance, and however many chunks of
    4096 bytes they take, reading them leaves in the output exactly the
    characters of the cells in their order (an empty array for no rows, [null]
    for a NULL before any data): the loop ends, no byte of the chunk's
    terminator gets in and none is lost at the boundary. *)
Theorem native_json_whole (xs : list ncell) (out : list char) :
  Forall (fun x => n_fail x = None) xs ->
  native_rows xs true out false false = Some (None, out ++ native_text (n_text <$> xs)).
Proof.
  intros H. destruct xs as [|x xs]; [done|].
  change (native_text (n_text <$> x :: xs)) with (native_body (n_text <$> x :: xs) false).
  by rewrite <- (native_rows_body (x :: xs) out false H).
Qed.

Section Queries.
Context `{Drv : Odbc} (cfg : Config.config).

(** ** Operations on the world *)

Definition M (A : Type) : Type := world -> option (A * world).

#[local] Instance M_ret : MRet M := fun A a w => Some (a, w).
#[local] Instance M_bind : MBind M := fun A B k m w =>
  match m w with Some (a, w') => k a w' | None => None end.

Definition fault {A} : M A := fun _ => None.

Definition get : M world := fun w => Some (w, w).

Definition set_hdbc (i : nat) (h : option nat) : M unit := fun w =>
  Some (tt, World (<[i := h]> (tl_hdbc w)) (tl_hstmt w) (live w) (tl_err w) (tl_last_native_error w)
              (tl_last_error_msg w) (tick w) (executed w) (refused w) (reported w)).
Definition set_hstmt (i : nat) (h : option nat) : M unit := fun w =>
  Some (tt, World (tl_hdbc w) (<[i := h]> (tl_hstmt w)) (live w) (tl_err w) (tl_last_native_error w)
              (tl_last_error_msg w) (tick w) (executed w) (refused w) (reported w)).
Definition set_live (m : gmap nat hstate) : M unit := fun w =>
  Some (tt, World (tl_hdbc w) (tl_hstmt w) m (tl_err w) (tl_last_native_error w)
              (tl_last_error_msg w) (tick w) (executed w) (refused w) (reported w)).
Definition set_error (e : thread_error) : M unit := fun w =>
  Some (tt, World (tl_hdbc w) (tl_hstmt w) (live w) e (tl_last_native_error w)
              (tl_last_error_msg w) (tick w) (executed w) (refused w) (reported w)).
Definition set_native (n : Z) (msg : cstr) : M unit := fun w =>
  Some (tt, World (tl_hdbc w) (tl_hstmt w) (live w) (tl_err w) n msg (tick w) (executed w)
              (refused w) (reported w)).
Definition log_query (q : cstr) (ps : list binding) : M unit := fun w =>
  Some (tt, World (tl_hdbc w) (tl_hstmt w) (live w) (tl_err w) (tl_last_native_error w)
              (tl_last_error_msg w) (tick w) (executed w ++ [(q, ps)]) (refused w) (reported w)).
Definition refuse (h : nat) : M unit := fun w =>
  Some (tt, World (tl_hdbc w) (tl_hstmt w) (live w) (tl_err w) (tl_last_native_error w)
              (tl_last_error_msg w) (tick w) (executed w) ({[h]} ∪ refused w) (reported w)).

(** What [SQLGetDiagRec] delivers for the last call: the records, one by one. *)
Definition read_records : M (list diag) := fun w =>
  Some (diagnostics (tick w),
    World (tl_hdbc w) (tl_hstmt w) (live w) (tl_err w) (tl_last_native_error w)
      (tl_last_error_msg w) (tick w) (executed w) (refused w) (reported w ++ diagnostics (tick w))).

(** A call into the driver that concerns the handle: it must be live. *)
Definition call (h : nat) : M SQLRETURN := fun w =>
  match live w !! h with
  | Some _ => Some (answer (tick w),
      World (tl_hdbc w) (tl_hstmt w) (live w) (tl_err w) (tl_last_native_error w)
        (tl_last_error_msg w) (S (tick w)) (executed w) (refused w) (reported w))
  | None => None
  end.

(** [SQLFreeHandle]: the driver may refuse, and then the handle stays valid. The
    code never looks at the answer. *)
Definition SQLFreeHandle (h : nat) : M unit :=
  r ← call h;
  w ← get;
  if SQL_SUCCEEDED r then set_live (delete h (live w)) else refuse h.

(** [SQLAllocHandle] for a handle in the state [s]; the parent, if it is not the
    environment, must be live. *)
Definition advance : M SQLRETURN := fun w =>
  Some (answer (tick w),
    World (tl_hdbc w) (tl_hstmt w) (live w) (tl_err w) (tl_last_native_error w)
      (tl_last_error_msg w) (S (tick w)) (executed w) (refused w) (reported w)).

Definition SQLAllocHandle (parent : option nat) (s : hstate) : M (option nat) :=
  r ← (match parent with Some p => call p | None => advance end);
  if SQL_SUCCEEDED r then
    w ← get;
    set_live (<[new_handle (live w) := s]> (live w));; mret (Some (new_handle (live w)))
  else mret None.

(** A change of the state of a statement, if the driver accepts the call. *)
Definition on_stmt (h : nat) (f : list binding -> nat -> bool -> hstate) : M SQLRETURN :=
  r ← call h;
  w ← get;
  match live w !! h with
  | Some (Stmt ps cols cur) =>
      (if SQL_SUCCEEDED r then set_live (<[h := f ps cols cur]> (live w)) else mret tt);; mret r
  | _ => fault
  end.

(** [SQLFreeStmt], by what it does to the state if the driver accepts the call;
    the code never looks at the answer. *)
Definition SQLFreeStmt (h : nat) (f : list binding -> nat -> bool -> hstate) : M unit :=
  r ← call h;
  w ← get;
  match live w !! h with
  | Some (Stmt ps cols cur) =>
      if SQL_SUCCEEDED r then set_live (<[h := f ps cols cur]> (live w)) else refuse h
  | _ => fault
  end.

Definition SQL_CLOSE (ps : list binding) (cols : nat) (cur : bool) : hstate := Stmt ps cols false.
Definition SQL_RESET_PARAMS (ps : list binding) (cols : nat) (cur : bool) : hstate := Stmt [] cols cur.
Definition SQL_UNBIND (ps : list binding) (cols : nat) (cur : bool) : hstate := Stmt ps 0 cur.

(** ** The operations of dbapi.c *)

Definition slot (l : list (option nat)) (i : nat) : option nat := default None (l !! i).

(** [db_reset_connection] *)
Definition db_reset_connection (db_id : nat) : M unit :=
  if (MAX_DB_CONNECTIONS <=? db_id)%nat then mret tt else
  w ← get;
  (match slot (tl_hstmt w) db_id with
   | Some h => SQLFreeHandle h;; set_hstmt db_id None
   | None => mret tt
   end);;
  w ← get;
  match slot (tl_hdbc w) db_id with
  | Some h => call h;; SQLFreeHandle h;; set_hdbc db_id None
  | None => mret tt
  end.

(** [while ( *clean_msg == ' ') clean_msg++] *)
Fixpoint skip_blanks (s : cstr) : cstr :=
  match s with
  | c :: s' => if decide (c = " "%char) then skip_blanks s' else s
  | [] => []
  end.

(** [clean_odbc_error_message]; each round removes at least one character. *)
Fixpoint clean_loop (fuel : nat) (msg : cstr) : cstr :=
  match fuel, msg with
  | S fuel', c :: _ =>
      if decide (c = "["%char) then
        match strchr msg "]"%char with
        | Some (_, rest) => clean_loop fuel' (skip_blanks rest)
        | None => msg
        end
      else msg
  | _, _ => msg
  end.
Definition clean_odbc_error_message (msg : cstr) : cstr := clean_loop (length msg) msg.

(** The loop over the records: the last application error, the message and
    whether the connection is lost. [offset] counts what [snprintf] would have
    written. *)
Record summary := Summary {
  s_native : option (Z * cstr);
  full_msg : cstr;
  offset : nat;
  is_disconnect : bool;
}.

(** The buffers that [SQLGetDiagRec] fills. *)
Definition diag_state (r : diag) : cstr := snprintf 6 (sqlState r).
Definition diag_msg (r : diag) : cstr := snprintf SQL_MAX_MESSAGE_LENGTH (message r).

Definition add_record (s : summary) (r : diag) : summary := {|
  s_native := if (50000 <=? nativeError r)%Z
              then Some (nativeError r,
                         snprintf SQL_MAX_MESSAGE_LENGTH (clean_odbc_error_message (diag_msg r)))
              else s_native s;
  full_msg := if (offset s <? 1023)%nat
              then full_msg s ++ snprintf (1024 - offset s)
                     (lit "[" ++ diag_state r ++ lit "] " ++ diag_msg r ++ lit "; ")
              else full_msg s;
  offset := if (offset s <? 1023)%nat
            then (offset s + length (lit "[" ++ diag_state r ++ lit "] " ++ diag_msg r ++ lit "; "))%nat
            else offset s;
  is_disconnect := is_disconnect s
    || bool_decide (diag_state r = lit "08S01") || bool_decide (diag_state r = lit "08003");
|}.

(** [db_set_error] for a handle, or for the environment. *)
Definition db_set_error (db_id : nat) (handle : option nat) (context_msg : string) : M unit :=
  records ← read_records;
  (match handle with Some h => call h;; mret tt | None => mret tt end);;
  let s := fold_left add_record records (Summary None [] 0 false) in
  (match s_native s with Some (n, msg) => set_native n msg | None => mret tt end);;
  match records with
  | [] => set_error (set_thread_error TL_ERR_ERROR (lit context_msg ++ lit " | Unknown ODBC Error"))
  | _ =>
      set_error (set_thread_error TL_ERR_ERROR (lit context_msg ++ lit " | ODBC Error: " ++ full_msg s));;
      if is_disconnect s then
        set_error (set_thread_error TL_ERR_ERROR
          (lit "Database connection lost. Resetting thread-local connection pool."));;
        db_reset_connection db_id
      else mret tt
  end.

(** [SQLAllocHandle(SQL_HANDLE_DBC, env, &tl_hdbc[db_id])] *)
Definition alloc_hdbc (db_id : nat) : M (option nat) :=
  h ← SQLAllocHandle None Conn; set_hdbc db_id h;; mret h.

(** [db_connect] *)
Definition db_connect (db_id : nat) : M (option nat) :=
  if (MAX_DB_CONNECTIONS <=? db_id)%nat then mret None else
  w ← get;
  match slot (tl_hdbc w) db_id with
  | Some h => mret (Some h)
  | None =>
      match Config.config_get_odbc_conn_str cfg (Z.of_nat db_id) with
      | [] =>
          set_error (set_thread_error TL_ERR_ERROR
            (lit "Attempted to connect to unconfigured database DB_" ++ dec_text (Z.of_nat db_id)));;
          mret None
      | _ =>
          h ← alloc_hdbc db_id;
          match h with
          | None =>
              db_set_error db_id None "Failed to allocate ODBC connection handle";; mret None
          | Some h =>
              (* the two timeouts and SQLDriverConnect *)
              call h;; call h;;
              r ← call h;
              if SQL_SUCCEEDED r then mret (Some h)
              else
                db_set_error db_id (Some h) "Failed to connect to database";;
                db_reset_connection db_id;; mret None
          end
      end
  end.

(** [db_alloc_stmt] *)
Definition db_alloc_stmt (db_id : nat) (hdbc : nat) : M (option nat) :=
  if (MAX_DB_CONNECTIONS <=? db_id)%nat then mret None else
  w ← get;
  match slot (tl_hstmt w) db_id with
  | Some h => mret (Some h)
  | None =>
      h ← SQLAllocHandle (Some hdbc) clean;
      match h with
      | None =>
          db_set_error db_id (Some hdbc) "Failed to allocate ODBC statement handle";;
          db_reset_connection db_id;; mret None
      | Some h => call h;; set_hstmt db_id (Some h);; mret (Some h)
      end
  end.

(** [db_is_valid_stmt] *)
Definition db_is_valid_stmt (w : world) (h : option nat) : bool :=
  match h with
  | None => false
  | Some h => existsb (fun i => bool_decide (slot (tl_hstmt w) i = Some h)) (seq 0 MAX_DB_CONNECTIONS)
  end.

(** [db_cleanup_stmt] *)
Definition db_cleanup_stmt (stmt : option nat) : M unit :=
  w ← get;
  match stmt with
  | Some h =>
      if db_is_valid_stmt w stmt
      then SQLFreeStmt h SQL_CLOSE;; SQLFreeStmt h SQL_RESET_PARAMS;; SQLFreeStmt h SQL_UNBIND
      else mret tt
  | None => mret tt
  end.

(** [SQLBindParameter] for the parameter [k], counted from 0: what was bound to it
    before is replaced. *)
Definition SQLBindParameter (h : nat) (k : nat) (b : binding) : M SQLRETURN :=
  on_stmt h (fun ps cols cur => Stmt (take k ps ++ [b] ++ drop (S k) ps) cols cur).

(** [db_bind_param] *)
Definition db_bind_param (db_id : nat) (h : nat) (k : nat) (p : QueryParam) : M bool :=
  match binding_of p with
  | None => db_set_error db_id (Some h) "Unsupported parameter type";; mret false
  | Some b =>
      r ← SQLBindParameter h k b;
      if SQL_SUCCEEDED r then mret true
      else db_set_error db_id (Some h) "Failed to bind parameter";; mret false
  end.

Fixpoint bind_params (db_id : nat) (h : nat) (k : nat) (params : list QueryParam) : M bool :=
  match params with
  | [] => mret true
  | p :: params' =>
      ok ← db_bind_param db_id h k p;
      if ok : bool then bind_params db_id h (S k) params' else mret false
  end.

(** [db_prepare_and_bind]: the answer and the statement *)
Definition db_prepare_and_bind (db_id : nat) (params : list QueryParam) : M (bool * option nat) :=
  hdbc ← db_connect db_id;
  match hdbc with
  | None => mret (false, None)
  | Some hdbc =>
      hstmt ← db_alloc_stmt db_id hdbc;
      match hstmt with
      | None => mret (false, None)
      | Some h => ok ← bind_params db_id h 0 params; mret (ok, Some h)
      end
  end.

(** The parameter markers of a statement: the question marks outside of the
    quoted literals. *)
Fixpoint markers (quoted : bool) (q : cstr) : nat :=
  match q with
  | [] => 0%nat
  | c :: q' =>
      if decide (c = "'"%char) then markers (negb quoted) q'
      else if decide (c = "?"%char) then ((if quoted then 0 else 1) + markers quoted q')%nat
      else markers quoted q'
  end.
Definition placeholders (q : cstr) : nat := markers false q.

(** [SQLExecDirect]: every marker of the query gets the parameter that is bound
    to its position. *)
Definition SQLExecDirect (h : nat) (query : cstr) : M SQLRETURN :=
  w ← get;
  match live w !! h with
  | Some (Stmt ps _ _) =>
      log_query query (take (placeholders query) ps);; on_stmt h (fun ps cols _ => Stmt ps cols true)
  | _ => fault
  end.

(** [metadata_destroy] *)
Definition metadata_destroy (h : nat) : M unit :=
  w ← get; if db_is_valid_stmt w (Some h) then SQLFreeStmt h SQL_UNBIND else mret tt.

Definition fetch_cb : Type := nat -> nat -> list char -> M (bool * list char).

(** [db_execute_and_fetch] *)
Definition db_execute_and_fetch (db_id : nat) (query : cstr) (params : list QueryParam)
    (fetch : fetch_cb) (out_buf : list char) : M (bool * list char) :=
  set_native 0 [];;
  r ← db_prepare_and_bind db_id params;
  let '(ok, hstmt) := r : bool * option nat in
  r ← (match ok, hstmt with
        | true, Some h =>
            r ← SQLExecDirect h query;
            if SQL_SUCCEEDED r then fetch db_id h out_buf
            else db_set_error db_id (Some h) "Failed to execute SQLExecDirect";; mret (false, out_buf)
        | _, _ => mret (false, out_buf)
        end);
  let '(ok, out_buf) := r : bool * list char in
  w ← get;
  let out_buf :=
    if negb ok && (50000 <=? tl_last_native_error w)%Z then
      match evbuffer_append_escaped_str
              (snprintf 128 (lit "{`error-code`:" ++ dec_text (tl_last_native_error w)
                             ++ lit ",`description`:"))
              (tl_last_error_msg w) (length (tl_last_error_msg w)) with
      | Some text => text ++ lit "}"
      | None => []
      end
    else out_buf in
  db_cleanup_stmt hstmt;;
  mret (ok, out_buf).

(** ** The fetch callbacks *)

(** The answer of a fetch: a failure that is to be reported is reported. *)
Definition finish (db_id h : nat) (r : option (option failure * list char)) : M (bool * list char) :=
  match r with
  | None => fault
  | Some (None, out_buf) => mret (true, out_buf)
  | Some (Some Silent, out_buf) => mret (false, out_buf)
  | Some (Some (Reported msg), out_buf) => db_set_error db_id (Some h) msg;; mret (false, out_buf)
  end.

(** [db_fetch_json_native] *)
Definition db_fetch_json_native (xs : list ncell) (complete : bool) : fetch_cb :=
  fun db_id h out_buf => call h;; finish db_id h (native_rows xs complete out_buf false false).

Context (num_buf : list char) (mem : Z -> option (list char)).

(** [fetch_resultset_array]: the columns of the set are bound to the statement,
    and unbound again at the end. *)
Definition fetch_set (rs : resultset) (write_brackets : bool) : fetch_cb := fun db_id h out_buf =>
  w ← get;
  match live w !! h with
  | Some (Stmt ps cols cur) =>
      set_live (<[h := Stmt ps (Nat.max cols (length (columns rs))) cur]> (live w));;
      call h;;
      r ← finish db_id h (fetch_resultset_array num_buf mem rs out_buf write_brackets);
      (if counted rs && negb (length (columns rs) =? 0)%nat then metadata_destroy h else mret tt);;
      mret r
  | _ => fault
  end.

(** [db_fetch_rs2json] *)
Definition db_fetch_rs2json (rs : resultset) : fetch_cb := fetch_set rs true.

(** The loop of [db_fetch_jsonm_native]; [last_ok] is whether the last
    [SQLMoreResults] answers [SQL_NO_DATA]. *)
Fixpoint jsonm_loop (sets : list resultset) (last_ok : bool) (rs_index : Z) (has_resultset : bool)
    (db_id h : nat) (out_buf : list char) : M (bool * list char) :=
  match sets with
  | [] =>
      if last_ok then mret (true, out_buf ++ if has_resultset then lit "}" else lit "[]")
      else db_set_error db_id (Some h) "SQLMoreResults failed";; mret (false, out_buf)
  | rs :: sets' =>
      if (0 <? length (columns rs))%nat then
        match fast_itoa rs_index (Some (take 32 num_buf)) 32 with
        | Some (Some digits, len) =>
            let out_buf := out_buf ++ (if has_resultset then lit "," else lit "{") ++ lit "`r"
                           ++ take (Z.to_nat len) digits ++ lit "`:[" in
            r ← fetch_set rs false db_id h out_buf;
            let '(ok, out_buf) := r : bool * list char in
            if ok : bool then
              call h;; jsonm_loop sets' last_ok (rs_index + 1) true db_id h (out_buf ++ lit "]")
            else mret (false, out_buf)
        | _ => fault
        end
      else call h;; jsonm_loop sets' last_ok rs_index has_resultset db_id h out_buf
  end.

(** [db_fetch_jsonm_native] *)
Definition db_fetch_jsonm_native (sets : list resultset) (last_ok : bool) : fetch_cb :=
  fun db_id h out_buf => call h;; jsonm_loop sets last_ok 1 false db_id h out_buf.

(** ** The public functions *)

Definition db_get_json (db_id : nat) (query : cstr) (params : list QueryParam)
    (xs : list ncell) (complete : bool) (out_buf : list char) : M (bool * list char) :=
  db_execute_and_fetch db_id query params (db_fetch_json_native xs complete) out_buf.

Definition db_get_rs2json (db_id : nat) (query : cstr) (params : list QueryParam)
    (rs : resultset) (out_buf : list char) : M (bool * list char) :=
  db_execute_and_fetch db_id query params (db_fetch_rs2json rs) out_buf.

Definition db_get_rs2json_m (db_id : nat) (query : cstr) (params : list QueryParam)
    (sets : list resultset) (last_ok : bool) (out_buf : list char) : M (bool * list char) :=
  db_execute_and_fetch db_id query params (db_fetch_jsonm_native sets last_ok) out_buf.

(** The type of an output column; the last one is outside the enumeration. *)
Inductive OutParam := OUT_STRING | OUT_INT | OUT_DOUBLE | OUT_UNSUPPORTED.

(** The loop of [db_query_single_row] that binds the columns. *)
Fixpoint bind_outputs (db_id h : nat) (k : nat) (outs : list OutParam) : M bool :=
  match outs with
  | [] => mret true
  | OUT_UNSUPPORTED :: _ =>
      db_set_error db_id (Some h) "Unsupported output parameter type";; mret false
  | _ :: outs' =>
      r ← on_stmt h (fun ps cols cur => Stmt ps (Nat.max cols (S k)) cur);
      if SQL_SUCCEEDED r then bind_outputs db_id h (S k) outs'
      else db_set_error db_id (Some h) "Failed to bind output column";; mret false
  end.

(** [SQLExecDirect] where no row is a success too. *)
Definition execute (db_id h : nat) (query : cstr) : M bool :=
  r ← SQLExecDirect h query;
  if SQL_SUCCEEDED r || bool_decide (r = SQL_NO_DATA) then mret true
  else db_set_error db_id (Some h) "Failed to execute query";; mret false.

(** [db_query_single_row]: the answer and [found]. *)
Definition db_query_single_row (db_id : nat) (query : cstr) (in_params : list QueryParam)
    (outs : list OutParam) : M (bool * bool) :=
  r ← db_prepare_and_bind db_id in_params;
  let '(ok, hstmt) := r : bool * option nat in
  answer ← (match ok, hstmt with
       | true, Some h =>
           ok ← bind_outputs db_id h 0 outs;
           if negb ok then mret (false, false) else
           ok ← execute db_id h query;
           if negb ok then mret (false, false) else
           r ← call h;
           match r with
           | SQL_NO_DATA => mret (true, false)
           | SQL_ERROR => db_set_error db_id (Some h) "Failed to fetch row";; mret (false, false)
           | SQL_SUCCESS_WITH_INFO =>
               db_set_error db_id (Some h) "Fetch completed with info (possible truncation)";;
               mret (false, false)
           | SQL_SUCCESS => mret (true, true)
           end
       | _, _ => mret (false, false)
       end);
  db_cleanup_stmt hstmt;;
  mret answer.

(** [db_exec] *)
Definition db_exec (db_id : nat) (query : option cstr) (in_params : list QueryParam) : M bool :=
  match query with
  | None => mret false
  | Some query =>
      r ← db_prepare_and_bind db_id in_params;
      let '(ok, hstmt) := r : bool * option nat in
      answer ← (match ok, hstmt with
           | true, Some h => execute db_id h query
           | _, _ => mret false
           end);
      db_cleanup_stmt hstmt;;
      mret answer
  end.

(** [tl_hdbc_destructor]: what a thread does when it ends *)
Definition tl_hdbc_destructor : M unit :=
  db_reset_connection 0;; db_reset_connection 1;; db_reset_connection 2;; db_reset_connection 3.

(** ** Handles are safe *)

(** [m] returns from every world in [P], and then [Q] holds. *)
Definition safe {A} (P : world -> Prop) (m : M A) (Q : A -> world -> Prop) : Prop :=
  forall w, P w -> exists a w', m w = Some (a, w') /\ Q a w'.

Lemma safe_bind {A B} (P : world -> Prop) (m : M A) (k : A -> M B) Q R :
  safe P m Q -> (forall a, safe (Q a) (k a) R) -> safe P (m ≫= k) R.
Proof.
  intros Hm Hk w Hw. destruct (Hm w Hw) as (a & w1 & E & Hq). destruct (Hk a w1 Hq) as (b & w2 & E2 & Hr).
  exists b, w2. split; [|done]. unfold mbind, M_bind. by rewrite E.
Qed.

Lemma safe_ret {A} (P : world -> Prop) (a : A) (Q : A -> world -> Prop) :
  (forall w, P w -> Q a w) -> safe P (mret a) Q.
Proof. intros H w Hw. exists a, w. split; [done|by apply H]. Qed.

Lemma safe_weaken {A} (P P' : world -> Prop) (m : M A) (Q Q' : A -> world -> Prop) :
  safe P' m Q' -> (forall w, P w -> P' w) -> (forall a w, Q' a w -> Q a w) -> safe P m Q.
Proof.
  intros H HP HQ w Hw. destruct (H w (HP w Hw)) as (a & w' & E & Hq). exists a, w'. auto.
Qed.

Lemma safe_get {B} (P : world -> Prop) (k : world -> M B) (R : B -> world -> Prop) :
  (forall w0, P w0 -> safe (fun w => w = w0) (k w0) R) -> safe P (get ≫= k) R.
Proof. intros H w Hw. apply (H w Hw w eq_refl). Qed.

Lemma safe_if {A} (b : bool) (P : world -> Prop) (m1 m2 : M A) (Q : A -> world -> Prop) :
  (b = true -> safe P m1 Q) -> (b = false -> safe P m2 Q) -> safe P (if b then m1 else m2) Q.
Proof. destruct b; auto. Qed.

Lemma safe_ex {A X} (P : X -> world -> Prop) (m : M A) (Q : A -> world -> Prop) :
  (forall x, safe (P x) m Q) -> safe (fun w => exists x, P x w) m Q.
Proof. intros H w [x Hw]. by apply (H x). Qed.

Lemma safe_pure {A} (F : Prop) (P : world -> Prop) (m : M A) (Q : A -> world -> Prop) :
  (F -> safe P m Q) -> safe (fun w => F /\ P w) m Q.
Proof. intros H w [HF Hw]. by apply H. Qed.

(** The handles of the tables are live, each is there once, and a statement
    belongs to a connection; every other live handle is one the driver refused to
    free, and every statement but the one in use is clean, unless the driver
    refused to reset it. *)
Record inv (busy : option nat) (w : world) : Prop := {
  inv_hdbc_length : length (tl_hdbc w) = MAX_DB_CONNECTIONS;
  inv_hstmt_length : length (tl_hstmt w) = MAX_DB_CONNECTIONS;
  inv_conn i h : tl_hdbc w !! i = Some (Some h) -> live w !! h = Some Conn;
  inv_stmt i h : tl_hstmt w !! i = Some (Some h) -> exists ps c b, live w !! h = Some (Stmt ps c b);
  inv_owned h : is_Some (live w !! h) ->
    h ∈ refused w \/ exists i, tl_hdbc w !! i = Some (Some h) \/ tl_hstmt w !! i = Some (Some h);
  inv_conn_once i j h :
    tl_hdbc w !! i = Some (Some h) -> tl_hdbc w !! j = Some (Some h) -> i = j;
  inv_stmt_once i j h :
    tl_hstmt w !! i = Some (Some h) -> tl_hstmt w !! j = Some (Some h) -> i = j;
  inv_parent i h : tl_hstmt w !! i = Some (Some h) -> exists c, tl_hdbc w !! i = Some (Some c);
  inv_clean h s : live w !! h = Some s -> s = Conn \/ s = clean \/ Some h = busy \/ h ∈ refused w;
}.

(** Worlds that differ in the error variables and the clock alone. *)
Definition same (w w' : world) : Prop :=
  tl_hdbc w' = tl_hdbc w /\ tl_hstmt w' = tl_hstmt w /\ live w' = live w /\ executed w' = executed w
  /\ refused w' = refused w.

(** The invariant with the statements that have run so far. *)
Definition st (busy : option nat) (E : list (cstr * list binding)) (w : world) : Prop :=
  inv busy w /\ executed w = E.

(** The statement [h] is the one of [db_id]. *)
Definition at_stmt (busy : option nat) E (db_id h : nat) (w : world) : Prop :=
  st busy E w /\ tl_hstmt w !! db_id = Some (Some h).

Lemma st_same busy E (w w' : world) : same w w' -> st busy E w -> st busy E w'.
Proof.
  intros (E1 & E2 & E3 & E4 & E5) [[] He]. split; [|by rewrite E4].
  split; rewrite ?E1, ?E2, ?E3, ?E5 in *; done.
Qed.

Lemma inv_dirty busy w : inv None w -> inv busy w.
Proof. intros []. split; try done. intros h s Hs. destruct (inv_clean0 h s Hs) as [|[|[|]]]; auto; done. Qed.

Definition stable (P : world -> Prop) : Prop := forall w w', same w w' -> P w -> P w'.

Lemma stable_st busy E : stable (st busy E).
Proof. intros w w'. apply st_same. Qed.

Lemma stable_at busy E i h : stable (at_stmt busy E i h).
Proof.
  intros w w' Hs [H1 H2]. split; [by eapply st_same|]. destruct Hs as (_ & -> & _). done.
Qed.

Lemma stable_and (P Q : world -> Prop) : stable P -> stable Q -> stable (fun w => P w /\ Q w).
Proof. intros HP HQ w w' Hs [? ?]. split; [by eapply HP|by eapply HQ]. Qed.

Lemma stable_live h s : stable (fun w => live w !! h = Some s).
Proof. intros w w' (_ & _ & -> & _). done. Qed.

Lemma stable_conn i h : stable (fun w => tl_hdbc w !! i = Some (Some h)).
Proof. intros w w' (-> & _). done. Qed.

#[local] Hint Resolve stable_st stable_at stable_and stable_live stable_conn : apiserver.

Lemma call_safe (P : world -> Prop) (h : nat) :
  stable P -> (forall w, P w -> is_Some (live w !! h)) -> safe P (call h) (fun _ => P).
Proof.
  intros Hs Hl w Hw. unfold call. destruct (Hl w Hw) as [s ->]. eexists _, _. split; [done|].
  by apply (Hs w).
Qed.

Lemma advance_safe (P : world -> Prop) : stable P -> safe P advance (fun _ => P).
Proof. intros Hs w Hw. eexists _, _. split; [done|]. by apply (Hs w). Qed.

Lemma set_error_safe (P : world -> Prop) e : stable P -> safe P (set_error e) (fun _ => P).
Proof. intros Hs w Hw. eexists _, _. split; [done|]. by apply (Hs w). Qed.

Lemma set_native_safe (P : world -> Prop) n m : stable P -> safe P (set_native n m) (fun _ => P).
Proof. intros Hs w Hw. eexists _, _. split; [done|]. by apply (Hs w). Qed.

Lemma at_live busy E i h w :
  at_stmt busy E i h w -> exists ps c b, live w !! h = Some (Stmt ps c b).
Proof. intros [[Hi _] Hs]. by eapply (inv_stmt _ _ Hi). Qed.

Lemma at_is_live busy E i h w : at_stmt busy E i h w -> is_Some (live w !! h).
Proof. intros H. destruct (at_live _ _ _ _ _ H) as (ps & c & b & ->). by eexists. Qed.

Lemma slot_Some (l : list (option nat)) (i h : nat) : slot l i = Some h <-> l !! i = Some (Some h).
Proof. unfold slot. destruct (l !! i) as [[x|]|]; simpl; naive_solver. Qed.

Lemma slot_None (l : list (option nat)) (i : nat) :
  slot l i = None -> forall h, l !! i <> Some (Some h).
Proof. intros H h Hh. apply slot_Some in Hh. congruence. Qed.

(** A table from which the entry [i] is removed, and one to which it is added. *)
Lemma cleared (l : list (option nat)) (i h : nat) :
  (forall j k x, l !! j = Some (Some x) -> l !! k = Some (Some x) -> j = k) -> l !! i = Some (Some h) ->
  forall j x, <[i := None]> l !! j = Some (Some x) <-> l !! j = Some (Some x) /\ x <> h.
Proof.
  intros Hone Hi j x. pose proof (lookup_lt_Some _ _ _ Hi). destruct (decide (j = i)) as [->|Hne].
  - rewrite list_lookup_insert_eq by done. split; [done|]. intros [Hx Hn]. congruence.
  - rewrite list_lookup_insert_ne by done. split; [|tauto]. intros Hx. split; [done|]. intros ->. eauto.
Qed.

Lemma filled (l : list (option nat)) (i h : nat) :
  (i < length l)%nat -> slot l i = None ->
  forall j x, <[i := Some h]> l !! j = Some (Some x) <-> (j = i /\ x = h) \/ l !! j = Some (Some x).
Proof.
  intros Hi Hs j x. destruct (decide (j = i)) as [->|Hne].
  - rewrite list_lookup_insert_eq by done. pose proof (slot_None _ _ Hs x). naive_solver.
  - rewrite list_lookup_insert_ne by done. naive_solver.
Qed.

(** What [SQLFreeHandle] makes of the live and of the refused handles. *)
Definition after_free (h : nat) (w : world) (L : gmap nat hstate) (R : gset nat) : Prop :=
  (L = delete h (live w) /\ R = refused w) \/ (L = live w /\ R = {[h]} ∪ refused w).

Lemma after_free_facts (h : nat) w L R :
  after_free h w L R ->
  (forall x, x <> h -> L !! x = live w !! x)
  /\ (forall x s, L !! x = Some s -> live w !! x = Some s /\ (x <> h \/ h ∈ R))
  /\ refused w ⊆ R.
Proof.
  intros [[-> ->]|[-> ->]].
  - split; [intros x Hx; by rewrite lookup_delete_ne|]. split; [|done].
    intros x s [Hn Hx]%lookup_delete_Some. auto.
  - split; [done|]. split; [|set_solver]. intros x s Hx. split; [done|right; set_solver].
Qed.

(** The statement of a connection is given up. *)
Lemma free_stmt_inv busy w (i h : nat) L R :
  inv busy w -> tl_hstmt w !! i = Some (Some h) -> after_free h w L R ->
  inv busy (World (tl_hdbc w) (<[i := None]> (tl_hstmt w)) L (tl_err w)
    (tl_last_native_error w) (tl_last_error_msg w) (tick w) (executed w) R (reported w)).
Proof.
  intros I Hi (HL & Hs & HR)%after_free_facts.
  pose proof (cleared _ i h (inv_stmt_once _ _ I) Hi) as Hj.
  assert (forall j, tl_hdbc w !! j <> Some (Some h)) as Hh.
  { intros j E%(inv_conn _ _ I). destruct (inv_stmt _ _ I i h Hi) as (? & ? & ? & ?). congruence. }
  split; cbn [tl_hdbc tl_hstmt live refused]; try apply I.
  - rewrite length_insert. apply I.
  - intros j x Hx. rewrite HL by (intros ->; by apply (Hh j)). by eapply (inv_conn _ _ I).
  - intros j x [Hx Hn]%Hj. rewrite HL by done. by eapply (inv_stmt _ _ I).
  - intros x [s [Hx Hr]%Hs]. destruct (inv_owned _ _ I x) as [|(j & [Hc|Hc])]; [eauto|left; set_solver|eauto|].
    destruct (decide (x = h)) as [->|]; [left; tauto|]. right. exists j. right. by apply Hj.
  - intros j k x [Hx _]%Hj [Hy _]%Hj. by eapply (inv_stmt_once _ _ I).
  - intros j x [Hx _]%Hj. by eapply (inv_parent _ _ I).
  - intros x s [Hx _]%Hs. destruct (inv_clean _ _ I x s Hx) as [|[|[|]]]; set_solver.
Qed.

(** A connection without a statement is given up. *)
Lemma free_conn_inv busy w (i h : nat) L R :
  inv busy w -> tl_hdbc w !! i = Some (Some h) -> (forall x, tl_hstmt w !! i <> Some (Some x)) ->
  after_free h w L R ->
  inv busy (World (<[i := None]> (tl_hdbc w)) (tl_hstmt w) L (tl_err w)
    (tl_last_native_error w) (tl_last_error_msg w) (tick w) (executed w) R (reported w)).
Proof.
  intros I Hi Hns (HL & Hs & HR)%after_free_facts.
  pose proof (cleared _ i h (inv_conn_once _ _ I) Hi) as Hj.
  assert (forall j, tl_hstmt w !! j <> Some (Some h)) as Hh.
  { intros j (? & ? & ? & ?)%(inv_stmt _ _ I). pose proof (inv_conn _ _ I i h Hi). congruence. }
  split; cbn [tl_hdbc tl_hstmt live refused]; try apply I.
  - rewrite length_insert. apply I.
  - intros j x [Hx Hn]%Hj. rewrite HL by done. by eapply (inv_conn _ _ I).
  - intros j x Hx. rewrite HL by (intros ->; by apply (Hh j)). by eapply (inv_stmt _ _ I).
  - intros x [s [Hx Hr]%Hs]. destruct (inv_owned _ _ I x) as [|(j & [Hc|Hc])]; [eauto|left; set_solver| |eauto].
    destruct (decide (x = h)) as [->|]; [left; tauto|]. right. exists j. left. by apply Hj.
  - intros j k x [Hx _]%Hj [Hy _]%Hj. by eapply (inv_conn_once _ _ I).
  - intros j x Hx. destruct (inv_parent _ _ I j x Hx) as (c & Hc). exists c. apply Hj. split; [done|].
    intros ->. assert (j = i) as -> by (by eapply (inv_conn_once _ _ I)). by eapply Hns.
  - intros x s [Hx _]%Hs. destruct (inv_clean _ _ I x s Hx) as [|[|[|]]]; set_solver.
Qed.

(** A new connection, and a new statement of a connection. *)
Lemma new_conn_inv w (i h : nat) :
  inv None w -> (i < MAX_DB_CONNECTIONS)%nat -> slot (tl_hdbc w) i = None -> live w !! h = None ->
  inv None (World (<[i := Some h]> (tl_hdbc w)) (tl_hstmt w) (<[h := Conn]> (live w)) (tl_err w)
    (tl_last_native_error w) (tl_last_error_msg w) (tick w) (executed w) (refused w) (reported w)).
Proof.
  intros I Hi Hs Hh. rewrite <- (inv_hdbc_length _ _ I) in Hi. pose proof (filled _ i h Hi Hs) as Hj.
  assert (forall j x, tl_hdbc w !! j = Some (Some x) -> x <> h) as Hnew.
  { intros j x Hx%(inv_conn _ _ I) ->. congruence. }
  split; cbn [tl_hdbc tl_hstmt live refused]; try apply I.
  - rewrite length_insert. apply I.
  - intros j x [[-> ->]|Hx]%Hj; [apply lookup_insert_eq|].
    rewrite lookup_insert_ne by (intros ->; by eapply Hnew). by eapply (inv_conn _ _ I).
  - intros j x Hx. destruct (inv_stmt _ _ I j x Hx) as (ps & c & b & Hl). exists ps, c, b.
    by rewrite lookup_insert_ne by congruence.
  - intros x [s [[<- _]|[Hn Hx]]%lookup_insert_Some].
    + right. exists i. left. apply Hj. by left.
    + destruct (inv_owned _ _ I x) as [|(j & [Hc|Hc])]; [eauto|by left| |eauto].
      right. exists j. left. apply Hj. by right.
  - intros j k x [[-> ->]|Hx]%Hj [[-> Hk]|Hy]%Hj; try done; [by apply Hnew in Hy|by subst; apply Hnew in Hx|].
    by eapply (inv_conn_once _ _ I).
  - intros j x Hx. destruct (inv_parent _ _ I j x Hx) as (c & Hc). exists c. apply Hj. by right.
  - intros x s [[_ <-]|[_ Hx]]%lookup_insert_Some; [by left|]. by eapply (inv_clean _ _ I).
Qed.

Lemma new_stmt_inv w (i h c : nat) :
  inv None w -> slot (tl_hstmt w) i = None -> tl_hdbc w !! i = Some (Some c) -> live w !! h = None ->
  inv None (World (tl_hdbc w) (<[i := Some h]> (tl_hstmt w)) (<[h := clean]> (live w)) (tl_err w)
    (tl_last_native_error w) (tl_last_error_msg w) (tick w) (executed w) (refused w) (reported w))
  /\ (<[i := Some h]> (tl_hstmt w) : list (option nat)) !! i = Some (Some h).
Proof.
  intros I Hs Hc Hh.
  assert (i < length (tl_hstmt w))%nat as Hi.
  { rewrite (inv_hstmt_length _ _ I), <- (inv_hdbc_length _ _ I). by eapply lookup_lt_Some. }
  split; [|by rewrite list_lookup_insert_eq]. pose proof (filled _ i h Hi Hs) as Hj.
  assert (forall j x, tl_hstmt w !! j = Some (Some x) -> x <> h) as Hnew.
  { intros j x (? & ? & ? & Hx)%(inv_stmt _ _ I) ->. congruence. }
  split; cbn [tl_hdbc tl_hstmt live refused]; try apply I.
  - rewrite length_insert. apply I.
  - intros j x Hx. pose proof (inv_conn _ _ I j x Hx). by rewrite lookup_insert_ne by congruence.
  - intros j x [[-> ->]|Hx]%Hj; [eexists _, _, _; apply lookup_insert_eq|].
    rewrite lookup_insert_ne by (intros ->; by eapply Hnew). by eapply (inv_stmt _ _ I).
  - intros x [s [[<- _]|[Hn Hx]]%lookup_insert_Some].
    + right. exists i. right. apply Hj. by left.
    + destruct (inv_owned _ _ I x) as [|(j & [Hd|Hd])]; [eauto|by left|eauto|].
      right. exists j. right. apply Hj. by right.
  - intros j k x [[-> ->]|Hx]%Hj [[-> Hk]|Hy]%Hj; try done; [by apply Hnew in Hy|by subst; apply Hnew in Hx|].
    by eapply (inv_stmt_once _ _ I).
  - intros j x [[-> ->]|Hx]%Hj; [by exists c|]. by eapply (inv_parent _ _ I).
  - intros x s [[_ <-]|[_ Hx]]%lookup_insert_Some; [by right; left|]. by eapply (inv_clean _ _ I).
Qed.

(** Changing the state of the statement in use. *)
Lemma use_stmt_inv w (h : nat) ps c b ps' c' b' :
  inv (Some h) w -> live w !! h = Some (Stmt ps c b) ->
  inv (Some h) (World (tl_hdbc w) (tl_hstmt w) (<[h := Stmt ps' c' b']> (live w)) (tl_err w)
    (tl_last_native_error w) (tl_last_error_msg w) (tick w) (executed w) (refused w) (reported w)).
Proof.
  intros I Hh. split; cbn [tl_hdbc tl_hstmt live refused]; try apply I.
  - intros j x Hx. pose proof (inv_conn _ _ I j x Hx). by rewrite lookup_insert_ne by congruence.
  - intros j x Hx. destruct (decide (x = h)) as [->|]; [eexists _, _, _; apply lookup_insert_eq|].
    rewrite lookup_insert_ne by done. by eapply (inv_stmt _ _ I).
  - intros x [s [[<- _]|[_ Hx]]%lookup_insert_Some]; apply (inv_owned _ _ I); eauto.
  - intros x s [[<- _]|[_ Hx]]%lookup_insert_Some; [auto|]. by eapply (inv_clean _ _ I).
Qed.

(** The driver refuses to release something. *)
Lemma refuse_inv busy w (h : nat) :
  inv busy w ->
  inv busy (World (tl_hdbc w) (tl_hstmt w) (live w) (tl_err w)
    (tl_last_native_error w) (tl_last_error_msg w) (tick w) (executed w) ({[h]} ∪ refused w) (reported w)).
Proof.
  intros I. split; cbn [tl_hdbc tl_hstmt live refused]; try apply I.
  - intros x Hx. destruct (inv_owned _ _ I x Hx); [left; set_solver|by right].
  - intros x s Hx. destruct (inv_clean _ _ I x s Hx) as [|[|[|]]]; set_solver.
Qed.

(** The statement in use is clean again, or gone, or the driver refused to
    release it. *)
Lemma release_inv w (h : nat) :
  inv (Some h) w -> (forall s, live w !! h = Some s -> s = Conn \/ s = clean \/ h ∈ refused w) -> inv None w.
Proof.
  intros I Hc. split; try apply I. intros x s Hx.
  destruct (inv_clean _ _ I x s Hx) as [|[|[[= ->]|]]]; auto. destruct (Hc s Hx) as [|[|]]; auto.
Qed.

Lemma conn_live busy E i h w :
  st busy E w -> tl_hdbc w !! i = Some (Some h) -> live w !! h = Some Conn.
Proof. intros [I _] Hh. by eapply (inv_conn _ _ I). Qed.

Lemma free_stmt_safe busy E (i h : nat) :
  safe (at_stmt busy E i h) (SQLFreeHandle h;; set_hstmt i None)
    (fun _ w => st busy E w /\ forall x, tl_hstmt w !! i <> Some (Some x)).
Proof.
  intros w H. pose proof H as [[I He] Hi]. destruct (at_live _ _ _ _ _ H) as (ps & c & b & Hl).
  unfold SQLFreeHandle, mbind, M_bind, call. rewrite Hl. cbn [get].
  assert (<[i := None]> (tl_hstmt w) !! i = Some (None : option nat)) as Hn
    by (apply list_lookup_insert_eq; by eapply lookup_lt_Some).
  destruct (SQL_SUCCEEDED (answer (tick w))); eexists _, _; (split; [reflexivity|]).
  all: split; [|intros x; cbn [tl_hstmt]; rewrite Hn; congruence].
  - eapply st_same; [|exact (conj (free_stmt_inv busy w i h _ _ I Hi (or_introl (conj eq_refl eq_refl))) He)].
    by repeat split.
  - eapply st_same; [|exact (conj (free_stmt_inv busy w i h _ _ I Hi (or_intror (conj eq_refl eq_refl))) He)].
    by repeat split.
Qed.

Lemma free_conn_safe busy E (i h : nat) :
  safe (fun w => (st busy E w /\ tl_hdbc w !! i = Some (Some h))
                 /\ forall x, tl_hstmt w !! i <> Some (Some x))
    (call h;; SQLFreeHandle h;; set_hdbc i None) (fun _ => st busy E).
Proof.
  intros w [[H Hi] Hn]. pose proof (conn_live _ _ _ _ _ H Hi) as Hl. destruct H as [I He].
  unfold SQLFreeHandle, mbind, M_bind, call. rewrite Hl. cbn [live get tick]. rewrite Hl.
  destruct (SQL_SUCCEEDED (answer (S (tick w)))); eexists _, _; (split; [reflexivity|]).
  - eapply st_same; [|exact (conj (free_conn_inv busy w i h _ _ I Hi Hn (or_introl (conj eq_refl eq_refl))) He)].
    by repeat split.
  - eapply st_same; [|exact (conj (free_conn_inv busy w i h _ _ I Hi Hn (or_intror (conj eq_refl eq_refl))) He)].
    by repeat split.
Qed.

Lemma reset_safe busy E (i : nat) : safe (st busy E) (db_reset_connection i) (fun _ => st busy E).
Proof.
  unfold db_reset_connection. apply safe_if; intros Hi; [by apply safe_ret|].
  apply safe_get. intros w0 H0.
  apply (safe_bind _ _ _ (fun _ w => st busy E w /\ forall x, tl_hstmt w !! i <> Some (Some x))).
  - destruct (slot (tl_hstmt w0) i) as [h|] eqn:Hs.
    + apply slot_Some in Hs. eapply safe_weaken; [apply (free_stmt_safe busy E i h)|by intros w ->|done].
    + apply safe_ret. intros w ->. split; [done|by apply slot_None].
  - intros []. apply safe_get. intros w1 [H1 Hn]. destruct (slot (tl_hdbc w1) i) as [h|] eqn:Hs.
    + apply slot_Some in Hs. eapply safe_weaken; [apply (free_conn_safe busy E i h)|by intros w ->|done].
    + apply safe_ret. by intros w ->.
Qed.

(** A report on a live handle keeps the invariant. *)
Lemma db_set_error_safe (P : world -> Prop) busy E (db_id : nat) (handle : option nat) (msg : string) :
  stable P -> (forall w, P w -> st busy E w) ->
  (forall w h, P w -> handle = Some h -> is_Some (live w !! h)) ->
  safe P (db_set_error db_id handle msg) (fun _ => st busy E).
Proof.
  intros Hst HP Hl. unfold db_set_error. apply (safe_bind _ _ _ (fun _ => P)).
  { intros w Hw. eexists _, _. split; [done|]. by apply (Hst w). }
  intros records. apply (safe_bind _ _ _ (fun _ => P)).
  { destruct handle as [h|]; [|by apply safe_ret].
    apply (safe_bind _ _ _ (fun _ => P)); [|intros ?; by apply safe_ret].
    apply (call_safe P h); [done|]. intros w Hw. by eapply Hl. }
  intros []. set (s := fold_left _ _ _). apply (safe_bind _ _ _ (fun _ => P)).
  { destruct (s_native s) as [[n m]|]; [by apply set_native_safe|by apply safe_ret]. }
  intros []. destruct records.
  - eapply safe_weaken; [by apply (set_error_safe P)|done|intros ? w; apply HP].
  - apply (safe_bind _ _ _ (fun _ => P)); [by apply set_error_safe|]. intros [].
    apply safe_if; intros _; [|apply safe_ret, HP].
    apply (safe_bind _ _ _ (fun _ => P)); [by apply set_error_safe|]. intros [].
    eapply safe_weaken; [apply (reset_safe busy E db_id)|exact HP|done].
Qed.

Lemma stmt_error_safe busy E (i h : nat) (msg : string) :
  safe (at_stmt busy E i h) (db_set_error i (Some h) msg) (fun _ => st busy E).
Proof.
  apply db_set_error_safe; [auto with apiserver|by intros w []|].
  intros w x Hw [= <-]. by eapply at_is_live.
Qed.

Context {Laws : OdbcLaws Drv}.

Lemma alloc_conn_safe E (i : nat) :
  (i < MAX_DB_CONNECTIONS)%nat ->
  safe (fun w => st None E w /\ slot (tl_hdbc w) i = None)
    (alloc_hdbc i)
    (fun r w => st None E w /\ match r with Some h => tl_hdbc w !! i = Some (Some h) | None => True end).
Proof.
  intros Hi w [[I He] Hs]. unfold alloc_hdbc, SQLAllocHandle, mbind, M_bind, advance.
  destruct (SQL_SUCCEEDED (answer (tick w))); eexists _, _; (split; [reflexivity|]).
  - pose proof (new_conn_inv w i (new_handle (live w)) I Hi Hs (new_handle_fresh (live w))) as I'. split.
    + eapply st_same; [|exact (conj I' He)]. by repeat split.
    + cbn. apply list_lookup_insert_eq. by rewrite (inv_hdbc_length _ _ I).
  - split; [|done]. assert ((<[i := None]> (tl_hdbc w) : list (option nat)) = tl_hdbc w) as Hsame.
    { apply list_insert_id. unfold slot in Hs.
      destruct (lookup_lt_is_Some_2 (tl_hdbc w) i) as [x Hx]; [by rewrite (inv_hdbc_length _ _ I)|].
      rewrite Hx in *. simpl in Hs. by subst. }
    apply (st_same None E w); [|done]. by repeat split.
Qed.

Lemma db_connect_safe E (i : nat) :
  safe (st None E) (db_connect i)
    (fun r w => st None E w /\ match r with Some h => tl_hdbc w !! i = Some (Some h) | None => True end).
Proof.
  unfold db_connect. apply safe_if; intros Hi; [by apply safe_ret|]. bool_to_prop.
  apply safe_get. intros w0 H0. destruct (slot (tl_hdbc w0) i) as [h|] eqn:Hs.
  { apply safe_ret. intros w ->. split; [done|]. by apply slot_Some. }
  destruct (Config.config_get_odbc_conn_str cfg (Z.of_nat i)) as [|c s].
  { apply (safe_bind _ _ _ (fun _ => st None E)); [|intros []; by apply safe_ret].
    eapply safe_weaken; [apply (set_error_safe (st None E)); auto with apiserver|by intros w ->|done]. }
  eapply safe_bind; [eapply safe_weaken; [apply (alloc_conn_safe E i Hi)|by intros w ->|done]|].
  cbn beta. intros h.
  destruct h as [h|].
  - set (P := fun w1 => st None E w1 /\ tl_hdbc w1 !! i = Some (Some h)).
    assert (stable P) as HP by (unfold P; auto with apiserver).
    assert (safe P (call h) (fun _ => P)) as HC.
    { apply call_safe; [done|]. intros w [Hw Hh]. exists Conn. by eapply conn_live. }
    do 2 (eapply safe_bind; [exact HC|intros ?]). eapply safe_bind; [exact HC|intros r]. cbn beta.
    apply safe_if; intros _; [by apply safe_ret|].
    apply (safe_bind _ _ _ (fun _ => st None E)).
    + apply db_set_error_safe with (P := P); [done|by intros w []|].
      intros w x [Hw Hh] [= <-]. exists Conn. by eapply conn_live.
    + intros []. eapply safe_bind; [apply reset_safe|]. intros []. by apply safe_ret.
  - apply (safe_bind _ _ _ (fun _ => st None E)); [|intros []; by apply safe_ret].
    apply db_set_error_safe with (P := fun w => st None E w /\ True); [|by intros w []|done].
    intros w w' Hs' [Hw _]. split; [by eapply st_same|done].
Qed.

Lemma alloc_stmt_safe E (i c : nat) :
  safe (fun w => st None E w /\ tl_hdbc w !! i = Some (Some c)) (db_alloc_stmt i c)
    (fun r w => match r with
                | Some h => at_stmt None E i h w
                | None => st None E w
                end).
Proof.
  unfold db_alloc_stmt. apply safe_if; intros Hi; [apply safe_ret; by intros w []|].
  apply safe_get. intros w0 [H0 Hc]. pose proof (conn_live _ _ _ _ _ H0 Hc) as Hl.
  destruct (slot (tl_hstmt w0) i) as [h|] eqn:Hs.
  { apply safe_ret. intros w ->. by apply slot_Some in Hs. }
  intros w ->. unfold SQLAllocHandle, mbind, M_bind, call. rewrite Hl.
  destruct (SQL_SUCCEEDED (answer (tick w0))).
  - cbn. rewrite lookup_insert_eq. eexists _, _. split; [done|]. destruct H0 as [I He].
    destruct (new_stmt_inv w0 i (new_handle (live w0)) c I Hs Hc (new_handle_fresh (live w0))) as [I' Hn].
    split; [|exact Hn]. eapply st_same; [|exact (conj I' He)]. by repeat split.
  - set (P := fun w => st None E w /\ tl_hdbc w !! i = Some (Some c)).
    assert (safe P (db_set_error i (Some c) "Failed to allocate ODBC statement handle";;
        db_reset_connection i;; mret None)
      (fun r w => match r with
                  | Some h => at_stmt None E i h w
                  | None => st None E w
                  end)) as HS.
    { apply (safe_bind _ _ _ (fun _ => st None E)).
      - apply db_set_error_safe with (P := P); [unfold P; auto with apiserver|by intros w []|].
        intros w x [Hw Hh] [= <-]. exists Conn. by eapply conn_live.
      - intros []. eapply safe_bind; [apply reset_safe|]. intros []. by apply safe_ret. }
    apply HS. eapply (stable_and _ _ (stable_st None E) (stable_conn i c) w0); [by repeat split|done].
Qed.

(** The statement in use, with its state. *)
Definition in_use E (i h : nat) (s : hstate) (w : world) : Prop :=
  at_stmt (Some h) E i h w /\ live w !! h = Some s.

Lemma on_stmt_safe E (i h : nat) ps c b (f : list binding -> nat -> bool -> hstate) ps' c' b' :
  f ps c b = Stmt ps' c' b' ->
  safe (in_use E i h (Stmt ps c b)) (on_stmt h f)
    (fun r w => in_use E i h (if SQL_SUCCEEDED r then Stmt ps' c' b' else Stmt ps c b) w).
Proof.
  intros Hf w [[[I He] Hi] Hl]. unfold on_stmt, mbind, M_bind, call. rewrite Hl. cbn. rewrite Hl.
  destruct (SQL_SUCCEEDED (answer (tick w))) eqn:R; eexists _, _; (split; [reflexivity|]); rewrite R.
  - rewrite Hf. pose proof (use_stmt_inv w h ps c b ps' c' b' I Hl) as I'.
    split; [|cbn; apply lookup_insert_eq]. split; [|exact Hi].
    eapply st_same; [|exact (conj I' He)]. by repeat split.
  - split; [|exact Hl]. split; [|exact Hi]. eapply st_same; [|exact (conj I He)]. by repeat split.
Qed.

(** The statement in use is in the state [s], or the driver refused to release
    something of it. *)
Definition tidy E (i h : nat) (s : hstate) (w : world) : Prop :=
  at_stmt (Some h) E i h w /\ (live w !! h = Some s \/ h ∈ refused w).

(** [f] makes a statement of a statement. *)
Definition keeps_kind (f : list binding -> nat -> bool -> hstate) : Prop :=
  forall ps c b, exists ps' c' b', f ps c b = Stmt ps' c' b'.

Lemma free_option_safe E (i h : nat) ps c b (f : list binding -> nat -> bool -> hstate) :
  keeps_kind f ->
  safe (tidy E i h (Stmt ps c b)) (SQLFreeStmt h f) (fun _ => tidy E i h (f ps c b)).
Proof.
  intros Hf w [H Ht]. destruct (at_live _ _ _ _ _ H) as (ps0 & c0 & b0 & Hl). destruct H as [[I He] Hi].
  unfold SQLFreeStmt, mbind, M_bind, call. rewrite Hl. cbn [live get]. rewrite Hl.
  destruct (SQL_SUCCEEDED (answer (tick w))); eexists _, _; (split; [reflexivity|]).
  - destruct (Hf ps0 c0 b0) as (ps' & c' & b' & Ef). rewrite Ef.
    pose proof (use_stmt_inv w h ps0 c0 b0 ps' c' b' I Hl) as I'. split.
    + split; [|exact Hi]. eapply st_same; [|exact (conj I' He)]. by repeat split.
    + destruct Ht as [Hs|Hr]; [left|by right]. assert (Stmt ps c b = Stmt ps0 c0 b0) as [= -> -> ->] by congruence.
      cbn [live]. by rewrite lookup_insert_eq, Ef.
  - pose proof (refuse_inv (Some h) w h I) as I'. split; [|right; cbn [refused]; set_solver].
    split; [|exact Hi]. eapply st_same; [|exact (conj I' He)]. by repeat split.
Qed.

Lemma valid_stmt (w : world) (h : nat) :
  length (tl_hstmt w) = MAX_DB_CONNECTIONS ->
  db_is_valid_stmt w (Some h) = true <-> exists i, tl_hstmt w !! i = Some (Some h).
Proof.
  intros Hl. unfold db_is_valid_stmt. rewrite existsb_exists. split.
  - intros (i & _ & Hi). apply bool_decide_eq_true in Hi. exists i. by apply slot_Some.
  - intros (i & Hi). exists i. split; [|by apply bool_decide_eq_true, slot_Some].
    apply in_seq. apply lookup_lt_Some in Hi. lia.
Qed.

Lemma stmt_state E (i h : nat) (w : world) :
  at_stmt (Some h) E i h w -> exists ps c b, in_use E i h (Stmt ps c b) w.
Proof. intros H. destruct (at_live _ _ _ _ _ H) as (ps & c & b & Hl). exists ps, c, b. by split. Qed.

(** At the end of a query the statement, if it still exists, is clean, unless the
    driver refused to release something of it. *)
Lemma cleanup_safe E (hstmt : option nat) :
  safe (st hstmt E) (db_cleanup_stmt hstmt) (fun _ => st None E).
Proof.
  unfold db_cleanup_stmt. apply safe_get. intros w0 H0.
  destruct hstmt as [h|]; [|by apply safe_ret; intros w ->].
  destruct H0 as [I He]. apply safe_if; intros V.
  - apply valid_stmt in V as (i & Hi); [|apply I].
    destruct (stmt_state E i h w0) as (ps & c & b & Hu); [by split|].
    eapply safe_weaken with (P' := tidy E i h (Stmt ps c b));
      [|intros w ->; destruct Hu; split; [done|by left]|cbn beta; intros a w Hw; exact Hw].
    assert (keeps_kind SQL_CLOSE /\ keeps_kind SQL_RESET_PARAMS /\ keeps_kind SQL_UNBIND) as (K1 & K2 & K3)
      by (split_and!; intros ? ? ?; by eexists _, _, _).
    eapply safe_bind; [by apply (free_option_safe E i h)|]. intros ?.
    eapply safe_bind; [by apply (free_option_safe E i h ps c false SQL_RESET_PARAMS)|]. intros ?.
    eapply safe_weaken; [by apply (free_option_safe E i h [] c false SQL_UNBIND)|done|].
    intros ? w [[[I' He'] _] Ht]. split; [|done]. apply (release_inv w h I').
    intros s Hs. destruct Ht as [Hl|Hr]; [|auto]. rewrite Hl in Hs. injection Hs as <-. by right; left.
  - apply safe_ret. intros w ->. split; [|done]. apply (release_inv w0 h I). intros s Hs.
    rewrite <- not_true_iff_false, valid_stmt in V by apply I.
    destruct (inv_owned _ _ I h) as [|(i & [Hc|Hc])]; [by exists s|auto| |destruct V; eauto].
    left. pose proof (inv_conn _ _ I i h Hc). congruence.
Qed.

Lemma in_use_error E (i h : nat) (x : hstate) (msg : string) :
  safe (in_use E i h x) (db_set_error i (Some h) msg) (fun _ => st (Some h) E).
Proof. eapply safe_weaken; [apply stmt_error_safe|by intros w []|done]. Qed.

(** After the parameters below [k], what was left bound above them stays. *)
Lemma bind_params_safe E (i h k : nat) (params : list QueryParam) (own stale : list binding) c b :
  length own = k ->
  safe (in_use E i h (Stmt (own ++ stale) c b)) (bind_params i h k params)
    (fun ok w => if ok : bool
       then exists bs stale', mapM binding_of params = Some bs
         /\ in_use E i h (Stmt ((own ++ bs) ++ stale') c b) w
       else st (Some h) E w).
Proof.
  revert k own stale. induction params as [|p params IH]; intros k own stale Hk; cbn [bind_params].
  { apply safe_ret. intros w Hw. exists [], stale. by rewrite app_nil_r. }
  apply (safe_bind _ _ _ (fun ok w => if ok : bool
    then exists x, binding_of p = Some x /\ in_use E i h (Stmt ((own ++ [x]) ++ drop 1 stale) c b) w
    else st (Some h) E w)).
  - unfold db_bind_param. destruct (binding_of p) as [x|].
    + unfold SQLBindParameter. eapply safe_bind; [by apply on_stmt_safe|]. cbn beta. intros r.
      destruct (SQL_SUCCEEDED r).
      * apply safe_ret. intros w Hw. exists x. split; [done|].
        rewrite take_app_length', drop_app_ge in Hw by lia.
        replace (S k - length own)%nat with 1%nat in Hw by lia. by rewrite <- (assoc_L (++)).
      * eapply safe_bind; [apply in_use_error|]. intros []. by apply safe_ret.
    + eapply safe_bind; [apply in_use_error|]. intros []. by apply safe_ret.
  - intros [|]; [|by apply safe_ret]. intros w (x & Hx & Hw).
    destruct (IH (S k) (own ++ [x]) (drop 1 stale)) with (w := w) as (ok & w' & E' & Hq);
      [rewrite length_app; cbn; lia|done|].
    exists ok, w'. split; [done|]. destruct ok; [|done]. destruct Hq as (bs & stale' & Hbs & Hq).
    exists (x :: bs), stale'. cbn [mapM mbind option_bind]. rewrite Hx. cbn [mbind option_bind]. rewrite Hbs.
    split; [done|]. by rewrite <- (assoc_L (++) own) in Hq.
Qed.

(** The statement is ready to be run: the parameters of the query come first. *)
Definition bound E (i h : nat) (params : list QueryParam) (w : world) : Prop :=
  exists x, mapM binding_of params = Some x.1.1 /\ in_use E i h (Stmt (x.1.1 ++ x.1.2) x.2.1 x.2.2) w.

Lemma prepare_safe E (i : nat) (params : list QueryParam) :
  safe (st None E) (db_prepare_and_bind i params)
    (fun r w => match r with
       | (true, Some h) => bound E i h params w
       | (false, hstmt) => st hstmt E w
       | (true, None) => False
       end).
Proof.
  unfold db_prepare_and_bind. eapply safe_bind; [apply db_connect_safe|]. cbn beta.
  intros [c|]; [|apply safe_ret; by intros w []].
  eapply safe_bind; [apply alloc_stmt_safe|]. cbn beta. intros [h|]; [|by apply safe_ret].
  intros w H. destruct (at_live _ _ _ _ _ H) as (ps & k & b & Hl). destruct H as [[I He] Hi].
  destruct (bind_params_safe E i h 0 params [] ps k b eq_refl w) as (ok & w' & E' & Hq).
  { split; [|done]. split; [|done]. split; [by apply inv_dirty|done]. }
  unfold mbind, M_bind. rewrite E'. eexists _, _. split; [done|]. destruct ok; [|done].
  destruct Hq as (bs & stale & Hbs & Hq). by exists ((bs, stale), (k, b)).
Qed.

(** The run of a query with its own parameters: every marker gets the parameter
    of its position, also those that nothing but an earlier query has bound. *)
Definition ran_as (query : cstr) (params : list QueryParam) (x : cstr * list binding) : Prop :=
  exists bs stale, mapM binding_of params = Some bs /\ x = (query, take (placeholders query) (bs ++ stale)).

(** A query with as many parameters as markers runs with these. *)
Lemma ran_exact (query : cstr) (params : list QueryParam) (x : cstr * list binding) :
  ran_as query params x -> length params = placeholders query ->
  exists bs, mapM binding_of params = Some bs /\ x = (query, bs).
Proof.
  intros (bs & stale & Hbs & ->) Hl. exists bs. split; [done|]. f_equal.
  apply take_app_length'. rewrite <- Hl. by eapply length_mapM.
Qed.

Lemma exec_safe E (i h : nat) (query : cstr) bs c b :
  safe (in_use E i h (Stmt bs c b)) (SQLExecDirect h query)
    (fun _ w => exists b', in_use (E ++ [(query, take (placeholders query) bs)]) i h (Stmt bs c b') w).
Proof.
  unfold SQLExecDirect. apply safe_get. intros w0 H0. pose proof H0 as [_ Hl]. rewrite Hl.
  set (E' := E ++ [(query, take (placeholders query) bs)]).
  apply (safe_bind _ _ _ (fun _ => in_use E' i h (Stmt bs c b))).
  - intros w ->. eexists _, _. split; [done|]. destruct H0 as [[[[] He] Hi] _].
    split; [|done]. split; [|done]. split; [by split|]. cbn. by rewrite He.
  - intros []. eapply safe_weaken; [by apply (on_stmt_safe E' i h bs c b (fun ps cols _ => Stmt ps cols true) bs c true)|done|].
    cbn beta. intros r w Hw. destruct (SQL_SUCCEEDED r); eauto.
Qed.

(** A fetch callback that may be run on the statement in use. *)
Definition fetch_safe (fetch : fetch_cb) : Prop :=
  forall E i h out, safe (at_stmt (Some h) E i h) (fetch i h out)
    (fun r w => if r.1 : bool then at_stmt (Some h) E i h w else st (Some h) E w).

(** What a query may have run by its end: nothing, or the query once, with its
    own parameters. *)
Definition ran (query : cstr) (params : list QueryParam) (E E' : list (cstr * list binding)) : Prop :=
  E' = E \/ exists x, ran_as query params x /\ E' = E ++ [x].

(** Running the prepared query. *)
Lemma bound_runs {A} E (i h : nat) (query : cstr) (params : list QueryParam) (m : M A) Q :
  (forall bs c b x, ran_as query params x -> x = (query, take (placeholders query) bs) ->
     safe (in_use E i h (Stmt bs c b)) m (Q (E ++ [x]))) ->
  safe (bound E i h params) m (fun a w => exists x, ran_as query params x /\ Q (E ++ [x]) a w).
Proof.
  intros Hm. apply safe_ex. intros [[bs stale] [c b]]. apply safe_pure. cbn [fst snd]. intros Hbs w Hw.
  set (x := (query, take (placeholders query) (bs ++ stale))).
  assert (ran_as query params x) as Hx by (by exists bs, stale).
  destruct (Hm _ _ _ x Hx eq_refl w Hw) as (a & w' & Ea & Ha). exists a, w'. split; [done|]. by exists x.
Qed.

Lemma execute_and_fetch_safe (fetch : fetch_cb) E (i : nat) (query : cstr) (params : list QueryParam)
    (out : list char) :
  fetch_safe fetch ->
  safe (st None E) (db_execute_and_fetch i query params fetch out)
    (fun r w => exists E', st None E' w /\ ran query params E E'
       /\ (r.1 = true -> exists x, ran_as query params x /\ E' = E ++ [x])).
Proof.
  intros HF. unfold db_execute_and_fetch.
  eapply safe_bind; [apply (set_native_safe (st None E)); auto with apiserver|]. intros ?. cbn beta.
  eapply safe_bind; [apply prepare_safe|]. cbn beta. intros [ok hstmt].
  apply (safe_bind _ _ _ (fun r w => exists E', st hstmt E' w /\ ran query params E E'
       /\ (r.1 = true -> exists x, ran_as query params x /\ E' = E ++ [x]))).
  - destruct ok; [destruct hstmt as [h|]|].
    + eapply safe_weaken; [apply (bound_runs E i h query params _ (fun E' _ w => st (Some h) E' w))|done|].
      2:{ cbn beta. intros r w (x & Hx & Hw). exists (E ++ [x]). split; [done|].
          split; [right|intros _]; by exists x. }
      intros bs c b x _ ->. eapply safe_bind; [apply exec_safe|]. cbn beta. intros r. apply safe_ex. intros b'.
      apply safe_if; intros _.
      * eapply safe_weaken; [apply HF|by intros w []|]. cbn beta. intros [[] o] w; [by intros []|done].
      * eapply safe_bind; [apply in_use_error|]. intros []. by apply safe_ret.
    + by intros w [].
    + apply safe_ret. intros w Hw. exists E. split; [by destruct hstmt|]. split; [by left|done].
  - intros [ok' out']. apply safe_get. intros w0 (E' & Hw & Hr & Hok). cbn beta zeta.
    eapply safe_bind; [eapply safe_weaken; [apply (cleanup_safe E' hstmt)|by intros w ->|done]|].
    intros ?. apply safe_ret. intros w H. exists E'. by split_and!.
Qed.

(** ** The fetch callbacks are safe *)

Lemma finish_safe E (i h : nat) (r : option failure * list char) :
  safe (at_stmt (Some h) E i h) (finish i h (Some r))
    (fun a w => if a.1 : bool then at_stmt (Some h) E i h w else st (Some h) E w).
Proof.
  destruct r as [[[msg|]|] out]; cbn [finish].
  - eapply safe_bind; [apply stmt_error_safe|]. intros []. by apply safe_ret.
  - apply safe_ret. by intros w [].
  - by apply safe_ret.
Qed.

Lemma call_at_safe E (i h : nat) : safe (at_stmt (Some h) E i h) (call h) (fun _ => at_stmt (Some h) E i h).
Proof. apply call_safe; [auto with apiserver|]. intros w. apply at_is_live. Qed.

Lemma fetch_native_safe (xs : list ncell) (complete : bool) :
  fetch_safe (db_fetch_json_native xs complete).
Proof.
  intros E i h out. unfold db_fetch_json_native.
  destruct (native_rows_total xs complete out false false) as [r ->].
  eapply safe_bind; [apply call_at_safe|]. intros ?. apply finish_safe.
Qed.

(** A result set that is printed without a fault, whatever was in the output. *)
Definition printable (rs : resultset) : Prop :=
  forall out b, is_Some (fetch_resultset_array num_buf mem rs out b).

Lemma unbind_safe E (i h : nat) :
  safe (at_stmt (Some h) E i h) (SQLFreeStmt h SQL_UNBIND) (fun _ => at_stmt (Some h) E i h).
Proof.
  intros w Hw. destruct (stmt_state E i h w Hw) as (ps & c & b & _ & Hl).
  destruct (free_option_safe E i h ps c b SQL_UNBIND) with (w := w) as (a & w' & Ea & [Ha _]);
    [intros ? ? ?; by eexists _, _, _|split; [done|by left]|]. by exists a, w'.
Qed.

Lemma destroy_safe E (i h : nat) :
  safe (at_stmt (Some h) E i h) (metadata_destroy h) (fun _ => at_stmt (Some h) E i h)
  /\ safe (st (Some h) E) (metadata_destroy h) (fun _ => st (Some h) E).
Proof.
  unfold metadata_destroy. split; apply safe_get; intros w0 H0; (apply safe_if; intros V;
    [|apply safe_ret; by intros w ->]).
  - eapply safe_weaken; [apply unbind_safe|by intros w ->|done].
  - destruct H0 as [I He]. apply valid_stmt in V as (j & Hj); [|apply I].
    eapply safe_weaken; [apply (unbind_safe E j)|by intros w ->|by intros ? w []].
Qed.

Lemma fetch_set_safe (rs : resultset) (brackets : bool) :
  printable rs -> fetch_safe (fetch_set rs brackets).
Proof.
  intros HP E i h out. unfold fetch_set. apply safe_get. intros w0 H0.
  destruct (stmt_state E i h w0 H0) as (ps & c & b & Hu). pose proof Hu as [_ Hl]. rewrite Hl.
  apply (safe_bind _ _ _ (fun _ => at_stmt (Some h) E i h)).
  { intros w ->. eexists _, _. split; [done|]. destruct H0 as [[I He] Hi]. split; [|done]. split; [|done].
    pose proof (use_stmt_inv w0 h ps c b ps (Nat.max c (length (columns rs))) b I Hl) as I'. exact I'. }
  intros ?. eapply safe_bind; [apply call_at_safe|]. intros ?. cbn beta.
  destruct (HP out brackets) as [r ->]. eapply safe_bind; [apply finish_safe|]. cbn beta.
  intros [[] o]; cbn [fst].
  - apply (safe_bind _ _ _ (fun _ => at_stmt (Some h) E i h)); [|intros ?; by apply safe_ret].
    apply safe_if; intros _; [apply destroy_safe|by apply safe_ret].
  - apply (safe_bind _ _ _ (fun _ => st (Some h) E)); [|intros ?; by apply safe_ret].
    apply safe_if; intros _; [by apply (destroy_safe E i)|by apply safe_ret].
Qed.

Lemma fast_itoa_text (idx : Z) :
  length num_buf = 64%nat -> (0 <= idx < 2 ^ 31)%Z ->
  exists digits len, fast_itoa idx (Some (take 32 num_buf)) 32 = Some (Some digits, len)
    /\ take (Z.to_nat len) digits = dec_text idx.
Proof.
  intros Hb Hi. destruct (fast_itoa_eq idx 32 (take 32 num_buf) ltac:(lia)) as (n & Hn & En);
    [rewrite length_take; lia|]. cbv zeta in En. rewrite En.
  pose proof (is_ndig_unique _ _ _ Hn (count_digits_u64_spec (Z.abs idx) ltac:(lia))) as ->.
  fold (dec_text idx). pose proof (length_dec_text idx).
  rewrite (proj2 (Z.leb_le _ _)) by lia. eexists _, _. split; [done|].
  by rewrite Nat2Z.id, take_app_length.
Qed.

Lemma jsonm_safe (sets : list resultset) (last_ok has : bool) (idx : Z) E (i h : nat) (out : list char) :
  length num_buf = 64%nat -> (0 <= idx)%Z -> (idx + Z.of_nat (length sets) < 2 ^ 31)%Z ->
  Forall printable sets ->
  safe (at_stmt (Some h) E i h) (jsonm_loop sets last_ok idx has i h out)
    (fun r w => if r.1 : bool then at_stmt (Some h) E i h w else st (Some h) E w).
Proof.
  intros Hb H0 Hi HP. revert idx has out H0 Hi. induction HP as [|rs sets HP _ IH]; intros idx has out H0 Hi;
    cbn [jsonm_loop length] in *.
  - apply safe_if; intros _; [by apply safe_ret|].
    eapply safe_bind; [apply stmt_error_safe|]. intros []. by apply safe_ret.
  - apply safe_if; intros _.
    + destruct (fast_itoa_text idx Hb ltac:(lia)) as (b & len & -> & _).
      eapply safe_bind; [by apply (fetch_set_safe rs false HP E)|]. cbn beta. intros [[] o]; cbn [fst].
      * eapply safe_bind; [apply call_at_safe|]. intros ?. apply IH; lia.
      * by apply safe_ret.
    + eapply safe_bind; [apply call_at_safe|]. intros ?. apply IH; lia.
Qed.

Lemma fetch_jsonm_safe (sets : list resultset) (last_ok : bool) :
  length num_buf = 64%nat -> (Z.of_nat (length sets) < 2 ^ 31 - 1)%Z -> Forall printable sets ->
  fetch_safe (db_fetch_jsonm_native sets last_ok).
Proof.
  intros Hb Hl HP E i h out. unfold db_fetch_jsonm_native.
  eapply safe_bind; [apply call_at_safe|]. intros ?. apply jsonm_safe; [done|lia|lia|done].
Qed.

Lemma execute_safe E (i h : nat) (query : cstr) bs c b :
  safe (in_use E i h (Stmt bs c b)) (execute i h query)
    (fun ok w => let E' := E ++ [(query, take (placeholders query) bs)] in
       if ok : bool then at_stmt (Some h) E' i h w else st (Some h) E' w).
Proof.
  unfold execute. eapply safe_bind; [apply exec_safe|]. cbn beta. intros r. apply safe_ex. intros b'.
  apply safe_if; intros _; [apply safe_ret; by intros w []|].
  eapply safe_bind; [apply in_use_error|]. intros []. by apply safe_ret.
Qed.

Lemma bind_outputs_safe E (i h k : nat) (outs : list OutParam) ps c b :
  safe (in_use E i h (Stmt ps c b)) (bind_outputs i h k outs)
    (fun ok w => if ok : bool then exists c', in_use E i h (Stmt ps c' b) w else st (Some h) E w).
Proof.
  assert (forall msg c, safe (in_use E i h (Stmt ps c b)) (db_set_error i (Some h) msg;; mret false)
    (fun ok w => if ok : bool then exists c', in_use E i h (Stmt ps c' b) w else st (Some h) E w)) as Herr.
  { intros msg d. eapply safe_bind; [apply in_use_error|]. intros []. by apply safe_ret. }
  revert k c. induction outs as [|o outs IH]; intros k c; cbn [bind_outputs]; [apply safe_ret; eauto|].
  assert (safe (in_use E i h (Stmt ps c b))
    (r ← on_stmt h (fun ps cols cur => Stmt ps (Nat.max cols (S k)) cur);
     if SQL_SUCCEEDED r then bind_outputs i h (S k) outs
     else db_set_error i (Some h) "Failed to bind output column";; mret false)
    (fun ok w => if ok : bool then exists c', in_use E i h (Stmt ps c' b) w else st (Some h) E w)) as HB.
  { eapply safe_bind; [by apply (on_stmt_safe E i h ps c b _ ps (Nat.max c (S k)) b)|]. cbn beta. intros r.
    destruct (SQL_SUCCEEDED r); [apply IH|apply Herr]. }
  destruct o; try exact HB. apply Herr.
Qed.

(** The common end of the functions without a callback. *)
Lemma cleanup_ran {A} (query : cstr) (params : list QueryParam) E (hstmt : option nat) (a : A) :
  safe (fun w => exists E', st hstmt E' w /\ ran query params E E') (db_cleanup_stmt hstmt;; mret a)
    (fun _ w => exists E', st None E' w /\ ran query params E E').
Proof.
  apply safe_ex. intros E' w [Hw Hr]. destruct (cleanup_safe E' hstmt w Hw) as ([] & w' & Ec & Hc).
  exists a, w'. unfold mbind, M_bind. rewrite Ec. split; [done|]. by exists E'.
Qed.

Lemma single_row_safe E (i : nat) (query : cstr) (params : list QueryParam) (outs : list OutParam) :
  safe (st None E) (db_query_single_row i query params outs)
    (fun _ w => exists E', st None E' w /\ ran query params E E').
Proof.
  unfold db_query_single_row. eapply safe_bind; [apply prepare_safe|]. cbn beta. intros [ok hstmt].
  apply (safe_bind _ _ _ (fun _ w => exists E', st hstmt E' w /\ ran query params E E'));
    [|intros a; apply cleanup_ran].
  destruct ok; [destruct hstmt as [h|]|]; [|by intros w []|].
  2:{ apply safe_ret. intros w Hw. exists E. split; [by destruct hstmt|by left]. }
  eapply safe_weaken; [apply (bound_runs E i h query params _ (fun E' _ w => st (Some h) E w \/ st (Some h) E' w))|done|].
  2:{ cbn beta. intros a w (x & Hx & [Hw|Hw]); [exists E|exists (E ++ [x])]; (split; [done|]); [by left|right].
      by exists x. }
  intros bs c b x _ Ex. rewrite Ex. set (E' := E ++ [(query, take (placeholders query) bs)]).
  assert (forall E0, E0 = E \/ E0 = E' -> forall a : bool * bool,
    safe (st (Some h) E0) (mret a) (fun _ w => st (Some h) E w \/ st (Some h) E' w)) as Hret.
  { intros E0 HE a. apply safe_ret. intros w Hw. destruct HE as [->| ->]; auto. }
  eapply safe_bind; [apply bind_outputs_safe|]. cbn beta. intros []; cbn [negb]; [|apply Hret; auto].
  apply safe_ex. intros c'. eapply safe_bind; [apply execute_safe|]. cbn beta zeta. fold E'.
  intros []; cbn [negb]; [|apply Hret; auto].
  eapply safe_bind; [apply call_at_safe|]. cbn beta. intros r.
  assert (forall msg, safe (at_stmt (Some h) E' i h) (db_set_error i (Some h) msg;; mret (false, false))
    (fun _ w => st (Some h) E w \/ st (Some h) E' w)) as Herr.
  { intros msg. eapply safe_bind; [apply stmt_error_safe|]. intros ?. apply Hret. auto. }
  destruct r; try apply Herr; (eapply safe_weaken; [apply (Hret E'); auto|by intros w []|done]).
Qed.

Lemma db_exec_safe E (i : nat) (query : option cstr) (params : list QueryParam) :
  safe (st None E) (db_exec i query params)
    (fun _ w => exists E', st None E' w /\ ran (default [] query) params E E').
Proof.
  unfold db_exec. destruct query as [query|]; cbn [default].
  2:{ apply safe_ret. intros w Hw. exists E. split; [done|by left]. }
  eapply safe_bind; [apply prepare_safe|]. cbn beta. intros [ok hstmt].
  apply (safe_bind _ _ _ (fun _ w => exists E', st hstmt E' w /\ ran query params E E'));
    [|intros a; apply cleanup_ran].
  destruct ok; [destruct hstmt as [h|]|]; [|by intros w []|].
  - eapply safe_weaken; [apply (bound_runs E i h query params _ (fun E' _ w => st (Some h) E' w))|done|].
    + intros bs c b x _ ->. eapply safe_weaken; [apply execute_safe|done|]. cbn beta.
      intros [] w Hw; [apply Hw|done].
    + cbn beta. intros a w (x & Hx & Hw). exists (E ++ [x]). split; [done|]. right. by exists x.
  - apply safe_ret. intros w Hw. exists E. split; [by destruct hstmt|by left].
Qed.

(** ** The life of a thread *)

(** A call of one of the public functions, with what the driver delivers. *)
Inductive operation :=
  | GetJson (db_id : nat) (query : cstr) (params : list QueryParam) (xs : list ncell) (complete : bool)
  | GetRs2json (db_id : nat) (query : cstr) (params : list QueryParam) (rs : resultset)
  | GetRs2jsonM (db_id : nat) (query : cstr) (params : list QueryParam) (sets : list resultset)
      (last_ok : bool)
  | SingleRow (db_id : nat) (query : cstr) (params : list QueryParam) (outs : list OutParam)
  | Exec (db_id : nat) (query : cstr) (params : list QueryParam).

Definition run (o : operation) : M unit :=
  match o with
  | GetJson i q ps xs c => db_get_json i q ps xs c [];; mret tt
  | GetRs2json i q ps rs => db_get_rs2json i q ps rs [];; mret tt
  | GetRs2jsonM i q ps sets l => db_get_rs2json_m i q ps sets l [];; mret tt
  | SingleRow i q ps outs => db_query_single_row i q ps outs;; mret tt
  | Exec i q ps => db_exec i (Some q) ps;; mret tt
  end.

Fixpoint run_all (os : list operation) : M unit :=
  match os with [] => mret tt | o :: os' => run o;; run_all os' end.

Definition op_query (o : operation) : cstr * list QueryParam :=
  match o with
  | GetJson _ q ps _ _ | GetRs2json _ q ps _ | GetRs2jsonM _ q ps _ _ | SingleRow _ q ps _ | Exec _ q ps =>
      (q, ps)
  end.

(** The result sets of a call have columns with names of at most 127 bytes and
    cells of the type of their column. *)
Definition op_good (o : operation) : Prop :=
  match o with
  | GetRs2json _ _ _ rs => good_resultset rs
  | GetRs2jsonM _ _ _ sets _ => (Z.of_nat (length sets) < 2 ^ 31 - 1)%Z /\ Forall good_resultset sets
  | _ => True
  end.

Definition fresh_thread : world :=
  World (replicate MAX_DB_CONNECTIONS None) (replicate MAX_DB_CONNECTIONS None) ∅ clear_thread_error 0 [] 0 [] ∅ [].

Lemma fresh_inv : inv None fresh_thread.
Proof.
  assert (forall i (h : nat), replicate MAX_DB_CONNECTIONS (None : option nat) !! i <> Some (Some h)) as Hn.
  { intros i h [? _]%lookup_replicate. done. }
  split; cbn [fresh_thread tl_hdbc tl_hstmt live]; try done; try (intros i j h Hi; by apply Hn in Hi);
    try (intros i h Hi; by apply Hn in Hi).
  intros h. rewrite lookup_empty. by intros [].
Qed.

Lemma run_safe (o : operation) E :
  length num_buf = 64%nat -> arenas mem -> op_good o ->
  safe (st None E) (run o)
    (fun _ w => exists E', st None E' w /\ ran (op_query o).1 (op_query o).2 E E').
Proof.
  intros Hb Hm HP.
  assert (forall rs, good_resultset rs -> printable rs) as HG
    by (intros rs Hrs ? ?; by apply resultset_total).
  assert (forall (fetch : fetch_cb) i q ps, fetch_safe fetch ->
    safe (st None E) (db_execute_and_fetch i q ps fetch [];; mret tt)
      (fun _ w => exists E', st None E' w /\ ran q ps E E')) as HF.
  { intros fetch i q ps Hf. eapply safe_bind; [by apply execute_and_fetch_safe|]. intros ?. apply safe_ret.
    intros w (E' & ? & ? & _). eauto. }
  destruct o; cbn [run op_query fst snd op_good] in *.
  - apply HF, fetch_native_safe.
  - apply HF. by apply fetch_set_safe, HG.
  - apply HF. destruct HP as [? HP]. apply fetch_jsonm_safe; [done|done|]. by eapply Forall_impl.
  - eapply safe_bind; [apply single_row_safe|]. intros ?. by apply safe_ret.
  - eapply safe_bind; [apply db_exec_safe|]. intros ?. by apply safe_ret.
Qed.

(** The connections below [k] are closed. *)
Definition closed_below (k : nat) (w : world) : Prop :=
  forall j h, (j < k)%nat -> tl_hdbc w !! j <> Some (Some h).

Lemma SQLFreeHandle_tables (h : nat) w w' :
  SQLFreeHandle h w = Some (tt, w') -> tl_hdbc w' = tl_hdbc w /\ tl_hstmt w' = tl_hstmt w.
Proof.
  unfold SQLFreeHandle, mbind, M_bind, call. destruct (live w !! h); [|done]. cbn [get].
  case_match; by intros [= <-].
Qed.

Lemma reset_closes E (k : nat) :
  (k < MAX_DB_CONNECTIONS)%nat ->
  safe (fun w => st None E w /\ closed_below k w) (db_reset_connection k)
    (fun _ w => st None E w /\ closed_below (S k) w).
Proof.
  intros Hk w [H Hc]. pose proof (reset_safe None E k w H) as ([] & w' & Er & H'). exists tt, w'.
  split; [done|]. split; [done|]. unfold db_reset_connection in Er.
  rewrite (proj2 (Nat.leb_gt _ _)) in Er by lia. unfold mbind, M_bind in Er. cbn [get] in Er.
  destruct (match slot (tl_hstmt w) k with
            | Some h => SQLFreeHandle h;; set_hstmt k None | None => mret tt end w) as [[[] w1]|] eqn:E1;
    unfold mbind, M_bind in E1; [|by rewrite E1 in Er].
  rewrite E1 in Er. assert (tl_hdbc w1 = tl_hdbc w) as Hw1.
  { destruct (slot (tl_hstmt w) k) as [h|]; [|by injection E1 as <-].
    destruct (SQLFreeHandle h w) as [[[] w2]|] eqn:E2; [|done].
    apply SQLFreeHandle_tables in E2 as [<- _]. by injection E1 as <-. }
  cbn [get] in Er. destruct (slot (tl_hdbc w1) k) as [h|] eqn:Hs.
  - destruct (call h w1) as [[r w2]|] eqn:E2; [|done].
    destruct (SQLFreeHandle h w2) as [[[] w3]|] eqn:E3; [|done].
    apply SQLFreeHandle_tables in E3 as [E3 _]. injection Er as <-. intros j x Hj. cbn [tl_hdbc].
    unfold call in E2. destruct (live w1 !! h); [|done]. injection E2 as _ <-. cbn [tl_hdbc] in E3.
    rewrite E3, Hw1. destruct (decide (j = k)) as [->|Hne].
    + destruct H as [I _]. rewrite list_lookup_insert_eq by (by rewrite (inv_hdbc_length _ _ I)). done.
    + rewrite list_lookup_insert_ne by done. apply Hc. lia.
  - injection Er as <-. intros j x Hj. destruct (decide (j = k)) as [->|Hne].
    + by apply slot_None.
    + rewrite Hw1. apply Hc. lia.
Qed.

(** With every connection closed, only what the driver refused to free is left. *)
Lemma closed_empty E w :
  st None E w -> closed_below MAX_DB_CONNECTIONS w -> forall h, is_Some (live w !! h) -> h ∈ refused w.
Proof.
  intros [I _] Hc h Hl. assert (forall j h, tl_hdbc w !! j <> Some (Some h)) as Hn.
  { intros j x Hj. apply (Hc j x); [|done]. apply lookup_lt_Some in Hj. by rewrite (inv_hdbc_length _ _ I) in Hj. }
  destruct (inv_owned _ _ I h Hl) as [|(j & [Hj|Hj])]; [done|by apply Hn in Hj|].
  destruct (inv_parent _ _ I j h Hj) as [c' Hc']. by apply Hn in Hc'.
Qed.

Lemma destructor_safe E :
  safe (st None E) tl_hdbc_destructor (fun _ w => forall h, is_Some (live w !! h) -> h ∈ refused w).
Proof.
  unfold tl_hdbc_destructor.
  assert (forall k, (k < MAX_DB_CONNECTIONS)%nat -> safe (fun w => st None E w /\ closed_below k w)
    (db_reset_connection k) (fun _ w => st None E w /\ closed_below (S k) w)) as HR
    by apply (reset_closes E).
  unfold MAX_DB_CONNECTIONS in HR.
  eapply safe_bind; [eapply safe_weaken; [apply (HR 0%nat); lia|by intros w Hw; split; [|intros ? ? ?; lia]|done]|].
  intros ?. eapply safe_bind; [apply (HR 1%nat); lia|]. intros ?.
  eapply safe_bind; [apply (HR 2%nat); lia|]. intros ?.
  eapply safe_weaken; [apply (HR 3%nat); lia|done|]. cbn beta. intros ? w [Hw Hc]. by eapply closed_empty.
Qed.

(** C25: the handles of a thread are used safely, whatever the driver answers. For
    every sequence of database calls of a thread and every answer of the driver at
    every call (failures, lost connections, reuse of handle values, and a refusal to
    free a handle or to reset a statement, which the code ignores), no call is ever
    made on a handle that was freed and none is freed twice; in between, every
    handle in the thread's tables is live, each is there once, and a live handle
    that is not there is one the driver refused to free; every statement that is
    kept is clean, without bound parameters, bound columns or an open cursor, unless
    the driver refused to reset it; each query that ran is one that was asked for,
    and its parameter markers got its own parameters, those left over from an
    earlier query coming after them; and when the thread ends, every handle is freed
    but those the driver refused to free. The result sets have columns with names of
    at most 127 bytes whose escaped keys have at most 255, with cells of their types
    ([good_resultset]): a longer name is read out of bounds
    ([DbJson.long_name_overreads]). What a driver that refused to reset a statement
    writes through its old bindings is not modelled. *)
Theorem db_thread_safe (os : list operation) :
  length num_buf = 64%nat -> arenas mem -> Forall op_good os ->
  exists w, run_all os fresh_thread = Some (tt, w) /\ inv None w
    /\ (forall x, x ∈ executed w -> exists o, o ∈ os /\ ran_as (op_query o).1 (op_query o).2 x)
    /\ exists w', tl_hdbc_destructor w = Some (tt, w')
      /\ forall h, is_Some (live w' !! h) -> h ∈ refused w'.
Proof.
  intros Hb Hm HP.
  assert (forall E, safe (st None E) (run_all os) (fun _ w => exists E', st None E' w
    /\ forall x, x ∈ E' -> x ∈ E \/ exists o, o ∈ os /\ ran_as (op_query o).1 (op_query o).2 x)) as HS.
  { induction HP as [|o os Ho HP IH]; intros E; cbn [run_all].
    - apply safe_ret. intros w Hw. exists E. split; [done|by left].
    - eapply safe_bind; [by apply (run_safe o E Hb Hm Ho)|]. cbn beta. intros ?. apply safe_ex. intros E1 w [Hw Hr].
      destruct (IH E1 w Hw) as ([] & w' & Ew & E' & Hw' & HE). exists tt, w'. split; [done|]. exists E'.
      split; [done|]. intros x Hq. destruct (HE x Hq) as [H1|(o' & Ho' & H1)].
      + destruct Hr as [->|(y & Hy & ->)]; [by left|].
        apply elem_of_app in H1 as [H1|H1]; [by left|right]. apply list_elem_of_singleton in H1 as ->.
        exists o. split; [apply elem_of_cons; by left|done].
      + right. exists o'. split; [apply elem_of_cons; by right|done]. }
  destruct (HS [] fresh_thread (conj fresh_inv eq_refl)) as ([] & w & Ew & E' & [I He] & HE).
  exists w. split; [done|]. split; [done|]. split.
  - intros x Hq. rewrite He in Hq. destruct (HE x Hq) as [H|H]; [by apply not_elem_of_nil in H|done].
  - destruct (destructor_safe E' w (conj I He)) as ([] & w' & Ed & Hl). by exists w'.
Qed.

(** ** The error object *)

(** The last application error (a native code of at least 50000) among the
    records. *)
Definition is_app (r : diag) : Prop := (50000 <= nativeError r)%Z.

Fixpoint last_app (rs : list diag) : option diag :=
  match rs with
  | [] => None
  | r :: rs' =>
      match last_app rs' with
      | Some x => Some x
      | None => if (50000 <=? nativeError r)%Z then Some r else None
      end
  end.

Definition app_error (r : diag) : Z * cstr :=
  (nativeError r, snprintf SQL_MAX_MESSAGE_LENGTH (clean_odbc_error_message (diag_msg r))).

Lemma last_app_app (rs rs' : list diag) :
  last_app (rs ++ rs') = match last_app rs' with Some r => Some r | None => last_app rs end.
Proof.
  induction rs as [|r rs IH]; cbn [app last_app]; [by destruct (last_app rs')|].
  rewrite IH. by destruct (last_app rs').
Qed.

Lemma fold_records (rs : list diag) (s : summary) :
  s_native (fold_left add_record rs s)
  = match last_app rs with Some r => Some (app_error r) | None => s_native s end.
Proof.
  revert s. induction rs as [|r rs IH]; intros s; [done|]. cbn [fold_left last_app]. rewrite IH.
  destruct (last_app rs); [done|]. cbn [add_record s_native]. by destruct (50000 <=? nativeError r)%Z.
Qed.

Lemma last_app_Some (rs : list diag) (r : diag) : last_app rs = Some r -> r ∈ rs /\ is_app r.
Proof.
  induction rs as [|x rs IH]; cbn [last_app]; [done|]. destruct (last_app rs) as [y|].
  - intros [= ->]. destruct IH; [done|]. split; [by apply elem_of_cons; right|done].
  - destruct (Z.leb_spec 50000 (nativeError x)); [|done]. intros [= ->]. split; [apply elem_of_cons; by left|done].
Qed.

Lemma last_app_last (pre post : list diag) (r : diag) :
  is_app r -> Forall (fun x => ~ is_app x) post -> last_app (pre ++ r :: post) = Some r.
Proof.
  intros Hr Hp. rewrite last_app_app. cbn [last_app].
  assert (last_app post = None) as ->.
  { destruct (last_app post) as [x|] eqn:E; [|done]. apply last_app_Some in E as [Hx Ha].
    by apply (proj1 (list.Forall_forall _ _) Hp) in Hx. }
  by rewrite (proj2 (Z.leb_le _ _) Hr).
Qed.

(** Since the call [t0], when [R0] had been read: the records read since then come
    from the driver, and the error variables hold the last application error
    among them. *)
Definition traced (t0 : nat) (R0 : list diag) (w : world) : Prop :=
  (t0 <= tick w)%nat /\ exists rs, reported w = R0 ++ rs
    /\ Forall (fun r => exists n, (t0 <= n <= tick w)%nat /\ r ∈ diagnostics n) rs
    /\ (tl_last_native_error w, tl_last_error_msg w)
       = match last_app rs with Some r => app_error r | None => (0%Z, []) end.

(** [m] keeps this up. *)
Definition keeps {A} (m : M A) : Prop :=
  forall t0 R0 w a w', traced t0 R0 w -> m w = Some (a, w') -> traced t0 R0 w'.

Lemma keeps_bind {A B} (m : M A) (k : A -> M B) : keeps m -> (forall a, keeps (k a)) -> keeps (m ≫= k).
Proof.
  intros Hm Hk t0 R0 w b w' Hw. unfold mbind, M_bind. destruct (m w) as [[a w1]|] eqn:E; [|done]. intros H.
  eapply Hk; [|exact H]. by eapply Hm.
Qed.

Lemma keeps_quiet {A} (m : M A) :
  (forall w a w', m w = Some (a, w') -> tl_last_error_msg w' = tl_last_error_msg w
     /\ tl_last_native_error w' = tl_last_native_error w /\ reported w' = reported w /\ (tick w <= tick w')%nat) ->
  keeps m.
Proof.
  intros H t0 R0 w a w' (Ht & rs & Hr & Hf & He) E. destruct (H w a w' E) as (E1 & E2 & E3 & E4).
  split; [lia|]. exists rs. rewrite E1, E2, E3. split_and!; [done| |done].
  eapply Forall_impl; [|exact Hf]. cbn beta. intros r (n & ? & ?). exists n. split; [lia|done].
Qed.

(** The basic steps leave the error variables alone. *)
Ltac quiet := apply keeps_quiet; intros ? ? ?;
  unfold mret, M_ret, get, set_hdbc, set_hstmt, set_live, set_error, log_query, refuse, call, advance, fault;
  repeat (case_match; [|done]);
  first [discriminate | intros [= <- <-]; cbn [tick]; split_and!; [done|done|done|lia]].

(** Walks through a computation. *)
Ltac keep :=
  repeat first
    [ assumption
    | solve [auto with apiserver]
    | match goal with |- keeps (_ ≫= _) => apply keeps_bind; [|intros ?] end
    | case_match
    | quiet ].

Lemma keeps_reset (i : nat) : keeps (db_reset_connection i).
Proof. unfold db_reset_connection, SQLFreeHandle. keep. Qed.

#[local] Hint Resolve keeps_reset : apiserver.

(** The records of a report, and what the code keeps of them. *)
Lemma keeps_records (k : list diag -> M unit) :
  (forall rs, keeps (k rs)) ->
  keeps (records ← read_records;
         (match s_native (fold_left add_record records (Summary None [] 0 false)) with
          | Some (n, msg) => set_native n msg | None => mret tt end);;
         k records).
Proof.
  intros Hk t0 R0 w [] w' (Ht & rs & Hr & Hf & He). unfold mbind, M_bind, read_records.
  rewrite fold_records. cbn [s_native]. intros E.
  apply (Hk (diagnostics (tick w)) t0 R0
    (World (tl_hdbc w) (tl_hstmt w) (live w) (tl_err w)
      (match last_app (diagnostics (tick w)) with Some r => (app_error r).1 | None => tl_last_native_error w end)
      (match last_app (diagnostics (tick w)) with Some r => (app_error r).2 | None => tl_last_error_msg w end)
      (tick w) (executed w) (refused w) (reported w ++ diagnostics (tick w))) tt w').
  - split; [done|]. exists (rs ++ diagnostics (tick w)). cbn [reported tick tl_last_native_error tl_last_error_msg].
    rewrite Hr, last_app_app, (assoc_L (++)). split; [done|]. split.
    + apply Forall_app. split; [done|]. apply list.Forall_forall. intros r Hin. exists (tick w). split; [lia|done].
    + by destruct (last_app (diagnostics (tick w))).
  - destruct (last_app (diagnostics (tick w))) as [r|]; exact E.
Qed.

Lemma keeps_set_error (i : nat) (h : option nat) (msg : string) : keeps (db_set_error i h msg).
Proof.
  enough (keeps (records ← read_records;
     (match s_native (fold_left add_record records (Summary None [] 0 false)) with
      | Some (n, m) => set_native n m | None => mret tt end);;
     (match h with Some h => call h;; mret tt | None => mret tt end);;
     let s := fold_left add_record records (Summary None [] 0 false) in
     match records with
     | [] => set_error (set_thread_error TL_ERR_ERROR (lit msg ++ lit " | Unknown ODBC Error"))
     | _ =>
         set_error (set_thread_error TL_ERR_ERROR (lit msg ++ lit " | ODBC Error: " ++ full_msg s));;
         if is_disconnect s then
           set_error (set_thread_error TL_ERR_ERROR
             (lit "Database connection lost. Resetting thread-local connection pool."));;
           db_reset_connection i
         else mret tt
     end)) as HK.
  { intros t0 R0 w [] w' Hw E. apply (HK t0 R0 w tt w' Hw). rewrite <- E. clear.
    unfold db_set_error, mbind, M_bind, read_records. destruct h as [h|]; [|done].
    unfold call. cbn [live]. destruct (s_native _) as [[n m]|]; cbn [set_native mret M_ret live];
      destruct (live w !! h); done. }
  apply (keeps_records (fun records => (match h with Some h => call h;; mret tt | None => mret tt end);; _)).
  intros records. cbv zeta. keep.
Qed.

#[local] Hint Resolve keeps_set_error : apiserver.

Lemma keeps_on_stmt h f : keeps (on_stmt h f).
Proof. unfold on_stmt. keep. Qed.

Lemma keeps_free_stmt h f : keeps (SQLFreeStmt h f).
Proof. unfold SQLFreeStmt. keep. Qed.

#[local] Hint Resolve keeps_on_stmt keeps_free_stmt : apiserver.

Lemma keeps_bind_params i h k ps : keeps (bind_params i h k ps).
Proof. revert k. induction ps as [|p ps IH]; intros k; cbn [bind_params]; unfold db_bind_param, SQLBindParameter; keep. Qed.

Lemma keeps_destroy h : keeps (metadata_destroy h).
Proof. unfold metadata_destroy. keep. Qed.

Lemma keeps_finish i h r : keeps (finish i h r).
Proof. unfold finish. keep. Qed.

#[local] Hint Resolve keeps_bind_params keeps_destroy keeps_finish : apiserver.

Lemma keeps_prepare i ps : keeps (db_prepare_and_bind i ps).
Proof.
  unfold db_prepare_and_bind, db_connect, alloc_hdbc, db_alloc_stmt, SQLAllocHandle. keep.
Qed.

Lemma keeps_fetch_set rs b i h out : keeps (fetch_set rs b i h out).
Proof. unfold fetch_set. keep. Qed.

#[local] Hint Resolve keeps_prepare keeps_fetch_set : apiserver.

Lemma keeps_jsonm sets last_ok idx has i h out : keeps (jsonm_loop sets last_ok idx has i h out).
Proof. revert idx has out. induction sets as [|rs sets IH]; intros idx has out; cbn [jsonm_loop]; keep. Qed.

#[local] Hint Resolve keeps_jsonm : apiserver.

Lemma keeps_native xs complete i h out : keeps (db_fetch_json_native xs complete i h out).
Proof. unfold db_fetch_json_native. keep. Qed.

Lemma keeps_jsonm_native sets last_ok i h out : keeps (db_fetch_jsonm_native sets last_ok i h out).
Proof. unfold db_fetch_jsonm_native. keep. Qed.

(** [m] does not touch the error variables. *)
Definition leaves {A} (m : M A) : Prop :=
  forall w a w', m w = Some (a, w') -> tl_last_error_msg w' = tl_last_error_msg w
    /\ tl_last_native_error w' = tl_last_native_error w /\ reported w' = reported w /\ (tick w <= tick w')%nat.

Lemma leaves_bind {A B} (m : M A) (k : A -> M B) :
  leaves m -> (forall a, leaves (k a)) -> leaves (m ≫= k).
Proof.
  intros Hm Hk w b w'. unfold mbind, M_bind. destruct (m w) as [[a w1]|] eqn:E; [|done]. intros H.
  destruct (Hm w a w1 E) as (<- & <- & <- & Ht). destruct (Hk a w1 b w' H) as (? & ? & ? & ?).
  split_and!; [done..|lia].
Qed.

Lemma leaves_cleanup (stmt : option nat) : leaves (db_cleanup_stmt stmt).
Proof.
  assert (forall h f, leaves (SQLFreeStmt h f)) as HF.
  { intros h f w [] w'. unfold SQLFreeStmt, mbind, M_bind, call, get. destruct (live w !! h) eqn:E; [|done].
    cbn [live]. rewrite E. destruct h0; [done|]. case_match; intros [= <-]; (split_and!; [done..|cbn [tick]; lia]). }
  unfold db_cleanup_stmt. apply leaves_bind; [by intros ? ? ? [= <- <-]|]. intros w0.
  destruct stmt as [h|]; [|by intros ? ? ? [= <- <-]].
  destruct (db_is_valid_stmt w0 (Some h)); [|by intros ? ? ? [= <- <-]]. auto using leaves_bind.
Qed.

Lemma error_object_flat (n : Z) (msg : cstr) :
  (0 <= n < 2 ^ 31)%Z ->
  snprintf 128 (lit "{`error-code`:" ++ dec_text n ++ lit ",`description`:")
    ++ quoted (msg ≫= escape_char) ++ lit "}"
  = flat_text [(lit "error-code", FInt n); (lit "description", FString (msg ≫= escape_char) msg)].
Proof.
  intros Hn. rewrite snprintf_fits.
  - unfold flat_text. cbn [flat_members flat_value]. by rewrite <- !(assoc_L (++)).
  - rewrite !length_app. pose proof (length_dec_text n). cbn. lia.
Qed.

(** The callbacks of the public functions. *)
Inductive fetcher : fetch_cb -> Prop :=
  | FetchNative xs complete : fetcher (db_fetch_json_native xs complete)
  | FetchRs rs : fetcher (db_fetch_rs2json rs)
  | FetchJsonm sets last_ok : fetcher (db_fetch_jsonm_native sets last_ok).

Lemma fetcher_keeps (fetch : fetch_cb) i h out : fetcher fetch -> keeps (fetch i h out).
Proof.
  intros []; [apply keeps_native|apply keeps_fetch_set|apply keeps_jsonm_native].
Qed.

Lemma bind_inv {A B} (m : M A) (k : A -> M B) w b w' :
  (m ≫= k) w = Some (b, w') -> exists a w1, m w = Some (a, w1) /\ k a w1 = Some (b, w').
Proof. unfold mbind, M_bind. destruct (m w) as [[a w1]|]; [eauto|done]. Qed.

(** ** What is cut off a message *)

(** [rest] is what remains of a message without its leading groups in square
    brackets, such as the names of the driver manager, the driver and the server,
    and the blanks after each. *)
Inductive unbracketed : cstr -> cstr -> Prop :=
  | Bare msg : (forall pre rest, msg <> "["%char :: pre ++ "]"%char :: rest) -> unbracketed msg msg
  | Group pre n msg rest :
      "]"%char ∉ pre -> head msg <> Some " "%char -> unbracketed msg rest ->
      unbracketed ("["%char :: pre ++ "]"%char :: replicate n " "%char ++ msg) rest.

Lemma skip_blanks_spec (s : cstr) :
  exists n, s = replicate n " "%char ++ skip_blanks s /\ head (skip_blanks s) <> Some " "%char.
Proof.
  induction s as [|c s (n & Hn & Hh)]; [by exists 0%nat|]. cbn [skip_blanks]. case_decide as Hc.
  - exists (S n). cbn [replicate app]. split; [|done]. by rewrite <- Hn, Hc.
  - exists 0%nat. split; [done|]. by intros [= ->].
Qed.

Lemma clean_unbracketed (msg : cstr) : unbracketed msg (clean_odbc_error_message msg).
Proof.
  unfold clean_odbc_error_message. generalize (Nat.le_refl (length msg)). generalize (length msg) at 2 3 as fuel.
  intros fuel. revert msg. induction fuel as [|fuel IH]; intros msg Hl.
  { destruct msg; [|by apply Nat.nle_succ_0 in Hl]. by apply Bare. }
  cbn [clean_loop]. destruct msg as [|c msg]; [by apply Bare|]. case_decide as Hc.
  2:{ apply Bare. intros ? ? [= ->]. done. }
  subst c. destruct (strchr ("["%char :: msg) "]"%char) as [[pre rest]|] eqn:E.
  - apply strchr_Some in E as [E Hp]. destruct pre as [|c pre]; [done|]. injection E as <- ->.
    destruct (skip_blanks_spec rest) as (n & En & Hh). rewrite En at 1. apply Group; [set_solver|done|].
    apply IH. cbn [length] in Hl. rewrite length_app in Hl. cbn [length] in Hl.
    apply (f_equal length) in En. rewrite length_app in En. lia.
  - apply Bare. intros pre rest [= ->]. apply strchr_None in E. set_solver.
Qed.

Lemma clean_length (msg : cstr) : (length (clean_odbc_error_message msg) <= length msg)%nat.
Proof.
  induction (clean_unbracketed msg) as [|pre n msg' rest _ _ _ IH]; [done|]. cbn [length].
  rewrite length_app. cbn [length]. rewrite length_app. lia.
Qed.

Lemma clean_no_nul (msg : cstr) : no_nul msg -> no_nul (clean_odbc_error_message msg).
Proof.
  induction (clean_unbracketed msg) as [|pre n msg' rest _ _ _ IH]; [done|].
  intros [_ H]%Forall_cons_iff. apply no_nul_app in H as [_ H]. apply Forall_cons_iff in H as [_ H].
  apply no_nul_app in H as [_ H]. auto.
Qed.

Lemma app_error_text (r : diag) :
  no_nul (message r) ->
  (app_error r).2 = clean_odbc_error_message (diag_msg r)
  /\ no_nul (app_error r).2 /\ (length (app_error r).2 < 512)%nat.
Proof.
  intros Hn. assert (length (diag_msg r) < 512)%nat as Hl.
  { unfold diag_msg, snprintf. rewrite length_take. unfold SQL_MAX_MESSAGE_LENGTH. lia. }
  pose proof (clean_length (diag_msg r)). cbn [app_error snd].
  rewrite snprintf_fits by (unfold SQL_MAX_MESSAGE_LENGTH; lia). split; [done|].
  split; [|lia]. apply clean_no_nul. by apply no_nul_take.
Qed.

(** A failed call leaves the error object in the output, when the database
    raised an application error. *)
Lemma error_object_text (fetch : fetch_cb) i query params out w text w' :
  fetcher fetch -> db_execute_and_fetch i query params fetch out w = Some ((false, text), w') ->
  exists rs, reported w' = reported w ++ rs
    /\ Forall (fun r => exists n, (tick w <= n <= tick w')%nat /\ r ∈ diagnostics n) rs
    /\ forall r, last_app rs = Some r ->
        text = flat_text
          [(lit "error-code", FInt (app_error r).1);
           (lit "description", FString ((app_error r).2 ≫= escape_char) (app_error r).2)].
Proof.
  intros Hf E. unfold db_execute_and_fetch in E.
  apply bind_inv in E as ([] & w1 & E1 & E). assert (traced (tick w) (reported w) w1) as G1.
  { injection E1 as <-. split; [done|]. exists []. by rewrite app_nil_r. }
  apply bind_inv in E as ([ok hstmt] & w2 & E2 & E).
  assert (traced (tick w) (reported w) w2) as G2 by (by eapply keeps_prepare).
  apply bind_inv in E as ([ok' out'] & w3 & E3 & E).
  assert (traced (tick w) (reported w) w3) as G3.
  { pose proof (fetcher_keeps fetch) as HK.
    destruct ok; [destruct hstmt as [h|]|]; try by injection E3 as <- <- <-.
    revert G2 E3. apply keeps_bind; [unfold SQLExecDirect; keep|]. intros r.
    destruct (SQL_SUCCEEDED r); [by apply HK|]. keep. }
  apply bind_inv in E as (w4 & w5 & [= <- <-] & E). apply bind_inv in E as ([] & w6 & E6 & E).
  destruct (leaves_cleanup hstmt _ _ _ E6) as (Em & En & Er & Et). injection E as -> <- <-.
  destruct G3 as (Ht & rs & HR & Hrs & He). exists rs. rewrite Er. split; [done|]. split.
  { eapply Forall_impl; [|exact Hrs]. cbn beta. intros r (n & ? & ?). exists n. split; [lia|done]. }
  intros r Hr. rewrite Hr in He. injection He as He1 He2. apply last_app_Some in Hr as [Hin Ha].
  apply (proj1 (list.Forall_forall _ _) Hrs) in Hin as (n & _ & Hin).
  pose proof (proj1 (list.Forall_forall _ _) (diagnostics_text n) r Hin) as [Hno Hb].
  destruct (app_error_text r Hno) as (_ & Hn & Hl). change (app_error r).1 with (nativeError r).
  unfold is_app in Ha. rewrite He1, He2, (proj2 (Z.leb_le _ _) Ha). cbn [negb andb].
  change (snprintf SQL_MAX_MESSAGE_LENGTH (clean_odbc_error_message (diag_msg r))) with (app_error r).2.
  rewrite evbuffer_append_escaped_str_ok, take_ge by done.
  rewrite <- (assoc_L (++)). apply error_object_flat. lia.
Qed.


(** ** Several result sets *)

(** A result set the driver delivers whole. *)
Definition delivered (ds : list (coldesc * bool)) (rows : list (list cell)) : resultset :=
  Resultset true (all_described ds) true true rows true.

Definition good_set (s : list (coldesc * bool) * list (list cell)) : Prop :=
  (length s.1 <= Z.to_nat 32767)%nat /\ Forall good_column s.1.*1
  /\ Forall (Forall2 cell_fits s.1.*1) s.2.

(** The members [rN]; a statement without columns has none and no number. *)
Fixpoint members (idx : Z) (sets : list (list (coldesc * bool) * list (list cell))) : list (list char) :=
  match sets with
  | [] => []
  | ([], _) :: sets' => members idx sets'
  | (ds, rows) :: sets' =>
      (lit "`r" ++ dec_text idx ++ lit "`:[" ++ rows_text ds.*1 rows ++ lit "]") :: members (idx + 1) sets'
  end.

(** The document: an object with a member for every result set with columns, or
    an empty array. *)
Definition jsonm_text (sets : list (list (coldesc * bool) * list (list cell))) : list char :=
  match members 1 sets with
  | [] => lit "[]"
  | ms => lit "{" ++ commas ms ++ lit "}"
  end.

(** The statement [h] is live. *)
Definition stmt_live (h : nat) (w : world) : Prop := exists ps c b, live w !! h = Some (Stmt ps c b).

Lemma call_live (h : nat) : safe (stmt_live h) (call h) (fun _ => stmt_live h).
Proof. intros w (ps & c & b & H). unfold call. rewrite H. eexists _, _. split; [done|]. by exists ps, c, b. Qed.

Lemma destroy_live (h : nat) : safe (stmt_live h) (metadata_destroy h) (fun _ => stmt_live h).
Proof.
  unfold metadata_destroy. apply safe_get. intros w0 Hw0. eapply safe_weaken with (P' := stmt_live h);
    [|by intros ? ->|by intros ? ? H; exact H].
  destruct (db_is_valid_stmt w0 (Some h)); [|by apply safe_ret].
  eapply safe_bind; [apply call_live|]. intros r. apply safe_get. intros w (ps & c & b & H) w' ->. rewrite H.
  destruct (SQL_SUCCEEDED r); (eexists _, _; split; [done|]); eexists _, _, _; [apply lookup_insert_eq|exact H].
Qed.

Lemma fetch_set_live (ds : list (coldesc * bool)) (rows : list (list cell)) (i h : nat) (out : list char) :
  length num_buf = 64%nat -> memory mem -> ds <> [] -> good_set (ds, rows) ->
  safe (stmt_live h) (fetch_set (delivered ds rows) false i h out)
    (fun r w => r = (true, out ++ rows_text ds.*1 rows) /\ stmt_live h w).
Proof.
  intros Hb Hm Hne (Hl & Hg & Hr). unfold fetch_set. apply safe_get. intros w0 (ps & c & b & H). rewrite H.
  eapply safe_bind with (Q := fun _ => stmt_live h).
  { intros w ->. eexists _, _. split; [done|]. eexists _, _, _. apply lookup_insert_eq. }
  intros []. eapply safe_bind; [apply call_live|]. intros r.
  destruct (fetch_resultset_ok num_buf out mem ds rows true Hb Hm Hne Hl Hg Hr) as [_ E].
  fold (delivered ds rows) in E. rewrite E. cbn [finish]. eapply safe_bind with (Q := fun r w => r =
    (true, out ++ rows_text ds.*1 rows) /\ stmt_live h w); [by apply safe_ret|].
  intros r'. apply safe_pure. intros ->.
  eapply safe_bind with (Q := fun _ => stmt_live h); [|intros ?; by apply safe_ret].
  apply safe_if; intros _; [apply destroy_live|by apply safe_ret].
Qed.

Definition jsonm_rest (idx : Z) (has : bool) (sets : list (list (coldesc * bool) * list (list cell)))
    : list char :=
  match members idx sets with
  | [] => if has then lit "}" else lit "[]"
  | ms => (if has then lit "," else lit "{") ++ commas ms ++ lit "}"
  end.

Lemma jsonm_live (sets : list (list (coldesc * bool) * list (list cell))) (idx : Z) (has : bool)
    (i h : nat) (out : list char) :
  length num_buf = 64%nat -> memory mem -> Forall good_set sets ->
  (1 <= idx)%Z -> (idx + Z.of_nat (length sets) < 2 ^ 31)%Z ->
  safe (stmt_live h) (jsonm_loop (uncurry delivered <$> sets) true idx has i h out)
    (fun r w => r = (true, out ++ jsonm_rest idx has sets) /\ stmt_live h w).
Proof.
  intros Hb Hm H. revert idx has out. induction H as [|[ds rows] sets Hs _ IH]; intros idx has out Hi Hx.
  - apply safe_ret. done.
  - rewrite fmap_cons. cbn [uncurry jsonm_loop length] in *.
    change (columns (delivered ds rows)) with (all_described ds). destruct ds as [|d ds].
    + cbn [all_described fmap list_fmap length Nat.ltb Nat.leb].
      eapply safe_bind; [apply call_live|]. intros ?. apply IH; lia.
    + change (0 <? length (all_described (d :: ds)))%nat with true. cbv iota.
      destruct (fast_itoa_text idx Hb ltac:(lia)) as (digits & len & -> & ->).
      eapply safe_bind; [by apply fetch_set_live|]. cbn beta. intros r. apply safe_pure. intros ->.
      eapply safe_bind; [apply call_live|]. intros ?.
      eapply safe_weaken; [apply IH; lia|done|]. cbn beta. intros r w [-> Hw]. split; [|done]. f_equal.
      unfold jsonm_rest. change (members idx ((d :: ds, rows) :: sets)) with
        ((lit "`r" ++ dec_text idx ++ lit "`:[" ++ rows_text (d :: ds).*1 rows ++ lit "]") :: members (idx + 1) sets).
      destruct (members (idx + 1) sets) as [|m ms]; cbn [commas]; by rewrite <- !(assoc_L (++)).
Qed.

(** C31: a batch of result sets becomes one document. For every list of fewer than
    2^31 - 1 result sets (statements without columns between them included) that
    the driver delivers whole, with at most 32767 columns each, column names of
    at most 127 bytes whose escaped keys have at most 255, and cells of the types
    of their columns ([good_set]), and when memory can be had,
    [db_fetch_jsonm_native] returns true and appends an object whose members
    [r1], [r2], ... are the arrays of the rows of the sets with columns, numbered
    without gaps in their order, or an empty array if there are none; the
    statement is still live. *)
Theorem jsonm_document (sets : list (list (coldesc * bool) * list (list cell))) (i h : nat)
    (out : list char) (w : world) :
  length num_buf = 64%nat -> memory mem -> Forall good_set sets ->
  (Z.of_nat (length sets) < 2 ^ 31 - 1)%Z -> stmt_live h w ->
  exists w', db_fetch_jsonm_native (uncurry delivered <$> sets) true i h out w
      = Some ((true, out ++ jsonm_text sets), w')
    /\ stmt_live h w'.
Proof.
  intros Hb Hm Hs Hl Hw. unfold db_fetch_jsonm_native.
  destruct (safe_bind _ _ (fun _ => jsonm_loop (uncurry delivered <$> sets) true 1 false i h out) _ _
    (call_live h) (fun _ => jsonm_live sets 1 false i h out Hb Hm Hs ltac:(lia) ltac:(lia)) w Hw)
    as (r & w' & E & -> & Hw'). by exists w'.
Qed.

End Queries.

(** ** Concrete applications *)

(** A driver that accepts every call but one, for which it raises an
    application error. *)
Definition sample_driver (refused : nat) : Odbc := {|
  new_handle m := fresh (map_to_list m).*1;
  answer n := if decide (n = refused) then SQL_ERROR else SQL_SUCCESS;
  diagnostics n := [Diag (lit "42000") 50001 (lit "[Microsoft][ODBC Driver 18] no `stock`")];
|}.

Lemma sample_driver_laws (refused : nat) : OdbcLaws (sample_driver refused).
Proof.
  split.
  - intros m. change (m !! fresh (map_to_list m).*1 = None).
    destruct (m !! _) as [s|] eqn:E; [|done]. exfalso.
    apply (infinite_is_fresh (map_to_list m).*1), list_elem_of_fmap.
    exists (fresh (map_to_list m).*1, s). split; [done|]. by apply elem_of_map_to_list.
  - intros n. constructor; [|constructor]. split; [|done]. apply (bool_decide_unpack _). by vm_compute.
Qed.

Definition sample_config : Config.config :=
  Config.apply_initial_config_vars [(lit "DB_0", lit "Driver=X")] Config.initial_config.

Definition sample_query : cstr := lit "{call sp(?)}".

Lemma db_thread_safe_witness :
  exists w, run_all (Drv := sample_driver 9) sample_config (replicate 64 NUL) zeroed
    [GetRs2json 0 sample_query [PARAM_INT (Some 3%Z)]
       (Resultset true (all_described sample_columns) true true sample_rows true);
     Exec 0 sample_query [PARAM_STRING None]] fresh_thread = Some (tt, w).
Proof.
  destruct (db_thread_safe (Laws := sample_driver_laws 9) sample_config (replicate 64 NUL) zeroed
    [GetRs2json 0 sample_query [PARAM_INT (Some 3%Z)]
       (Resultset true (all_described sample_columns) true true sample_rows true);
     Exec 0 sample_query [PARAM_STRING None]]) as (w & Hw & _).
  - reflexivity.
  - intros n arena [= <-]. rewrite length_replicate. lia.
  - constructor; [|repeat constructor]. split; [cbn; lia|]. split; repeat constructor; cbn; lia.
  - exists w. exact Hw.
Defined.

(** The execution of the query is refused. *)
Definition sample_set : resultset := Resultset true (all_described sample_columns) true true sample_rows true.

Definition sample_failure : option ((bool * list char) * world) :=
  db_execute_and_fetch (Drv := sample_driver 7) sample_config 0 sample_query [PARAM_INT (Some 3%Z)]
    (db_fetch_rs2json (Drv := sample_driver 7) (replicate 64 NUL) zeroed sample_set) (lit "old") fresh_thread.

Definition sample_text : list char := lit "{`error-code`:50001,`description`:`no \`stock\``}".
Definition sample_world : world := default fresh_thread (snd <$> sample_failure).

Lemma sample_failure_ok : sample_failure = Some ((false, sample_text), sample_world).
Proof. vm_compute. reflexivity. Qed.

Lemma sample_record : reported sample_world
  = reported fresh_thread ++ [] ++ [Diag (lit "42000") 50001 (lit "[Microsoft][ODBC Driver 18] no `stock`")].
Proof. vm_compute. reflexivity. Qed.


Lemma jsonm_document_witness :
  exists w', db_fetch_jsonm_native (Drv := sample_driver 7) (replicate 64 NUL) zeroed
      (uncurry delivered <$> [(sample_columns, sample_rows); ([], []); (sample_columns, [])]) true 0 1
      (lit "x") (World [] [] {[1%nat := clean]} clear_thread_error 0 [] 0 [] ∅ [])
    = Some ((true, lit "x{`r1`:[{`id`:7,`name`:`a\`b\\`},{`id`:-12,`name`:null}],`r2`:[]}"), w').
Proof.
  destruct (jsonm_document (Drv := sample_driver 7) (replicate 64 NUL) zeroed
    [(sample_columns, sample_rows); ([], []); (sample_columns, [])] 0 1 (lit "x")
    (World [] [] {[1%nat := clean]} clear_thread_error 0 [] 0 [] ∅ [])) as (w' & E & _).
  - reflexivity.
  - intros n. eexists. split; [reflexivity|]. rewrite length_replicate. lia.
  - constructor; [|constructor; [|constructor; [|constructor]]]; (split; [cbn; lia|]);
      split; repeat constructor; cbn; lia.
  - cbn. lia.
  - eexists _, _, _. apply lookup_insert_eq.
  - exists w'. rewrite E. vm_compute. reflexivity.
Defined.

Lemma native_json_whole_witness :
  native_rows [NCell (Some (replicate 5000 "x"%char)) true None; NCell None true None] true [] false false
  = Some (None, [] ++ native_text [Some (replicate 5000 "x"%char); None]).
Proof.
  apply (native_json_whole
    [NCell (Some (replicate 5000 "x"%char)) true None; NCell None true None] []).
  repeat constructor.
Defined.

End DbApi.
