(* ===== verification/HttpClient.v ===== *)
(** * lib/http_client.c: the HTTP client

    The thread's libcurl handle is the map of the options set on it, because the
    handle outlives a request and the code must reset it.  The answer of a server,
    the allocator and the failures of libcurl are arguments ([network]).  The
    buffer that collects the answer is kept byte by byte, and a write outside it
    is [None]. *)

From S2P Require Import Prelude JsonUtil JsonC ThreadState.
Import ThreadState.

Module HttpClient.

Definition HTTP_CLIENT_CHUNK_SIZE : nat := 4 * 1024.
Definition HTTP_INTERNAL : Z := 500.
Definition HTTP_SERVUNAVAIL : Z := 503.

(** [struct memory_struct] *)
Record memory_struct := Memory { memory : option (list char); size : Z; capacity : Z }.

(** ** The handle *)

Inductive optval := Long (z : Z) | Str (s : cstr) | Slist (l : list cstr) | Pointer (set : bool).

Abbreviation handle := (gmap string optval).

Definition curl_easy_reset (h : handle) : handle := ∅.

(** What the outside does during one request: whether a handle and memory can be
    had, which options libcurl accepts, how the buffer grows (the bytes that are added, whatever they are), and
    what comes back for the options of the request: the pieces of the body, an
    error with its details, and the status. *)
Record network := Network {
  init_ok : bool;
  first_memory : option (list char);
  headers_ok : nat -> bool;
  setopt_ok : string -> bool;
  grow : nat -> option (list char);
  answer : handle -> list (list char) * option (cstr * cstr) * Z;
  write_error : cstr * cstr;
}.

(** The options whose values libcurl copies, which can fail for want of memory. *)
Definition COPIED : list string := ["CURLOPT_URL"; "CURLOPT_COPYPOSTFIELDS"; "CURLOPT_USERAGENT"]%string.

(** The allocator gives as many bytes as it was asked for, and libcurl (built with
    HTTP and TLS) accepts the options that it only stores. *)
Definition network_ok (n : network) : Prop :=
  (forall m, first_memory n = Some m -> length m = HTTP_CLIENT_CHUNK_SIZE)
  /\ (forall k extra, grow n k = Some extra -> length extra = k)
  /\ (forall option, setopt_ok n option = false -> option ∈ COPIED).

(** The thread: its handle, its error and the requests it has sent. *)
Record client := Client { curl : option handle; err : thread_error; sent : list handle }.

Definition set_curl (h : handle) (c : client) : client := Client (Some h) (err c) (sent c).
Definition set_err (msg : cstr) (c : client) : client :=
  Client (curl c) (set_thread_error TL_ERR_ERROR msg) (sent c).

(** ** The buffer of the answer *)

Section Requests.
Context `{J : JsonC} (n : network) (max_payload : Z).

(** [curl_easy_setopt]: an option that libcurl does not accept keeps the value it
    had. The code never looks at the answer. *)
Definition curl_easy_setopt (option : string) (v : optval) (h : handle) : handle :=
  if setopt_ok n option then <[option := v]> h else h.

(** [apply_curl_defaults] *)
Definition apply_curl_defaults (h : handle) : handle :=
  curl_easy_setopt "CURLOPT_FOLLOWLOCATION" (Long 0)
  (curl_easy_setopt "CURLOPT_PROTOCOLS_STR" (Str (lit "https,http"))
  (curl_easy_setopt "CURLOPT_SSLVERSION" (Str (lit "CURL_SSLVERSION_TLSv1_2|CURL_SSLVERSION_MAX_DEFAULT"))
  (curl_easy_setopt "CURLOPT_USERAGENT" (Str (lit "evhttp-apiserver/1.0"))
  (curl_easy_setopt "CURLOPT_SSL_VERIFYHOST" (Long 2)
  (curl_easy_setopt "CURLOPT_SSL_VERIFYPEER" (Long 1)
  (curl_easy_setopt "CURLOPT_CONNECTTIMEOUT" (Long 5)
  (curl_easy_setopt "CURLOPT_TIMEOUT" (Long 10)
  (curl_easy_setopt "CURLOPT_NOSIGNAL" (Long 1)
  (curl_easy_setopt "CURLOPT_WRITEFUNCTION" (Pointer true)
  (curl_easy_setopt "CURLOPT_TCP_KEEPINTVL" (Long 60)
  (curl_easy_setopt "CURLOPT_TCP_KEEPIDLE" (Long 120)
  (curl_easy_setopt "CURLOPT_TCP_KEEPALIVE" (Long 1) h)))))))))))).

(** [get_thread_curl] *)
Definition get_thread_curl (c : client) : option handle * client :=
  match curl c with
  | Some h => (Some h, c)
  | None =>
      if init_ok n then let h := apply_curl_defaults ∅ in (Some h, set_curl h c) else (None, c)
  end.

(** [write_memory_cb]: what it answers to libcurl, the buffer and the error. *)
Definition write_memory_cb (contents : list char) (sz nmemb : Z) (mem : memory_struct) (e : thread_error)
    : option (Z * memory_struct * thread_error) :=
  if negb (nmemb =? 0)%Z && (SIZE_MAX / nmemb <? sz)%Z then Some (0%Z, mem, e) else
  let realsize := (sz * nmemb)%Z in
  match ckd_add (size mem) realsize with
  | None => Some (0%Z, mem, e)
  | Some new_size =>
      if (max_payload <? new_size)%Z then Some (0%Z, mem, e) else
      match ckd_add new_size 1 with
      | None => Some (0%Z, mem, e)
      | Some req_cap =>
          let grown :=
            if (capacity mem <? req_cap)%Z then
              let new_cap := default req_cap (ckd_mul (capacity mem) 2) in
              let new_cap := if (new_cap <? req_cap)%Z then req_cap else new_cap in
              match grow n (Z.to_nat (new_cap - capacity mem)) with
              | None => None
              | Some extra => Some (Memory (Some (default [] (memory mem) ++ extra)) (size mem) new_cap)
              end
            else Some mem in
          match grown with
          | None =>
              Some (0%Z, Memory None 0 0,
                    set_thread_error TL_ERR_ERROR (lit "Out of memory in HTTP client write callback"))
          | Some mem =>
              m ← memory mem;
              m ← memcpy_at m (Z.to_nat (size mem)) contents;
              m ← put m (Z.to_nat new_size) NUL;
              Some (realsize, Memory (Some m) new_size (capacity mem), e)
          end
      end
  end.

(** The pieces are handed to the callback in order; a piece it does not take whole
    ends the transfer with an error. *)
Fixpoint deliver (pieces : list (list char)) (mem : memory_struct) (e : thread_error)
    : option (bool * memory_struct * thread_error) :=
  match pieces with
  | [] => Some (true, mem, e)
  | p :: pieces' =>
      r ← write_memory_cb p 1 (Z.of_nat (length p)) mem e;
      let '(taken, mem, e) := r : Z * memory_struct * thread_error in
      if (taken =? Z.of_nat (length p))%Z then deliver pieces' mem e else Some (false, mem, e)
  end.

(** [curl_easy_perform]: a handle without an address sends nothing. *)
Definition goes_out (h : handle) : list handle :=
  match h !! "CURLOPT_URL"%string with Some _ => [h] | None => [] end.

Definition curl_easy_perform (h : handle) (mem : memory_struct) (e : thread_error)
    : option (option (cstr * cstr) * memory_struct * thread_error) :=
  match goes_out h with
  | [] => Some (Some (lit "URL using bad/illegal format or missing URL", lit "No URL set"), mem, e)
  | _ =>
      let '(pieces, failure, _) := answer n h in
      r ← deliver pieces mem e;
      let '(ok, mem, e) := r : bool * memory_struct * thread_error in
      Some (if ok : bool then failure else Some (write_error n), mem, e)
  end.

(** ** Requests *)

(** [build_request_url]; [None] is the answer [false]. *)
Definition build_request_url (base_url uri : option cstr) (max_len : nat) : option cstr :=
  match base_url, uri with
  | None, None => None
  | _, _ =>
      let text := default [] base_url ++ default [] uri in
      if (length text <? max_len)%nat then Some text else None
  end.

(** The loop of [setup_curl_request] over the headers: the list so far, and
    whether all could be appended. *)
Fixpoint append_headers (i : nat) (headers : list cstr) (acc : list cstr) : bool * list cstr :=
  match headers with
  | [] => (true, acc)
  | x :: headers' => if headers_ok n i then append_headers (S i) headers' (acc ++ [x]) else (false, acc)
  end.

(** [setup_curl_request]: whether there is a handle to use, the buffer and the
    thread. *)
Definition setup_curl_request (url : cstr) (body : option cstr) (headers : list cstr)
    (chunk : memory_struct) (c : client) : bool * memory_struct * client :=
  match get_thread_curl c with
  | (None, c) => (false, chunk, c)
  | (Some h, c) =>
      let h := apply_curl_defaults (curl_easy_reset h) in
      match first_memory n with
      | None =>
          (false, Memory None (size chunk) (capacity chunk),
           set_err (lit "Out of memory allocating initial chunk memory in do_http_request") (set_curl h c))
      | Some m =>
          let chunk := Memory (Some (<[0%nat := NUL]> m)) 0 (Z.of_nat HTTP_CLIENT_CHUNK_SIZE) in
          let h := curl_easy_setopt "CURLOPT_URL" (Str url) h in
          let h := curl_easy_setopt "CURLOPT_WRITEDATA" (Pointer true) h in
          let h := match body with
                   | Some b => curl_easy_setopt "CURLOPT_POST" (Long 1)
                                 (curl_easy_setopt "CURLOPT_COPYPOSTFIELDS" (Str b) h)
                   | None => curl_easy_setopt "CURLOPT_HTTPGET" (Long 1) h
                   end in
          match append_headers 0 headers [] with
          | (false, _) =>
              (false, chunk,
               set_err (lit "Out of memory allocating curl headers")
                 (set_curl (curl_easy_setopt "CURLOPT_WRITEDATA" (Pointer false) h) c))
          | (true, l) => (true, chunk, set_curl (curl_easy_setopt "CURLOPT_HTTPHEADER" (Slist l) h) c)
          end
      end
  end.

(** The text of a [char] array with at least one byte. *)
Definition or_text (s : cstr) (other : string) : cstr := match s with [] => lit other | _ => s end.

(** [perform_http_request]: its answer, the buffer, [*out_http_code] and the
    thread. *)
Definition perform_http_request (base_url uri : option cstr) (body : option cstr) (headers : list cstr)
    (chunk : memory_struct) (out_http_code : Z) (c : client)
    : option (bool * memory_struct * Z * client) :=
  match build_request_url base_url uri 1024 with
  | None => Some (false, chunk, HTTP_INTERNAL, set_err (lit "URL truncation error") c)
  | Some url =>
      let '(ready, chunk, c) := setup_curl_request url body headers chunk c in
      match ready, curl c with
      | true, Some h =>
          let h := curl_easy_setopt "CURLOPT_ERRORBUFFER" (Pointer true) h in
          r ← curl_easy_perform h chunk (err c);
          let '(failure, chunk, e) := r : option (cstr * cstr) * memory_struct * thread_error in
          let c := Client (Some (curl_easy_setopt "CURLOPT_WRITEDATA" (Pointer false)
                            (curl_easy_setopt "CURLOPT_ERRORBUFFER" (Pointer false)
                            (curl_easy_setopt "CURLOPT_HTTPHEADER" (Slist []) h)))) e (sent c ++ goes_out h) in
          match failure with
          | Some (msg, details) =>
              Some (false, chunk, HTTP_SERVUNAVAIL,
                    set_err (lit "libcurl network failure: " ++ msg ++ lit " (" ++ or_text details "no details"
                             ++ lit ") | URL: " ++ url) c)
          | None =>
              let http_code := snd (answer n h) in
              let c :=
                if (400 <=? http_code)%Z then
                  let trunc_body := match memory chunk with Some m => snprintf 256 (c_str m) | None => [] end in
                  set_err (lit "HTTP " ++ dec_text http_code ++ lit " from " ++ url ++ lit " | Response: "
                           ++ or_text trunc_body "<empty>") c
                else c in
              Some (true, chunk, http_code, c)
          end
      | _, _ => Some (false, chunk, out_http_code, c)
      end
  end.

Definition empty_memory : memory_struct := Memory None 0 0.

(** The text the two public functions below look at: none unless the request
    was performed and something arrived. *)
Definition received (ok : bool) (chunk : memory_struct) : option cstr :=
  if ok && (0 <? size chunk)%Z then c_str <$> memory chunk else None.

(** [do_http_request] *)
Definition do_http_request (base_url uri : option cstr) (body : option cstr) (headers : list cstr)
    (out_http_code : Z) (c : client) : option (option jobj * Z * client) :=
  r ← perform_http_request base_url uri body headers empty_memory out_http_code c;
  let '(ok, chunk, code, c) := r : bool * memory_struct * Z * client in
  Some (match received ok chunk with Some s => json_tokener_parse s | None => None end, code, c).

(** [http_client_get_json], [http_client_post_json] *)
Definition http_client_get_json (base_url uri : option cstr) (headers : list cstr) (out_http_code : Z)
    (c : client) : option (option jobj * Z * client) :=
  do_http_request base_url uri None headers out_http_code c.

Definition http_client_post_json (base_url uri : option cstr) (body : option cstr) (headers : list cstr)
    (out_http_code : Z) (c : client) : option (option jobj * Z * client) :=
  do_http_request base_url uri body headers out_http_code c.

(** [http_client_post_raw] *)
Definition http_client_post_raw (base_url uri : option cstr) (body : option cstr) (headers : list cstr)
    (out_http_code : Z) (c : client) : option (option cstr * Z * client) :=
  r ← perform_http_request base_url uri body headers empty_memory out_http_code c;
  let '(ok, chunk, code, c) := r : bool * memory_struct * Z * client in
  Some (received ok chunk, code, c).

(** [http_client_init_thread], [http_client_cleanup_thread] *)
Definition http_client_init_thread (c : client) : client := (get_thread_curl c).2.
Definition http_client_cleanup_thread (c : client) : client := Client None (err c) (sent c).

(** ** The buffer holds what arrived *)

Hypothesis Hn : network_ok n.
Hypothesis Hmax : (0 <= max_payload < SIZE_MAX)%Z.

(** The buffer holds [text], terminated, within its capacity. *)
Definition holds (mem : memory_struct) (text : list char) : Prop :=
  exists rest, mem = Memory (Some (text ++ NUL :: rest)) (Z.of_nat (length text))
                       (Z.of_nat (length text + S (length rest)))
    /\ (Z.of_nat (length text) <= max_payload)%Z.

(** Storing a piece and the terminator behind what is there. *)
Lemma store_piece (text rest piece : list char) :
  (length piece <= length rest)%nat ->
  memcpy_at (text ++ NUL :: rest) (length text) piece ≫= (fun m => put m (length text + length piece) NUL)
  = Some (text ++ piece ++ NUL :: drop (length piece) rest).
Proof.
  intros Hl. destruct (lookup_lt_is_Some_2 (NUL :: rest) (length piece)) as [x Hx]; [simpl; lia|].
  rewrite <- (take_drop_middle _ _ _ Hx). rewrite memcpy_at_spec by (rewrite length_take; simpl; lia).
  cbn [mbind option_bind drop]. unfold put. rewrite decide_True by (rewrite !length_app; simpl; lia).
  f_equal. rewrite insert_app_r. f_equal. rewrite <- (Nat.add_0_r (length piece)) at 1.
  by rewrite insert_app_r.
Qed.

Lemma write_memory_ok (piece text : list char) (mem : memory_struct) (e : thread_error) :
  holds mem text ->
  exists taken mem' e', write_memory_cb piece 1 (Z.of_nat (length piece)) mem e = Some (taken, mem', e')
    /\ ((taken = Z.of_nat (length piece) /\ holds mem' (text ++ piece) /\ e' = e)
        \/ (taken = 0%Z /\ piece <> []
            /\ ((exists k, grow n k = None) \/ (max_payload < Z.of_nat (length (text ++ piece)))%Z))).
Proof.
  intros (rest & -> & Hl). unfold write_memory_cb. cbn [size capacity memory].
  assert (piece <> [] -> (max_payload < Z.of_nat (length (text ++ piece)))%Z ->
    exists taken mem' e', Some (0%Z, Memory (Some (text ++ NUL :: rest)) (Z.of_nat (length text))
       (Z.of_nat (length text + S (length rest))), e) = Some (taken, mem', e')
    /\ ((taken = Z.of_nat (length piece) /\ holds mem' (text ++ piece) /\ e' = e)
        \/ (taken = 0%Z /\ piece <> []
            /\ ((exists k, grow n k = None) \/ (max_payload < Z.of_nat (length (text ++ piece)))%Z)))) as HF.
  { intros H1 H2. eexists _, _, _. split; [done|]. right. auto. }
  destruct (decide (piece = [])) as [->|Hp].
  - cbn [length]. change (1 * Z.of_nat 0)%Z with 0%Z. change (negb (Z.of_nat 0 =? 0)%Z) with false.
    cbn [andb]. unfold ckd_add. rewrite Z.add_0_r.
    rewrite (proj2 (Z.leb_le (Z.of_nat (length text)) SIZE_MAX)) by lia.
    rewrite (proj2 (Z.ltb_ge max_payload (Z.of_nat (length text)))) by lia.
    rewrite (proj2 (Z.leb_le (Z.of_nat (length text) + 1) SIZE_MAX)) by lia.
    rewrite (proj2 (Z.ltb_ge (Z.of_nat (length text + S (length rest))) (Z.of_nat (length text) + 1))) by lia.
    cbn [mbind option_bind memory size capacity].
    rewrite Nat2Z.id. pose proof (store_piece text rest [] ltac:(simpl; lia)) as HS.
    cbn [length] in HS. rewrite Nat.add_0_r in HS.
    destruct (memcpy_at _ _ _) as [m|]; [|done]. cbn [mbind option_bind] in *. rewrite HS.
    eexists _, _, _. split; [done|]. left. split; [done|]. split; [|done]. exists rest.
    rewrite app_nil_r. done.
  - assert (0 < length piece)%nat by (destruct piece; [done|simpl; lia]).
    rewrite (proj2 (Z.eqb_neq _ _)) by lia. cbn [negb andb]. rewrite Z.mul_1_l.
    rewrite length_app in HF. rewrite length_app.
    destruct (Z.ltb_spec (SIZE_MAX / Z.of_nat (length piece)) 1) as [Hq|Hq].
    { apply HF; [done|]. unfold SIZE_MAX in *. lia. }
    unfold ckd_add at 1. destruct (Z.leb_spec (Z.of_nat (length text) + Z.of_nat (length piece)) SIZE_MAX);
      [|apply HF; [done|lia]].
    destruct (Z.ltb_spec max_payload (Z.of_nat (length text) + Z.of_nat (length piece)));
      [apply HF; [done|lia]|].
    unfold ckd_add. rewrite (proj2 (Z.leb_le _ _)) by lia.
    set (req := (Z.of_nat (length text) + Z.of_nat (length piece) + 1)%Z).
    destruct (Z.ltb_spec (Z.of_nat (length text + S (length rest))) req) as [Hc|Hc].
    + set (cap := if (_ <? req)%Z then req else _). assert (req <= cap)%Z as Hcap.
      { subst cap. destruct (Z.ltb_spec (default req (ckd_mul (Z.of_nat (length text + S (length rest))) 2)) req); lia. }
      destruct (grow n _) as [extra|] eqn:E.
      2:{ eexists _, _, _. split; [done|]. right. split; [done|]. split; [done|]. left. by eexists. }
      apply Hn in E. cbn [from_option memory size capacity mbind option_bind]. unfold id.
      pose proof (store_piece text (rest ++ extra) piece) as HS. rewrite length_app in HS.
      rewrite <- (assoc_L (++)). cbn [app]. rewrite <- Nat2Z.inj_add, !Nat2Z.id.
      destruct (memcpy_at _ _ _) as [m|]; cbn [mbind option_bind] in *; [|by specialize (HS ltac:(lia))].
      rewrite HS by lia. eexists _, _, _. split; [done|]. left. split; [done|]. split; [|done].
      exists (drop (length piece) (rest ++ extra)). rewrite length_drop, !length_app, <- (assoc_L (++)).
      split; [f_equal; lia|lia].
    + cbn [memory size capacity mbind option_bind]. rewrite <- Nat2Z.inj_add, !Nat2Z.id.
      pose proof (store_piece text rest piece ltac:(lia)) as HS.
      destruct (memcpy_at _ _ _) as [m|]; cbn [mbind option_bind] in *; [|done].
      rewrite HS. eexists _, _, _. split; [done|]. left. split; [done|]. split; [|done].
      exists (drop (length piece) rest). rewrite length_drop, !length_app, <- (assoc_L (++)).
      split; [f_equal; lia|lia].
Qed.

(** Why a transfer is cut short. *)
Definition refused (total : nat) : Prop :=
  (exists k, grow n k = None) \/ (max_payload < Z.of_nat total)%Z.

Lemma deliver_ok (pieces : list (list char)) (text : list char) (mem : memory_struct) (e : thread_error) :
  holds mem text ->
  exists ok mem' e', deliver pieces mem e = Some (ok, mem', e')
    /\ if ok : bool then holds mem' (text ++ concat pieces) /\ e' = e
       else refused (length (text ++ concat pieces)).
Proof.
  revert text mem e. induction pieces as [|p pieces IH]; intros text mem e Hh; cbn [deliver concat].
  { eexists _, _, _. split; [done|]. by rewrite app_nil_r. }
  destruct (write_memory_ok p text mem e Hh) as (taken & mem1 & e1 & -> & Hc). cbn [mbind option_bind].
  destruct Hc as [(-> & H1 & ->)|(-> & Hp & Hf)].
  - rewrite Z.eqb_refl. destruct (IH (text ++ p) mem1 e H1) as (ok & mem2 & e2 & -> & H2).
    eexists _, _, _. split; [done|]. by rewrite (assoc_L (++)).
  - rewrite (proj2 (Z.eqb_neq _ _)) by (destruct p; [done|simpl; lia]). eexists _, _, _. split; [done|].
    cbn. destruct Hf as [Hf|Hf]; [by left|right]. rewrite !length_app in *. lia.
Qed.

(** ** Requests are pinned *)

(** The options a request is sent with: the body is there unless libcurl had no
    memory for its copy. *)
Definition pinned (url : cstr) (body : option cstr) (headers : list cstr) (h : handle) : Prop :=
  h !! "CURLOPT_URL"%string = Some (Str url)
  /\ h !! "CURLOPT_COPYPOSTFIELDS"%string
     = (if setopt_ok n "CURLOPT_COPYPOSTFIELDS" then Str <$> body else None)
  /\ h !! "CURLOPT_POST"%string = match body with Some _ => Some (Long 1) | None => None end
  /\ h !! "CURLOPT_HTTPGET"%string = match body with Some _ => None | None => Some (Long 1) end
  /\ h !! "CURLOPT_HTTPHEADER"%string = Some (Slist headers)
  /\ h !! "CURLOPT_SSL_VERIFYPEER"%string = Some (Long 1)
  /\ h !! "CURLOPT_SSL_VERIFYHOST"%string = Some (Long 2)
  /\ h !! "CURLOPT_FOLLOWLOCATION"%string = Some (Long 0)
  /\ h !! "CURLOPT_PROTOCOLS_STR"%string = Some (Str (lit "https,http"))
  /\ h !! "CURLOPT_TIMEOUT"%string = Some (Long 10).

(** The handle keeps no pointer to the buffers of a request that is over. *)
Definition detached (h : handle) : Prop :=
  (h !! "CURLOPT_WRITEDATA"%string = None \/ h !! "CURLOPT_WRITEDATA"%string = Some (Pointer false))
  /\ (h !! "CURLOPT_ERRORBUFFER"%string = None \/ h !! "CURLOPT_ERRORBUFFER"%string = Some (Pointer false))
  /\ (h !! "CURLOPT_HTTPHEADER"%string = None \/ h !! "CURLOPT_HTTPHEADER"%string = Some (Slist [])).

Definition no_dangling (c : client) : Prop := forall h, curl c = Some h -> detached h.

Lemma detached_client (h : handle) (e : thread_error) (l : list handle) :
  detached h -> no_dangling (Client (Some h) e l).
Proof. intros H x [= <-]. exact H. Qed.

Lemma append_headers_all (i : nat) (headers acc l : list cstr) :
  append_headers i headers acc = (true, l) -> l = acc ++ headers.
Proof.
  revert i acc. induction headers as [|x headers IH]; intros i acc; cbn [append_headers].
  { intros [= <-]. by rewrite app_nil_r. }
  destruct (headers_ok n i); [|done]. intros ->%IH. by rewrite <- (assoc_L (++)).
Qed.

Lemma accepted (o : string) : bool_decide (o ∈ COPIED) = false -> setopt_ok n o = true.
Proof.
  intros Ho. destruct (setopt_ok n o) eqn:E; [done|]. apply Hn in E. by apply bool_decide_eq_false in Ho.
Qed.

Lemma setopt_at (o : string) (v : optval) (h : handle) :
  curl_easy_setopt o v h !! o = if setopt_ok n o then Some v else h !! o.
Proof. unfold curl_easy_setopt. destruct (setopt_ok n o); [|done]. apply lookup_insert_eq. Qed.

Lemma setopt_takes (o : string) (v : optval) (h : handle) :
  bool_decide (o ∈ COPIED) = false -> curl_easy_setopt o v h !! o = Some v.
Proof. intros Ho. by rewrite setopt_at, accepted. Qed.

Lemma setopt_other (o o' : string) (v : optval) (h : handle) :
  o <> o' -> curl_easy_setopt o v h !! o' = h !! o'.
Proof.
  intros Ho. unfold curl_easy_setopt. destruct (setopt_ok n o); [|done]. by rewrite lookup_insert_ne.
Qed.

Ltac options := unfold apply_curl_defaults, curl_easy_reset;
  repeat first [rewrite setopt_other by done | rewrite setopt_takes by (by vm_compute)];
  rewrite ?setopt_at; repeat rewrite setopt_other by done; try done.

(** What [perform_http_request] does: it may send one request, with its own
    options, and answers [true] with what arrived. *)
Lemma perform_ok (base_url uri body : option cstr) (headers : list cstr) (code : Z) (c : client) :
  no_dangling c ->
  exists ok chunk code' c',
    perform_http_request base_url uri body headers empty_memory code c = Some (ok, chunk, code', c')
    /\ no_dangling c'
    /\ ((sent c' = sent c /\ ok = false)
        \/ exists h, sent c' = sent c ++ [h]
           /\ build_request_url base_url uri 1024 = Some (default [] base_url ++ default [] uri)
           /\ pinned (default [] base_url ++ default [] uri) body headers h
           /\ let '(pieces, failure, status) := answer n h in
              if ok : bool then holds chunk (concat pieces) /\ code' = status /\ failure = None
              else code' = HTTP_SERVUNAVAIL /\ (failure <> None \/ refused (length (concat pieces)))).
Proof.
  intros Hd. unfold perform_http_request. destruct (build_request_url base_url uri 1024) as [url|] eqn:Eu.
  2:{ eexists _, _, _, _. split; [done|]. split; [exact Hd|]. left. done. }
  assert (url = default [] base_url ++ default [] uri) as ->.
  { unfold build_request_url in Eu. destruct base_url, uri; try done;
      destruct (_ <? _)%nat; try done; by injection Eu. }
  set (url := default [] base_url ++ default [] uri) in *.
  unfold setup_curl_request. destruct (get_thread_curl c) as [[h0|] c0] eqn:Eg.
  2:{ eexists _, _, _, _. split; [done|]. unfold get_thread_curl in Eg. destruct (curl c); [done|].
      destruct (init_ok n); [done|]. injection Eg as <-. split; [done|by left]. }
  assert (sent c0 = sent c /\ err c0 = err c) as [Es Ee].
  { unfold get_thread_curl in Eg. destruct (curl c); [by injection Eg as <- <-|].
    destruct (init_ok n); [|done]. by injection Eg as <- <-. }
  destruct (first_memory n) as [m|] eqn:Em.
  2:{ eexists _, _, _, _. split; [done|]. split; [|by left]. apply detached_client.
      split_and!; left; options. }
  destruct (append_headers 0 headers []) as [[] l] eqn:Eh.
  2:{ eexists _, _, _, _. split; [done|]. split; [|by left]. apply detached_client.
      destruct body; (split_and!; [right; options|left; options|left; options]). }
  apply append_headers_all in Eh as ->. unfold set_curl. cbn [app curl].
  match goal with |- context [curl_easy_perform ?x _ _] => set (h := x) end.
  assert (h !! "CURLOPT_URL"%string = if setopt_ok n "CURLOPT_URL" then Some (Str url) else None) as Hurl.
  { subst h. destruct body; options. }
  assert (setopt_ok n "CURLOPT_URL" = true -> pinned url body headers h) as Hp.
  { intros HU. unfold pinned. rewrite Hurl, HU. split; [done|]. subst h.
    destruct body; split_and!; cbn [fmap option_fmap option_map]; options.
    by destruct (setopt_ok n "CURLOPT_COPYPOSTFIELDS"). }
  assert (holds (Memory (Some (<[0%nat := NUL]> m)) 0 (Z.of_nat HTTP_CLIENT_CHUNK_SIZE)) []) as Hh.
  { apply Hn in Em. rewrite <- Em. assert (0 < length m)%nat as Hl.
    { rewrite Em. unfold HTTP_CLIENT_CHUNK_SIZE. lia. }
    clear Em. destruct m as [|x m]; [simpl in Hl; lia|]. exists m. split; [done|]. simpl. lia. }
  unfold curl_easy_perform. cbn [err].
  assert (forall e' l, no_dangling (Client (Some (curl_easy_setopt "CURLOPT_WRITEDATA" (Pointer false)
    (curl_easy_setopt "CURLOPT_ERRORBUFFER" (Pointer false)
    (curl_easy_setopt "CURLOPT_HTTPHEADER" (Slist []) h)))) e' l)) as Hd'.
  { intros e' l. apply detached_client. split_and!; right; options. }
  unfold goes_out. rewrite Hurl. destruct (setopt_ok n "CURLOPT_URL").
  2:{ cbn [mbind option_bind sent]. eexists _, _, _, _. split; [done|]. split; [exact (Hd' _ _)|]. left.
      split; [|done]. cbn [sent]. by rewrite Es, app_nil_r. }
  specialize (Hp eq_refl). destruct (answer n h) as [[pieces failure] status] eqn:Ea.
  destruct (deliver_ok pieces [] _ (err c0) Hh) as (ok & mem & e & -> & Hc). cbn [mbind option_bind app err] in *.
  cbn [sent]. rewrite Es.
  destruct ok; [destruct failure as [[msg details]|]|]; cbn [fst snd].
  - eexists _, _, _, _. split; [done|]. split; [exact (Hd' _ _)|]. right. exists h.
    rewrite Ea. split_and!; try done. by left.
  - eexists _, _, _, _. split; [done|]. destruct Hc as [Hc ->]. split; [destruct (_ <=? _)%Z; exact (Hd' _ _)|].
    right. exists h. rewrite Ea. split_and!; try done. by destruct (_ <=? _)%Z.
  - destruct (write_error n) as [msg details]. eexists _, _, _, _. split; [done|]. split; [exact (Hd' _ _)|].
    right. exists h. rewrite Ea. split_and!; try done. by right.
Qed.

Lemma received_holds (chunk : memory_struct) (text : list char) :
  holds chunk text ->
  received true chunk = if decide (text = []) then None else Some (c_str text).
Proof.
  intros (rest & -> & _). unfold received. cbn [size memory andb].
  destruct (decide (text = [])) as [->|Ht]; [done|].
  rewrite (proj2 (Z.ltb_lt _ _)) by (destruct text; [done|simpl; lia]).
  cbn [fmap option_fmap option_map]. f_equal. clear. induction text as [|c text IH]; [done|].
  cbn [app c_str]. case_decide; [done|]. by rewrite IH.
Qed.

(** What a caller of [do_http_request] can rely on. *)
Lemma do_http_ok (base_url uri body : option cstr) (headers : list cstr) (code : Z) (c : client) :
  no_dangling c ->
  exists doc code' c', do_http_request base_url uri body headers code c = Some (doc, code', c')
    /\ no_dangling c'
    /\ ((sent c' = sent c /\ doc = None)
        \/ exists h, sent c' = sent c ++ [h]
           /\ (length (default [] base_url ++ default [] uri) < 1024)%nat
           /\ pinned (default [] base_url ++ default [] uri) body headers h).
Proof.
  intros Hd. destruct (perform_ok base_url uri body headers code c Hd)
    as (ok & chunk & code' & c' & E & Hd' & Hc). unfold do_http_request. rewrite E. cbn [mbind option_bind].
  eexists _, _, _. split; [done|]. split; [done|]. destruct Hc as [[Hs ->]|(h & Hs & Hu & Hp & _)].
  - by left.
  - right. exists h. split; [done|]. split; [|done]. unfold build_request_url in Hu.
    destruct base_url, uri; try done;
      match type of Hu with context [(?a <? ?b)%nat] => destruct (Nat.ltb_spec a b); done end.
Qed.

(** C21: every request the server makes is the one its caller asked for, and is
    made the safe way. Whatever earlier requests left in the thread's handle,
    whatever fails on the way (memory, the options for which libcurl makes a copy,
    the transfer) and whatever comes back, a call returns without touching
    memory outside its buffers; it sends at most one request, to exactly the
    base address followed by the URI (and only if the two fit), with exactly the
    headers it was given, as a POST exactly if it has a body, with peer and host
    verification on, redirects off, only http and https and a time limit. The
    body is exactly the one it was given, unless libcurl had no memory to copy
    it: the code ignores that failure, and then the POST goes out without it.
    Afterwards the handle, which the thread keeps, points to none of the buffers
    of the request. *)
Theorem http_requests_pinned (base_url uri body : option cstr) (headers : list cstr) (code : Z) (c : client) :
  no_dangling c ->
  exists doc code' c', do_http_request base_url uri body headers code c = Some (doc, code', c')
    /\ no_dangling c'
    /\ ((sent c' = sent c /\ doc = None)
        \/ exists h, sent c' = sent c ++ [h]
           /\ (length (default [] base_url ++ default [] uri) < 1024)%nat
           /\ pinned (default [] base_url ++ default [] uri) body headers h).
Proof. apply do_http_ok. Qed.

(** C22: an answer arrives whole or not at all. The document a request returns is
    the one json-c reads from the pieces of the answer put together, however
    libcurl cut them and however often the buffer had to grow, and the status is
    the server's; no answer longer than the configured maximum is accepted (the
    caller sees 503 and no document), and every shorter one is, unless the
    transfer fails or memory runs out. *)
Theorem http_answer_whole (base_url uri body : option cstr) (headers : list cstr) (code : Z)
    (c c' : client) (doc : option jobj) (code' : Z) (h : handle) :
  no_dangling c -> do_http_request base_url uri body headers code c = Some (doc, code', c') ->
  sent c' = sent c ++ [h] ->
  let '(pieces, failure, status) := answer n h in
  let text := concat pieces in
  let parsed := if decide (text = []) then None else json_tokener_parse (c_str text) in
  (is_Some doc -> failure = None /\ (Z.of_nat (length text) <= max_payload)%Z /\ doc = parsed /\ code' = status)
  /\ (failure = None -> (Z.of_nat (length text) <= max_payload)%Z -> (forall k, is_Some (grow n k)) ->
      doc = parsed /\ code' = status)
  /\ ((max_payload < Z.of_nat (length text))%Z -> doc = None /\ code' = HTTP_SERVUNAVAIL).
Proof.
  intros Hd E Hs. destruct (perform_ok base_url uri body headers code c Hd)
    as (ok & chunk & code1 & c1 & E1 & _ & Hc). unfold do_http_request in E. rewrite E1 in E.
  cbn [mbind option_bind] in E. injection E as <- <- <-. destruct Hc as [[Hs1 ->]|(h1 & Hs1 & _ & _ & Hc)].
  { exfalso. rewrite Hs1 in Hs. apply (f_equal length) in Hs. rewrite length_app in Hs. simpl in Hs. lia. }
  rewrite Hs in Hs1. apply app_inj_2 in Hs1 as [_ [= <-]]; [|done].
  destruct (answer n h) as [[pieces failure] status]. cbv zeta. destruct ok.
  - destruct Hc as (Hh & -> & ->). rewrite (received_holds _ _ Hh). destruct Hh as (rest & -> & Hl).
    split_and!; [by destruct (decide (concat pieces = []))..|lia].
  - cbn [received andb]. destruct Hc as [-> Hc]. split; [by intros [? ?]|]. split; [|done].
    intros Hf Hl Hg. destruct Hc as [Hc|[[k Hk]|Hc]]; [done| |lia].
    destruct (Hg k) as [? Hk']. congruence.
Qed.

End Requests.

(** ** Concrete applications *)

Definition sample_network : network := {|
  init_ok := true;
  first_memory := Some (replicate HTTP_CLIENT_CHUNK_SIZE "?"%char);
  headers_ok _ := true;
  setopt_ok _ := true;
  grow k := Some (replicate k "?"%char);
  answer _ := ([lit "{`a`:"; lit "`b`}"], None, 200%Z);
  write_error := (lit "Failed writing received data", []);
|}.

Lemma sample_network_ok : network_ok sample_network.
Proof.
  assert (forall k (m : list char), Some (replicate k "?"%char) = Some m -> length m = k) as H.
  { intros k m [= <-]. apply length_replicate. }
  split; [exact (H HTTP_CLIENT_CHUNK_SIZE)|]. split; [exact H|done].
Qed.

(** A thread whose handle still has the body of an earlier request. *)
Definition sample_client : client :=
  Client (Some {["CURLOPT_COPYPOSTFIELDS" := Str (lit "old")]}) clear_thread_error [].

Lemma sample_detached : no_dangling sample_client.
Proof. apply detached_client. split_and!; left; by vm_compute. Qed.

Lemma http_requests_pinned_witness :
  exists doc code c', do_http_request (J := Model.model_json_c) sample_network 1000 (Some (lit "http://h"))
    (Some (lit "/a")) None [lit "X: y"] 0 sample_client = Some (doc, code, c').
Proof.
  destruct (http_requests_pinned (J := Model.model_json_c) sample_network 1000 sample_network_ok ltac:(done)
    (Some (lit "http://h")) (Some (lit "/a")) None [lit "X: y"] 0 sample_client sample_detached)
    as (doc & code & c' & E & _). exists doc, code, c'. exact E.
Defined.

Definition sample_exchange : option (option Model.json * Z * client) :=
  do_http_request (J := Model.model_json_c) sample_network 1000 (Some (lit "http://h"))
    (Some (lit "/a")) None [lit "X: y"] 0 sample_client.

Definition sample_after : client := default sample_client (snd <$> sample_exchange).
Definition sample_request : handle := default ∅ (list.last (sent sample_after)).

Lemma sample_exchange_ok :
  sample_exchange = Some (Some (Model.JObject [(lit "a", Model.JString (lit "b"))]), 200%Z, sample_after)
  /\ sent sample_after = [] ++ [sample_request].
Proof.
  assert (fst <$> sample_exchange
    = Some (Some (Model.JObject [(lit "a", Model.JString (lit "b"))]), 200%Z)) as E1 by (vm_compute; reflexivity).
  assert (length (sent sample_after) = 1%nat) as E2 by (vm_compute; reflexivity).
  split.
  - unfold sample_after. destruct sample_exchange as [[r c]|]; [|done]. by injection E1 as ->.
  - unfold sample_request. by destruct (sent sample_after) as [|h [|]].
Qed.

Lemma http_answer_whole_witness :
  Some (Model.JObject [(lit "a", Model.JString (lit "b"))]) = Model.parse (lit "{`a`:`b`}").
Proof.
  destruct (http_answer_whole (J := Model.model_json_c) sample_network 1000 sample_network_ok ltac:(done)
    (Some (lit "http://h")) (Some (lit "/a")) None [lit "X: y"] 0 sample_client sample_after
    (Some (Model.JObject [(lit "a", Model.JString (lit "b"))])) 200 sample_request sample_detached
    (proj1 sample_exchange_ok) (proj2 sample_exchange_ok)) as (H & _).
  destruct H as (_ & _ & H & _); [by eexists|]. exact H.
Defined.

(** Without memory for the copy of the body, the POST goes out without it. *)
Definition out_of_memory : network := {|
  init_ok := true;
  first_memory := first_memory sample_network;
  headers_ok _ := true;
  setopt_ok o := negb (bool_decide (o = "CURLOPT_COPYPOSTFIELDS"%string));
  grow := grow sample_network;
  answer := answer sample_network;
  write_error := write_error sample_network;
|}.

Lemma body_lost :
  (fun r => (fun h : handle => (h !! "CURLOPT_POST"%string, h !! "CURLOPT_COPYPOSTFIELDS"%string)) <$> sent r.2) <$>
    do_http_request (J := Model.model_json_c) out_of_memory 1000 (Some (lit "http://h")) (Some (lit "/a"))
      (Some (lit "body")) [] 0 sample_client = Some [(Some (Long 1), None)].
Proof. vm_compute. reflexivity. Qed.

End HttpClient.
