(* ===== verification/Services.v ===== *)
(** * src/customer.c and src/login.c: the remote services

    The token that the server itself needs for the remote API is cached and
    shared by all workers: one of them fetches it while the others wait on a
    condition variable.  The two critical sections of [login_and_get_token] are
    functions on the cache, and module [TokenCache] runs any number of threads
    over them.  The requests go through [HttpClient]. *)

From S2P Require Import Prelude JsonUtil JsonC Sodium Jwt ThreadState Config HttpClient.
Import Encode ThreadState HttpClient Config.

Module Services.

(** [struct jwt_cache] with [jwt_is_refreshing] *)
Record jwt_cache := Cache {
  token : cstr;
  expires_at : Z;
  last_failed_auth : Z;
  jwt_is_refreshing : bool;
}.

Definition empty_cache : jwt_cache := Cache [] 0 0 false.

Definition TOKEN_SIZE : nat := 1024.

(** [copy_token_safely] *)
Definition copy_token_safely (max_len : nat) (src_token : cstr) : cstr := take (max_len - 1) src_token.

Section Services.
Context `{J : JsonC, S : Sodium}.

(** [update_jwt_cache]; the second part is the error it reports. *)
Definition update_jwt_cache (now : Z) (cache : jwt_cache) (login_response : jobj) : jwt_cache * option cstr :=
  match json_object_object_get_ex (Some login_response) (lit "id_token") with
  | None => (cache, None)
  | Some token_obj =>
      match json_object_get_string token_obj with
      | None => (cache, None)
      | Some id_token =>
          if (TOKEN_SIZE <=? length id_token)%nat
          then (cache, Some (lit "Remote token exceeds 1023 bytes"))
          else
            let exp := Jwt.jwt_get_expiration id_token in
            (Cache (snprintf TOKEN_SIZE id_token) (if (0 <? exp)%Z then exp else now + 180)
               (last_failed_auth cache) (jwt_is_refreshing cache), None)
      end
  end.

(** One round of the loop of [login_and_get_token]. *)
Inductive round := Hit (t : cstr) | Sleep | Backoff | Refresh.

Definition check_cache (now : Z) (cache : jwt_cache) : round * jwt_cache :=
  if negb (bool_decide (token cache = [])) && (now <? expires_at cache)%Z
  then (Hit (copy_token_safely TOKEN_SIZE (token cache)), cache)
  else if jwt_is_refreshing cache then (Sleep, cache)
  else if (now <? last_failed_auth cache + 5)%Z then (Backoff, cache)
  else (Refresh, Cache (token cache) (expires_at cache) (last_failed_auth cache) true).

(** The second critical section: what the thread returns, and the cache. *)
Definition store_answer (now : Z) (login_response : option jobj) (cache : jwt_cache)
    : option cstr * jwt_cache :=
  let cache :=
    match login_response with
    | Some r =>
        let cache := Cache [] (expires_at cache) (last_failed_auth cache) (jwt_is_refreshing cache) in
        let cache := (update_jwt_cache now cache r).1 in
        Cache (token cache) (expires_at cache) 0 (jwt_is_refreshing cache)
    | None => Cache (token cache) (expires_at cache) now (jwt_is_refreshing cache)
    end in
  let cache := Cache (token cache) (expires_at cache) (last_failed_auth cache) false in
  (if bool_decide (token cache = []) then None else Some (copy_token_safely TOKEN_SIZE (token cache)), cache).

(** ** Requests *)

Context (n : network) (cfg : config).

(** The body of a login request, for escaped credentials. *)
Definition credentials_text (escaped_user escaped_pass : cstr) : cstr :=
  lit "{`username`:`" ++ escaped_user ++ lit "`,`password`:`" ++ escaped_pass ++ lit "`}".

Definition json_header : cstr := lit "Content-Type: application/json".

(** [execute_login_request] *)
Definition execute_login_request (c : client) : option (option jobj * client) :=
  let escaped_user := json_encode (JSON_ENCODE_BUFSIZE MAX_CONFIG_STR) (api_user cfg) in
  let escaped_pass := json_encode (JSON_ENCODE_BUFSIZE MAX_CONFIG_STR) (api_pass cfg) in
  let body_str := credentials_text escaped_user escaped_pass in
  if (JSON_ENCODE_BUFSIZE MAX_CONFIG_STR * 2 + 128 <=? length body_str)%nat
  then Some (None, set_err (lit "Login payload truncated") c)
  else
    r ← http_client_post_json n (max_payload_size cfg) (Some (api_url cfg)) (Some (lit "/api/login"))
          (Some body_str) [json_header] 0 c;
    let '(login_response, http_code, c) := r : option jobj * Z * client in
    Some (if (http_code =? 200)%Z then login_response else None, c).

(** [customer_service_get_info], with what [login_and_get_token] answered: the
    document, [*out_http_code], the thread and whether the cached token is to be
    dropped. *)
Definition customer_service_get_info (login : option cstr) (customer_id : option cstr) (out_http_code : Z)
    (c : client) : option (option jobj * Z * client * bool) :=
  match login with
  | None => Some (None, 401%Z, c, false)
  | Some token =>
      let escaped_id := json_encode (JSON_ENCODE_BUFSIZE 64) (default [] customer_id) in
      let body := lit "{`id`:`" ++ escaped_id ++ lit "`}" in
      if (JSON_ENCODE_BUFSIZE 64 + 32 <=? length body)%nat then Some (None, 500%Z, c, false)
      else
        let auth_header := snprintf 1100 (lit "Authorization: Bearer " ++ token) in
        r ← http_client_post_json n (max_payload_size cfg) (Some (api_url cfg)) (Some (lit "/api/customer"))
              (Some body) [auth_header; json_header] out_http_code c;
        let '(remote_response, code, c) := r : option jobj * Z * client in
        Some (remote_response, code, c, (code =? 401)%Z)
  end.

(** The last lines of [customer_service_get_info]: the token is dropped. *)
Definition invalidate (cache : jwt_cache) : jwt_cache :=
  Cache [] (expires_at cache) (last_failed_auth cache) (jwt_is_refreshing cache).

(** [login_service_authenticate] *)
Definition login_service_authenticate (username password : cstr) (out_http_code : Z) (c : client)
    : option (option jobj * Z * client) :=
  let escaped_user := json_encode (JSON_ENCODE_BUFSIZE 96) username in
  let escaped_pass := json_encode (JSON_ENCODE_BUFSIZE 96) password in
  let body_str := credentials_text escaped_user escaped_pass in
  if (JSON_ENCODE_BUFSIZE 96 * 2 + 128 <=? length body_str)%nat
  then Some (None, out_http_code, set_err (lit "Login payload truncation error") c)
  else http_client_post_json n (max_payload_size cfg) (Some (login_provider cfg)) (Some (login_uri cfg))
         (Some body_str) [json_header] out_http_code c.

End Services.

(** ** What is sent *)

Section Sent.
Context `{JL : JsonCLaws} (n : network) (cfg : config).
Hypothesis Hn : network_ok n.
Hypothesis Hmax : (0 <= max_payload_size cfg < SIZE_MAX)%Z.

Lemma credentials_flat (eu ep u p : cstr) :
  credentials_text eu ep = flat_text [(lit "username", FString eu u); (lit "password", FString ep p)].
Proof.
  unfold credentials_text, flat_text. cbn [flat_members flat_value]. unfold quoted.
  rewrite <- !(assoc_L (++)). cbn [app]. by rewrite <- !(assoc_L (++)).
Qed.

(** The document with the credentials, as the other side reads it. *)
Definition reads_credentials (body u p : cstr) : Prop :=
  exists o x y, json_tokener_parse body = Some o
    /\ json_object_object_get_ex (Some o) (lit "username") = Some (Some x)
    /\ json_object_get_string (Some x) = Some u
    /\ json_object_object_get_ex (Some o) (lit "password") = Some (Some y)
    /\ json_object_get_string (Some y) = Some p.

Lemma credentials_read (u p : cstr) :
  no_nul u -> no_nul p -> (Z.of_nat (length u) <= 2 ^ 31 - 1)%Z -> (Z.of_nat (length p) <= 2 ^ 31 - 1)%Z ->
  reads_credentials (credentials_text (u ≫= escape_char) (p ≫= escape_char)) u p.
Proof.
  intros Hu Hp Lu Lp. rewrite (credentials_flat _ _ u p).
  match goal with |- context [flat_text ?l] => destruct (parse_flat l) as (o & Ho & _ & Hg) end.
  - split; [apply (bool_decide_unpack _); by vm_compute|].
    constructor; [|constructor; [|constructor]]; cbn [fst snd];
      (split; [apply scans_plain, (bool_decide_unpack _); by vm_compute|]); (split; [apply scans_escape|done]).
  - edestruct (Hg (lit "username")) as (x & Hx & Hsx); [apply elem_of_cons; by left|].
    edestruct (Hg (lit "password")) as (y & Hy & Hsy);
      [apply elem_of_cons; right; apply elem_of_cons; by left|].
    cbn in Hsx, Hsy. exists o, x, y. tauto.
Qed.

Lemma login_sent (u p : cstr) (code : Z) (c : client) :
  no_nul u -> no_nul p -> no_dangling c ->
  exists doc code' c', login_service_authenticate n cfg u p code c = Some (doc, code', c')
    /\ no_dangling c'
    /\ (sent c' = sent c
        \/ exists h body u' p', sent c' = sent c ++ [h]
           /\ pinned n (login_provider cfg ++ login_uri cfg) (Some body) [json_header] h
           /\ reads_credentials body u' p' /\ u' `prefix_of` u /\ p' `prefix_of` p
           /\ ((length u <= 95)%nat -> u' = u) /\ ((length p <= 95)%nat -> p' = p)).
Proof.
  intros Hu Hp Hd. unfold login_service_authenticate.
  destruct (encoded_prefix (JSON_ENCODE_BUFSIZE 96) u Hu) as (u' & Pu & -> & Wu & Nu & Lu); [unfold JSON_ENCODE_BUFSIZE; lia..|].
  destruct (encoded_prefix (JSON_ENCODE_BUFSIZE 96) p Hp) as (p' & Pp & -> & Wp & Np & Lp); [unfold JSON_ENCODE_BUFSIZE; lia..|].
  destruct (_ <=? _)%nat.
  { eexists _, _, _. split; [done|]. split; [exact Hd|by left]. }
  unfold http_client_post_json.
  destruct (do_http_ok n _ Hn Hmax (Some (login_provider cfg)) (Some (login_uri cfg))
    (Some (credentials_text (u' ≫= escape_char) (p' ≫= escape_char))) [json_header] code c Hd)
    as (doc & code' & c' & E & Hd' & Hs). exists doc, code', c'. split; [exact E|]. split; [done|].
  destruct Hs as [[Hs _]|(h & Hs & _ & Hpin)]; [by left|right].
  eexists h, _, u', p'. split; [done|]. split; [exact Hpin|].
  split; [by apply credentials_read|]. split; [done|]. split; [done|].
  unfold JSON_ENCODE_BUFSIZE in *. split; intros ?; [apply Wu|apply Wp]; lia.
Qed.

(** The credentials of a login cannot forge the request. Whatever a user
    types as name and password, the request to the login provider (if one can be
    sent) is a POST to the configured address whose body (if libcurl has the
    memory to copy it) json-c reads back as an object with the name and the password themselves, each whole if it has at
    most 95 bytes and otherwise cut, never as other members. *)
Lemma login_request_exact (u p : cstr) (code : Z) (c : client) :
  no_nul u -> no_nul p -> no_dangling c ->
  exists doc code' c', login_service_authenticate n cfg u p code c = Some (doc, code', c')
    /\ no_dangling c'
    /\ (sent c' = sent c
        \/ exists h body u' p', sent c' = sent c ++ [h]
           /\ pinned n (login_provider cfg ++ login_uri cfg) (Some body) [json_header] h
           /\ reads_credentials body u' p' /\ u' `prefix_of` u /\ p' `prefix_of` p
           /\ ((length u <= 95)%nat -> u' = u) /\ ((length p <= 95)%nat -> p' = p)).
Proof. apply login_sent. Qed.

(** The customer service gets the token of the cache and the id, and a refused
    token is dropped. *)
Lemma customer_request_exact (t cid : cstr) (code : Z) (c : client) :
  (length t < TOKEN_SIZE)%nat -> no_nul cid -> no_dangling c ->
  exists doc code' c' dropped,
    customer_service_get_info n cfg (Some t) (Some cid) code c = Some (doc, code', c', dropped)
    /\ no_dangling c'
    /\ (dropped = true -> code' = 401%Z)
    /\ (sent c' = sent c
        \/ exists h cid', sent c' = sent c ++ [h] /\ cid' `prefix_of` cid /\ ((length cid <= 63)%nat -> cid' = cid)
           /\ pinned n (api_url cfg ++ lit "/api/customer")
                (Some (lit "{`id`:`" ++ (cid' ≫= escape_char) ++ lit "`}"))
                [lit "Authorization: Bearer " ++ t; json_header] h).
Proof.
  intros Ht Hid Hd. unfold customer_service_get_info. change (default [] (Some cid)) with cid.
  destruct (encoded_prefix (JSON_ENCODE_BUFSIZE 64) cid Hid) as (cid' & Pi & -> & Wi & _);
    [unfold JSON_ENCODE_BUFSIZE; lia..|].
  destruct (_ <=? _)%nat.
  { eexists _, _, _, _. split; [done|]. split; [exact Hd|]. split; [done|by left]. }
  unfold http_client_post_json. rewrite snprintf_fits.
  2:{ rewrite length_app. unfold TOKEN_SIZE in Ht. cbn. lia. }
  destruct (do_http_ok n _ Hn Hmax (Some (api_url cfg)) (Some (lit "/api/customer"))
    (Some (lit "{`id`:`" ++ (cid' ≫= escape_char) ++ lit "`}"))
    [lit "Authorization: Bearer " ++ t; json_header] code c Hd)
    as (doc & code' & c' & E & Hd' & Hs). rewrite E. cbn [mbind option_bind].
  eexists _, _, _, _. split; [done|]. split; [done|]. split; [apply Z.eqb_eq|].
  destruct Hs as [[Hs _]|(h & Hs & _ & Hpin)]; [by left|right]. exists h, cid'.
  split; [done|]. split; [done|]. split; [|exact Hpin]. intros ?. apply Wi.
  unfold JSON_ENCODE_BUFSIZE. lia.
Qed.

End Sent.

(** ** Any number of threads over the cache *)

Module TokenCache.
Section Threads.
Context `{J : JsonC, S : Sodium}.

(** Where a thread is in [login_and_get_token]: about to look at the cache,
    waiting on the condition variable, awake again, requesting a token without
    the lock, or done. *)
Inductive pc := Start | Waiting | Woken | Requesting | Done (r : option cstr).

Record state := State { cache : jwt_cache; pcs : list pc; issued : list cstr }.

Definition pc_of (r : round) : pc :=
  match r with Hit t => Done (Some t) | Sleep => Waiting | Backoff => Done None | Refresh => Requesting end.

(** [pthread_cond_broadcast] *)
Definition wake (p : pc) : pc := match p with Waiting => Woken | _ => p end.

(** The token in the answer to a login request. *)
Definition offered (login_response : option jobj) : list cstr :=
  match login_response with
  | Some r =>
      match json_object_object_get_ex (Some r) (lit "id_token") with
      | Some t => match json_object_get_string t with Some s => [s] | None => [] end
      | None => []
      end
  | None => []
  end.

(** A step of one thread, at any time and with any answer of the remote server;
    a condition variable may wake a thread for no reason. *)
Inductive cache_step : state -> state -> Prop :=
  | step_check s i now :
      pcs s !! i = Some Start \/ pcs s !! i = Some Woken ->
      cache_step s (State (check_cache now (cache s)).2
                (<[i := pc_of (check_cache now (cache s)).1]> (pcs s)) (issued s))
  | step_store s i now login_response :
      pcs s !! i = Some Requesting ->
      cache_step s (State (store_answer now login_response (cache s)).2
                (wake <$> <[i := Done (store_answer now login_response (cache s)).1]> (pcs s))
                (issued s ++ offered login_response))
  | step_spurious s i :
      pcs s !! i = Some Waiting -> cache_step s (State (cache s) (<[i := Woken]> (pcs s)) (issued s))
  | step_invalidate s i t :
      pcs s !! i = Some (Done (Some t)) -> cache_step s (State (invalidate (cache s)) (pcs s) (issued s))
  | step_return s i r :
      pcs s !! i = Some (Done r) -> cache_step s (State (cache s) (<[i := Start]> (pcs s)) (issued s)).

Definition start (k : nat) : state := State empty_cache (replicate k Start) [].

Definition reachable (k : nat) : state -> Prop := rtc cache_step (start k).

Record invariant (s : state) : Prop := {
  (** somebody is requesting exactly when the flag says so, and only one *)
  requesting : jwt_is_refreshing (cache s) = true <-> exists i, pcs s !! i = Some Requesting;
  one_request i j : pcs s !! i = Some Requesting -> pcs s !! j = Some Requesting -> i = j;
  (** nobody waits for nothing *)
  waiting i : pcs s !! i = Some Waiting -> jwt_is_refreshing (cache s) = true;
  (** tokens are those of the remote server *)
  cached : token (cache s) = [] \/ (token (cache s) ∈ issued s /\ (length (token (cache s)) < TOKEN_SIZE)%nat);
  served i t : pcs s !! i = Some (Done (Some t)) -> t ∈ issued s /\ t <> [];
}.

Lemma check_cases (now : Z) (c : jwt_cache) :
  match (check_cache now c).1 with
  | Hit t => t = copy_token_safely TOKEN_SIZE (token c) /\ token c <> [] /\ (now < expires_at c)%Z
      /\ (check_cache now c).2 = c
  | Sleep => jwt_is_refreshing c = true /\ (check_cache now c).2 = c
  | Backoff => (check_cache now c).2 = c
  | Refresh => jwt_is_refreshing c = false /\ jwt_is_refreshing (check_cache now c).2 = true
      /\ token (check_cache now c).2 = token c
  end.
Proof.
  unfold check_cache. destruct (bool_decide (token c = [])) eqn:E; cbn [negb andb].
  2:{ apply bool_decide_eq_false in E. destruct (Z.ltb_spec now (expires_at c)); [done|].
      destruct (jwt_is_refreshing c) eqn:?; [done|]. by destruct (_ <? _)%Z. }
  destruct (jwt_is_refreshing c) eqn:?; [done|]. by destruct (_ <? _)%Z.
Qed.

Lemma copy_token_whole (t : cstr) : (length t < TOKEN_SIZE)%nat -> copy_token_safely TOKEN_SIZE t = t.
Proof. intros H. unfold copy_token_safely. apply take_ge. unfold TOKEN_SIZE in *. lia. Qed.

Lemma update_token (now : Z) (c : jwt_cache) (r : jobj) :
  token c = [] ->
  token (update_jwt_cache now c r).1 = []
  \/ (token (update_jwt_cache now c r).1 ∈ offered (Some r)
      /\ (length (token (update_jwt_cache now c r).1) < TOKEN_SIZE)%nat).
Proof.
  intros Hc. unfold update_jwt_cache, offered.
  destruct (json_object_object_get_ex (Some r) (lit "id_token")) as [t|]; [|by left].
  destruct (json_object_get_string t) as [s|]; [|by left].
  destruct (Nat.leb_spec TOKEN_SIZE (length s)) as [Hl|Hl]; [by left|right]. cbn [fst token].
  rewrite snprintf_fits by done. split; [by apply list_elem_of_singleton|done].
Qed.

Lemma store_cases (now : Z) (resp : option jobj) (c : jwt_cache) (old : list cstr) :
  token c = [] \/ (token c ∈ old /\ (length (token c) < TOKEN_SIZE)%nat) ->
  let c' := (store_answer now resp c).2 in
  jwt_is_refreshing c' = false
  /\ (token c' = [] \/ (token c' ∈ old ++ offered resp /\ (length (token c') < TOKEN_SIZE)%nat))
  /\ (forall t, (store_answer now resp c).1 = Some t -> t = token c' /\ t <> []).
Proof.
  intros Hc c'. assert (token c' = [] \/ (token c' ∈ old ++ offered resp
    /\ (length (token c') < TOKEN_SIZE)%nat)) as Ht.
  { subst c'. destruct resp as [r|]; cbn [store_answer snd token].
    - destruct (update_token now (Cache [] (expires_at c) (last_failed_auth c) (jwt_is_refreshing c)) r)
        as [H|[H1 H2]]; [done|by left|right]. split; [apply elem_of_app; by right|done].
    - destruct Hc as [Hc|[H1 H2]]; [by left|right]. split; [apply elem_of_app; by left|done]. }
  split; [by destruct resp|]. split; [done|]. intros t. subst c'.
  unfold store_answer. cbv zeta. cbn [fst snd token].
  match goal with |- context [bool_decide (?x = [])] => set (u := x) in * end.
  destruct (bool_decide (u = [])) eqn:E; [done|]. apply bool_decide_eq_false in E. intros [= <-].
  rewrite copy_token_whole; [done|]. cbn [store_answer snd token] in Ht. fold u in Ht. tauto.
Qed.

(** A thread moves to a place other than [Requesting] and [Waiting], the rest
    staying as it is. *)
Lemma move_invariant (s : state) (i : nat) (p : pc) :
  invariant s -> pcs s !! i <> Some Requesting -> p <> Requesting ->
  (p = Waiting -> jwt_is_refreshing (cache s) = true) ->
  (forall t, p = Done (Some t) -> t ∈ issued s /\ t <> []) ->
  invariant (State (cache s) (<[i := p]> (pcs s)) (issued s)).
Proof.
  intros I Hi Hp Hw Ht.
  assert (forall j, (<[i := p]> (pcs s) : list pc) !! j = Some Requesting <-> pcs s !! j = Some Requesting) as HR.
  { intros j. destruct (decide (i = j)) as [<-|Hne]; [|by rewrite list_lookup_insert_ne].
    destruct (decide (i < length (pcs s))%nat) as [Hl|Hl].
    - rewrite list_lookup_insert_eq by done. split; [by intros [= ->]|done].
    - by rewrite list_insert_ge by lia. }
  split; cbn [cache pcs issued].
  - rewrite (requesting s I). by setoid_rewrite HR.
  - intros j k Hj%HR Hk%HR. by eapply (one_request s I).
  - intros j Hj. apply list_lookup_insert_Some in Hj as [(-> & -> & _)|[_ Hj]]; [by apply Hw|by eapply waiting].
  - apply I.
  - intros j t Hj. apply list_lookup_insert_Some in Hj as [(-> & -> & _)|[_ Hj]]; [by apply Ht|by eapply served].
Qed.

Lemma check_invariant (s : state) (i : nat) (now : Z) :
  invariant s -> pcs s !! i = Some Start \/ pcs s !! i = Some Woken ->
  invariant (State (check_cache now (cache s)).2
               (<[i := pc_of (check_cache now (cache s)).1]> (pcs s)) (issued s)).
Proof.
  intros I Hi. assert (pcs s !! i <> Some Requesting) as Hn by (destruct Hi as [-> | ->]; done).
  pose proof (check_cases now (cache s)) as HC.
  destruct ((check_cache now (cache s)).1) as [t| | |]; cbn [pc_of].
  - destruct HC as (-> & Hne & _ & ->). apply move_invariant; try done.
    intros t [= <-]. destruct (cached s I) as [?|[Hc Hl]]; [done|]. by rewrite copy_token_whole.
  - destruct HC as [HR ->]. by apply move_invariant.
  - rewrite HC. by apply move_invariant.
  - destruct HC as (Hf & Ht & Htok).
    assert (forall j, pcs s !! j <> Some Requesting) as Hno.
    { intros j Hj. assert (jwt_is_refreshing (cache s) = true) by (apply (requesting s I); eauto). congruence. }
    assert (i < length (pcs s))%nat as Hl by (destruct Hi as [Hi|Hi]; by eapply lookup_lt_Some).
    split; cbn [cache pcs issued].
    + split; [intros _|done]. exists i. by rewrite list_lookup_insert_eq.
    + intros j k Hj Hk. apply list_lookup_insert_Some in Hj as [(-> & _)|[_ Hj]]; [|by apply Hno in Hj].
      apply list_lookup_insert_Some in Hk as [(-> & _)|[_ Hk]]; [done|by apply Hno in Hk].
    + done.
    + rewrite Htok. apply I.
    + intros j t Hj. apply list_lookup_insert_Some in Hj as [(_ & ? & _)|[_ Hj]]; [done|by eapply served].
Qed.

Lemma store_invariant (s : state) (i : nat) (now : Z) (resp : option jobj) :
  invariant s -> pcs s !! i = Some Requesting ->
  invariant (State (store_answer now resp (cache s)).2
               (wake <$> <[i := Done (store_answer now resp (cache s)).1]> (pcs s))
               (issued s ++ offered resp)).
Proof.
  intros I Hi. destruct (store_cases now resp (cache s) (issued s) (cached s I)) as (Hf & Hc & Ht).
  assert (forall j p, (wake <$> <[i := Done (store_answer now resp (cache s)).1]> (pcs s)) !! j = Some p ->
    (j = i /\ p = Done (store_answer now resp (cache s)).1)
    \/ (j <> i /\ exists p0, pcs s !! j = Some p0 /\ p = wake p0)) as HP.
  { intros j p Hj. rewrite list_lookup_fmap in Hj. apply fmap_Some in Hj as (p0 & Hj & ->).
    apply list_lookup_insert_Some in Hj as [(-> & <- & _)|[Hne Hj]]; [left; split; reflexivity|right]. split; [done|]. eauto. }
  split; cbn [cache pcs issued].
  - rewrite Hf. split; [done|]. intros [j Hj]. exfalso.
    apply HP in Hj as [[-> Hj]|(Hne & p0 & Hj & Hp)]; [done|]. apply Hne.
    destruct p0; try done. by eapply (one_request s I).
  - intros j k Hj. exfalso. apply HP in Hj as [[-> Hj]|(Hne & p0 & Hj & Hp)]; [done|].
    apply Hne. destruct p0; try done. by eapply (one_request s I).
  - intros j Hj. exfalso. apply HP in Hj as [[-> Hj]|(Hne & p0 & Hj & Hp)]; [done|]. by destruct p0.
  - done.
  - intros j t Hj. apply HP in Hj as [[-> Hj]|(Hne & p0 & Hj & Hp)].
    + injection Hj as Hj. destruct (Ht t (eq_sym Hj)) as [-> Hn]. split; [|done].
      destruct Hc as [Hc|[Hc _]]; [by rewrite Hc in Hn|done].
    + destruct p0; try done. injection Hp as <-. destruct (served s I j t Hj) as [H1 H2].
      split; [apply elem_of_app; by left|done].
Qed.

Lemma cache_step_invariant (s s' : state) : invariant s -> cache_step s s' -> invariant s'.
Proof.
  intros I. destruct 1 as [s i now Hi|s i now resp Hi|s i Hi|s i t Hi|s i r Hi].
  - by apply check_invariant.
  - by apply store_invariant.
  - apply move_invariant; try done. by rewrite Hi.
  - split; try apply I. by left.
  - apply move_invariant; try done. by rewrite Hi.
Qed.

Lemma start_cache_invariant (k : nat) : invariant (start k).
Proof.
  split; cbn [start cache pcs issued empty_cache jwt_is_refreshing token].
  - split; [done|]. intros [i Hi]. by apply lookup_replicate in Hi as [? _].
  - intros i j Hi. by apply lookup_replicate in Hi as [? _].
  - intros i Hi. by apply lookup_replicate in Hi as [? _].
  - by left.
  - intros i t Hi. by apply lookup_replicate in Hi as [? _].
Qed.

Lemma reachable_cache_invariant (k : nat) (s : state) : reachable k s -> invariant s.
Proof.
  intros H. unfold reachable in H. remember (start k) as s0 eqn:E.
  assert (invariant s0) as H0 by (subst; apply start_cache_invariant). clear E.
  induction H as [|s1 s2 s3 Hs _ IH]; [done|]. apply IH. by eapply cache_step_invariant.
Qed.

(** C20: the shared token is fetched once and nobody waits in vain. For any
    number of workers, any timing and any answers of the remote server, at most
    one login request is under way; whenever a worker waits for it there is one,
    and its end, whatever the answer, wakes every waiting worker; and a worker
    that is told that it has a token has a non-empty one that the remote server
    issued. *)
Theorem token_cache_live (k : nat) (s : state) :
  reachable k s ->
  (forall i j, pcs s !! i = Some Requesting -> pcs s !! j = Some Requesting -> i = j)
  /\ (forall w, pcs s !! w = Some Waiting ->
       exists i, pcs s !! i = Some Requesting
         /\ forall now resp, exists s', cache_step s s' /\ pcs s' !! w = Some Woken
              /\ (forall j, pcs s' !! j <> Some Waiting) /\ jwt_is_refreshing (cache s') = false
              /\ cache s' = (store_answer now resp (cache s)).2)
  /\ (forall i t, pcs s !! i = Some (Done (Some t)) -> t ∈ issued s /\ t <> []).
Proof.
  intros I%reachable_cache_invariant. split; [apply I|]. split; [|apply I].
  intros w Hw. destruct (proj1 (requesting s I) (waiting s I w Hw)) as [i Hi]. exists i. split; [done|].
  intros now resp. eexists. split; [by apply (step_store s i now resp)|]. cbn [pcs cache].
  split_and!; try done.
  - rewrite list_lookup_fmap, list_lookup_insert_ne by (intros ->; congruence). by rewrite Hw.
  - intros j Hj. rewrite list_lookup_fmap in Hj. apply fmap_Some in Hj as (p & _ & Hp). by destruct p.
Qed.

(** When the request fails, the worker that made it is handed the old token even
    though it has expired. *)
Lemma stale_token_served (now : Z) (c : jwt_cache) :
  token c <> [] -> (length (token c) < TOKEN_SIZE)%nat -> (expires_at c <= now)%Z ->
  jwt_is_refreshing c = false -> (last_failed_auth c + 5 <= now)%Z ->
  (check_cache now c).1 = Refresh
  /\ (store_answer now None (check_cache now c).2).1 = Some (token c).
Proof.
  intros Ht Hl He Hf Hb. unfold check_cache. rewrite (bool_decide_eq_false_2 (token c = [])) by done.
  rewrite (proj2 (Z.ltb_ge now (expires_at c))) by done. cbn [negb andb]. rewrite Hf.
  rewrite (proj2 (Z.ltb_ge _ _)) by done. split; [done|]. cbn [snd store_answer token fst].
  rewrite bool_decide_eq_false_2 by done. by rewrite copy_token_whole.
Qed.

End Threads.

(** The first of two workers requests a token and the second waits for it. *)
Definition sample_waiting : state := State (Cache [] 0 0 true) [Requesting; Waiting] [].

Lemma sample_waiting_reachable :
  reachable (J := Model.model_json_c) (S := SodiumModel.model_sodium) 2 sample_waiting.
Proof.
  eapply rtc_l; [apply (step_check _ 0 100); by left|]. eapply rtc_l; [apply (step_check _ 1 100); by left|].
  apply rtc_refl.
Qed.

Lemma token_cache_live_witness :
  exists i, pcs sample_waiting !! i = Some Requesting.
Proof.
  destruct (token_cache_live 2 sample_waiting sample_waiting_reachable) as (_ & H & _).
  destruct (H 1%nat eq_refl) as (i & Hi & _). exists i. exact Hi.
Defined.

End TokenCache.

End Services.
