(* ===== verification/Totp.v ===== *)
(** * src/totp.c: one-time passwords and their QR codes

    The libraries behind it are arguments: the encoder of QR codes, base32 and
    the validation of a code from liboath, and the percent encoding of libevent.
    The secret of a user comes from the database, through [DbApi]. *)

From S2P Require Import Prelude JsonUtil Dtoa JsonC ThreadState DbJson Config DbApi.
Import ThreadState DbApi.

Module Totp.

Definition HTTP_OK : Z := 200.
Definition HTTP_BADREQUEST : Z := 400.
Definition HTTP_NOTFOUND : Z := 404.
Definition HTTP_INTERNAL : Z := 500.

(** ** The picture *)

(** [QRcode]: the width and the modules, row by row, of which the lowest bit is
    the colour. *)
Record QRcode := QR { width : Z; data : list Z }.

Definition BATCH_SIZE : nat := 8 * 1024.

(** The output and the batch that has not been added to it yet. *)
Record batch := Batch { out_buf : list char; batch_buf : list char }.

Definition module_text (x y : Z) : list char :=
  lit "M" ++ dec_text (x + 1) ++ lit "," ++ dec_text (y + 1) ++ lit "h1v1h-1z ".

(** The body of the loop of [totp_append_qr_svg_path]. A text that does not fit
    into the rest of the batch would be cut, and its length counted all the same:
    the batch would then be read beyond its end. *)
Definition append_module (qrcode : QRcode) (i : nat) (b : batch) : option batch :=
  d ← data qrcode !! i;
  if (Z.land d 1 =? 1)%Z then
    let x := (Z.of_nat i mod width qrcode)%Z in
    let y := (Z.of_nat i / width qrcode)%Z in
    let b := if (BATCH_SIZE <? length (batch_buf b) + 32)%nat
             then Batch (out_buf b ++ batch_buf b) [] else b in
    let text := module_text x y in
    if (length (batch_buf b) + length text <? BATCH_SIZE)%nat
    then Some (Batch (out_buf b) (batch_buf b ++ text)) else None
  else Some b.

Fixpoint append_modules (qrcode : QRcode) (idx : list nat) (b : batch) : option batch :=
  match idx with
  | [] => Some b
  | i :: idx' => b ← append_module qrcode i b; append_modules qrcode idx' b
  end.

Definition NEWLINE : list char := ["010"%char].

Definition svg_start (width : Z) : list char :=
  let w := dec_text (width + 2) in
  lit "<?xml version=`1.0` encoding=`UTF-8`?>" ++ NEWLINE
  ++ lit "<svg xmlns=`http://www.w3.org/2000/svg` version=`1.1` viewBox=`0 0 " ++ w ++ lit " " ++ w
  ++ lit "`>" ++ NEWLINE
  ++ lit "<rect width=`" ++ w ++ lit "` height=`" ++ w ++ lit "` fill=`white`/>" ++ NEWLINE
  ++ lit "<path d=`".

Definition svg_end : list char := lit "` fill=`black`/>" ++ NEWLINE ++ lit "</svg>" ++ NEWLINE.

(** [totp_append_qr_svg_path] *)
Definition totp_append_qr_svg_path (out : list char) (qrcode : QRcode) : option (list char) :=
  b ← append_modules qrcode (seq 0 (Z.to_nat (width qrcode * width qrcode)))
        (Batch (out ++ snprintf 256 (svg_start (width qrcode))) []);
  Some (out_buf b ++ batch_buf b ++ svg_end).

(** ** Secrets and codes *)

(** The libraries. *)
Class TotpLibs := {
  evhttp_uriencode : cstr -> option cstr;
  QRcode_encodeString : cstr -> option QRcode;
  oath_base32_decode : cstr -> option (list char);
  oath_base32_encode : list char -> option cstr;
  (** [oath_totp_validate4] with the step 30, the start 0 and the window 1: the
      secret, the time and the code *)
  oath_totp_validate4 : list char -> Z -> cstr -> Z;
}.

Section Secrets.
Context `{Drv : Odbc, L : TotpLibs} (cfg : Config.config).

#[local] Existing Instance M_ret.
#[local] Existing Instance M_bind.

Definition secret_query : cstr := lit "{CALL cpp_get_secret(?)}".

(** [get_secret]: its answer and [out_secret]; [row] is the column of the row
    that the driver delivers, if it delivers one, and a text that does not fit
    into the array is an answer other than [SQL_SUCCESS]. *)
Definition get_secret (row : option cstr) (user : option cstr) (max_len : nat) : M (Z * cstr) :=
  r ← db_query_single_row cfg 0 secret_query [PARAM_STRING user] [OUT_STRING];
  let '(ok, found) := r : bool * bool in
  mret (if negb ok then (HTTP_INTERNAL, [])
        else match found, row with
             | true, Some (c :: s) => (HTTP_OK, strlcpy max_len (c :: s))
             | _, _ => (HTTP_NOTFOUND, [])
             end).

Definition otpauth_uri (escaped_user secret : cstr) : cstr :=
  lit "otpauth://totp/apiserver:" ++ escaped_user ++ lit "?secret=" ++ secret
  ++ lit "&issuer=apiserver&algorithm=SHA256&digits=6&period=30".

(** [totp_generate_svg]: the status and the output *)
Definition totp_generate_svg (row : option cstr) (user : option cstr) (out : list char)
    : M (Z * list char) :=
  match user with
  | None => mret (HTTP_BADREQUEST, out)
  | Some u =>
      r ← get_secret row user 128;
      let '(db_status, secret) := r : Z * cstr in
      if negb (db_status =? HTTP_OK)%Z then mret (db_status, out)
      else match evhttp_uriencode u with
           | None => mret (HTTP_INTERNAL, out)
           | Some escaped_user =>
               match QRcode_encodeString (snprintf 512 (otpauth_uri escaped_user secret)) with
               | None => mret (HTTP_INTERNAL, out)
               | Some qrcode =>
                   match totp_append_qr_svg_path out qrcode with
                   | Some out => mret (HTTP_OK, out)
                   | None => fault
                   end
               end
           end
  end.

(** [is_valid_totp] *)
Definition is_valid_totp (row : option cstr) (now : Z) (username totp_code : option cstr) : M bool :=
  match username, totp_code with
  | Some _, Some code =>
      r ← get_secret row username 128;
      let '(db_status, secret_b32) := r : Z * cstr in
      if negb (db_status =? HTTP_OK)%Z then mret false
      else match oath_base32_decode secret_b32 with
           | None => mret false
           | Some secret_bin => mret (0 <=? oath_totp_validate4 secret_bin now code)%Z
           end
  | _, _ => mret false
  end.

(** [totp_generate_base32_secret], for the bytes that [randombytes_buf] gives;
    [None] is [false]. *)
Definition totp_generate_base32_secret (random_bytes : list char) (out_maxlen : nat) : option cstr :=
  if negb (out_maxlen =? 33)%nat then None
  else
    b32 ← oath_base32_encode random_bytes;
    if (out_maxlen <=? length b32)%nat then None else Some (snprintf out_maxlen b32).

End Secrets.

(** ** The picture is that of the code *)

(** The dark modules, row by row. *)
Definition dark (qrcode : QRcode) (x y : Z) : bool :=
  match data qrcode !! Z.to_nat (y * width qrcode + x) with
  | Some d => (Z.land d 1 =? 1)%Z
  | None => false
  end.

Definition picture (qrcode : QRcode) : list char :=
  let side := Z.of_nat <$> seq 0 (Z.to_nat (width qrcode)) in
  y ← side; x ← side; if dark qrcode x y then module_text x y else [].

(** The versions of the standard have between 21 and 177 modules a side. *)
Definition qr_wf (qrcode : QRcode) : Prop :=
  (1 <= width qrcode <= 177)%Z /\ length (data qrcode) = Z.to_nat (width qrcode * width qrcode).

Lemma length_module_text (x y : Z) :
  (0 <= x < 177)%Z -> (0 <= y < 177)%Z -> (length (module_text x y) <= 18)%nat.
Proof.
  intros Hx Hy. assert (forall z, (0 <= z <= 177)%Z -> (length (dec_text z) <= 3)%nat) as HL.
  { assert (Forall (fun k => length (dec_text (Z.of_nat k)) <= 3)%nat (seq 0 178)) as HF
      by (apply (bool_decide_unpack _); by vm_compute).
    intros z Hz. rewrite <- (Z2Nat.id z) by lia. apply (proj1 (list.Forall_forall _ _) HF).
    apply elem_of_seq. lia. }
  unfold module_text. rewrite !length_app. pose proof (HL (x + 1)%Z ltac:(lia)).
  pose proof (HL (y + 1)%Z ltac:(lia)). cbn. lia.
Qed.

(** What the loop adds for the module [i]. *)
Definition module_at (qrcode : QRcode) (i : nat) : list char :=
  if dark qrcode (Z.of_nat i mod width qrcode) (Z.of_nat i / width qrcode)
  then module_text (Z.of_nat i mod width qrcode) (Z.of_nat i / width qrcode) else [].

Definition contents (b : batch) : list char := out_buf b ++ batch_buf b.

Lemma append_module_ok (qrcode : QRcode) (i : nat) (b : batch) :
  qr_wf qrcode -> (i < Z.to_nat (width qrcode * width qrcode))%nat -> (length (batch_buf b) < BATCH_SIZE)%nat ->
  exists b', append_module qrcode i b = Some b' /\ (length (batch_buf b') < BATCH_SIZE)%nat
    /\ contents b' = contents b ++ module_at qrcode i.
Proof.
  intros [Hw Hd] Hi Hb. unfold append_module, module_at, dark.
  set (w := width qrcode) in *. set (x := (Z.of_nat i mod w)%Z). set (y := (Z.of_nat i / w)%Z).
  assert (0 <= x < w)%Z by (apply Z.mod_pos_bound; lia).
  assert (Z.of_nat i = y * w + x)%Z as Ei by (subst x y; rewrite (Z.div_mod (Z.of_nat i) w) at 1 by lia; lia).
  assert (0 <= y < w)%Z by (split; [apply Z.div_pos; lia|apply Z.div_lt_upper_bound; nia]).
  replace (Z.to_nat (y * w + x)) with i by lia.
  destruct (lookup_lt_is_Some_2 (data qrcode) i) as [d Hdi]; [lia|]. rewrite Hdi. cbn [mbind option_bind].
  destruct (Z.land d 1 =? 1)%Z.
  2:{ exists b. by rewrite app_nil_r. }
  pose proof (length_module_text x y ltac:(lia) ltac:(lia)) as Hl. unfold contents, BATCH_SIZE in *.
  destruct (Nat.ltb_spec (8 * 1024) (length (batch_buf b) + 32)); cbn [batch_buf out_buf length].
  - rewrite (proj2 (Nat.ltb_lt _ _)) by lia. eexists. split; [done|]. cbn [batch_buf out_buf app].
    split; [lia|]. done.
  - rewrite (proj2 (Nat.ltb_lt _ _)) by lia. eexists. split; [done|]. cbn [batch_buf out_buf].
    rewrite length_app. split; [lia|]. by rewrite (assoc_L (++)).
Qed.

Lemma append_modules_ok (qrcode : QRcode) (idx : list nat) (b : batch) :
  qr_wf qrcode -> Forall (fun i => i < Z.to_nat (width qrcode * width qrcode))%nat idx ->
  (length (batch_buf b) < BATCH_SIZE)%nat ->
  exists b', append_modules qrcode idx b = Some b'
    /\ contents b' = contents b ++ (idx ≫= module_at qrcode).
Proof.
  intros Hq Hi. revert b. induction Hi as [|i idx Hi _ IH]; intros b Hb; cbn [append_modules].
  { exists b. by rewrite app_nil_r. }
  destruct (append_module_ok qrcode i b Hq Hi Hb) as (b1 & -> & Hb1 & E1). cbn [mbind option_bind].
  destruct (IH b1 Hb1) as (b2 & -> & E2). exists b2. split; [done|].
  rewrite bind_cons, E2, E1. by rewrite (assoc_L (++)).
Qed.

(** A square walked index by index is walked row by row. *)
Lemma rows_columns {A} (f : nat -> list A) (h w : nat) :
  seq 0 (h * w) ≫= f = seq 0 h ≫= (fun y => seq 0 w ≫= (fun x => f (y * w + x)%nat)).
Proof.
  induction h as [|h IH]; [done|]. replace (S h * w)%nat with (h * w + w)%nat by lia.
  rewrite seq_app, bind_app, IH, seq_S, bind_app. f_equal. cbn [mbind list_bind]. rewrite app_nil_r.
  cbn [Nat.add]. generalize (h * w)%nat as k. intros k. rewrite <- (Nat.add_0_r k) at 1.
  rewrite <- fmap_add_seq. generalize (seq 0 w) as l. induction l as [|x l IHl]; [done|].
  rewrite fmap_cons, !bind_cons. by rewrite IHl.
Qed.

Lemma picture_modules (qrcode : QRcode) :
  qr_wf qrcode ->
  seq 0 (Z.to_nat (width qrcode * width qrcode)) ≫= module_at qrcode = picture qrcode.
Proof.
  intros [Hw _]. unfold picture. set (w := width qrcode) in *.
  replace (Z.to_nat (w * w)) with (Z.to_nat w * Z.to_nat w)%nat by lia. rewrite rows_columns.
  assert (forall (B : Type) (g : Z -> list B) l, (Z.of_nat <$> l) ≫= g = l ≫= (fun i => g (Z.of_nat i))) as HF.
  { intros B g l. induction l as [|x l IH]; [done|]. by rewrite fmap_cons, !bind_cons, IH. }
  rewrite HF. apply list_bind_ext; [|done]. intros y. rewrite HF.
  assert (Forall (fun x => x < Z.to_nat w)%nat (seq 0 (Z.to_nat w))) as Hs
    by (apply list.Forall_forall; intros x Hx; apply elem_of_seq in Hx; lia).
  induction Hs as [|x l Hx _ IH]; [done|]. rewrite !bind_cons, IH. f_equal.
  unfold module_at. fold w.
  replace (Z.of_nat (y * Z.to_nat w + x)) with (Z.of_nat x + Z.of_nat y * w)%Z by lia.
  rewrite Z.mod_add, Z.div_add by lia. rewrite Z.mod_small, Z.div_small by lia. done.
Qed.

Lemma svg_exact (out : list char) (qrcode : QRcode) :
  qr_wf qrcode ->
  totp_append_qr_svg_path out qrcode
  = Some (out ++ svg_start (width qrcode) ++ picture qrcode ++ svg_end).
Proof.
  intros Hq. unfold totp_append_qr_svg_path. rewrite snprintf_fits.
  2:{ unfold svg_start. rewrite !length_app. pose proof (length_dec_text (width qrcode + 2)). cbn. lia. }
  destruct (append_modules_ok qrcode (seq 0 (Z.to_nat (width qrcode * width qrcode)))
    (Batch (out ++ svg_start (width qrcode)) []) Hq) as (b & -> & E).
  - apply list.Forall_forall. intros i Hi. apply elem_of_seq in Hi. lia.
  - unfold BATCH_SIZE. cbn [batch_buf length]. lia.
  - cbn [mbind option_bind]. unfold contents in E. cbn [out_buf batch_buf] in E. rewrite app_nil_r in E.
    rewrite (assoc_L (++) (out_buf b)), E, picture_modules by done. by rewrite <- !(assoc_L (++)).
Qed.

Lemma svg_total (out : list char) (qrcode : QRcode) :
  qr_wf qrcode -> is_Some (totp_append_qr_svg_path out qrcode).
Proof. intros H. rewrite svg_exact by done. by eexists. Qed.

(** The picture is the code. For every QR code of the standard's sizes,
    [totp_append_qr_svg_path] returns: no module is read outside the code, the
    batch of 8192 bytes never overflows however it is emptied, and what is
    added to the output is the SVG frame with one unit square, at its column
    and row, for each dark module, row by row, and for no other. *)
Lemma qr_svg_exact (out : list char) (qrcode : QRcode) :
  qr_wf qrcode ->
  totp_append_qr_svg_path out qrcode
  = Some (out ++ svg_start (width qrcode) ++ picture qrcode ++ svg_end).
Proof. apply svg_exact. Qed.

(** Two modules a side, the diagonal of them dark. *)
Definition sample_qr : QRcode := QR 2 [1; 0; 0; 1]%Z.

End Totp.
