(* ===== verification/Schemas.v ===== *)
(** * src/handlers.c: the schemas of the requests

    The field validators and schemas of the routes, as the validation engine of
    [Validation] uses them.  A null pointer handed to a string function is
    undefined behaviour and [None]. *)

From S2P Require Import Prelude JsonUtil Dtoa JsonC Validation Config.
Import Validation Itoa.

Module Schemas.

Section Validators.
Context `{J : JsonC}.

Definition reject (d : errdst) (text : cstr) : option verdict := Some (Reject (err_printf d text)).

(** [customer_id_validator] *)
Definition customer_id_validator (obj : option jobj) (d : errdst) : option verdict :=
  match json_object_get_string obj with
  | None => reject d (lit "Invalid customer ID format: null")
  | Some id =>
      if negb (length id =? 5)%nat then reject d (lit "Invalid customer ID format: " ++ id)
      else if negb (forallb isalpha id) then reject d (lit "Invalid customer ID character: " ++ id)
      else Some Pass
  end.

(** [totp_custom_validator] *)
Definition totp_custom_validator (obj : option jobj) (d : errdst) : option verdict :=
  match json_object_get_string obj with
  | None => reject d (lit "Field 'totp' must be exactly 6 characters.")
  | Some totp =>
      if negb (length totp =? 6)%nat then reject d (lit "Field 'totp' must be exactly 6 characters.")
      else if negb (forallb isdigit totp) then reject d (lit "Field 'totp' must contain only digits.")
      else Some Pass
  end.

(** [(int)strtol(date_str, nullptr, 10)] *)
Definition year_of (date_str : cstr) : Z := swrap 32 (Config.strtol date_str).1.1.

(** [validate_sales_start_date], [validate_sales_end_date] *)
Definition validate_sales_start_date (obj : option jobj) (d : errdst) : option verdict :=
  date_str ← json_object_get_string obj;
  if (year_of date_str <=? 1993)%Z then reject d (lit "Start date is too early (min 1994)") else Some Pass.

Definition validate_sales_end_date (obj : option jobj) (d : errdst) : option verdict :=
  date_str ← json_object_get_string obj;
  if (1997 <=? year_of date_str)%Z then reject d (lit "End date is too late (max 1996)") else Some Pass.

(** [sales_invariant_validator] *)
Definition sales_invariant_validator (root : option jobj) (d : errdst) : option verdict :=
  start_str ← json_get_string root (lit "start_date");
  end_str ← json_get_string root (lit "end_date");
  match strcmp start_str end_str with
  | Lt => Some Pass
  | _ => reject d (lit "Start date must strictly precede end date")
  end.

(** ** Schemas *)

Definition int_field (name : string) (min max : option Z) : FieldValidator := {|
  field_name := lit name; custom_validator := None;
  min_bits := default 0%Z min; max_bits := default 0%Z max; type := TYPE_INT; is_required := true;
  has_min := bool_decide (is_Some min); has_max := bool_decide (is_Some max) |}.

Definition string_field (name : string) (required : bool) (max_len : Z)
    (custom : option (option jobj -> errdst -> option verdict)) : FieldValidator := {|
  field_name := lit name; custom_validator := custom; min_bits := 0; max_bits := max_len;
  type := TYPE_STRING; is_required := required; has_min := false; has_max := false |}.

Definition date_field (name : string) (custom : option jobj -> errdst -> option verdict) : FieldValidator := {|
  field_name := lit name; custom_validator := Some custom; min_bits := 0; max_bits := 0;
  type := TYPE_DATE; is_required := true; has_min := false; has_max := false |}.

Definition schema_of (fields : list FieldValidator) : ValidationContext :=
  {| schema := fields; global_validator := None |}.

Definition CustomerContext : ValidationContext :=
  schema_of [string_field "id" true 5 (Some customer_id_validator)].

Definition SalesContext : ValidationContext := {|
  schema := [date_field "start_date" validate_sales_start_date; date_field "end_date" validate_sales_end_date];
  global_validator := Some sales_invariant_validator |}.

Definition VerifyTotpContext : ValidationContext :=
  schema_of [string_field "totp" true 6 (Some totp_custom_validator)].

Definition LoginContext : ValidationContext :=
  schema_of [string_field "username" true 32 None; string_field "password" true 32 None].

Definition EmployeeContext : ValidationContext := schema_of [int_field "id" (Some 1%Z) (Some 9%Z)].
Definition ProdgetContext : ValidationContext := schema_of [int_field "id" (Some 1%Z) None].
Definition SupplierContext : ValidationContext := schema_of [int_field "id" (Some 1%Z) None].
Definition CustomersContext : ValidationContext := schema_of [string_field "filter" false 10 None].

Definition UploadContext : ValidationContext :=
  schema_of [string_field "filename" true 250 None; string_field "content_type" true 250 None;
             string_field "title" true 250 None; string_field "blob" true 0 None].

Definition GastoContext : ValidationContext := schema_of [int_field "id" (Some 1%Z) None].
Definition DummyContext : ValidationContext := schema_of [int_field "id" None None].

Definition CoordinatorContext : ValidationContext :=
  schema_of [int_field "gasto_id" (Some 1%Z) None;
             string_field "customer_id" true 5 (Some customer_id_validator)].

End Validators.

(** ** The sales schema *)

Section Sales.
Context `{JL : JsonCLaws}.

Lemma strtol_iso_date (y m d : Z) : calendar_date y m d -> year_of (iso_date y m d) = y.
Proof.
  intros (Hy & _). unfold year_of.
  assert (exists a b c e, (0 <= a < 10 /\ 0 <= b < 10 /\ 0 <= c < 10 /\ 0 <= e < 10
    /\ y = a * 1000 + b * 100 + c * 10 + e)%Z
    /\ iso_date y m d = [digit a; digit b; digit c; digit e] ++ "-"%char :: dec_pad 2 m ++ ["-"%char] ++ dec_pad 2 d)
    as (a & b & c & e & Hd & ->).
  { exists (y / 10 / 10 / 10 mod 10)%Z, (y / 10 / 10 mod 10)%Z, (y / 10 mod 10)%Z, (y mod 10)%Z. split; [|done].
    assert (y / 10 / 10 / 10 < 10)%Z by lia. assert (0 <= y / 10 / 10 / 10)%Z by lia.
    rewrite (Z.mod_small (y / 10 / 10 / 10)) by lia.
    split_and!; try (apply Z.mod_pos_bound; done); try done.
    rewrite !(Z.mod_eq _ 10) by done. ring. }
  unfold Config.strtol. generalize (dec_pad 2 m ++ ["-"%char] ++ dec_pad 2 d) as rest. intros rest.
  assert (forall z, (0 <= z < 10)%Z -> isdigit (digit z) = true /\ isspace (digit z) = false
    /\ digit z <> "-"%char /\ digit z <> "+"%char) as HD.
  { intros z Hz. unfold isdigit, isspace. rewrite uchar_digit by done.
    split_and!; [apply andb_true_intro; lia| | |].
    - apply orb_false_intro; [lia|]. lia.
    - intros E. apply (f_equal uchar) in E. rewrite uchar_digit in E by done.
      change (uchar "-"%char) with 45%Z in E. lia.
    - intros E. apply (f_equal uchar) in E. rewrite uchar_digit in E by done.
      change (uchar "+"%char) with 43%Z in E. lia. }
  destruct Hd as (Ha & Hb & Hc & He & ->).
  destruct (HD a Ha) as (Da & Sa & Na & Pa).
  cbn [app Config.skip_space]. rewrite Sa. unfold Config.scan_sign. rewrite !decide_False by done.
  cbn [Config.scan_digits]. rewrite Da, (proj1 (HD b Hb)), (proj1 (HD c Hc)), (proj1 (HD e He)).
  rewrite !uchar_digit by done. cbn [isdigit Nat.eqb].
  change (isdigit "-"%char) with false. cbv iota beta. cbn [Nat.eqb fst].
  rewrite (proj2 (Z.ltb_ge _ _)), (proj2 (Z.leb_gt _ _)) by lia. cbn [fst]. rewrite swrap_small; lia.
Qed.

(** The member [key] is the text of the date. *)
Definition date_member (o : jobj) (key : cstr) (y m d : Z) : Prop :=
  exists x, json_object_object_get_ex (Some o) key = Some (Some x)
    /\ json_object_get_type (Some x) = json_type_string
    /\ json_object_get_string (Some x) = Some (iso_date y m d).

Definition before (y m d y' m' d' : Z) : Prop :=
  (y < y' \/ (y = y' /\ (m < m' \/ (m = m' /\ d < d'))))%Z.

(** What a request for sales should be. *)
Definition sales_request (o : jobj) : Prop :=
  json_object_get_type (Some o) = json_type_object
  /\ exists y m d y' m' d',
       calendar_date y m d /\ date_member o (lit "start_date") y m d
       /\ calendar_date y' m' d' /\ date_member o (lit "end_date") y' m' d'
       /\ (1994 <= y)%Z /\ (y' <= 1996)%Z /\ before y m d y' m' d'.

Lemma strcmp_before (y m d y' m' d' : Z) :
  calendar_date y m d -> calendar_date y' m' d' ->
  strcmp (iso_date y m d) (iso_date y' m' d') = Lt <-> before y m d y' m' d'.
Proof.
  intros H H'. rewrite strcmp_iso_date by done. unfold before.
  destruct (Z.compare_spec y y'), (Z.compare_spec m m'), (Z.compare_spec d d'); naive_solver lia.
Qed.

(** A date field with its own check, which the code makes on the year. *)
Lemma date_field_valid (o : jobj) (name : string) custom (D : errdst) (ok : Z -> Prop) :
  (forall x y m d, calendar_date y m d -> json_object_get_string (Some x) = Some (iso_date y m d) ->
     custom (Some x) D = Some Pass <-> ok y) ->
  field_valid (Some o) D (date_field name custom)
  <-> exists y m d, calendar_date y m d /\ date_member o (lit name) y m d /\ ok y.
Proof.
  intros HC. unfold field_valid, date_field, date_member. cbn [field_name is_required custom_validator run_custom].
  destruct (json_object_object_get_ex (Some o) (lit name)) as [[x|]|] eqn:E.
  2,3: split; [done|]; intros (? & ? & ? & _ & (? & ? & _) & _); done.
  unfold type_valid. cbn [type]. split.
  - intros (_ & [Ht (y & m & d & Hc & Hs)] & Hp). exists y, m, d. split; [done|]. split; [by exists x|].
    by apply (HC x y m d Hc Hs).
  - intros (y & m & d & Hc & (x' & [= <-] & Ht & Hs) & Hok). split; [|split; [|by apply (HC x y m d Hc Hs)]].
    + intros _. unfold nonempty. rewrite Ht, Hs. done.
    + split; [done|]. eauto.
Qed.

Lemma start_year (D : errdst) (x : jobj) (y m d : Z) :
  calendar_date y m d -> json_object_get_string (Some x) = Some (iso_date y m d) ->
  validate_sales_start_date (Some x) D = Some Pass <-> (1994 <= y)%Z.
Proof.
  intros Hc Hs. unfold validate_sales_start_date. rewrite Hs. cbn [mbind option_bind].
  rewrite strtol_iso_date by done. destruct (Z.leb_spec y 1993); split; (done || lia).
Qed.

Lemma end_year (D : errdst) (x : jobj) (y m d : Z) :
  calendar_date y m d -> json_object_get_string (Some x) = Some (iso_date y m d) ->
  validate_sales_end_date (Some x) D = Some Pass <-> (y <= 1996)%Z.
Proof.
  intros Hc Hs. unfold validate_sales_end_date. rewrite Hs. cbn [mbind option_bind].
  rewrite strtol_iso_date by done. destruct (Z.leb_spec 1997 y); split; (done || lia).
Qed.

Lemma member_string (o : jobj) (key : cstr) (y m d : Z) :
  date_member o key y m d -> json_get_string (Some o) key = Some (iso_date y m d).
Proof. intros (x & E & _ & Hs). unfold json_get_string. by rewrite E. Qed.

Lemma sales_valid (o : jobj) (D : errdst) :
  request_valid SalesContext (Some o) D <-> sales_request o.
Proof.
  unfold request_valid, sales_request, SalesContext. cbn [schema global_validator run_custom].
  rewrite !Forall_cons_iff. rewrite (date_field_valid o "start_date" _ D _ (start_year D)).
  rewrite (date_field_valid o "end_date" _ D _ (end_year D)). unfold sales_invariant_validator.
  split.
  - intros (Ht & ((y & m & d & Hc & Hm & Hy) & (y' & m' & d' & Hc' & Hm' & Hy') & _) & Hg).
    split; [done|]. exists y, m, d, y', m', d'. split_and!; try done.
    rewrite (member_string _ _ _ _ _ Hm), (member_string _ _ _ _ _ Hm') in Hg. cbn [mbind option_bind] in Hg.
    apply strcmp_before; [done..|]. by destruct (strcmp _ _).
  - intros (Ht & y & m & d & y' & m' & d' & Hc & Hm & Hc' & Hm' & Hy & Hy' & Hb).
    split; [done|]. split; [split; [eauto 10|]; split; [eauto 10|constructor]|].
    rewrite (member_string _ _ _ _ _ Hm), (member_string _ _ _ _ _ Hm'). cbn [mbind option_bind].
    apply strcmp_before in Hb; [|done..]. by rewrite Hb.
Qed.

Lemma sales_defined (o : jobj) (D : errdst) : customs_defined SalesContext (Some o) D.
Proof.
  split.
  - constructor; [|constructor; [|constructor]]; intros x Hx [Ht (y & m & d & Hc & Hs)];
      cbn [date_field custom_validator run_custom];
      [unfold validate_sales_start_date|unfold validate_sales_end_date]; rewrite Hs;
      cbn [mbind option_bind]; by destruct (_ <=? _)%Z.
  - cbn [SalesContext schema global_validator run_custom]. rewrite !Forall_cons_iff.
    rewrite (date_field_valid o "start_date" _ _ _ (start_year _)).
    rewrite (date_field_valid o "end_date" _ _ _ (end_year _)).
    intros ((y & m & d & _ & Hm & _) & (y' & m' & d' & _ & Hm' & _) & _).
    unfold sales_invariant_validator.
    rewrite (member_string _ _ _ _ _ Hm), (member_string _ _ _ _ _ Hm'). cbn [mbind option_bind].
    by destruct (strcmp _ _).
Qed.

Lemma sales_decided (o : jobj) (n : nat) :
  exists v, validate_json (Some SalesContext) (Some o) (Some (S n)) = Some v
    /\ (v = Pass <-> sales_request o).
Proof.
  destruct (validate_json_ok SalesContext o n) as (v & E & Hv).
  - repeat constructor; cbn; lia.
  - apply sales_defined.
  - exists v. split; [done|]. by rewrite Hv, sales_valid.
Qed.

Lemma sales_dates (o : jobj) (n : nat) :
  validate_json (Some SalesContext) (Some o) (Some (S n)) = Some Pass -> sales_request o.
Proof. intros E. destruct (sales_decided o n) as (v & E' & Hv). apply Hv. congruence. Qed.

(** C38: the sales schema means what it says. For every document, validation
    returns, and accepts exactly the objects whose [start_date] and [end_date]
    are real calendar dates in ISO form, the first not before 1994, the second
    not after 1996, and the first strictly before the second: comparing the
    strings and reading a year with [strtol] is exact on them, and no null
    pointer is followed on any document. *)
Theorem sales_context_decides (o : jobj) (n : nat) :
  exists v, validate_json (Some SalesContext) (Some o) (Some (S n)) = Some v
    /\ (v = Pass <-> sales_request o).
Proof. apply sales_decided. Qed.

(** ** Codes of a fixed form *)

(** The member [key] is a string of [k] characters of a class. *)
Definition code_member (o : jobj) (key : cstr) (k : nat) (class : char -> bool) : Prop :=
  exists x s, json_object_object_get_ex (Some o) key = Some (Some x)
    /\ json_object_get_type (Some x) = json_type_string
    /\ json_object_get_string (Some x) = Some s
    /\ length s = k /\ Forall (fun c => class c = true) s.

Lemma forallb_Forall (f : char -> bool) (s : cstr) : forallb f s = true <-> Forall (fun c => f c = true) s.
Proof.
  induction s as [|c s IH]; cbn [forallb]; [by split|]. rewrite andb_true_iff, Forall_cons_iff. tauto.
Qed.

Lemma code_field_valid (o : jobj) (name : string) (k : nat) custom (class : char -> bool) (D : errdst) :
  (0 < k)%nat ->
  (forall x s, json_object_get_string (Some x) = Some s ->
     custom (Some x) D = Some Pass <-> length s = k /\ Forall (fun c => class c = true) s) ->
  field_valid (Some o) D (string_field name true (Z.of_nat k) (Some custom))
  <-> code_member o (lit name) k class.
Proof.
  intros Hk HC. unfold field_valid, string_field, code_member.
  cbn [field_name is_required custom_validator run_custom].
  destruct (json_object_object_get_ex (Some o) (lit name)) as [[x|]|] eqn:E.
  2,3: split; [done|]; intros (? & ? & ? & _); done.
  unfold type_valid. cbn [type max_bits]. split.
  - intros (_ & [Ht _] & Hp). destruct (string_text (Some x) Ht) as (s & Hs & _). exists x, s.
    destruct (proj1 (HC x s Hs) Hp). done.
  - intros (x' & s & [= <-] & Ht & Hs & Hl & Hf). split; [|split].
    + intros _. unfold nonempty. rewrite Ht, Hs. intros [= ->]. simpl in Hl. lia.
    + split; [done|]. right. exists s. split; [done|]. unfold as_size. pose proof (utf8_strlen_le s). lia.
    + by apply (HC x s Hs).
Qed.

Lemma customer_id_ok (D : errdst) (x : jobj) (s : cstr) :
  json_object_get_string (Some x) = Some s ->
  customer_id_validator (Some x) D = Some Pass <-> length s = 5%nat /\ Forall (fun c => isalpha c = true) s.
Proof.
  intros Hs. unfold customer_id_validator, reject. rewrite Hs, <- forallb_Forall.
  destruct (Nat.eqb_spec (length s) 5), (forallb isalpha s); cbn [negb]; naive_solver.
Qed.

Lemma totp_ok (D : errdst) (x : jobj) (s : cstr) :
  json_object_get_string (Some x) = Some s ->
  totp_custom_validator (Some x) D = Some Pass <-> length s = 6%nat /\ Forall (fun c => isdigit c = true) s.
Proof.
  intros Hs. unfold totp_custom_validator, reject. rewrite Hs, <- forallb_Forall.
  destruct (Nat.eqb_spec (length s) 6), (forallb isdigit s); cbn [negb]; naive_solver.
Qed.

Lemma customs_always (o : jobj) (D : errdst) (fields : list FieldValidator) :
  Forall (fun f => forall x, run_custom (custom_validator f) (Some x) D <> None) fields ->
  customs_defined (schema_of fields) (Some o) D.
Proof.
  intros H. split; [|done]. eapply Forall_impl; [|exact H]. intros f Hf x _ _. apply Hf.
Qed.

Lemma customer_id_defined (x : jobj) (D : errdst) : customer_id_validator (Some x) D <> None.
Proof. unfold customer_id_validator, reject. by repeat case_match. Qed.

Lemma totp_defined (x : jobj) (D : errdst) : totp_custom_validator (Some x) D <> None.
Proof. unfold totp_custom_validator, reject. by repeat case_match. Qed.

(** The codes a client may send have exactly the documented form. For every
    document, validation accepts a customer request if and only if it is an
    object whose [id] is a string of five ASCII letters, and a TOTP request if
    and only if it is an object whose [totp] is a string of six digits: nothing
    longer, shorter or with other characters reaches the database or the
    validation of the code. *)
Lemma codes_decided (o : jobj) (n : nat) :
  (exists v, validate_json (Some CustomerContext) (Some o) (Some (S n)) = Some v
     /\ (v = Pass <-> json_object_get_type (Some o) = json_type_object
                       /\ code_member o (lit "id") 5 isalpha))
  /\ (exists v, validate_json (Some VerifyTotpContext) (Some o) (Some (S n)) = Some v
     /\ (v = Pass <-> json_object_get_type (Some o) = json_type_object
                       /\ code_member o (lit "totp") 6 isdigit)).
Proof.
  split.
  - destruct (validate_json_ok CustomerContext o n) as (v & E & Hv).
    + repeat constructor; cbn; lia.
    + apply customs_always. constructor; [|constructor]. intros x. apply customer_id_defined.
    + exists v. split; [done|]. rewrite Hv. unfold request_valid, CustomerContext, schema_of.
      cbn [schema global_validator run_custom]. rewrite Forall_cons_iff.
      rewrite (code_field_valid o "id" 5 _ isalpha (Some (S n))); [|lia|apply customer_id_ok].
      naive_solver.
  - destruct (validate_json_ok VerifyTotpContext o n) as (v & E & Hv).
    + repeat constructor; cbn; lia.
    + apply customs_always. constructor; [|constructor]. intros x. apply totp_defined.
    + exists v. split; [done|]. rewrite Hv. unfold request_valid, VerifyTotpContext, schema_of.
      cbn [schema global_validator run_custom]. rewrite Forall_cons_iff.
      rewrite (code_field_valid o "totp" 6 _ isdigit (Some (S n))); [|lia|apply totp_ok].
      naive_solver.
Qed.

Lemma customer_code (o : jobj) (n : nat) :
  validate_json (Some CustomerContext) (Some o) (Some (S n)) = Some Pass ->
  code_member o (lit "id") 5 isalpha.
Proof. intros E. destruct (codes_decided o n) as [(v & E' & Hv) _]. apply Hv. congruence. Qed.

(** ** Numbers *)

(** The number a handler hands to the database. *)
Definition int_param (o : jobj) (key : cstr) : Z := swrap 32 (json_get_int (Some o) key).

(** An employee id that passes is a number from 1 to 9, also as an [int]. *)
Lemma employee_id_range (o : jobj) (n : nat) :
  validate_json (Some EmployeeContext) (Some o) (Some (S n)) = Some Pass ->
  (1 <= int_param o (lit "id") <= 9)%Z /\ int_param o (lit "id") = json_get_int (Some o) (lit "id").
Proof.
  intros E. destruct (validate_json_ok EmployeeContext o n) as (v & E' & Hv).
  - repeat constructor; cbn; lia.
  - apply customs_always. by repeat constructor.
  - rewrite E in E'. injection E' as <-. destruct (proj1 Hv eq_refl) as (_ & Hf & _).
    cbn [EmployeeContext schema_of schema] in Hf. apply Forall_cons_iff in Hf as [Hf _].
    unfold field_valid, int_field in Hf. cbn [field_name is_required] in Hf.
    unfold int_param, json_get_int.
    destruct (json_object_object_get_ex (Some o) (lit "id")) as [[x|]|]; [|done..].
    destruct Hf as (_ & (_ & Hmin & Hmax) & _). cbn [has_min has_max min_bits max_bits] in *.
    specialize (Hmin eq_refl). specialize (Hmax eq_refl).
    change (as_int _) with 1%Z in Hmin. change (as_int _) with 9%Z in Hmax.
    unfold clamp_int, INT_MIN, INT_MAX in *. rewrite swrap_small by lia. lia.
Qed.

End Sales.

(** ** Concrete applications *)

Import Model.

(** The range of an id is checked on the saturated 32-bit value, and the handler
    truncates the 64-bit one: 2 ^ 32 passes a minimum of 1 and is used as 0. *)
Lemma id_truncated :
  exists o, validate_json (Some GastoContext) (Some o) (Some 1024%nat) = Some Pass
    /\ int_param o (lit "id") = 0%Z.
Proof. exists (JObject [(lit "id", JInt (2 ^ 32))]). split; vm_compute; reflexivity. Qed.

(** The message about a bad customer id repeats it, quotes included, and the
    worker puts it into the JSON reply as it is. *)
Lemma bad_id_echoed :
  validate_json (Some CustomerContext) (Some (JObject [(lit "id", JString (lit "a`b"))])) (Some 1024%nat)
  = Some (Reject (Some (lit "Invalid customer ID format: a`b"))).
Proof. vm_compute. reflexivity. Qed.

Definition sample_sales : json :=
  JObject [(lit "start_date", JString (lit "1994-02-28")); (lit "end_date", JString (lit "1996-02-29"))].

Lemma sales_context_decides_witness : sales_request sample_sales.
Proof.
  destruct (sales_context_decides (JL := model_json_c_laws) sample_sales 1023) as (v & E & H).
  apply H. vm_compute in E. injection E as <-. reflexivity.
Defined.

End Schemas.
