(* ===== verification/Server.v ===== *)
(** * lib/server.c: the reactor side of a request

    The middleware in front of the routes, the reply of a completed task and
    the counters of the reactors.  A reply is a status, a reason, the output
    headers in the order they were added and the body; what is not a reply of
    the server's own making ([evhttp_send_error]) is a constructor of its own.
    The result of [task_pool_alloc] and of [worker_pool_enqueue] are arguments:
    [TaskPool] and [TaskQueue] model those calls.  Log lines are left out. *)

From S2P Require Import Prelude JsonUtil Dtoa JsonC Sodium Validation Jwt ThreadState TaskPool EvHttp.
From S2P Require Import Worker Config.
Import ThreadState TaskPool Worker.

Module Server.

Abbreviation header := (cstr * cstr)%type.

Record response := Response {
  r_code : Z;
  r_text : option cstr;
  r_headers : list header;
  r_body : list char;
}.

(** [evhttp_find_header] on output headers *)
Definition has_header (hs : list header) (name : cstr) : bool :=
  existsb (fun h => strcaseeq h.1 name) hs.

(** ** Sizes *)

Definition REACTORS_MAX : Z := 64.

(** [setup_core_tracking]: the number of reactors *)
Definition num_cores (online : Z) : Z := if ((online <=? 0) || (64 <? online))%Z then 4 else online.

(** [server_init_globals]: the number of workers and the size of the slab *)
Definition bg_workers_count (c : Config.config) (num_reactors : Z) : Z :=
  if (0 <? Config.num_threads c)%Z then Config.num_threads c else uwrap 64 (num_reactors * 2).

Definition slab_size (c : Config.config) (num_reactors : Z) : Z :=
  let q_size := Config.max_queue_size c in
  let safe_q_size := if (q_size =? 0)%Z then 100000%Z else q_size in
  uwrap 64 (uwrap 64 (safe_q_size * 2) + bg_workers_count c num_reactors + 10000).

(** ** Statistics *)

(** [struct reactor_stats] *)
Record reactor_stats := Stats {
  total_requests_fast : Z;
  total_time_fast_ms : Z;
  total_requests_slow : Z;
  total_time_slow_ms : Z;
}.

Definition zero_stats : reactor_stats := Stats 0 0 0 0.

(** [server_record_request_stats] on the array of the reactors *)
Definition server_record_request_stats (g : list reactor_stats) (rid : nat) (elapsed_ms : Z)
    (is_fast : bool) : list reactor_stats :=
  alter (fun s =>
    if is_fast
    then Stats (uwrap 64 (total_requests_fast s + 1)) (uwrap 64 (total_time_fast_ms s + elapsed_ms))
               (total_requests_slow s) (total_time_slow_ms s)
    else Stats (total_requests_fast s) (total_time_fast_ms s)
               (uwrap 64 (total_requests_slow s + 1)) (uwrap 64 (total_time_slow_ms s + elapsed_ms)))
    rid g.

(** [server_request_stats_t] *)
Record request_stats := RequestStats {
  st_requests : Z;
  st_requests_fast : Z;
  st_requests_slow : Z;
  st_time : Z;
  st_time_fast : Z;
  st_time_slow : Z;
  st_avg_fast : Z;
  st_avg_slow : Z;
}.

Definition sum_stat (f : reactor_stats -> Z) (g : list reactor_stats) : Z :=
  fold_left (fun acc s => uwrap 64 (acc + f s)) g 0%Z.

(** [server_get_request_stats] *)
Definition server_get_request_stats (g : list reactor_stats) : request_stats :=
  let reqs_fast := sum_stat total_requests_fast g in
  let time_fast := sum_stat total_time_fast_ms g in
  let reqs_slow := sum_stat total_requests_slow g in
  let time_slow := sum_stat total_time_slow_ms g in
  {| st_requests := uwrap 64 (reqs_fast + reqs_slow);
     st_requests_fast := reqs_fast; st_requests_slow := reqs_slow;
     st_time := uwrap 64 (time_fast + time_slow);
     st_time_fast := time_fast; st_time_slow := time_slow;
     st_avg_fast := if (reqs_fast =? 0)%Z then 0%Z else (time_fast / reqs_fast)%Z;
     st_avg_slow := if (reqs_slow =? 0)%Z then 0%Z else (time_slow / reqs_slow)%Z |}.

Definition LONG_MAX : Z := 2 ^ 63 - 1.

(** The hand-written number parser of [server_get_memory_stats]; [None] where
    the signed arithmetic would overflow. *)
Fixpoint scan_resident (resident : Z) (p : cstr) : option Z :=
  match p with
  | c :: p' =>
      if isdigit c then
        let r := (resident * 10 + (uchar c - 48))%Z in
        if (r <=? LONG_MAX)%Z then scan_resident r p' else None
      else Some resident
  | [] => Some resident
  end.

(** The usage in kilobytes from the text of [/proc/self/statm], of which 127
    bytes are read. *)
Definition memory_usage_kb (statm : cstr) (page_size : Z) : option Z :=
  match strchr (take 127 statm) " "%char with
  | None => Some 0%Z
  | Some (_, p) =>
      resident ← scan_resident 0 p;
      if (resident * page_size <=? LONG_MAX)%Z then Some (resident * page_size / 1024)%Z else None
  end.

(** [measure_elapsed_ms] on seconds and nanoseconds *)
Definition measure_elapsed_ms (start finish : Z * Z) : Z :=
  ((finish.1 - start.1) * 1000 + Z.quot (finish.2 - start.2) 1000000)%Z.

(** ** The client *)

(** [server_get_client_ip_fast] *)
Definition server_get_client_ip_fast (peer : option cstr) : cstr :=
  match peer with
  | Some (c :: s) => c :: s
  | _ => lit "unknown"
  end.

(** The part behind the last comma, if there is one ([strrchr]). *)
Fixpoint after_last_comma (s : cstr) : option cstr :=
  match s with
  | [] => None
  | c :: s' =>
      match after_last_comma s' with
      | Some r => Some r
      | None => if decide (c = ","%char) then Some s' else None
      end
  end.

Fixpoint skip_blanks (s : cstr) : cstr :=
  match s with
  | c :: s' => if decide (c = " "%char) then skip_blanks s' else s
  | [] => []
  end.

Definition INET6_ADDRSTRLEN : nat := 46.

Section Requests.
Context `{J : JsonC, T : !JsonTokener J, So : Sodium, E : EvHttp}.
Context (cfg : Config.config).
Abbreviation task := (http_task request jobj middleware_ctx_t).

(** [is_trusted_proxy] *)
Definition is_trusted_proxy (r : request) : bool :=
  match evhttp_request_get_connection r with
  | None => false
  | Some peer =>
      let peer_ip := server_get_client_ip_fast peer in
      if bool_decide (strcmp peer_ip (lit "unknown") = Eq) then false
      else match Config.trust_proxy_ip cfg with
           | [] => false
           | p => bool_decide (strcmp peer_ip p = Eq)
           end
  end.

(** [server_extract_client_ip] *)
Definition server_extract_client_ip (r : request) : cstr :=
  let direct :=
    match evhttp_request_get_connection r with
    | Some peer => server_get_client_ip_fast peer
    | None => lit "unknown"
    end in
  match evhttp_find_header r (lit "X-Forwarded-For") with
  | None => direct
  | Some x_forwarded_for =>
      if negb (is_trusted_proxy r) then direct
      else match after_last_comma x_forwarded_for with
           | None => x_forwarded_for
           | Some start => take (INET6_ADDRSTRLEN - 1) (skip_blanks start)
           end
  end.

(** ** The middleware *)

Definition security_headers : list header :=
  [(lit "X-Content-Type-Options", lit "nosniff");
   (lit "X-Frame-Options", lit "DENY");
   (lit "Cache-Control", lit "no-store, no-cache, must-revalidate, max-age=0");
   (lit "Content-Security-Policy", lit "default-src 'none'; frame-ancestors 'none'")].

(** [inject_security_headers] *)
Definition inject_security_headers (hs : list header) : list header := hs ++ security_headers.

(** A string in a zeroed array of [MAX_CONFIG_STR] bytes. *)
Definition key_buffer (s : cstr) : list char :=
  s ++ replicate (Config.MAX_CONFIG_STR - length s) NUL.

(** The content of [provided_key]. *)
Definition provided_key (r : request) : cstr :=
  match evhttp_find_header r (lit "X-API-Key"), evhttp_find_header r (lit "Authorization") with
  | Some auth_header, _ => strlcpy Config.MAX_CONFIG_STR auth_header
  | None, Some bearer =>
      if strncaseeq bearer (lit "Bearer ") 7
      then strlcpy Config.MAX_CONFIG_STR (drop 7 bearer) else []
  | None, None => []
  end.

(** [validate_telemetry_api_key] *)
Definition validate_telemetry_api_key (r : request) : bool :=
  match Config.telemetry_api_key cfg with
  | [] => false
  | expected_key =>
      bool_decide (key_buffer (provided_key r) = key_buffer expected_key)
      && negb (bool_decide (provided_key r = []))
  end.

(** [server_validate_cors]: the headers to go on with, or the refusal. *)
Definition server_validate_cors (r : request) (hs : list header) : list header + response :=
  match evhttp_find_header r (lit "Origin") with
  | None => inl hs
  | Some origin =>
      if Config.config_is_origin_allowed cfg (Some origin) then
        inl (hs ++ [(lit "Access-Control-Allow-Origin", origin);
                    (lit "Access-Control-Allow-Methods", lit "GET, POST, OPTIONS");
                    (lit "Access-Control-Allow-Headers", lit "Content-Type, Authorization, X-API-Key");
                    (lit "Access-Control-Max-Age", lit "86400");
                    (lit "Vary", lit "Origin")])
      else inr (Response 403 (Some (lit "Forbidden")) hs (lit "{`error`:`CORS origin not allowed.`}"))
  end.

(** [server_validate_method_and_auth] *)
Definition server_validate_method_and_auth (r : request) (ctx : middleware_ctx_t) (hs : list header)
    : option response :=
  if decide (evhttp_request_get_command r <> allowed_method ctx) then
    Some (Response 405 (Some (lit "Method Not Allowed")) hs (lit "{`error`:`Method not permitted.`}"))
  else if bool_decide (auth_mode ctx = AUTH_API_KEY) && negb (validate_telemetry_api_key r) then
    Some (Response 403 (Some (lit "Forbidden")) hs (lit "{`error`:`Access Denied`}"))
  else None.

(** What becomes of a request and of the task allocated for it. *)
Inductive outcome :=
  | Ignored
  | ErrorPage (code : Z) (text : cstr)
  | Replied (reply : response) (freed : option nat)
  | Queued (t : nat) (x : task) (hs : list header).

Definition too_busy (hs : list header) : response :=
  Response 503 (Some (lit "Service Unavailable")) hs (lit "{`error`:`Server Too Busy`}").

(** The fields [server_enqueue_task] fills in. *)
Definition fill_task (x : task) (r : request) (ctx : middleware_ctx_t) (start : Z * Z) (rid : nat)
    (ip rq_id u : cstr) : task := {|
  start_time := start; req := Some r; parsed_body := None; middleware_ctx := Some ctx;
  status_txt := status_txt x; worker_buf := worker_buf x; next := next x; reactor_id := rid;
  status_code := status_code x; cancelled := false; out_content_type := out_content_type x;
  username := []; session_id := []; client_ip := strlcpy 64 ip; request_id := strlcpy 64 rq_id;
  uri := strlcpy 1024 u |}.

(** [server_enqueue_task]; [alloc] is the task [task_pool_alloc] returned and
    [accepted] the answer of [worker_pool_enqueue]. *)
Definition server_enqueue_task (r : request) (ctx : middleware_ctx_t) (start : Z * Z) (ip : cstr)
    (rid : nat) (hs : list header) (alloc : option (nat * task)) (accepted : bool) : outcome :=
  match alloc with
  | None => Replied (too_busy hs) None
  | Some (t, x) =>
      let raw_uri := evhttp_request_get_uri r in
      let req_id := evhttp_find_header r (lit "X-Request-Id") in
      if (1024 <=? length raw_uri)%nat
         || match req_id with Some i => (64 <=? length i)%nat | None => false end
         || (64 <=? length ip)%nat
      then Replied (Response 400 (Some (lit "Bad Request")) hs
                      (lit "{`error`:`Request Headers or URI Too Long`}")) (Some t)
      else
        let x := fill_task x r ctx start rid ip (default [] req_id) raw_uri in
        if accepted then Queued t x hs else Replied (too_busy hs) (Some t)
  end.

(** [api_middleware_wrapper] *)
Definition api_middleware_wrapper (r : request) (arg : option middleware_ctx_t) (start : Z * Z)
    (rid : nat) (alloc : option (nat * task)) (accepted : bool) : outcome :=
  if bool_decide (evhttp_request_get_connection r = None) then Ignored else
  let hs := inject_security_headers [] in
  let client_ip := server_extract_client_ip r in
  match arg with
  | None => ErrorPage 500 (lit "Middleware Routing Fault")
  | Some ctx =>
      match handler ctx with
      | None => ErrorPage 500 (lit "Middleware Routing Fault")
      | Some _ =>
          match server_validate_cors r hs with
          | inr reply => Replied reply None
          | inl hs =>
              if decide (evhttp_request_get_command r = EVHTTP_REQ_OPTIONS)
              then Replied (Response 204 (Some (lit "No Content")) hs []) None
              else match server_validate_method_and_auth r ctx hs with
                   | Some reply => Replied reply None
                   | None => server_enqueue_task r ctx start client_ip rid hs alloc accepted
                   end
          end
      end
  end.

(** ** The reply *)

(** [send_http_reply], the body being what is in the output buffer *)
Definition send_http_reply (x : task) (out_buf : list char) (hs : list header) : response :=
  let has_body := negb (bool_decide (out_buf = [])) in
  let json hs := if has_header hs (lit "Content-Type") then hs
                 else hs ++ [(lit "Content-Type", lit "application/json")] in
  if has_body then
    Response (status_code x) (status_txt x)
      (match out_content_type x with
       | [] => json hs
       | ctype => hs ++ [(lit "Content-Type", ctype)]
       end) out_buf
  else if (400 <=? status_code x)%Z then
    if decide (status_code x <> 500%Z) then
      Response (status_code x) (status_txt x) (json hs)
        (snprintf 256 (lit "{`error`:`" ++ default (lit "Error") (status_txt x) ++ lit "`}"))
    else Response 500 (Some (lit "Internal Server Error")) (json hs)
           (lit "{`error`:`Internal Server Error`}")
  else Response (status_code x) (status_txt x) hs out_buf.

(** [process_completed_task]: the reply and the counters; the task goes back
    to the slab. *)
Definition process_completed_task (x : task) (hs : list header) (finish : Z * Z)
    (g : list reactor_stats) (rid : nat) : response * list reactor_stats :=
  let elapsed_ms := measure_elapsed_ms (start_time x) finish in
  let fast := match middleware_ctx x with Some c => is_fast c | None => false end in
  (send_http_reply x (default [] (worker_buf x)) hs,
   server_record_request_stats g rid elapsed_ms fast).

(** ** The properties of the middleware *)

Lemma after_last_comma_app (a b : cstr) :
  ","%char ∉ b -> after_last_comma (a ++ ","%char :: b) = Some b.
Proof.
  intros Hb. assert (after_last_comma b = None) as Hn.
  { clear a. induction b as [|c b IH]; [done|]. apply not_elem_of_cons in Hb as [Hc Hb]. simpl.
    rewrite (IH Hb). by rewrite decide_False. }
  induction a as [|c a IH]; cbn [app after_last_comma]; [by rewrite Hn, decide_True|by rewrite IH].
Qed.

Lemma after_last_comma_None (s : cstr) : ","%char ∉ s -> after_last_comma s = None.
Proof.
  induction s as [|c s IH]; [done|]. intros Hs. apply not_elem_of_cons in Hs as [Hc Hs]. simpl.
  rewrite (IH Hs). by rewrite decide_False.
Qed.

(** The client address cannot be forged. If the peer of the connection is
    not the configured proxy, the address recorded for the request is that of
    the peer, whatever X-Forwarded-For says; if it is, the address is the last
    entry of the header (what the proxy itself appended), without the blanks in
    front of it and cut at 45 characters, or the whole header when it has no
    comma. *)
Lemma client_ip_trusted_only (r : request) (peer : option cstr) :
  evhttp_request_get_connection r = Some peer ->
  let ip := server_get_client_ip_fast peer in
  (ip <> Config.trust_proxy_ip cfg -> server_extract_client_ip r = ip)
  /\ (ip = Config.trust_proxy_ip cfg -> ip <> lit "unknown" ->
      (evhttp_find_header r (lit "X-Forwarded-For") = None -> server_extract_client_ip r = ip)
      /\ (forall x, evhttp_find_header r (lit "X-Forwarded-For") = Some x -> ","%char ∉ x ->
          server_extract_client_ip r = x)
      /\ (forall a b, evhttp_find_header r (lit "X-Forwarded-For") = Some (a ++ ","%char :: b) ->
          ","%char ∉ b -> server_extract_client_ip r = take 45 (skip_blanks b))).
Proof.
  intros Hc ip. unfold server_extract_client_ip, is_trusted_proxy. rewrite Hc. fold ip. split.
  - intros Hne. destruct (evhttp_find_header r (lit "X-Forwarded-For")) as [x|]; [|done].
    assert ((if bool_decide (strcmp ip (lit "unknown") = Eq) then false
      else match Config.trust_proxy_ip cfg with
           | [] => false | p => bool_decide (strcmp ip p = Eq) end) = false) as ->; [|done].
    destruct (bool_decide _); [done|]. destruct (Config.trust_proxy_ip cfg); [done|].
    apply bool_decide_eq_false. by rewrite strcmp_eq.
  - intros Heq Hun.
    assert ((if bool_decide (strcmp ip (lit "unknown") = Eq) then false
      else match Config.trust_proxy_ip cfg with
           | [] => false | p => bool_decide (strcmp ip p = Eq) end) = true) as ->.
    { rewrite bool_decide_false by (by rewrite strcmp_eq). rewrite <- Heq.
      destruct ip as [|i ip'] eqn:E'; [|by rewrite strcmp_refl, bool_decide_true].
      subst ip. unfold server_get_client_ip_fast in E'. by destruct peer as [[]|]. }
    cbn [negb]. split; [by intros ->|]. split.
    + intros x -> Hx. by rewrite after_last_comma_None.
    + intros a b -> Hb. by rewrite after_last_comma_app.
Qed.

Lemma key_buffer_inj (a b : cstr) :
  no_nul a -> no_nul b -> (length a < 1024)%nat -> (length b < 1024)%nat ->
  key_buffer a = key_buffer b -> a = b.
Proof.
  intros Ha Hb La Lb H. unfold key_buffer, Config.MAX_CONFIG_STR in H.
  apply (f_equal c_str) in H.
  replace (1024 - length a)%nat with (S (1023 - length a)) in H by lia.
  replace (1024 - length b)%nat with (S (1023 - length b)) in H by lia.
  cbn [replicate] in H. by rewrite !c_str_no_nul in H.
Qed.

(** The key a request presents: X-API-Key, else the bearer token. *)
Definition presents (r : request) (given : cstr) : Prop :=
  evhttp_find_header r (lit "X-API-Key") = Some given
  \/ (evhttp_find_header r (lit "X-API-Key") = None
      /\ exists hdr, evhttp_find_header r (lit "Authorization") = Some hdr
         /\ strncaseeq hdr (lit "Bearer ") 7 = true /\ given = drop 7 hdr).

(** The API key check is an exact comparison. For a configured key (of the
    at most 1023 characters its buffer holds), a request is accepted exactly
    when the key it presents, in X-API-Key or else as a bearer token, cut at
    1023 characters, equals the configured one; comparing the two whole 1024
    byte buffers does not change the answer.  Without a configured key every
    request is refused. *)
Lemma api_key_exact `{EL : !EvHttpLaws E} (r : request) :
  no_nul (Config.telemetry_api_key cfg) ->
  (length (Config.telemetry_api_key cfg) < 1024)%nat ->
  validate_telemetry_api_key r = true
  <-> Config.telemetry_api_key cfg <> []
      /\ exists given, presents r given /\ take 1023 given = Config.telemetry_api_key cfg.
Proof.
  intros Hk Hl. unfold validate_telemetry_api_key.
  destruct (Config.telemetry_api_key cfg) as [|k0 key] eqn:EK; [split; [done|by intros [? _]]|].
  set (provided := provided_key r).
  assert (provided = [] \/ exists given, presents r given /\ provided = take 1023 given) as HP.
  { unfold provided, provided_key, presents. destruct (evhttp_find_header r (lit "X-API-Key")) as [x|]; [right; eauto|].
    destruct (evhttp_find_header r (lit "Authorization")) as [h|]; [|by left].
    destruct (strncaseeq h (lit "Bearer ") 7) eqn:B; [right; exists (drop 7 h)|by left]. eauto 10. }
  assert (forall given, presents r given -> provided = take 1023 given) as HQ.
  { intros given [Hx|(Hx & h & Hh & Hb & ->)]; unfold provided, provided_key; rewrite Hx; [done|].
    by rewrite Hh, Hb. }
  assert (no_nul provided /\ length provided < 1024)%nat as [Hn Hpl].
  { destruct HP as [->|(given & Hg & ->)]; [split; [constructor|simpl; lia]|].
    split; [|rewrite length_take; lia]. apply no_nul_take.
    destruct Hg as [Hx|(_ & h & Hh & _ & ->)]; [by eapply header_no_nul|].
    apply Forall_drop. by eapply header_no_nul. }
  clearbody provided. rewrite andb_true_iff, negb_true_iff, bool_decide_eq_true, bool_decide_eq_false.
  split.
  - intros [He%key_buffer_inj Hne]; [|done..]. split; [done|].
    destruct HP as [->|(given & Hg & ->)]; [done|]. by exists given.
  - intros (_ & given & Hg & Ht). rewrite (HQ given Hg), Ht. done.
Qed.

Lemma cors_passes (r : request) (hs hs' : list header) :
  server_validate_cors r hs = inl hs' ->
  (forall o, evhttp_find_header r (lit "Origin") = Some o ->
     Config.config_is_origin_allowed cfg (Some o) = true)
  /\ (exists more, hs' = hs ++ more)
  /\ (forall v, (lit "Access-Control-Allow-Origin", v) ∈ hs' ->
      (lit "Access-Control-Allow-Origin", v) ∈ hs \/ evhttp_find_header r (lit "Origin") = Some v).
Proof.
  unfold server_validate_cors. destruct (evhttp_find_header r (lit "Origin")) as [o|].
  - destruct (Config.config_is_origin_allowed cfg (Some o)) eqn:A; [|done]. intros [= <-].
    split; [by intros ? [= <-]|]. split; [by eexists|]. intros v Hv.
    apply elem_of_app in Hv as [Hv|Hv]; [by left|right].
    apply elem_of_cons in Hv as [Hv|Hv]; [injection Hv as ->; done|]. exfalso.
    apply (list_elem_of_fmap_2' fst _ _ (lit "Access-Control-Allow-Origin")) in Hv; [|done].
    revert Hv. apply (bool_decide_unpack (_ ∉ _)). vm_compute. done.
  - intros [= <-]. split; [done|]. split; [exists []; by rewrite app_nil_r|]. auto.
Qed.

(** The conditions under which a request is handed to the workers. *)
Definition admissible (r : request) (ctx : middleware_ctx_t) : Prop :=
  evhttp_request_get_command r = allowed_method ctx
  /\ evhttp_request_get_command r <> EVHTTP_REQ_OPTIONS
  /\ (forall o, evhttp_find_header r (lit "Origin") = Some o ->
      Config.config_is_origin_allowed cfg (Some o) = true)
  /\ (auth_mode ctx = AUTH_API_KEY -> validate_telemetry_api_key r = true).

(** Only admissible requests reach the workers, and with untruncated data.
    If the middleware queues a task, then the method is that of the route, the
    origin, if any, is allowed, and on a route with an API key the key is
    valid; and the task that is queued is the one that was allocated, carries
    this request, route and reactor, the whole URI, request id and client
    address, and no user yet. *)
Lemma middleware_queues_admissible (r : request) (arg : option middleware_ctx_t)
    (start : Z * Z) (rid t : nat) (alloc : option (nat * task)) (accepted : bool) (x : task)
    (hs : list header) :
  api_middleware_wrapper r arg start rid alloc accepted = Queued t x hs ->
  exists ctx x0, arg = Some ctx /\ alloc = Some (t, x0) /\ admissible r ctx
    /\ req x = Some r /\ middleware_ctx x = Some ctx /\ reactor_id x = rid /\ start_time x = start
    /\ uri x = evhttp_request_get_uri r /\ client_ip x = server_extract_client_ip r
    /\ request_id x = default [] (evhttp_find_header r (lit "X-Request-Id"))
    /\ username x = [] /\ session_id x = [] /\ parsed_body x = None /\ cancelled x = false.
Proof.
  unfold api_middleware_wrapper, server_validate_method_and_auth.
  destruct (bool_decide _); [done|]. destruct arg as [ctx|]; [|done].
  destruct (handler ctx) as [h|]; [|done].
  destruct (server_validate_cors r _) as [hs'|] eqn:C; [|done].
  case_decide as Ho; [done|]. destruct (decide (evhttp_request_get_command r <> allowed_method ctx)) as [|Hm];
    [done|]. destruct (bool_decide (auth_mode ctx = AUTH_API_KEY) && _) eqn:A; [done|].
  unfold server_enqueue_task. destruct alloc as [[t0 x0]|]; [|done].
  destruct (_ || _ || _) eqn:L; [done|]. destruct accepted; [|done]. intros [= <- <- <-].
  rewrite !orb_false_iff, !Nat.leb_gt in L. destruct L as [[L1 L2] L3].
  assert (admissible r ctx) as Had.
  { split; [by apply dec_stable|]. split; [done|]. split; [by apply (cors_passes _ _ _ C)|].
    intros HA. rewrite bool_decide_true in A by done. by apply negb_false_iff in A. }
  exists ctx, x0. do 7 (split; [done|]). split_and!; try done.
  - apply strlcpy_fits. lia.
  - apply strlcpy_fits. lia.
  - cbn [request_id fill_task]. destruct (evhttp_find_header r (lit "X-Request-Id")) as [i|]; [|done].
    apply strlcpy_fits. apply Nat.leb_gt in L2. simpl. lia.
Qed.

(** The headers an outcome carries. *)
Definition outcome_headers (o : outcome) : option (list header) :=
  match o with
  | Replied reply _ => Some (r_headers reply)
  | Queued _ _ hs => Some hs
  | _ => None
  end.

Lemma wrapper_headers (r : request) (arg : option middleware_ctx_t) (start : Z * Z) (rid : nat)
    (alloc : option (nat * task)) (accepted : bool) (hs : list header) :
  outcome_headers (api_middleware_wrapper r arg start rid alloc accepted) = Some hs ->
  hs = security_headers \/ server_validate_cors r security_headers = inl hs.
Proof.
  unfold api_middleware_wrapper. destruct (bool_decide _); [done|].
  destruct arg as [ctx|]; [|done]. destruct (handler ctx); [|done].
  change (inject_security_headers []) with security_headers.
  destruct (server_validate_cors r security_headers) as [hs'|reply] eqn:C.
  2:{ unfold server_validate_cors in C. destruct (evhttp_find_header r (lit "Origin")); [|done].
      destruct (Config.config_is_origin_allowed _ _); [done|]. injection C as <-.
      intros [= <-]. by left. }
  intros H. right. f_equal. revert H. case_decide; [by intros [= <-]|].
  unfold server_validate_method_and_auth. case_decide; [by intros [= <-]|].
  destruct (_ && _); [by intros [= <-]|]. unfold server_enqueue_task.
  destruct alloc as [[t x]|]; [|by intros [= <-]]. destruct (_ || _ || _); [by intros [= <-]|].
  destruct accepted; by intros [= <-].
Qed.

(** Every reply carries the security headers, and a CORS grant only to an
    allowed origin. Whatever the request, each reply the middleware makes, and
    each request it queues, starts its headers with the four security headers;
    if they grant an origin with Access-Control-Allow-Origin, it is the origin
    of the request and the configuration allows it; and a request with an
    origin that is not allowed is answered with status 403, before its method,
    its key or its body are looked at. *)
Lemma middleware_headers (r : request) (arg : option middleware_ctx_t) (start : Z * Z) (rid : nat)
    (alloc : option (nat * task)) (accepted : bool) (hs : list header) :
  outcome_headers (api_middleware_wrapper r arg start rid alloc accepted) = Some hs ->
  take 4 hs = security_headers
  /\ (forall v, (lit "Access-Control-Allow-Origin", v) ∈ hs ->
      evhttp_find_header r (lit "Origin") = Some v
      /\ Config.config_is_origin_allowed cfg (Some v) = true)
  /\ (forall o, evhttp_find_header r (lit "Origin") = Some o ->
      Config.config_is_origin_allowed cfg (Some o) = false ->
      exists reply, api_middleware_wrapper r arg start rid alloc accepted = Replied reply None
        /\ r_code reply = 403%Z).
Proof.
  intros H.
  assert (forall v, (lit "Access-Control-Allow-Origin", v) ∉ security_headers) as Hs.
  { intros v Hv.
    apply (list_elem_of_fmap_2' fst _ _ (lit "Access-Control-Allow-Origin")) in Hv; [|done].
    revert Hv. apply (bool_decide_unpack (_ ∉ _)). vm_compute. done. }
  pose proof (wrapper_headers _ _ _ _ _ _ _ H) as W.
  split; [|split].
  - destruct W as [->|W]; [done|]. apply cors_passes in W as (_ & (more & ->) & _). done.
  - intros v Hv. destruct W as [->|W]; [by apply Hs in Hv|].
    apply cors_passes in W as (W1 & _ & W2). destruct (W2 v Hv) as [Hv'|Ho]; [by apply Hs in Hv'|].
    split; [done|]. by apply W1.
  - intros o Ho Ha. revert H. unfold api_middleware_wrapper.
    destruct (bool_decide _); [done|]. destruct arg as [ctx|]; [|done]. destruct (handler ctx); [|done].
    unfold server_validate_cors. rewrite Ho, Ha. intros _. by eexists.
Qed.

(** A task that was allocated is queued or returned, never lost. Whatever
    [worker_pool_enqueue] answers and however long the URI, the request id and
    the address are, [server_enqueue_task] either queues exactly the task it was
    given or replies and returns that task to the pool; with no task it replies
    503. *)
Lemma enqueue_task_owned (r : request) (ctx : middleware_ctx_t) (start : Z * Z) (ip : cstr)
    (rid : nat) (hs : list header) (alloc : option (nat * task)) (accepted : bool) :
  match server_enqueue_task r ctx start ip rid hs alloc accepted, alloc with
  | Queued t _ _, Some (t', _) => t = t' /\ accepted = true
  | Replied reply freed, Some (t', _) => freed = Some t' /\ (400 <= r_code reply)%Z
  | Replied reply freed, None => freed = None /\ r_code reply = 503%Z
  | _, _ => False
  end.
Proof.
  unfold server_enqueue_task. destruct alloc as [[t x]|]; [|done].
  destruct (_ || _ || _); [done|]. by destruct accepted.
Qed.

(** An error always has a JSON body. Whenever the status of a completed
    task is 400 or more, the reply has a body and a content type; if the handler
    wrote none, the body is the JSON object with the status text (of at most
    200 characters), and a handler's own body is sent unchanged. *)
Lemma error_reply_has_body (x : task) (out_buf : list char) (hs : list header) :
  (400 <= status_code x)%Z ->
  (forall txt, status_txt x = Some txt -> (length txt <= 200)%nat) ->
  let reply := send_http_reply x out_buf hs in
  r_code reply = status_code x
  /\ r_body reply <> []
  /\ has_header (r_headers reply) (lit "Content-Type") = true
  /\ (out_buf <> [] -> r_body reply = out_buf)
  /\ (out_buf = [] -> status_code x <> 500%Z ->
      r_body reply = lit "{`error`:`" ++ default (lit "Error") (status_txt x) ++ lit "`}").
Proof.
  intros Hc Ht. unfold send_http_reply. cbv zeta.
  assert (forall l v, has_header (l ++ [(lit "Content-Type", v)]) (lit "Content-Type") = true) as HH.
  { intros l v. unfold has_header. rewrite existsb_app. simpl. by rewrite orb_true_r. }
  assert (forall l, has_header (if has_header l (lit "Content-Type") then l
    else l ++ [(lit "Content-Type", lit "application/json")]) (lit "Content-Type") = true) as HJ.
  { intros l. destruct (has_header l (lit "Content-Type")) eqn:E'; [done|apply HH]. }
  assert (snprintf 256 (lit "{`error`:`" ++ default (lit "Error") (status_txt x) ++ lit "`}")
    = lit "{`error`:`" ++ default (lit "Error") (status_txt x) ++ lit "`}") as Hp.
  { apply snprintf_fits. rewrite !length_app. destruct (status_txt x) as [txt|] eqn:Et.
    - specialize (Ht txt eq_refl). simpl. lia.
    - simpl. lia. }
  destruct out_buf as [|b out_buf]; cbn [negb bool_decide].
  - rewrite bool_decide_true by done. cbn [negb]. rewrite (proj2 (Z.leb_le _ _)) by lia.
    rewrite Hp. case_decide as H5.
    + cbn [r_code r_body r_headers]. split_and!; try done; apply HJ.
    + cbn [r_code r_body r_headers]. by split_and!.
  - rewrite bool_decide_false by done. cbn [negb r_code r_body r_headers].
    split_and!; try done. destruct (out_content_type x); [apply HJ|apply HH].
Qed.

End Requests.

(** ** The properties of the counters and sizes *)

Lemma sum_stat_plain (f : reactor_stats -> Z) (g : list reactor_stats) :
  sum_stat f g = uwrap 64 (foldr Z.add 0%Z (f <$> g)).
Proof.
  unfold sum_stat. rewrite <- (Z.add_0_l (foldr _ _ _)).
  assert (forall acc, fold_left (fun a s => uwrap 64 (a + f s)) g (uwrap 64 acc)
    = uwrap 64 (acc + foldr Z.add 0%Z (f <$> g))) as H.
  { induction g as [|s g IH]; intros acc; cbn [fold_left fmap list_fmap foldr]; [by rewrite Z.add_0_r|].
    assert (uwrap 64 (uwrap 64 acc + f s) = uwrap 64 (acc + f s)) as ->.
    { unfold uwrap. by rewrite Zplus_mod_idemp_l. }
    rewrite IH. f_equal. lia. }
  apply (H 0%Z).
Qed.

Lemma sum_stat_alter (f : reactor_stats -> Z) (h : reactor_stats -> reactor_stats) (d : Z)
    (rid : nat) (g : list reactor_stats) :
  (rid < length g)%nat -> (forall s, uwrap 64 (f (h s)) = uwrap 64 (f s + d)) ->
  sum_stat f (alter h rid g) = uwrap 64 (sum_stat f g + d).
Proof.
  intros Hr Hh. rewrite !sum_stat_plain. unfold uwrap in *. rewrite Zplus_mod_idemp_l.
  revert rid Hr. induction g as [|s g IH]; intros rid Hr; [simpl in Hr; lia|].
  destruct rid as [|rid]; cbn [alter list_alter fmap list_fmap foldr].
  - rewrite Z.add_mod, Hh, <- Z.add_mod by lia. f_equal. lia.
  - rewrite Z.add_mod by lia. change (list_alter h rid g) with (alter h rid g).
    rewrite (IH rid) by (simpl in Hr; lia). rewrite <- Z.add_mod by lia. f_equal. lia.
Qed.

(** A completed request: its reactor, the milliseconds it took and its lane. *)
Definition event : Type := nat * Z * bool.

Definition record_all (n : nat) (evs : list event) : list reactor_stats :=
  fold_left (fun g e => server_record_request_stats g e.1.1 e.1.2 e.2) evs (replicate n zero_stats).

Definition lane_count (fast : bool) (evs : list event) : Z :=
  Z.of_nat (length (filter (fun e : event => e.2 = fast) evs)).

Definition lane_time (fast : bool) (evs : list event) : Z :=
  foldr Z.add 0%Z ((fun e : event => e.1.2) <$> filter (fun e : event => e.2 = fast) evs).

Lemma record_all_snoc (n : nat) (evs : list event) (e : event) :
  record_all n (evs ++ [e]) = server_record_request_stats (record_all n evs) e.1.1 e.1.2 e.2.
Proof. unfold record_all. by rewrite fold_left_app. Qed.

Lemma record_all_length (n : nat) (evs : list event) : length (record_all n evs) = n.
Proof.
  induction evs as [|e evs IH] using rev_ind; [apply length_replicate|].
  rewrite record_all_snoc. unfold server_record_request_stats. by rewrite length_alter.
Qed.

Lemma sum_stat_zero (f : reactor_stats -> Z) (n : nat) :
  f zero_stats = 0%Z -> sum_stat f (replicate n zero_stats) = 0%Z.
Proof.
  intros Hf. rewrite sum_stat_plain.
  assert (foldr Z.add 0%Z (f <$> replicate n zero_stats) = 0%Z) as ->; [|done].
  induction n as [|n IH]; [done|]. cbn [replicate fmap list_fmap foldr]. by rewrite Hf.
Qed.

(** A counter that each event moves by [d] ends at the sum of the [d]s. *)
Lemma record_all_counter (f : reactor_stats -> Z) (d : event -> Z) (n : nat) (evs : list event) :
  f zero_stats = 0%Z ->
  (forall (e : event) s, uwrap 64 (f (if e.2
      then Stats (uwrap 64 (total_requests_fast s + 1)) (uwrap 64 (total_time_fast_ms s + e.1.2))
             (total_requests_slow s) (total_time_slow_ms s)
      else Stats (total_requests_fast s) (total_time_fast_ms s)
             (uwrap 64 (total_requests_slow s + 1)) (uwrap 64 (total_time_slow_ms s + e.1.2))))
    = uwrap 64 (f s + d e)) ->
  Forall (fun e : event => (e.1.1 < n)%nat) evs ->
  sum_stat f (record_all n evs) = uwrap 64 (foldr Z.add 0%Z (d <$> evs)).
Proof.
  intros H0 Hd. induction evs as [|e evs IH] using rev_ind; intros Hf.
  - unfold record_all. simpl. by rewrite sum_stat_zero.
  - apply Forall_app in Hf as [Hf He]. apply Forall_cons_iff in He as [He _].
    rewrite record_all_snoc. unfold server_record_request_stats.
    rewrite (sum_stat_alter f _ (d e)); [|by rewrite record_all_length|apply (Hd e)].
    rewrite (IH Hf). unfold uwrap. rewrite Zplus_mod_idemp_l, fmap_app. f_equal.
    rewrite foldr_app. cbn [fmap list_fmap foldr]. generalize (d <$> evs). intros l.
    rewrite Z.add_0_r. induction l as [|x l IHl]; simpl; lia.
Qed.

Lemma lane_sum (fast : bool) (v : event -> Z) (evs : list event) :
  foldr Z.add 0%Z ((fun e : event => if Bool.eqb e.2 fast then v e else 0%Z) <$> evs)
  = foldr Z.add 0%Z (v <$> filter (fun e : event => e.2 = fast) evs).
Proof.
  induction evs as [|e evs IH]; [done|]. cbn [fmap list_fmap foldr]. rewrite list.filter_cons, IH.
  destruct (Bool.eqb e.2 fast) eqn:B.
  - apply eqb_prop in B. by rewrite decide_True.
  - apply eqb_false_iff in B. rewrite decide_False by done. lia.
Qed.

Lemma lane_ones (fast : bool) (evs : list event) :
  foldr Z.add 0%Z ((fun _ => 1%Z) <$> filter (fun e : event => e.2 = fast) evs) = lane_count fast evs.
Proof.
  unfold lane_count. generalize (filter (fun e : event => e.2 = fast) evs). intros l.
  induction l as [|x l IH]; [done|]. cbn [fmap list_fmap foldr length].
  change (list_fmap event Z (fun _ => 1%Z) l) with ((fun _ : event => 1%Z) <$> l). rewrite IH. lia.
Qed.

Lemma recorded (n : nat) (evs : list event) :
  Forall (fun e : event => (e.1.1 < n)%nat) evs ->
  let g := record_all n evs in
  sum_stat total_requests_fast g = uwrap 64 (lane_count true evs)
  /\ sum_stat total_time_fast_ms g = uwrap 64 (lane_time true evs)
  /\ sum_stat total_requests_slow g = uwrap 64 (lane_count false evs)
  /\ sum_stat total_time_slow_ms g = uwrap 64 (lane_time false evs).
Proof.
  intros Hf g. subst g. unfold lane_time. rewrite <- !lane_ones, <- !lane_sum.
  split_and!; apply record_all_counter; try done;
    intros [[rid ms] []] s; cbn [fst snd Bool.eqb total_requests_fast total_time_fast_ms
      total_requests_slow total_time_slow_ms]; unfold uwrap; rewrite ?Zmod_mod; f_equal; lia.
Qed.

Lemma lane_time_nonneg (fast : bool) (evs : list event) :
  Forall (fun e : event => (0 <= e.1.2)%Z) evs -> (0 <= lane_time fast evs)%Z.
Proof.
  intros H. unfold lane_time. induction evs as [|e evs IH]; [done|].
  apply Forall_cons_iff in H as [He H]. rewrite list.filter_cons.
  case_decide; cbn [fmap list_fmap foldr]; specialize (IH H); lia.
Qed.

(** The statistics add up over the reactors. Starting from zeroed counters,
    after any sequence of completed requests on the reactors (of whatever
    reactor, duration and lane), as long as the totals fit 64 bits, the
    reported totals are the number of requests and the sum of their durations,
    per lane and together, and an average is the quotient of the two, zero for
    a lane without requests. *)
Lemma request_stats_exact (n : nat) (evs : list event) :
  Forall (fun e : event => (e.1.1 < n)%nat /\ (0 <= e.1.2)%Z) evs ->
  (Z.of_nat (length evs) < 2 ^ 64)%Z ->
  (lane_time true evs + lane_time false evs < 2 ^ 64)%Z ->
  server_get_request_stats (record_all n evs) = {|
    st_requests := Z.of_nat (length evs);
    st_requests_fast := lane_count true evs; st_requests_slow := lane_count false evs;
    st_time := lane_time true evs + lane_time false evs;
    st_time_fast := lane_time true evs; st_time_slow := lane_time false evs;
    st_avg_fast := lane_time true evs / lane_count true evs;
    st_avg_slow := lane_time false evs / lane_count false evs |}.
Proof.
  intros H Hl Ht.
  assert (Forall (fun e : event => (e.1.1 < n)%nat) evs) as Hr by (eapply Forall_impl; [|exact H]; by intros ? []).
  assert (Forall (fun e : event => (0 <= e.1.2)%Z) evs) as Hm by (eapply Forall_impl; [|exact H]; by intros ? []).
  destruct (recorded n evs Hr) as (R1 & R2 & R3 & R4).
  assert (lane_count true evs + lane_count false evs = Z.of_nat (length evs))%Z as Hc.
  { unfold lane_count. clear. induction evs as [|[? []] evs IH]; [done| |];
      rewrite !list.filter_cons; simpl; lia. }
  assert (0 <= lane_count true evs /\ 0 <= lane_count false evs)%Z as [H1 H2]
    by (unfold lane_count; lia).
  pose proof (lane_time_nonneg true evs Hm). pose proof (lane_time_nonneg false evs Hm).
  unfold server_get_request_stats. rewrite R1, R2, R3, R4.
  rewrite !(uwrap_small 64) by (rewrite ?(uwrap_small 64) by lia; lia).
  assert (forall a b, (if (b =? 0)%Z then 0%Z else (a / b)%Z) = (a / b)%Z) as Hdiv.
  { intros a b. destruct (Z.eqb_spec b 0) as [->|]; [by rewrite Z.div_0_r|done]. }
  rewrite !Hdiv, Hc. done.
Qed.

(** The pools are sized without overflow and large enough. For a loaded
    configuration and any number of cores the system reports, the number of
    reactors is between 1 and 64; there is at least one worker, at most 1024;
    the slab has room for two full queues (both lanes) and a task in the hands
    of each worker, with 10000 to spare; and its size in bytes, at up to 2048
    per task, fits 64 bits, although the code does not check that product. *)
Lemma pool_sizes_sound (beside cwd : option cstr) (e : Config.environment) (s : Config.state)
    (online : Z) :
  Config.config_reload beside cwd (Config.State Config.initial_config e true) = Some s ->
  let c := Config.conf s in
  let n := num_cores online in
  (1 <= n <= REACTORS_MAX)%Z
  /\ (1 <= bg_workers_count c n <= 1024)%Z
  /\ (2 * Config.max_queue_size c + bg_workers_count c n + 10000 <= slab_size c n)%Z
  /\ (slab_size c n * 2048 < 2 ^ 64)%Z.
Proof.
  intros H. pose proof (Config.limits_hold _ _ _ _ H) as (L1 & L2 & _). cbv zeta.
  set (c := Config.conf s) in *. set (n := num_cores online).
  assert (1 <= n <= 64)%Z as Hn.
  { subst n. unfold num_cores. destruct (_ || _) eqn:B; [lia|].
    rewrite orb_false_iff, Z.leb_gt, Z.ltb_ge in B. lia. }
  assert (1 <= bg_workers_count c n <= 1024)%Z as Hw.
  { unfold bg_workers_count. rewrite (uwrap_small 64) by lia. destruct (Z.ltb_spec 0 (Config.num_threads c)); lia. }
  split; [done|]. split; [done|]. unfold slab_size.
  destruct (Z.eqb_spec (Config.max_queue_size c) 0) as [E0|];
    rewrite !(uwrap_small 64) by (rewrite ?(uwrap_small 64) by lia; lia); lia.
Qed.

(** ** Concrete applications *)

Import Model SodiumModel HttpModel.

Module Example.

Definition cfg : Config.config := Config.conf Config.sample_state.

Definition with_headers (hs : list header) : http_request := {|
  command := EVHTTP_REQ_POST; headers := hs; target := lit "/echo"; extents := [];
  connection := Some (Some (lit "10.0.0.1")) |}.

Definition keyed : http_request :=
  with_headers [(lit "x-api-key", lit "k"); (lit "Origin", lit "http://b")].

End Example.

End Server.
