(* ===== verification/Handlers.v ===== *)
(** * src/handlers.c: the handlers of the routes

    A handler works on the thread that runs it ([host]): the thread's database
    handles, its HTTP client, the token cache, the files it has written, the
    reply and the thread-local state.  Everything a handler learns from outside
    the program (rows, network answers, time, random bytes, the disk) is in
    [outside]; it is the same for one request.  Undefined behaviour is [None]. *)

From Stdlib Require Import SpecFloat.
From S2P Require Import Prelude JsonUtil Dtoa JsonC Validation DbJson Sodium Jwt ThreadState Config DbApi.
From S2P Require Import HttpClient Services Totp Schemas Server.
Import Encode Validation ThreadState DbJson DbApi HttpClient Services Totp Schemas.

Module Handlers.

(** ** The thread and the outside *)

Record host := Host {
  db : world;
  net : client;
  files : list (cstr * list char);
  drop_token : bool;
  out : list char;
  status : Z;
  loc : tls;
}.

(** What a handler finds outside the program. *)
Record outside `{J : JsonC} := {
  deliver_json : cstr -> list QueryParam -> list ncell * bool;
  deliver_set : cstr -> list QueryParam -> resultset;
  deliver_sets : cstr -> list QueryParam -> list resultset * bool;
  (** the columns of the single rows of [coordinator3_handler] and of the secret *)
  row_int : Z;
  row_secret : option cstr;
  server : network;
  (** the answer of [login_and_get_token] *)
  api_token : option cstr;
  now : Z;
  random_uuid : list Z;
  random_secret : list char;
  (** [json_object_to_json_string_ext] *)
  json_text : jobj -> cstr;
  (** [sodium_base642bin] of the original variant: room, text and length *)
  base642bin_original : nat -> cstr -> Z -> option (list char);
  is_directory : cstr -> bool;
  malloc_ok : bool;
  fopen_ok : bool;
  (** how many bytes [fwrite] accepts of so many, and how many of the accepted
      ones are in the file when [fclose] is done *)
  fwrite_count : nat -> nat;
  fclose_count : nat -> nat;
  hostname : cstr;
  start_time : cstr;
  server_version : cstr;
  compiler : cstr;
  compile_date : cstr;
  os_version : cstr;
  libevent_version : cstr;
  libcurl_version : cstr;
  libc_version : cstr;
  reactors : list Server.reactor_stats;
  ram_kb : Z;
  rss_kb : Z;
}.

Section Handlers.
Context `{J : JsonC, Sd : Sodium, Drv : Odbc, L : TotpLibs}.
Context (cfg : Config.config) (secret : list char) (O : outside).
Context (num_buf : list char) (mem : Z -> option (list char)).

Definition H (A : Type) : Type := host -> option (A * host).

#[local] Instance H_ret : MRet H := fun A a h => Some (a, h).
#[local] Instance H_bind : MBind H := fun A B k m h =>
  match m h with Some (a, h') => k a h' | None => None end.

Definition undefined {A} : H A := fun _ => None.

Definition set_status (s : Z) : H unit := fun h =>
  Some (tt, Host (db h) (net h) (files h) (drop_token h) (out h) s (loc h)).

(** [evbuffer_add] *)
Definition add (text : list char) : H unit := fun h =>
  Some (tt, Host (db h) (net h) (files h) (drop_token h) (out h ++ text) (status h) (loc h)).

Definition get_context : H context := fun h => Some (ctx_of (loc h), h).

Definition set_content_type (ctype : string) : H unit := fun h =>
  Some (tt, Host (db h) (net h) (files h) (drop_token h) (out h) (status h)
    (Tls (context_set_content_type (ctx_of (loc h)) (Some (lit ctype))) (err_of (loc h))
       (log_request_id (loc h)))).

(** A file that was opened for writing, with the bytes that [fwrite] has
    accepted: the stream may hold them back until [cleanup_file] closes it, and
    the code does not look whether that succeeds. *)
Definition write_file (path : cstr) (accepted : list char) : H unit := fun h =>
  Some (tt, Host (db h) (net h) (files h ++ [(path, take (fclose_count O (length accepted)) accepted)]) (drop_token h) (out h) (status h) (loc h)).

(** The error variable of the thread is the one of the database code and of the
    HTTP client. *)
Definition set_error_of (l : tls) (e : thread_error) : tls := Tls (ctx_of l) e (log_request_id l).

Definition db_call {A} (m : DbApi.M A) : H A := fun h =>
  let w := db h in
  match m (World (tl_hdbc w) (tl_hstmt w) (live w) (err_of (loc h)) (tl_last_native_error w)
             (tl_last_error_msg w) (tick w) (executed w) (DbApi.refused w) (reported w)) with
  | Some (a, w) => Some (a, Host w (net h) (files h) (drop_token h) (out h) (status h)
                              (set_error_of (loc h) (tl_err w)))
  | None => None
  end.

Definition net_call {A} (m : client -> option (A * client)) : H A := fun h =>
  match m (Client (curl (net h)) (err_of (loc h)) (sent (net h))) with
  | Some (a, c) => Some (a, Host (db h) c (files h) (drop_token h) (out h) (status h)
                              (set_error_of (loc h) (err c)))
  | None => None
  end.

(** A query that appends to the reply. *)
Definition query (m : list char -> DbApi.M (bool * list char)) : H bool := fun h =>
  match db_call (m (out h)) h with
  | Some ((ok, text), h) =>
      Some (ok, Host (db h) (net h) (files h) (drop_token h) text (status h) (loc h))
  | None => None
  end.

Definition get_json (i : nat) (q : cstr) (params : list QueryParam) : H bool :=
  query (db_get_json cfg i q params (deliver_json O q params).1 (deliver_json O q params).2).
Definition get_rs2json (i : nat) (q : cstr) (params : list QueryParam) : H bool :=
  query (db_get_rs2json cfg num_buf mem i q params (deliver_set O q params)).
Definition get_rs2json_m (i : nat) (q : cstr) (params : list QueryParam) : H bool :=
  query (db_get_rs2json_m cfg num_buf mem i q params (deliver_sets O q params).1 (deliver_sets O q params).2).

(** [if (!db_...) *out_status = HTTP_INTERNAL;] *)
Definition or_internal (m : H bool) : H unit :=
  ok ← m; if ok : bool then mret tt else set_status HTTP_INTERNAL.

(** [int id = json_get_int(body, key)] as a parameter. *)
Definition int_value (body : option jobj) (key : string) : Z := swrap 32 (json_get_int body (lit key)).
Definition int_arg (body : option jobj) (key : string) : QueryParam := PARAM_INT (Some (int_value body key)).
Definition string_arg (body : option jobj) (key : string) : QueryParam :=
  PARAM_STRING (json_get_string body (lit key)).

(** ** Handlers of the database routes *)

Definition customer_handler (body : option jobj) : H unit :=
  set_status HTTP_OK;;
  or_internal (get_json 0 (lit "{CALL sp_customer_get(?)}") [string_arg body "id"]).

Definition sales_handler (body : option jobj) : H unit :=
  set_status HTTP_OK;;
  or_internal (get_json 0 (lit "{CALL sp_sales_by_category(?,?)}")
                 [string_arg body "start_date"; string_arg body "end_date"]).

Definition shippers_handler (body : option jobj) : H unit :=
  set_status HTTP_OK;; or_internal (get_json 0 (lit "{CALL sp_shippers_view}") []).

Definition products_handler (body : option jobj) : H unit :=
  set_status HTTP_OK;; or_internal (get_json 0 (lit "{CALL sp_products_view}") []).

Definition employee_handler (body : option jobj) : H unit :=
  set_status HTTP_OK;; or_internal (get_rs2json 0 (lit "{CALL emp_get(?)}") [int_arg body "id"]).

Definition prodget_handler (body : option jobj) : H unit :=
  set_status HTTP_OK;; or_internal (get_rs2json 0 (lit "{CALL product_get(?)}") [int_arg body "id"]).

Definition supplier_handler (body : option jobj) : H unit :=
  set_status HTTP_OK;; or_internal (get_rs2json 0 (lit "{CALL supplier_get(?)}") [int_arg body "id"]).

Definition customers_handler (body : option jobj) : H unit :=
  set_status HTTP_OK;; or_internal (get_json 0 (lit "{CALL sp_customers_like(?)}") [string_arg body "filter"]).

Definition sales_pgsql_handler (body : option jobj) : H unit :=
  set_status HTTP_OK;;
  or_internal (get_json 1 (lit "select get_sales_by_category(?, ?)")
                 [string_arg body "start_date"; string_arg body "end_date"]).

Definition gasto_sql : cstr :=
  lit "DECLARE @out_fecha DATE;" ++ lit "DECLARE @out_categ_id INT;" ++ lit "DECLARE @out_monto MONEY;"
  ++ lit "DECLARE @out_motivo VARCHAR(150);" ++ lit "EXEC dbo.ObtenerGasto" ++ lit "    @gasto_id = ?,"
  ++ lit "    @fecha = @out_fecha OUTPUT," ++ lit "    @categ_id = @out_categ_id OUTPUT,"
  ++ lit "    @monto = @out_monto OUTPUT," ++ lit "    @motivo = @out_motivo OUTPUT;" ++ lit "SELECT"
  ++ lit "    @out_fecha AS Fecha," ++ lit "    @out_categ_id AS CategID," ++ lit "    @out_monto AS Monto,"
  ++ lit "    @out_motivo AS Motivo;".

Definition gasto_handler (body : option jobj) : H unit :=
  set_status HTTP_OK;; or_internal (get_rs2json 0 gasto_sql [int_arg body "id"]).

Definition customerget_handler (body : option jobj) : H unit :=
  set_status HTTP_OK;;
  or_internal (get_rs2json_m 0 (lit "{CALL dbo.get_customer_info(?)}") [string_arg body "id"]).

Definition emp_orders_handler (body : option jobj) : H unit :=
  set_status HTTP_OK;; or_internal (get_rs2json_m 0 (lit "{CALL dbo.get_emp_orders(?)}") [int_arg body "id"]).

Definition emp_ordersj_handler (body : option jobj) : H unit :=
  set_status HTTP_OK;;
  or_internal (get_json 1 (lit "SELECT demo.get_employee_orders_j(?)") [int_arg body "id"]).

Definition dummy_sql : cstr :=
  lit "DECLARE @Out1 INT;" ++ NEWLINE ++ lit "DECLARE @Out2 VARCHAR(255);" ++ NEWLINE
  ++ lit "EXEC dbo.TestDummySP @InParam1=?, @OutParam1=@Out1 OUTPUT, @OutParam2=@Out2 OUTPUT;" ++ NEWLINE
  ++ lit "SELECT @Out1 AS OutParam1, @Out2 AS OutParam2;".

Definition dummy_handler (body : option jobj) : H unit :=
  set_status HTTP_OK;; or_internal (get_rs2json 0 dummy_sql [int_arg body "id"]).

Definition coordinator_handler (body : option jobj) : H unit :=
  set_status HTTP_OK;;
  or_internal (get_rs2json_m 0 (lit "{CALL dbo.coordinator(?, ?)}")
                 [int_arg body "gasto_id"; string_arg body "customer_id"]).

Definition coordinator2_handler (body : option jobj) : H unit :=
  set_status HTTP_OK;;
  add (lit "{`r1`:");;
  ok ← get_rs2json 0 (lit "EXEC emp_get @id = ?") [int_arg body "id"];
  if negb ok then set_status HTTP_INTERNAL else
  add (lit ",`r2`:");;
  ok ← get_json 1 (lit "SELECT demo.get_employee_orders_j(?)") [int_arg body "id"];
  if negb ok then set_status HTTP_INTERNAL else
  add (lit "}").

Definition coordinator3_handler (body : option jobj) : H unit :=
  set_status HTTP_OK;;
  r ← db_call (db_query_single_row cfg 0 (lit "EXEC emp_get @id = ?") [int_arg body "id"] [OUT_INT]);
  let '(ok, found) := r : bool * bool in
  if negb ok then set_status HTTP_INTERNAL else
  if negb found then add (lit "{}") else
  or_internal (get_json 1 (lit "SELECT demo.get_employee_orders_j(?)") [PARAM_INT (Some (row_int O))]).

(** ** One-time passwords *)

Definition generate_svg (user : option cstr) : H unit := fun h =>
  match db_call (totp_generate_svg cfg (row_secret O) user (out h)) h with
  | Some ((s, text), h) => Some (tt, Host (db h) (net h) (files h) (drop_token h) text s (loc h))
  | None => None
  end.

Definition get_status : H Z := fun h => Some (status h, h).

Definition getqr_handler (body : option jobj) : H unit :=
  c ← get_context;
  generate_svg (context_get_user c);;
  s ← get_status;
  if (s =? HTTP_OK)%Z then set_content_type "image/svg+xml" else mret tt.

Definition verifytotp_handler (body : option jobj) : H unit :=
  c ← get_context;
  match json_get_string body (lit "totp") with
  | None => set_status 401
  | Some totp_str =>
      ok ← db_call (is_valid_totp cfg (row_secret O) (now O) (context_get_user c) (Some totp_str));
      if ok : bool then set_status HTTP_OK;; add (lit "{`status`:`OK`}") else set_status 401
  end.

Definition secretb32_handler (body : option jobj) : H unit :=
  set_status HTTP_OK;;
  match totp_generate_base32_secret (random_secret O) 33 with
  | Some s => add (snprintf 128 (lit "{`secret`:`" ++ s ++ lit "`}"))
  | None => set_status HTTP_INTERNAL
  end.

(** ** Login *)

(** [handle_login_success] *)
Definition handle_login_success (username : cstr) : H unit :=
  set_status HTTP_OK;;
  match Jwt.jwt_create secret (Some username) (Some (Jwt.uuid_text (random_uuid O)))
          (Config.jwt_timeout_seconds cfg) 1024 (now O) with
  | Some token => add (snprintf 2500 (lit "{`token`:`" ++ json_encode 2048 token ++ lit "`}"))
  | None => set_status HTTP_INTERNAL
  end.

(** [handle_login_failure] *)
Definition handle_login_failure (http_code : Z) (remote_response : option jobj) : H unit :=
  set_status (if (http_code =? 0)%Z then HTTP_INTERNAL else swrap 32 http_code);;
  match remote_response with
  | Some r =>
      let final_error :=
        match json_get_string (Some r) (lit "description"), json_get_string (Some r) (lit "error") with
        | Some desc, _ => desc
        | None, Some err_msg => err_msg
        | None, None => lit "Unknown provider error"
        end in
      add (snprintf 512 (lit "{`error`:`" ++ json_encode 256 final_error ++ lit "`}"))
  | None => add (lit "{`error`:`Provider unreachable`}")
  end.

Definition login_handler (body : option jobj) : H unit :=
  match json_get_string body (lit "username"), json_get_string body (lit "password") with
  | Some username, Some password =>
      r ← net_call (fun c =>
            match login_service_authenticate (server O) cfg username password 0 c with
            | Some (doc, code, c) => Some ((doc, code), c)
            | None => None
            end);
      let '(remote_response, http_code) := r : option jobj * Z in
      if (http_code =? 200)%Z then handle_login_success username
      else handle_login_failure http_code remote_response
  | _, _ => undefined
  end.

(** ** Remote services *)

(** [append_remote_json_response] *)
Definition append_remote_json_response (remote_json : option jobj) (http_code : Z) : H unit :=
  add (snprintf 128 (lit "{`remote_status`:" ++ dec_text http_code ++ lit ",`remote_data`:"));;
  add (match remote_json with Some o => json_text O o | None => lit "null" end);;
  add (lit "}").

Definition rsysinfo_handler (body : option jobj) : H unit :=
  set_status HTTP_OK;;
  let auth_header := snprintf 512 (lit "Authorization: Bearer " ++ Config.remote_api_key cfg) in
  r ← net_call (fun c =>
        match http_client_get_json (server O) (Config.max_payload_size cfg) (Some (Config.api_url cfg))
                (Some (lit "/api/metrics")) [auth_header] 0 c with
        | Some (doc, code, c) => Some ((doc, code), c)
        | None => None
        end);
  let '(remote_json, http_code) := r : option jobj * Z in
  append_remote_json_response remote_json http_code.

(** Whether the cached token is to be dropped ([Services.invalidate]). *)
Definition note_dropped (dropped : bool) : H unit := fun h =>
  Some (tt, Host (db h) (net h) (files h) (drop_token h || dropped) (out h) (status h) (loc h)).

Definition rcustomer_handler (body : option jobj) : H unit :=
  set_status HTTP_OK;;
  match json_get_string body (lit "id") with
  | None => set_status HTTP_BADREQUEST
  | Some customer_id =>
      r ← net_call (fun c =>
            match customer_service_get_info (server O) cfg (api_token O) (Some customer_id) 0 c with
            | Some (doc, code, c, dropped) => Some ((doc, code, dropped), c)
            | None => None
            end);
      let '(remote_json, http_code, dropped) := r : option jobj * Z * bool in
      note_dropped dropped;;
      append_remote_json_response remote_json http_code
  end.

(** ** Information about the server *)

Definition ping_handler (body : option jobj) : H unit :=
  set_status HTTP_OK;; add (lit "{`status`:`OK`}").

Definition version_handler (body : option jobj) : H unit :=
  set_status HTTP_OK;;
  add (snprintf 1024
    (lit "{`version`:`" ++ json_encode 64 (server_version O)
     ++ lit "`,`compiler`:`" ++ json_encode 256 (compiler O)
     ++ lit "`,`compile_date`:`" ++ json_encode 128 (compile_date O)
     ++ lit "`,`hostname`:`" ++ json_encode 256 (hostname O)
     ++ lit "`,`os_version`:`" ++ json_encode 256 (os_version O)
     ++ lit "`,`libevent_version`:`" ++ json_encode 128 (libevent_version O)
     ++ lit "`,`libcurl_version`:`" ++ json_encode 256 (libcurl_version O)
     ++ lit "`,`libc_version`:`" ++ json_encode 64 (libc_version O) ++ lit "`}")).

(** [%.2f] *)
Definition printf_2f (x : Dtoa.double) : cstr :=
  match x with
  | S754_zero s => (if s then lit "-" else []) ++ lit "0.00"
  | S754_infinity s => (if s then lit "-" else []) ++ lit "inf"
  | S754_nan => lit "nan"
  | S754_finite s m e =>
      let hundredths :=
        if (0 <=? e)%Z then (Z.pos m * 2 ^ e * 100)%Z else Dtoa.round_div (Z.pos m * 100) (2 ^ (- e)) in
      (if s then lit "-" else []) ++ dec_text (hundredths / 100) ++ lit "."
      ++ Itoa.dec_pad 2 (hundredths mod 100)
  end.

(** The percentage of [build_sysinfo_json_string] *)
Definition mem_usage_pct : Dtoa.double :=
  if (0 <? ram_kb O)%Z
  then Dtoa.dmul (Dtoa.ddiv (Dtoa.d_of_Z (rss_kb O)) (Dtoa.d_of_Z (ram_kb O))) (Dtoa.d_of_Z 100)
  else S754_zero false.

(** [build_sysinfo_json_string] *)
Definition build_sysinfo_json_string (max_len : nat) : cstr :=
  let stats := Server.server_get_request_stats (reactors O) in
  snprintf max_len
    (lit "{`start_time`:`" ++ json_encode 128 (start_time O)
     ++ lit "`,`total_requests`:" ++ dec_text (Server.st_requests stats)
     ++ lit ",`average_processing_time_fast_ms`:" ++ dec_text (Server.st_avg_fast stats)
     ++ lit ",`average_processing_time_slow_ms`:" ++ dec_text (Server.st_avg_slow stats)
     ++ lit ",`total_ram_kb`:" ++ dec_text (ram_kb O)
     ++ lit ",`memory_usage_kb`:" ++ dec_text (rss_kb O)
     ++ lit ",`memory_usage_percentage`:" ++ printf_2f mem_usage_pct
     ++ lit ",`hostname`:`" ++ json_encode 256 (hostname O) ++ lit "`}").

Definition sysinfo_handler (body : option jobj) : H unit :=
  set_status HTTP_OK;; add (build_sysinfo_json_string 1024).

(** One metric of [metrics_handler]. *)
Definition metric (name help kind : string) (value : Z) : cstr :=
  lit "# HELP " ++ lit name ++ lit " " ++ lit help ++ NEWLINE
  ++ lit "# TYPE " ++ lit name ++ lit " " ++ lit kind ++ NEWLINE
  ++ lit name ++ lit "{hostname=`" ++ hostname O ++ lit "`} " ++ dec_text value ++ NEWLINE.

Definition metrics_handler (body : option jobj) : H unit :=
  set_status HTTP_OK;;
  let stats := Server.server_get_request_stats (reactors O) in
  add (snprintf 2048
    (metric "microservice_requests_total" "Total number of processed requests" "counter"
       (Server.st_requests stats) ++ NEWLINE
     ++ metric "microservice_requests_fast_total" "Total number of processed requests in fast pool" "counter"
          (Server.st_requests_fast stats) ++ NEWLINE
     ++ metric "microservice_requests_slow_total" "Total number of processed requests in slow pool" "counter"
          (Server.st_requests_slow stats) ++ NEWLINE
     ++ metric "microservice_processing_time_milliseconds_total"
          "Total processing time across all requests" "counter" (Server.st_time stats) ++ NEWLINE
     ++ metric "microservice_processing_time_fast_milliseconds_total"
          "Total processing time for fast pool" "counter" (Server.st_time_fast stats) ++ NEWLINE
     ++ metric "microservice_processing_time_slow_milliseconds_total"
          "Total processing time for slow pool" "counter" (Server.st_time_slow stats) ++ NEWLINE
     ++ metric "microservice_memory_usage_bytes" "Current resident memory size in bytes" "gauge"
          (uwrap 64 (rss_kb O * 1024)) ++ NEWLINE
     ++ metric "microservice_memory_total_bytes" "Total physical memory in bytes" "gauge"
          (uwrap 64 (ram_kb O * 1024))));;
  set_content_type "text/plain; version=0.0.4".

Definition uuid_handler (body : option jobj) : H unit :=
  set_status HTTP_OK;;
  add (snprintf 128 (lit "{`uuid`:`" ++ Jwt.uuid_text (random_uuid O) ++ lit "`}")).

(** ** Upload *)

(** [upload_is_valid_dir] *)
Definition upload_is_valid_dir (uploads_dir : cstr) : bool :=
  match uploads_dir with [] => false | _ => is_directory O uploads_dir end.

Definition upload_path (uuid_str : cstr) : cstr :=
  snprintf (Config.MAX_CONFIG_STR + 64) (Config.uploads_dir cfg ++ lit "/" ++ uuid_str).

(** The room for the decoded blob; [None] is the overflow report. *)
Definition bin_maxlen (b64_len : Z) : option Z := n ← ckd_mul (b64_len / 4) 3; ckd_add n 4.

Definition upload_handler (body : option jobj) : H unit :=
  let '(blob, b64_len) := json_get_string_ex body (lit "blob") 0 in
  set_status HTTP_INTERNAL;;
  let uuid_str := Jwt.uuid_text (random_uuid O) in
  if negb (upload_is_valid_dir (Config.uploads_dir cfg)) then mret tt else
  let out_path := upload_path uuid_str in
  match bin_maxlen b64_len with
  | None => mret tt
  | Some room =>
      if negb (malloc_ok O) then mret tt else
      match blob with
      | None => undefined
      | Some blob =>
          match base642bin_original O (Z.to_nat room) blob b64_len with
          | None => set_status HTTP_BADREQUEST;; add (lit "{`error`:`Invalid base64 encoding`}")
          | Some bin =>
              if negb (fopen_ok O) then mret tt else
              let written := fwrite_count O (length bin) in
              write_file out_path (take written bin);;
              if negb (written =? length bin)%nat then mret tt else
              set_status HTTP_OK;;
              add (snprintf 256 (lit "{`status`:`ok`,`uuid`:`" ++ uuid_str ++ lit "`,`size`:"
                                 ++ dec_text (Z.of_nat (length bin)) ++ lit "}"))
          end
      end
  end.

(** ** What the handlers do to the database *)

(** What the theorems about handlers ask of the outside.  The first two are a
    condition on the queries of the deployment and not on the driver: the result
    sets have at most 32767 columns, with names of at most 127 bytes and escaped
    keys of at most 255, and cells of the types of their columns; a database may
    well have longer names, and the code then reads beyond its arrays
    ([DbJson.long_name_overreads]).  The others are what libraries document: QR
    codes of the standard's sizes, an allocator that gives what it was asked for,
    and the options that libcurl accepts. *)
Record outside_ok : Prop := {
  ok_set q ps : good_resultset (deliver_set O q ps);
  ok_sets q ps : Forall good_resultset (deliver_sets O q ps).1
    /\ (Z.of_nat (length (deliver_sets O q ps).1) < 2 ^ 31 - 1)%Z;
  ok_qr s q : QRcode_encodeString s = Some q -> qr_wf q;
  ok_net : network_ok (server O);
}.

Context {Laws : OdbcLaws Drv}.
Hypothesis HO : outside_ok.
Hypothesis Hnum : length num_buf = 64%nat.
Hypothesis Hmem : arenas mem.

(** The statements a handler may run, with their parameters. *)
Abbreviation statements := (cstr * list QueryParam -> Prop).

(** [x] is a run of one of the statements. *)
Definition run_of (stmts : statements) (x : cstr * list binding) : Prop :=
  exists ps, stmts (x.1, ps) /\ mapM binding_of ps = Some x.2.

(** [m] returns; the thread's handles stay in order, only the given statements
    are run, and nothing is sent to other servers or written to files. *)
Definition runs {A} (stmts : statements) (m : H A) : Prop :=
  forall h, inv None (db h) ->
  exists a h', m h = Some (a, h') /\ inv None (db h')
    /\ (exists E, executed (db h') = executed (db h) ++ E /\ Forall (run_of stmts) E)
    /\ net h' = net h /\ files h' = files h.

Lemma runs_bind {A B} stmts (m : H A) (k : A -> H B) :
  runs stmts m -> (forall a, runs stmts (k a)) -> runs stmts (m ≫= k).
Proof.
  intros Hm Hk h Hi. destruct (Hm h Hi) as (a & h1 & E1 & I1 & (X & EX & HX) & N1 & F1).
  destruct (Hk a h1 I1) as (b & h2 & E2 & I2 & (Y & EY & HY) & N2 & F2). exists b, h2.
  split; [unfold mbind, H_bind; by rewrite E1|]. split; [done|].
  split; [|split; congruence]. exists (X ++ Y). split; [by rewrite EY, EX, (assoc_L (++))|by apply Forall_app].
Qed.

(** A step that leaves the database, the network and the files alone. *)
Lemma runs_quiet {A} stmts (m : H A) :
  (forall h, exists a h', m h = Some (a, h') /\ db h' = db h /\ net h' = net h /\ files h' = files h) ->
  runs stmts m.
Proof.
  intros Hm h Hi. destruct (Hm h) as (a & h' & E & Ed & En & Ef). exists a, h'.
  rewrite Ed, En, Ef. split; [done|]. split; [done|]. split; [|done]. exists []. by rewrite app_nil_r.
Qed.

Lemma runs_ret {A} stmts (a : A) : runs stmts (mret a).
Proof. apply runs_quiet. intros h. by eexists _, _. Qed.

Lemma runs_if {A} stmts (b : bool) (m1 m2 : H A) : runs stmts m1 -> runs stmts m2 -> runs stmts (if b then m1 else m2).
Proof. by destruct b. Qed.

Lemma runs_db {A} stmts (q : cstr) (ps : list QueryParam) (m : DbApi.M A) :
  stmts (q, ps) -> length ps = placeholders q ->
  (forall E, safe (st None E) m (fun _ w => exists E', st None E' w /\ ran q ps E E')) ->
  runs stmts (db_call m).
Proof.
  intros Hin Hl Hm h Hi. unfold db_call. set (w := World _ _ _ _ _ _ _ _ _ _).
  destruct (Hm (executed (db h)) w) as (a & w' & E & E' & [I' HE'] & Hr).
  { split; [|done]. destruct Hi. by split. }
  rewrite E. eexists _, _. split; [done|]. cbn [db net files]. split; [done|]. split; [|done].
  rewrite HE'. destruct Hr as [->|(x & (bs & Hbs & ->)%ran_exact & ->)]; [| |done].
  - exists []. by rewrite app_nil_r.
  - exists [(q, bs)]. split; [done|]. constructor; [|constructor]. by exists ps.
Qed.

Lemma runs_query stmts (q : cstr) (ps : list QueryParam) (m : list char -> DbApi.M (bool * list char)) :
  stmts (q, ps) -> length ps = placeholders q ->
  (forall text E, safe (st None E) (m text) (fun _ w => exists E', st None E' w /\ ran q ps E E')) ->
  runs stmts (query m).
Proof.
  intros Hin Hl Hm h Hi. destruct (runs_db stmts q ps (m (out h)) Hin Hl (Hm (out h)) h Hi)
    as ([ok text] & h1 & E & Hrest). unfold query. rewrite E. eexists _, _. split; [done|]. exact Hrest.
Qed.

Lemma ran_weaken (fetch : fetch_cb) i q ps text E :
  fetch_safe fetch ->
  safe (st None E) (db_execute_and_fetch cfg i q ps fetch text) (fun _ w => exists E', st None E' w /\ ran q ps E E').
Proof.
  intros Hf. eapply safe_weaken; [by apply execute_and_fetch_safe|done|]. cbn beta. naive_solver.
Qed.

Lemma good_printable (rs : resultset) : good_resultset rs -> printable num_buf mem rs.
Proof. intros Hrs text b. by apply resultset_total. Qed.

Lemma runs_get_json stmts i q ps :
  stmts (q, ps) -> length ps = placeholders q -> runs stmts (get_json i q ps).
Proof.
  intros Hin Hl. apply (runs_query stmts q ps); [done|done|]. intros text E. apply ran_weaken.
  apply fetch_native_safe.
Qed.

Lemma runs_get_rs stmts i q ps :
  stmts (q, ps) -> length ps = placeholders q -> runs stmts (get_rs2json i q ps).
Proof.
  intros Hin Hl. apply (runs_query stmts q ps); [done|done|]. intros text E. apply ran_weaken.
  apply fetch_set_safe; [exact Laws|]. apply good_printable, HO.
Qed.

Lemma runs_get_rsm stmts i q ps :
  stmts (q, ps) -> length ps = placeholders q -> runs stmts (get_rs2json_m i q ps).
Proof.
  intros Hin Hl. apply (runs_query stmts q ps); [done|done|]. intros text E. apply ran_weaken.
  destruct (ok_sets HO q ps) as [Hs Hb]. apply fetch_jsonm_safe; [exact Laws|done|done|].
  eapply Forall_impl; [|exact Hs]. apply good_printable.
Qed.

(** A computation that runs statements it may run, step by step. *)
Ltac walk :=
  repeat first
    [ match goal with |- runs _ (_ ≫= _) => apply runs_bind; [|intros ?] end
    | apply runs_if
    | apply runs_get_json | apply runs_get_rs | apply runs_get_rsm
    | match goal with |- runs _ (mret _) => apply runs_ret end
    | match goal with |- runs _ (or_internal _) => unfold or_internal end
    | match goal with |- runs _ (match ?x with _ => _ end) => destruct x end
    | apply runs_quiet; intros ?; by eexists _, _ ].

Lemma runs_secret (stmts : statements) (user : option cstr) (max_len : nat) E :
  stmts (secret_query, [PARAM_STRING user]) ->
  safe (st None E) (get_secret cfg (row_secret O) user max_len)
    (fun _ w => exists E', st None E' w /\ ran secret_query [PARAM_STRING user] E E').
Proof.
  intros Hin. unfold get_secret. eapply safe_bind; [by apply single_row_safe|]. cbn beta. intros [ok found].
  by apply safe_ret.
Qed.

Lemma runs_svg (stmts : statements) (user : option cstr) :
  stmts (secret_query, [PARAM_STRING user]) -> runs stmts (generate_svg user).
Proof.
  intros Hin h Hi.
  assert (runs stmts (db_call (totp_generate_svg cfg (row_secret O) user (out h)))) as HR.
  { apply (runs_db stmts _ _ _ Hin eq_refl). intros E. unfold totp_generate_svg. destruct user as [u|].
    2:{ apply safe_ret. intros w Hw. exists E. split; [done|by left]. }
    eapply safe_bind; [by apply (runs_secret stmts)|]. cbn beta. intros [s secret0].
    destruct (negb (s =? _)%Z); [by apply safe_ret|]. destruct (evhttp_uriencode u); [|by apply safe_ret].
    destruct (QRcode_encodeString _) as [q|] eqn:Eq; [|by apply safe_ret].
    destruct (svg_total (out h) q (ok_qr HO _ q Eq)) as [t ->]. by apply safe_ret. }
  destruct (HR h Hi) as ([s text] & h1 & E & Hrest). unfold generate_svg. rewrite E.
  eexists _, _. split; [done|]. exact Hrest.
Qed.

Lemma runs_valid_totp (stmts : statements) (user : option cstr) (code : cstr) :
  stmts (secret_query, [PARAM_STRING user]) ->
  runs stmts (db_call (is_valid_totp cfg (row_secret O) (now O) user (Some code))).
Proof.
  intros Hin. apply (runs_db stmts _ _ _ Hin eq_refl). intros E. unfold is_valid_totp. destruct user as [u|].
  2:{ apply safe_ret. intros w Hw. exists E. split; [done|by left]. }
  eapply safe_bind; [by apply (runs_secret stmts)|]. cbn beta. intros [s secret0].
  destruct (negb (s =? _)%Z); [by apply safe_ret|]. destruct (oath_base32_decode _); by apply safe_ret.
Qed.

(** ** No statement but those in the code *)

(** The statements of the program, as they stand in the source. *)
Definition STATEMENTS : list cstr :=
  [lit "{CALL sp_customer_get(?)}"; lit "{CALL sp_sales_by_category(?,?)}"; lit "{CALL sp_shippers_view}";
   lit "{CALL sp_products_view}"; lit "{CALL emp_get(?)}"; lit "{CALL product_get(?)}";
   lit "{CALL supplier_get(?)}"; lit "{CALL sp_customers_like(?)}"; lit "select get_sales_by_category(?, ?)";
   gasto_sql; lit "{CALL dbo.get_customer_info(?)}"; lit "{CALL dbo.get_emp_orders(?)}";
   lit "SELECT demo.get_employee_orders_j(?)"; dummy_sql; lit "{CALL dbo.coordinator(?, ?)}";
   lit "EXEC emp_get @id = ?"; secret_query].

Definition in_source (x : cstr * list QueryParam) : Prop :=
  x.1 ∈ STATEMENTS /\ length x.2 = placeholders x.1.

Ltac constant := lazymatch goal with
  | |- in_source _ => split; [apply (bool_decide_unpack _); by vm_compute|by vm_compute]
  | |- _ = _ => by vm_compute
  end.

(** The handlers that use the database, or only write a reply. *)
Inductive local_handler : (option jobj -> H unit) -> Prop :=
  | L_customer : local_handler customer_handler
  | L_sales : local_handler sales_handler
  | L_shippers : local_handler shippers_handler
  | L_products : local_handler products_handler
  | L_employee : local_handler employee_handler
  | L_prodget : local_handler prodget_handler
  | L_supplier : local_handler supplier_handler
  | L_customers : local_handler customers_handler
  | L_sales_pgsql : local_handler sales_pgsql_handler
  | L_gasto : local_handler gasto_handler
  | L_customerget : local_handler customerget_handler
  | L_emp_orders : local_handler emp_orders_handler
  | L_emp_ordersj : local_handler emp_ordersj_handler
  | L_dummy : local_handler dummy_handler
  | L_coordinator : local_handler coordinator_handler
  | L_coordinator2 : local_handler coordinator2_handler
  | L_coordinator3 : local_handler coordinator3_handler
  | L_getqr : local_handler getqr_handler
  | L_verifytotp : local_handler verifytotp_handler.

Lemma local_runs (hd : option jobj -> H unit) (body : option jobj) :
  local_handler hd -> runs in_source (hd body).
Proof.
  destruct 1.
  all: try (cbv delta [customer_handler sales_handler shippers_handler products_handler employee_handler
    prodget_handler supplier_handler customers_handler sales_pgsql_handler gasto_handler customerget_handler
    emp_orders_handler emp_ordersj_handler dummy_handler coordinator_handler coordinator2_handler] beta;
    solve [walk; constant]).
  - unfold coordinator3_handler. apply runs_bind; [walk|]. intros ?. apply runs_bind.
    + eapply (runs_db in_source); [| |intros E; by apply single_row_safe]; constant.
    + intros [ok found]. walk; constant.
  - unfold getqr_handler. apply runs_bind; [walk|]. intros c. apply runs_bind; [apply runs_svg; constant|].
    intros ?. walk.
  - unfold verifytotp_handler. apply runs_bind; [walk|]. intros c.
    destruct (json_get_string body (lit "totp")) as [t|]; [|walk].
    apply runs_bind; [apply runs_valid_totp; constant|]. intros []; walk.
Qed.

Lemma in_source_run (x : cstr * list binding) :
  run_of in_source x -> x.1 ∈ STATEMENTS /\ length x.2 = placeholders x.1.
Proof.
  destruct x as [q bs]. intros (ps & [Hq Hl] & Hbs). cbn [fst snd] in *. split; [done|].
  rewrite <- Hl. apply length_mapM in Hbs. done.
Qed.

(** C26: a client chooses values, never SQL. For every handler that uses the
    database, every document (validated or not), every answer of the driver to every
    call (a refusal to free a handle or to reset a statement included) and every
    state of the thread's connections, the handler returns with the thread's handles
    in order ([DbApi.inv]), and every statement that ran is one of the 17 texts in
    the source, with exactly as many parameter values as it has markers; nothing is
    sent to other servers and no file is written. The result sets have columns with
    names of at most 127 bytes, escaped keys of at most 255 and cells of their types
    ([outside_ok]): a condition on the queries of the deployment, without which the
    code reads beyond its arrays. What a driver that refused to reset a statement
    writes through its old bindings is not modelled. *)
Theorem sql_is_fixed (hd : option jobj -> H unit) (body : option jobj) (h : host) :
  local_handler hd -> inv None (db h) ->
  exists h', hd body h = Some (tt, h') /\ inv None (db h')
    /\ (exists E, executed (db h') = executed (db h) ++ E
         /\ Forall (fun x => x.1 ∈ STATEMENTS /\ length x.2 = placeholders x.1) E)
    /\ net h' = net h /\ files h' = files h.
Proof.
  intros Hl Hi. destruct (local_runs hd body Hl h Hi) as ([] & h' & E & I' & (X & EX & HX) & Hrest).
  exists h'. split; [done|]. split; [done|]. split; [|done]. exists X. split; [done|].
  eapply Forall_impl; [|exact HX]. apply in_source_run.
Qed.

(** ** What reaches the database after validation *)

Definition only (q : cstr) (ps : list QueryParam) : statements := fun x => x = (q, ps).

Lemma only_runs (m : H unit) (q : cstr) (ps : list QueryParam) (bs : list binding) (h : host) :
  runs (only q ps) m -> mapM binding_of ps = Some bs -> inv None (db h) ->
  exists h', m h = Some (tt, h')
    /\ exists E, executed (db h') = executed (db h) ++ E /\ Forall (fun x => x = (q, bs)) E.
Proof.
  intros Hm Hbs Hi. destruct (Hm h Hi) as ([] & h' & E & _ & (X & EX & HX) & _). exists h'. split; [done|].
  exists X. split; [done|]. eapply Forall_impl; [|exact HX]. intros [q' bs'] (ps' & [= -> ->] & Hbs').
  cbn [snd] in Hbs'. congruence.
Qed.

Context {JL : JsonCLaws J}.

Lemma string_binding (o : jobj) (key : string) (s : cstr) :
  json_get_string (Some o) (lit key) = Some s -> s <> [] ->
  binding_of (string_arg (Some o) key) = Some (BString s).
Proof. intros E Hn. unfold string_arg. rewrite E. by destruct s. Qed.

(** C27: what reaches the database is what was checked. If a document passes the
    schema of its route, the handler returns and everything it runs is the
    procedure of the route with the validated value bound as data: five ASCII
    letters for a customer, two calendar dates in order between 1994 and 1996
    for the sales, an integer from 1 to 9 for an employee. *)
Theorem validated_queries (o : jobj) (n : nat) (h : host) :
  inv None (db h) ->
  (validate_json (Some CustomerContext) (Some o) (Some (S n)) = Some Pass ->
   exists id h', length id = 5%nat /\ Forall (fun c => isalpha c = true) id
     /\ customer_handler (Some o) h = Some (tt, h')
     /\ exists E, executed (db h') = executed (db h) ++ E
          /\ Forall (fun x => x = (lit "{CALL sp_customer_get(?)}", [BString id])) E)
  /\ (validate_json (Some SalesContext) (Some o) (Some (S n)) = Some Pass ->
   exists y m d y' m' d' h', calendar_date y m d /\ calendar_date y' m' d'
     /\ (1994 <= y)%Z /\ (y' <= 1996)%Z /\ before y m d y' m' d'
     /\ sales_handler (Some o) h = Some (tt, h')
     /\ exists E, executed (db h') = executed (db h) ++ E
          /\ Forall (fun x => x = (lit "{CALL sp_sales_by_category(?,?)}",
                                    [BString (iso_date y m d); BString (iso_date y' m' d')])) E)
  /\ (validate_json (Some EmployeeContext) (Some o) (Some (S n)) = Some Pass ->
   exists k h', (1 <= k <= 9)%Z /\ employee_handler (Some o) h = Some (tt, h')
     /\ exists E, executed (db h') = executed (db h) ++ E
          /\ Forall (fun x => x = (lit "{CALL emp_get(?)}", [BInt k])) E).
Proof.
  intros Hi. split; [|split].
  - intros Hv. destruct (customer_code o n Hv) as (x & s & Hx & Ht & Hs & Hl & Hf).
    destruct (only_runs (customer_handler (Some o)) (lit "{CALL sp_customer_get(?)}")
      [string_arg (Some o) "id"] [BString s] h) as (h' & E & HE); [unfold customer_handler; by walk| |done|].
    { cbn [mapM mbind option_bind]. rewrite (string_binding o "id" s); [done| |by destruct s].
      unfold json_get_string. by rewrite Hx. }
    by exists s, h'.
  - intros Hv. destruct (sales_dates o n Hv)
      as (_ & y & m & d & y' & m' & d' & Hc & Hm & Hc' & Hm' & Hy & Hy' & Hb).
    destruct (only_runs (sales_handler (Some o)) (lit "{CALL sp_sales_by_category(?,?)}")
      [string_arg (Some o) "start_date"; string_arg (Some o) "end_date"]
      [BString (iso_date y m d); BString (iso_date y' m' d')] h) as (h' & E & HE);
      [unfold sales_handler; by walk| |done|].
    { cbn [mapM mbind option_bind]. rewrite (string_binding o "start_date" (iso_date y m d)); [|by apply member_string|done].
      cbn [mbind option_bind]. rewrite (string_binding o "end_date" (iso_date y' m' d')); [done|by apply member_string|done]. }
    by exists y, m, d, y', m', d', h'.
  - intros Hv. destruct (employee_id_range o n Hv) as [Hr _].
    destruct (only_runs (employee_handler (Some o)) (lit "{CALL emp_get(?)}")
      [int_arg (Some o) "id"] [BInt (int_param o (lit "id"))] h) as (h' & E & HE);
      [unfold employee_handler; by walk|done|done|].
    by exists (int_param o (lit "id")), h'.
Qed.

(** ** Login *)

Context {SL : SodiumLaws Sd}.

Lemma uuid_plain (s : cstr) : Jwt.uuid_shape s -> plain s /\ "/"%char ∉ s.
Proof.
  intros (_ & Hc & _).
  assert (forall c, Jwt.is_hex c = true \/ c = "-"%char ->
    (c <> NUL /\ escape_char c = [c]) /\ c <> "/"%char) as HF.
  { assert (forall c, implb (Jwt.is_hex c)
      (bool_decide ((c <> NUL /\ escape_char c = [c]) /\ c <> "/"%char)) = true) as HB
      by (intros c; by_all_chars c).
    intros c [Hh| ->]; [|apply (bool_decide_unpack _); by vm_compute].
    specialize (HB c). rewrite Hh in HB. by apply bool_decide_eq_true in HB. }
  assert (Forall (fun c => (c <> NUL /\ escape_char c = [c]) /\ c <> "/"%char) s) as Hs.
  { apply Forall_lookup. intros j c Hj. apply HF. specialize (Hc j c Hj). destruct (Jwt.dash_at j); auto. }
  split; [by eapply Forall_impl; [|exact Hs]; intros c [? _]|].
  intros Hin. apply (proj1 (list.Forall_forall _ _) Hs) in Hin as [_ Hin]. done.
Qed.

Lemma created_short (u t : cstr) (timeout time : Z) (token : cstr) :
  Jwt.jwt_create secret (Some u) (Some t) timeout 1024 time = Some token -> (length token < 1024)%nat.
Proof.
  unfold Jwt.jwt_create. cbn [mbind option_bind Nat.eqb]. destruct (Jwt.jwt_build_payload _ _ _ _ _); [|done].
  cbn [mbind option_bind]. repeat case_match; try done; unfold Jwt.jwt_sign_msg; repeat case_match; try done.
  intros [= <-]. by apply Nat.ltb_lt.
Qed.

(** C19: a token is issued exactly when the login provider accepts. For every name
    and password, every answer of the provider and every state of the thread (the
    times being 64-bit integers), the login handler returns; if the provider
    answered 200, the reply is 200 with a token for the name and a fresh session id,
    and otherwise it has the provider's status (500 if there was none) and an error
    message, and no token exists. The name in the token is the user's, cut where the
    escape buffer of 128 bytes is full ([goes_in]: whole if its escaped form has at
    most 121 bytes). If that name has at most 32 bytes, [jwt_verify] accepts the
    token until it expires and returns it; if it has more, as the name of 32
    accented letters that the schema accepts has, the token that was issued is
    refused by [jwt_verify]. Neither the database nor the disk is touched. *)
Theorem login_issues_token (body : option jobj) (u p : cstr) (h : host) :
  json_get_string body (lit "username") = Some u -> json_get_string body (lit "password") = Some p ->
  no_nul u -> no_nul p -> no_dangling (net h) ->
  (0 <= Config.max_payload_size cfg < SIZE_MAX)%Z ->
  length (random_uuid O) = 16%nat -> Forall (fun b => 0 <= b < 256)%Z (random_uuid O) ->
  (- 2 ^ 63 <= now O < 2 ^ 63)%Z -> (- 2 ^ 63 <= now O + Config.jwt_timeout_seconds cfg < 2 ^ 63)%Z ->
  exists h' doc code c',
    login_service_authenticate (server O) cfg u p 0
      (Client (curl (net h)) (err_of (loc h)) (sent (net h))) = Some (doc, code, c')
    /\ login_handler body h = Some (tt, h') /\ db h' = db h /\ files h' = files h /\ net h' = c'
    /\ (if (code =? 200)%Z then
          status h' = 200%Z
          /\ exists token k, out h' = out h ++ lit "{`token`:`" ++ token ++ lit "`}"
            /\ goes_in 128 u k
            /\ ((length (u ≫= escape_char) <= 121)%nat -> take k u = u)
            /\ forall later, Jwt.jwt_verify secret (Some token) (Some 33%nat) (Some 37%nat) later
                 = if (now O + Config.jwt_timeout_seconds cfg <? later)%Z
                   then Jwt.Result Jwt.JWT_ERR_EXPIRED None None
                   else if (33 <=? length (take k u))%nat then Jwt.invalid
                   else Jwt.Result Jwt.JWT_OK (Some (take k u)) (Some (Jwt.uuid_text (random_uuid O)))
        else
          status h' = (if (code =? 0)%Z then 500%Z else swrap 32 code)
          /\ exists msg, out h' = out h ++ lit "{`error`:`" ++ msg ++ lit "`}").
Proof using Type HO JL SL.
  clear Hnum. intros Eu Ep Nu Np Hd Hmax Hul Hur Hnow Hexp. unfold login_handler. rewrite Eu, Ep.
  set (c0 := Client (curl (net h)) (err_of (loc h)) (sent (net h))).
  destruct (login_sent (server O) cfg (ok_net HO) Hmax u p 0 c0 Nu Np) as (doc & code & c' & E & _).
  { intros x Hx. by apply Hd. }
  assert (forall (k : option jobj * Z -> H unit),
    (net_call (fun c => match login_service_authenticate (server O) cfg u p 0 c with
       | Some (doc, code, c) => Some ((doc, code), c) | None => None end) ≫= k) h
    = k (doc, code) (Host (db h) c' (files h) (drop_token h) (out h) (status h) (set_error_of (loc h) (err c'))))
    as Hk.
  { intros k. unfold mbind, H_bind, net_call. fold c0. by rewrite E. }
  rewrite Hk. clear Hk. destruct (Z.eqb_spec code 200) as [->|Hc].
  - pose proof (Jwt.uuid_text_shape _ Hul Hur) as Sh. destruct (uuid_plain _ Sh) as [Hplain _].
    destruct Sh as [Hlen _].
    destruct (Jwt.issued_token secret u (Jwt.uuid_text (random_uuid O)) (Config.jwt_timeout_seconds cfg) (now O)
      Nu Hplain ltac:(lia) Hnow Hexp) as (token & k & Ht & Hg & Hk & Hv).
    pose proof (created_short _ _ _ _ _ Ht) as Hs.
    assert (plain token) as Hp.
    { rewrite (Jwt.jwt_create_eq secret) in Ht by lia. injection Ht as <-. apply Jwt.token_plain. }
    assert (json_encode 2048 token = token) as Ej.
    { unfold json_encode. rewrite encode_content_fits; rewrite (plain_escape _ Hp); [done|lia]. }
    unfold handle_login_success. rewrite Ht, Ej. rewrite snprintf_fits.
    2:{ rewrite !length_app. cbn. lia. }
    eexists _, _, _, _. split; [exact E|]. split; [reflexivity|]. cbn [db files net status out].
    rewrite Z.eqb_refl. split_and!; try done. exists token, k. done.
  - unfold handle_login_failure. destruct doc as [r|].
    + match goal with |- context [json_encode 256 ?m] => set (msg := m) end.
      pose proof (length_json_encode 256 msg ltac:(lia)) as Hl.
      rewrite snprintf_fits by (rewrite !length_app; cbn; lia).
      eexists _, _, _, _. split; [exact E|]. split; [reflexivity|]. cbn [db files net status out].
      rewrite (proj2 (Z.eqb_neq _ _) Hc). split_and!; try done. by exists (json_encode 256 msg).
    + eexists _, _, _, _. split; [exact E|]. split; [reflexivity|]. cbn [db files net status out].
      rewrite (proj2 (Z.eqb_neq _ _) Hc). split_and!; try done. by exists (lit "Provider unreachable").
Qed.

(** ** Upload *)

(** C23: an upload can only create one fresh file in the upload directory. Whatever
    the client sends as file name, type, title and content, the handler returns
    and either writes no file and does not answer 200, or writes exactly
    one, whose path is the configured directory, a slash and a version 4
    UUID drawn by the server (no part of it comes from the request and it has no
    slash), and whose content is the decoded blob or a prefix of it. The answer
    is 200 exactly if [fwrite] accepted the whole blob. The file then has what the
    closing of the stream has written of it, which is the whole blob unless
    [fclose] fails: the code does not look at that, so that a full disk can
    leave a shorter file behind an answer of 200; a whole file is never answered
    with an error. The database and the network are not touched. *)
Theorem upload_confined (body : option jobj) (blob : cstr) (len : Z) (h : host) :
  json_get_string_ex body (lit "blob") 0 = (Some blob, len) ->
  (length (Config.uploads_dir cfg) < Config.MAX_CONFIG_STR)%nat ->
  length (random_uuid O) = 16%nat -> Forall (fun b => 0 <= b < 256)%Z (random_uuid O) ->
  (forall k, fwrite_count O k <= k)%nat ->
  exists h', upload_handler body h = Some (tt, h') /\ db h' = db h /\ net h' = net h
    /\ ((files h' = files h /\ status h' <> 200%Z)
        \/ exists room bin content,
             files h' = files h ++ [(Config.uploads_dir cfg ++ lit "/" ++ Jwt.uuid_text (random_uuid O), content)]
             /\ Config.uploads_dir cfg <> []
             /\ Jwt.uuid_shape (Jwt.uuid_text (random_uuid O)) /\ ~ "/"%char ∈ Jwt.uuid_text (random_uuid O)
             /\ base642bin_original O room blob len = Some bin /\ content `prefix_of` bin
             /\ (status h' = 200%Z <-> fwrite_count O (length bin) = length bin)
             /\ (status h' = 200%Z -> content = take (fclose_count O (length bin)) bin)
             /\ (content = bin -> status h' = 200%Z)).
Proof using Type.
  clear Hnum. intros Eb Hdir Hul Hur Hfw. pose proof (Jwt.uuid_text_shape _ Hul Hur) as Sh.
  destruct (uuid_plain _ Sh) as [_ Hslash]. pose proof (proj1 Sh) as Hlen.
  unfold upload_handler. rewrite Eb. unfold mbind, H_bind, set_status at 1.
  destruct (upload_is_valid_dir (Config.uploads_dir cfg)) eqn:Ed; cbn [negb].
  2:{ eexists. split; [reflexivity|]. split_and!; try done. by left. }
  destruct (bin_maxlen len) as [room|].
  2:{ eexists. split; [reflexivity|]. split_and!; try done. by left. }
  destruct (malloc_ok O); cbn [negb].
  2:{ eexists. split; [reflexivity|]. split_and!; try done. by left. }
  destruct (base642bin_original O (Z.to_nat room) blob len) as [bin|] eqn:Ebin.
  2:{ eexists. split; [reflexivity|]. split_and!; try done. by left. }
  destruct (fopen_ok O); cbn [negb].
  2:{ eexists. split; [reflexivity|]. split_and!; try done. by left. }
  assert (upload_path (Jwt.uuid_text (random_uuid O))
    = Config.uploads_dir cfg ++ lit "/" ++ Jwt.uuid_text (random_uuid O)) as Ep.
  { unfold upload_path. apply snprintf_fits. rewrite !length_app, Hlen. unfold Config.MAX_CONFIG_STR in *. cbn. lia. }
  assert (Config.uploads_dir cfg <> []) as Hne by (intros Hz; by rewrite Hz in Ed).
  unfold write_file. rewrite Ep. specialize (Hfw (length bin)).
  destruct (Nat.eqb_spec (fwrite_count O (length bin)) (length bin)) as [Hw|Hw]; cbn [negb].
  - eexists. split; [reflexivity|]. cbn [db net files status]. split_and!; try done. right.
    rewrite (take_ge bin) by lia. exists (Z.to_nat room), bin, (take (fclose_count O (length bin)) bin).
    split_and!; try done. eexists. by rewrite take_drop.
  - eexists. split; [reflexivity|]. cbn [db net files status]. split_and!; try done. right.
    set (written := fwrite_count O (length bin)) in *.
    exists (Z.to_nat room), bin, (take (fclose_count O (length (take written bin))) (take written bin)).
    split_and!; try done.
    + rewrite take_take. eexists. by rewrite take_drop.
    + intros E. apply (f_equal length) in E. rewrite !length_take in E. lia.
Qed.

End Handlers.

(** ** Concrete applications *)

#[export] Instance sample_libs : TotpLibs := {
  evhttp_uriencode s := Some s;
  QRcode_encodeString _ := Some sample_qr;
  oath_base32_decode s := Some s;
  oath_base32_encode s := Some s;
  oath_totp_validate4 _ _ _ := 0%Z;
}.

Import Model.

(** A quiet day: every library call succeeds, the database delivers one set. *)
Definition sample_outside : outside (J := model_json_c) := {|
  deliver_json _ _ := ([NCell (Some (lit "{}")) true None], true);
  deliver_set _ _ := sample_set;
  deliver_sets _ _ := ([sample_set], true);
  row_int := 5; row_secret := Some (lit "SECRET");
  server := sample_network;
  api_token := Some (lit "t");
  now := 1000; random_uuid := replicate 16 255%Z; random_secret := replicate 20 "r"%char;
  json_text _ := lit "{}";
  base642bin_original _ s _ := Some s;
  is_directory _ := true; malloc_ok := true; fopen_ok := true; fwrite_count k := k; fclose_count k := k;
  hostname := lit "h"; start_time := lit "t"; server_version := lit "v"; compiler := lit "c";
  compile_date := lit "d"; os_version := lit "o"; libevent_version := lit "e";
  libcurl_version := lit "u"; libc_version := lit "g";
  reactors := [Server.zero_stats]; ram_kb := 1000; rss_kb := 10;
|}.

Lemma sample_set_good : good_resultset sample_set.
Proof. split; [cbn; lia|]. split; repeat constructor; cbn; lia. Qed.

Lemma sample_outside_ok : outside_ok (L := sample_libs) sample_outside.
Proof.
  split.
  - intros ? ?. apply sample_set_good.
  - intros ? ?. split; [|done]. constructor; [apply sample_set_good|constructor].
  - intros s q E. injection E as E. rewrite <- E. done.
  - apply sample_network_ok.
Qed.

Lemma zeroed_arenas : arenas zeroed.
Proof. intros n arena [= <-]. rewrite length_replicate. lia. Qed.

Definition sample_host : host :=
  Host fresh_thread sample_client [] false [] 200 (Tls (Context [] [] [] [] []) clear_thread_error []).


Lemma sql_is_fixed_witness :
  exists h', customer_handler (Drv := sample_driver 99) sample_config sample_outside None sample_host
    = Some (tt, h').
Proof.
  destruct (sql_is_fixed (Drv := sample_driver 99) (L := sample_libs) (Laws := sample_driver_laws 99)
    sample_config sample_outside (replicate 64 NUL) zeroed sample_outside_ok eq_refl zeroed_arenas
    (customer_handler (Drv := sample_driver 99) sample_config sample_outside) None sample_host
    (L_customer _ _ _ _) fresh_inv) as (h' & E & _).
  exists h'. exact E.
Defined.

Definition sample_customer : json := JObject [(lit "id", JString (lit "ALFKI"))].

Lemma validated_queries_witness :
  exists id h', customer_handler (Drv := sample_driver 99) sample_config sample_outside (Some sample_customer)
      sample_host = Some (tt, h') /\ length id = 5%nat
    /\ Forall (fun x => x = (lit "{CALL sp_customer_get(?)}", [BString id])) (executed (db h')).
Proof.
  destruct (validated_queries (Drv := sample_driver 99) (L := sample_libs) (Laws := sample_driver_laws 99)
    (JL := model_json_c_laws) sample_config sample_outside (replicate 64 NUL) zeroed sample_outside_ok eq_refl
    zeroed_arenas sample_customer 1023 sample_host fresh_inv) as [H _].
  destruct H as (id & h' & Hl & _ & E & X & EX & HX); [vm_compute; reflexivity|].
  exists id, h'. split; [exact E|]. split; [exact Hl|]. rewrite EX. exact HX.
Defined.

Definition sample_login : json := JObject [(lit "username", JString (lit "ana")); (lit "password", JString (lit "p"))].

Lemma login_issues_token_witness :
  exists h' token, login_handler (Sd := SodiumModel.model_sodium) sample_config [] sample_outside
      (Some sample_login) sample_host = Some (tt, h')
    /\ status h' = 200%Z /\ out h' = lit "{`token`:`" ++ token ++ lit "`}".
Proof.
  destruct (login_issues_token (L := sample_libs) (JL := model_json_c_laws) (SL := SodiumModel.model_sodium_laws)
    sample_config [] sample_outside sample_outside_ok (Some sample_login) (lit "ana") (lit "p") sample_host)
    as (h' & doc & code & c' & Es & E & _ & _ & _ & H); try done.
  - apply (bool_decide_unpack _). by vm_compute.
  - apply (bool_decide_unpack _). by vm_compute.
  - exact sample_detached.
  - apply Forall_replicate. lia.
  - exists h'. assert (code = 200%Z) as ->; [|destruct H as (Hs & token & _ & Ho & _); by exists token].
    assert (snd <$> (fst <$> login_service_authenticate (J := model_json_c) (server sample_outside) sample_config
      (lit "ana") (lit "p") 0 (Client (curl (net sample_host)) (err_of (loc sample_host)) (sent (net sample_host))))
      = Some 200%Z) as X by (vm_compute; reflexivity).
    rewrite Es in X. by injection X.
Defined.

Definition upload_config : Config.config :=
  Config.apply_initial_config_vars [(lit "UPLOADS_DIR", lit "/srv/up")] Config.initial_config.

Definition sample_upload : json := JObject [(lit "filename", JString (lit "../../etc/passwd")); (lit "blob", JString (lit "QQ=="))].

Lemma upload_confined_witness :
  exists h', upload_handler upload_config sample_outside (Some sample_upload) sample_host = Some (tt, h')
    /\ net h' = sample_client.
Proof.
  destruct (upload_confined upload_config sample_outside (Some sample_upload) (lit "QQ==") 4 sample_host)
    as (h' & E & _ & En & _); [done|by vm_compute; lia|done| |done|].
  - apply Forall_replicate. lia.
  - by exists h'.
Defined.

(** With a full disk, the stream accepts the blob and the closing loses it: the
    answer is 200 and the file is empty. *)
Definition full_disk : outside (J := model_json_c) := {|
  deliver_json := deliver_json sample_outside;
  deliver_set := deliver_set sample_outside;
  deliver_sets := deliver_sets sample_outside;
  row_int := 5; row_secret := None;
  server := sample_network;
  api_token := None;
  now := 1000; random_uuid := replicate 16 255%Z; random_secret := [];
  json_text _ := [];
  base642bin_original _ s _ := Some s;
  is_directory _ := true; malloc_ok := true; fopen_ok := true;
  fwrite_count k := k; fclose_count _ := 0%nat;
  hostname := []; start_time := []; server_version := []; compiler := [];
  compile_date := []; os_version := []; libevent_version := [];
  libcurl_version := []; libc_version := [];
  reactors := []; ram_kb := 0; rss_kb := 0;
|}.

Lemma upload_truncated :
  (fun r => (status r.2, snd <$> files r.2)) <$> upload_handler upload_config full_disk (Some sample_upload)
    sample_host = Some (200%Z, [[]]).
Proof. vm_compute. reflexivity. Qed.

(** When its first query fails before anything was read, [coordinator2_handler]
    leaves the beginning of an object in a reply with the status 500. *)
Lemma coordinator2_partial :
  (fun r => (status r.2, out r.2)) <$> coordinator2_handler (Drv := sample_driver 0) Config.initial_config
    sample_outside (replicate 64 NUL) zeroed None sample_host = Some (500%Z, lit "{`r1`:").
Proof. vm_compute. reflexivity. Qed.

End Handlers.
