(* ===== verification/Routes.v ===== *)
(** * src/main.c: the table of the routes

    The routes in the order of [g_routes], and what a worker does with requests
    that reached their handlers, one after another.  The credentials themselves
    are checked by [Server] (the API key) and [Worker] (the token). *)

From S2P Require Import Prelude JsonUtil Dtoa JsonC Validation DbJson Sodium Jwt ThreadState Config DbApi.
From S2P Require Import HttpClient Services Totp Schemas EvHttp Worker Server Handlers.
Import Worker Validation ThreadState DbJson DbApi HttpClient Services Totp Schemas Handlers.

Module Routes.

Section Routes.
Context `{J : JsonC, Sd : Sodium, Drv : Odbc, L : TotpLibs}.
Context (cfg : Config.config) (secret : list char) (num_buf : list char) (mem : Z -> option (list char)).

(** [middleware_ctx_t], with a handler that works on the thread *)
Record route := Route {
  path : cstr;
  allowed_method : evhttp_cmd_type;
  validation_ctx : option ValidationContext;
  handler : option jobj -> H unit;
  is_fast : bool;
  auth_mode : auth_mode_t;
}.

Abbreviation GET p h fast auth := (Route (lit p) EVHTTP_REQ_GET None h fast auth).
Abbreviation POST p v h fast auth := (Route (lit p) EVHTTP_REQ_POST (Some v) h fast auth).

Definition g_routes (O : outside) : list route :=
  [ GET "/ping" ping_handler true AUTH_NONE;
    GET "/version" (version_handler O) true AUTH_API_KEY;
    GET "/sysinfo" (sysinfo_handler O) true AUTH_API_KEY;
    GET "/rsysinfo" (rsysinfo_handler cfg O) false AUTH_JWT;
    POST "/rcustomer" CustomerContext (rcustomer_handler cfg O) false AUTH_JWT;
    POST "/customer" CustomerContext (customer_handler cfg O) true AUTH_JWT;
    POST "/sales" SalesContext (sales_handler cfg O) true AUTH_JWT;
    GET "/shippers" (shippers_handler cfg O) true AUTH_JWT;
    GET "/products" (products_handler cfg O) true AUTH_JWT;
    GET "/uuid" (uuid_handler O) true AUTH_NONE;
    GET "/secretb32" (secretb32_handler O) true AUTH_NONE;
    POST "/login" LoginContext (login_handler cfg secret O) false AUTH_NONE;
    GET "/getqr" (getqr_handler cfg O) true AUTH_JWT;
    POST "/verifytotp" VerifyTotpContext (verifytotp_handler cfg O) true AUTH_JWT;
    GET "/metrics" (metrics_handler O) true AUTH_API_KEY;
    POST "/employee" EmployeeContext (employee_handler cfg O num_buf mem) true AUTH_JWT;
    POST "/prodget" ProdgetContext (prodget_handler cfg O num_buf mem) true AUTH_JWT;
    POST "/supplier" SupplierContext (supplier_handler cfg O num_buf mem) true AUTH_JWT;
    POST "/customers" CustomersContext (customers_handler cfg O) true AUTH_JWT;
    POST "/salespgsql" SalesContext (sales_pgsql_handler cfg O) true AUTH_JWT;
    POST "/upload" UploadContext (upload_handler cfg O) false AUTH_JWT;
    POST "/gasto" GastoContext (gasto_handler cfg O num_buf mem) true AUTH_JWT;
    POST "/dummy" DummyContext (dummy_handler cfg O num_buf mem) true AUTH_JWT;
    POST "/customer/get" CustomerContext (customerget_handler cfg O num_buf mem) true AUTH_JWT;
    POST "/emp/orders" EmployeeContext (emp_orders_handler cfg O num_buf mem) true AUTH_JWT;
    POST "/emp/ordersj" EmployeeContext (emp_ordersj_handler cfg O) true AUTH_JWT;
    POST "/coordinator" CoordinatorContext (coordinator_handler cfg O num_buf mem) true AUTH_JWT;
    POST "/coordinator2" EmployeeContext (coordinator2_handler cfg O num_buf mem) true AUTH_JWT;
    POST "/coordinator3" EmployeeContext (coordinator3_handler cfg O) true AUTH_JWT ].

(** The loop of [configure_http_server]: [evhttp_set_cb] keeps the first callback
    of a path. *)
Definition configure_http_server (rs : list route) : list route :=
  foldl (fun cbs r => if decide (path r ∈ path <$> cbs) then cbs else cbs ++ [r]) [] rs.

(** No path is registered twice: every route of the table gets its callback. *)
Lemma distinct_registered (rs : list route) : NoDup (path <$> rs) -> configure_http_server rs = rs.
Proof.
  set (register := fun cbs r => if decide (path r ∈ path <$> cbs) then cbs else cbs ++ [r]).
  assert (forall cbs, NoDup (path <$> cbs ++ rs) -> foldl register cbs rs = cbs ++ rs) as HG; [|exact (HG [])].
  induction rs as [|r rs IH]; intros cbs Hn; cbn [foldl]; [by rewrite app_nil_r|].
  unfold register at 2. rewrite decide_False.
  - rewrite (IH (cbs ++ [r])), <- (assoc_L (++)); [done|]. by rewrite <- (assoc_L (++)).
  - rewrite fmap_app, fmap_cons in Hn. intros Hin. apply list.NoDup_app in Hn as (_ & Hn & _).
    by apply (Hn _ Hin), list_elem_of_here.
Qed.

Lemma all_registered (O : outside) : configure_http_server (g_routes O) = g_routes O.
Proof.
  apply distinct_registered. cbn [g_routes fmap list_fmap path]. apply (bool_decide_unpack _).
  by vm_compute.
Qed.

(** ** Requests on one thread *)

(** A request that passed the checks in front of its handler: the outside it
    finds, its route, its document, the status and the thread-local state the
    worker hands over. *)
Record job := Job {
  j_outside : outside;
  j_route : route;
  j_body : option jobj;
  j_status : Z;
  j_tls : tls;
}.

Definition serve (j : job) (h : host) : option host :=
  snd <$> handler (j_route j) (j_body j) (Host (db h) (net h) (files h) (drop_token h) [] (j_status j) (j_tls j)).

Fixpoint serve_all (js : list job) (h : host) : option host :=
  match js with [] => Some h | j :: js => h ← serve j h; serve_all js h end.

(** The document passed the schema of the route. *)
Definition validated (r : route) (body : option jobj) : Prop :=
  match validation_ctx r with
  | None => True
  | Some v => exists o n, body = Some o /\ validate_json (Some v) (Some o) (Some (S n)) = Some Pass
  end.

Definition acceptable (j : job) : Prop :=
  j_route j ∈ g_routes (j_outside j) /\ outside_ok (j_outside j)
  /\ (forall t, api_token (j_outside j) = Some t -> (length t < TOKEN_SIZE)%nat)
  /\ validated (j_route j) (j_body j).

Context {Laws : OdbcLaws Drv} {JL : JsonCLaws J}.
Hypothesis Hnum : length num_buf = 64%nat.
Hypothesis Hmem : arenas mem.
Hypothesis Hmax : (0 <= Config.max_payload_size cfg < SIZE_MAX)%Z.

(** The thread can serve: its database handles and its HTTP client are in order. *)
Definition ready (h : host) : Prop := inv None (db h) /\ no_dangling (net h).

(** The thread is ready again after a call; [data] and [remote] say whether the
    call may use the database or the disk, and other servers. *)
Definition stays (data remote : bool) (h : host) (r : option (unit * host)) : Prop :=
  exists h', r = Some (tt, h') /\ ready h'
    /\ (exists E, executed (db h') = executed (db h) ++ E
         /\ Forall (fun x => x.1 ∈ STATEMENTS /\ length x.2 = placeholders x.1) E)
    /\ (data = false -> executed (db h') = executed (db h) /\ files h' = files h)
    /\ (remote = false -> sent (net h') = sent (net h)).

Definition guarded (data remote : bool) (m : H unit) : Prop := forall h, ready h -> stays data remote h (m h).

Lemma stays_same (data remote : bool) (h : host) (r : option (unit * host)) :
  ready h ->
  (exists h', r = Some (tt, h') /\ db h' = db h /\ net h' = net h /\ (data = false -> files h' = files h)) ->
  stays data remote h r.
Proof.
  intros [Hi Hd] (h' & E & Ed & En & Ef). exists h'. unfold ready. rewrite Ed, En.
  split; [done|]. split; [done|]. split; [|naive_solver]. exists []. by rewrite app_nil_r.
Qed.

Lemma guarded_quiet (data remote : bool) (m : H unit) :
  (forall h, exists h', m h = Some (tt, h') /\ db h' = db h /\ net h' = net h /\ files h' = files h) ->
  guarded data remote m.
Proof. intros Hm h Hr. apply stays_same; [done|]. destruct (Hm h) as (h' & ?). exists h'. naive_solver. Qed.

Lemma guarded_local (O : outside) (hd : option jobj -> H unit) (body : option jobj) :
  outside_ok O -> local_handler cfg O num_buf mem hd -> guarded true false (hd body).
Proof.
  intros HO Hl h [Hi Hd].
  destruct (local_runs cfg O num_buf mem HO Hnum Hmem hd body Hl h Hi) as ([] & h' & E & I & (X & EX & HX) & En & Ef).
  exists h'. unfold ready. rewrite En. split_and!; try done. exists X. split; [done|].
  eapply Forall_impl; [|exact HX]. apply in_source_run.
Qed.

(** A call of the HTTP client followed by a step that only writes the reply. *)
Lemma guarded_net {A} (data : bool) (call : client -> option (A * client)) (k : A -> H unit) :
  (forall c, no_dangling c -> exists a c', call c = Some (a, c') /\ no_dangling c') ->
  (forall a h, exists h', k a h = Some (tt, h') /\ db h' = db h /\ net h' = net h /\ files h' = files h) ->
  guarded data true (fun h => match net_call call h with Some (a, h) => k a h | None => None end).
Proof.
  intros Hc Hk h [Hi Hd]. unfold net_call.
  destruct (Hc (Client (curl (net h)) (err_of (loc h)) (sent (net h)))) as (a & c' & -> & Hd').
  { intros x Hx. by apply Hd. }
  edestruct Hk as (h' & -> & Ed & En & Ef). exists h'. unfold ready. rewrite Ed, En, Ef.
  split_and!; try done. exists []. by rewrite app_nil_r.
Qed.

(** A required string of a validated document is there. *)
Lemma required_string (v : ValidationContext) (o : jobj) (n : nat) (name : string) (max : Z) :
  Forall (fun f => 0 <= max_bits f)%Z (schema v) -> customs_defined v (Some o) (Some (S n)) ->
  validate_json (Some v) (Some o) (Some (S n)) = Some Pass ->
  string_field name true max None ∈ schema v ->
  exists s len, json_get_string (Some o) (lit name) = Some s /\ no_nul s
    /\ json_get_string_ex (Some o) (lit name) 0 = (Some s, len).
Proof.
  intros Hm Hc E Hin. destruct (validate_json_ok v o n Hm Hc) as (x & E' & Hv).
  destruct (proj1 Hv ltac:(congruence)) as (_ & Hf & _).
  apply (proj1 (list.Forall_forall _ _) Hf) in Hin. unfold field_valid in Hin. cbn [string_field field_name is_required] in Hin.
  unfold json_get_string, json_get_string_ex.
  destruct (json_object_object_get_ex (Some o) (lit name)) as [[y|]|]; try done.
  destruct Hin as (_ & [Ht _] & _). destruct (string_text (Some y) Ht) as (s & Hs & Hn & _).
  exists s, (json_object_get_string_len (Some y)). by rewrite Hs.
Qed.

Lemma guarded_login (O : outside) (body : option jobj) :
  outside_ok O -> (exists o n, body = Some o /\ validate_json (Some LoginContext) (Some o) (Some (S n)) = Some Pass) ->
  guarded false true (login_handler cfg secret O body).
Proof.
  intros HO (o & n & -> & Hv).
  assert (Forall (fun f => 0 <= max_bits f)%Z (schema LoginContext)) as Hm by (repeat constructor; done).
  assert (customs_defined LoginContext (Some o) (Some (S n))) as Hc.
  { split; [|done]. repeat constructor; done. }
  destruct (required_string _ o n "username" 32 Hm Hc Hv) as (u & _ & Eu & Nu & _); [by left|].
  destruct (required_string _ o n "password" 32 Hm Hc Hv) as (p & _ & Ep & Np & _); [by right; left|].
  unfold login_handler. rewrite Eu, Ep. apply guarded_net.
  - intros c Hd. destruct (login_sent (server O) cfg (ok_net O HO) Hmax u p 0 c Nu Np Hd)
      as (doc & code & c' & -> & Hd' & _). by eexists _, _.
  - intros [doc code] h. destruct (code =? 200)%Z.
    + unfold handle_login_success. destruct (Jwt.jwt_create _ _ _ _ _ _); by eexists.
    + unfold handle_login_failure. destruct doc; by eexists.
Qed.

Lemma appended (remote_json : option jobj) (code : Z) (O : outside) (h : host) :
  exists h', append_remote_json_response O remote_json code h = Some (tt, h')
    /\ db h' = db h /\ net h' = net h /\ files h' = files h.
Proof. unfold append_remote_json_response. by eexists. Qed.

Lemma guarded_status (data remote : bool) (s : Z) (m : H unit) :
  guarded data remote m -> guarded data remote (fun h => match set_status s h with Some (_, h) => m h | None => None end).
Proof. intros Hm h Hr. exact (Hm (Host (db h) (net h) (files h) (drop_token h) (out h) s (loc h)) Hr). Qed.

Lemma guarded_rsysinfo (O : outside) (body : option jobj) :
  outside_ok O -> guarded true true (rsysinfo_handler cfg O body).
Proof.
  intros HO. unfold rsysinfo_handler. apply guarded_status, guarded_net.
  - intros c Hd. unfold http_client_get_json.
    edestruct (do_http_ok (server O) _ (ok_net O HO) Hmax) as (doc & code & c' & E & Hd' & _); [exact Hd|].
    rewrite E. by eexists _, _.
  - intros [doc code]. apply appended.
Qed.

Lemma guarded_rcustomer (O : outside) (body : option jobj) :
  outside_ok O -> (forall t, api_token O = Some t -> (length t < TOKEN_SIZE)%nat) ->
  (exists o n, body = Some o /\ validate_json (Some CustomerContext) (Some o) (Some (S n)) = Some Pass) ->
  guarded true true (rcustomer_handler cfg O body).
Proof.
  intros HO Ht (o & n & -> & Hv). destruct (customer_code o n Hv) as (x & s & Hx & Hty & Hs & _).
  destruct (string_text (Some x) Hty) as (s' & Hs' & Hn & _). assert (s' = s) as -> by congruence.
  unfold rcustomer_handler. apply guarded_status. unfold json_get_string. rewrite Hx, Hs. apply guarded_net.
  - intros c Hd. destruct (api_token O) as [t|].
    + destruct (customer_request_exact (server O) cfg (ok_net O HO) Hmax t s 0 c (Ht t eq_refl) Hn Hd)
        as (doc & code & c' & dropped & -> & Hd' & _). by eexists _, _.
    + by eexists _, _.
  - intros [[doc code] dropped] h. by eexists.
Qed.

Lemma guarded_upload (O : outside) (body : option jobj) :
  (exists o n, body = Some o /\ validate_json (Some UploadContext) (Some o) (Some (S n)) = Some Pass) ->
  guarded true true (upload_handler cfg O body).
Proof.
  intros (o & n & -> & Hv).
  destruct (required_string UploadContext o n "blob" 0) as (blob & len & _ & _ & Eb).
  { repeat constructor; done. }
  { split; [|done]. repeat constructor; done. }
  { done. }
  { by do 3 right; left. }
  intros h Hr. apply stays_same; [done|]. unfold upload_handler. rewrite Eb. destruct (negb (upload_is_valid_dir _ _)); [by eexists|].
  destruct (bin_maxlen len) as [room|]; [|by eexists]. destruct (negb (malloc_ok O)); [by eexists|].
  destruct (base642bin_original _ _ _ _) as [bin|]; [|by eexists]. destruct (negb (fopen_ok O)); [by eexists|].
  cbv zeta. unfold mbind at 2, mbind at 2, H_bind, set_status at 1, write_file.
  destruct (negb _); by eexists.
Qed.

(** A route may use the data only behind a token, and other servers only behind a
    token or to check credentials. *)
Definition uses_data (r : route) : bool := bool_decide (auth_mode r = AUTH_JWT).
Definition uses_remote (r : route) : bool := uses_data r || bool_decide (path r = lit "/login").

Lemma guarded_weaken (d d' n n' : bool) (m : H unit) :
  guarded d n m -> implb d d' = true -> implb n n' = true -> guarded d' n' m.
Proof.
  intros Hm Hd Hn h Hr. destruct (Hm h Hr) as (h' & E & R & X & D & N). exists h'. split_and!; try done.
  - intros ->. apply D. by destruct d.
  - intros ->. apply N. by destruct n.
Qed.

Lemma guarded_route (j : job) : acceptable j ->
  guarded (uses_data (j_route j)) (uses_remote (j_route j)) (handler (j_route j) (j_body j)).
Proof.
  destruct j as [O r body st l]. unfold acceptable. cbn [j_route j_outside j_body].
  intros (Hin & HO & Ht & Hv).
  repeat (apply elem_of_cons in Hin as [->|Hin]; [cbn [validated validation_ctx handler] in *|]); [..|by apply elem_of_nil in Hin].
  all: lazymatch goal with
    | |- guarded _ _ (login_handler _ _ _ _) => by apply guarded_login
    | |- guarded _ _ (rsysinfo_handler _ _ _) => by apply guarded_rsysinfo
    | |- guarded _ _ (rcustomer_handler _ _ _) => by apply guarded_rcustomer
    | |- guarded _ _ (upload_handler _ _ _) => by apply guarded_upload
    | |- guarded _ _ (gasto_handler _ _ _ _ _) =>
        by eapply guarded_weaken; [eapply (guarded_local O _ body HO), L_gasto|..]
    | |- guarded _ _ (dummy_handler _ _ _ _ _) =>
        by eapply guarded_weaken; [eapply (guarded_local O _ body HO), L_dummy|..]
    | |- _ => idtac
    end.
  all: try (eapply guarded_weaken; [eapply (guarded_local O _ body HO); constructor|done|done]).
  all: try (apply guarded_quiet; intros h; by eexists).
  - apply guarded_quiet. intros h. unfold secretb32_handler. destruct (totp_generate_base32_secret _ _); by eexists.
  - apply guarded_quiet. intros h. unfold metrics_handler. cbv zeta. generalize (snprintf 2048).
    intros f. eexists. split; [reflexivity|]. done.
Qed.

(** C14: a worker thread serves any sequence of accepted requests, and no data moves
    without a token. For requests to any routes of the table, in any order, each
    with a document its schema accepts, whatever the driver answers to each call,
    whatever the network and the disk answer, with a token for the API that fits its
    buffer, and for result sets with column names of at most 127 bytes, escaped keys
    of at most 255 and cells of their types ([outside_ok], a condition on the
    queries of the deployment: a longer name is read out of bounds): every handler
    returns (no missing field of a document is used, no buffer is overrun, no freed
    handle is used), and the thread's database handles and HTTP client are in order
    afterwards; only the statements in the source were run, each with as many values
    as it has markers. If no request was to a route behind a token, no statement was
    run and no file written; if none was to the login either, nothing was sent to
    another server. What a driver that refused to reset a statement writes through
    its old bindings is not modelled. *)
Theorem routes_guarded (js : list job) (h : host) :
  Forall acceptable js -> inv None (db h) -> no_dangling (net h) ->
  exists h', serve_all js h = Some h' /\ inv None (db h') /\ no_dangling (net h')
    /\ (exists E, executed (db h') = executed (db h) ++ E
         /\ Forall (fun x => x.1 ∈ STATEMENTS /\ length x.2 = placeholders x.1) E)
    /\ (Forall (fun j => auth_mode (j_route j) <> AUTH_JWT) js ->
        executed (db h') = executed (db h) /\ files h' = files h)
    /\ (Forall (fun j => auth_mode (j_route j) <> AUTH_JWT /\ path (j_route j) <> lit "/login") js ->
        sent (net h') = sent (net h)).
Proof.
  revert h. induction js as [|j js IH]; intros h Hjs Hi Hd; cbn [serve_all].
  { exists h. split_and!; try done. exists []. by rewrite app_nil_r. }
  apply Forall_cons_iff in Hjs as [Hj Hjs]. unfold serve.
  destruct (guarded_route j Hj (Host (db h) (net h) (files h) (drop_token h) [] (j_status j) (j_tls j)) (conj Hi Hd))
    as (h1 & -> & [I1 D1] & (X & EX & HX) & Hdata & Hremote). cbn [fmap option_fmap option_map mbind option_bind snd].
  destruct (IH h1 Hjs I1 D1) as (h' & E & I' & D' & (Y & EY & HY) & Hdata' & Hremote'). cbn [db net files] in *.
  exists h'. split; [done|]. split; [done|]. split; [done|]. split.
  { exists (X ++ Y). split; [by rewrite EY, EX, (assoc_L (++))|by apply Forall_app]. }
  split.
  - intros [Ha Hr]%Forall_cons_iff. destruct (Hdata' Hr) as [-> ->]. apply Hdata. by apply bool_decide_eq_false.
  - intros [[Ha Hp] Hr]%Forall_cons_iff. rewrite (Hremote' Hr). apply Hremote. unfold uses_remote, uses_data.
    by rewrite !bool_decide_eq_false_2.
Qed.

End Routes.

(** ** A concrete application *)

Definition sample_routes : list route :=
  g_routes (J := Model.model_json_c) (Sd := SodiumModel.model_sodium) (Drv := sample_driver 99)
    (L := sample_libs) sample_config [] (replicate 64 NUL) zeroed sample_outside.

Definition sample_jobs : list job :=
  (fun r => Job sample_outside r (Some sample_customer) 200 (loc sample_host)) <$> take 1 (drop 5 sample_routes).

Lemma routes_guarded_witness : exists h', serve_all sample_jobs sample_host = Some h'.
Proof.
  destruct (routes_guarded (J := Model.model_json_c) (Sd := SodiumModel.model_sodium) (Drv := sample_driver 99)
    (L := sample_libs) (Laws := sample_driver_laws 99) (JL := Model.model_json_c_laws) sample_config []
    (replicate 64 NUL) zeroed eq_refl zeroed_arenas ltac:(done) sample_jobs sample_host) as (h' & E & _).
  - constructor; [|constructor]. split; [by do 5 right; left|]. split; [apply sample_outside_ok|]. split.
    + intros t [= <-]. apply Nat.ltb_lt. by vm_compute.
    + exists sample_customer, 1023%nat. split; [done|]. vm_compute. reflexivity.
  - apply fresh_inv.
  - apply sample_detached.
  - exists h'. exact E.
Defined.

End Routes.
