(* ===== verification/Journey.v ===== *)
(** * A request from its arrival to its reply

    The composition of the components: the middleware of a reactor
    ([Server.api_middleware_wrapper]), the task it takes from the slab
    ([TaskPool]), the checks a worker makes ([Worker]), the handler of the route
    on that worker's database handles, HTTP client and files ([Handlers],
    [Routes]) and the reply of the reactor ([Server.process_completed_task]). *)

From S2P Require Import Prelude JsonUtil Dtoa JsonC Validation DbJson Sodium Jwt TaskPool ThreadState Config DbApi.
From S2P Require Import HttpClient Services Totp Schemas EvHttp Worker Server Handlers Routes.
Import Worker Validation Jwt ThreadState TaskPool DbJson DbApi HttpClient Services Totp Schemas Handlers.

Module Journey.

Section Journey.
Context `{J : JsonC, Tk : !JsonTokener J, Sd : Sodium, E : EvHttp, Drv : Odbc, L : TotpLibs}.
Context (cfg : Config.config) (secret : list char) (num_buf : list char) (mem : Z -> option (list char)).
(** [evhttp_send_error]: the page libevent makes *)
Context (evhttp_send_error : Z -> cstr -> Server.response).

Abbreviation task := (http_task request jobj middleware_ctx_t).
Abbreviation route := Routes.route.

(** ** The row of a route *)

(** The thread as a handler finds it: [l] is its thread-local state and [st] the
    status of the task. *)
Definition with_task (h : host) (st : Z) (l : tls) : host :=
  Host (db h) (net h) (files h) (drop_token h) [] st l.

(** The handler of a row as [worker_process_task] sees it: what it answers. *)
Definition on_thread (h : host) (rt : route) : handler_fn := fun l body st =>
  match Routes.handler rt body (with_task h st l) with
  | Some (_, h') => (status h', out h', loc h')
  | None => (st, [], l)
  end.

(** The [middleware_ctx_t] a task points to. *)
Definition row (h : host) (rt : route) : middleware_ctx_t :=
  Route (Routes.path rt) (Routes.validation_ctx rt) (Some (on_thread h rt))
    (Routes.allowed_method rt) (Routes.auth_mode rt) (Routes.is_fast rt).

(** ** The worker, with all its effects *)

(** The three checks before the handler; [true] when all pass. *)
Definition worker_checks (time : Z) (x : task) (r : request) (c : middleware_ctx_t) (tok_ok : bool)
    (l : tls) : option (task * tls * bool) :=
  let '(x, l, ok) := worker_process_jwt secret time x r (Some c) l in
  if ok : bool then
    let '(x, ok) := worker_process_payload x r tok_ok in
    if ok : bool then
      '(x, ok) ← worker_process_validation x (Some c);
      Some (x, l, ok)
    else Some (x, l, false)
  else Some (x, l, false).

(** The handler on the thread, and the content type it chose. *)
Definition call_handler (rt : route) (x : task) (h : host) : option (task * host) :=
  '(_, h) ← Routes.handler rt (parsed_body x) h;
  Some (update x (parsed_body x) (status h) (status_txt x) ((fun b => b ++ out h) <$> worker_buf x)
          (ThreadState.store 128 (context_get_content_type (ctx_of (loc h)))) (username x) (session_id x), h).

(** [worker_process_task] on the thread [h]. *)
Definition process_task (rt : route) (time : Z) (x : task) (r : request) (tok_ok : bool) (h : host)
    : option (task * host) :=
  '(x, l, ok) ← worker_checks time x r (row h rt) tok_ok
                  (Tls (ctx_of (loc h)) (err_of (loc h)) (request_id x));
  '(x, h) ← (if ok : bool then call_handler rt x (with_task h (status_code x) l)
             else Some (x, with_task h (status_code x) l));
  let txt := match status_txt x with
             | None => Some (get_http_status_text (status_code x))
             | t => t
             end in
  Some (update x (parsed_body x) (status_code x) txt (worker_buf x) (out_content_type x)
          (username x) (session_id x),
        Host (db h) (net h) (files h) (drop_token h) (out h) (status h)
          (Tls (context_clear (ctx_of (loc h))) clear_thread_error [])).

(** ** The whole way *)

(** What the outside decides about one request: the clock and the reactor, the
    buffers of the slab and of the parser, the room in the queue, and whether
    the client gives up before the worker or before the reply. *)
Record arrival := Arrival {
  a_outside : outside;
  a_route : route;
  a_request : request;
  a_start : Z * Z;
  a_time : Z;
  a_finish : Z * Z;
  a_reactor : nat;
  a_task : option nat;
  a_accepted : bool;
  a_parser : bool;
  a_gone_early : bool;
  a_gone_late : bool;
}.

Definition middleware (a : arrival) (h : host) : Server.outcome :=
  Server.api_middleware_wrapper cfg (a_request a) (Some (row h (a_route a))) (a_start a) (a_reactor a)
    ((fun t => (t, zero_task (Some []))) <$> a_task a) (a_accepted a).

(** What the client gets, if anything, and the worker's thread afterwards.  A
    task whose client is gone is not worked on, and not answered. *)
Definition journey (a : arrival) (h : host) : option (option Server.response * host) :=
  match middleware a h with
  | Server.Ignored => Some (None, h)
  | Server.ErrorPage code text => Some (Some (evhttp_send_error code text), h)
  | Server.Replied reply _ => Some (Some reply, h)
  | Server.Queued _ x hs =>
      '(x, h) ← (if a_gone_early a then Some (x, h)
                 else process_task (a_route a) (a_time a) x (a_request a) (a_parser a) h);
      Some (if a_gone_early a || a_gone_late a then None
            else Some (Server.process_completed_task x hs (a_finish a) [] (a_reactor a)).1, h)
  end.

Fixpoint journeys (l : list arrival) (h : host) : option (list (option Server.response) * host) :=
  match l with
  | [] => Some ([], h)
  | a :: l =>
      '(reply, h) ← journey a h;
      '(replies, h) ← journeys l h;
      Some (reply :: replies, h)
  end.

(** ** The checks of the worker *)

(** The document passes the schema of the row. *)
Definition passes (v : option ValidationContext) (b : option jobj) : Prop :=
  forall v' o, v = Some v' -> b = Some o -> validate_json (Some v') (Some o) (Some MAX_ERR_MSG_LEN) = Some Pass.

(** The schema can be checked on every document. *)
Definition checkable (v : option ValidationContext) : Prop :=
  forall v' o, v = Some v' -> exists w, validate_json (Some v') (Some o) (Some MAX_ERR_MSG_LEN) = Some w.

(** The status of a refusal. *)
Definition refusal (code : Z) : Prop := code ∈ [400; 401; 503]%Z.

(** What makes the worker call the handler: whose request it is, and its document. *)
Definition cleared (time : Z) (c : middleware_ctx_t) (r : request) (u t : option cstr) (b : option jobj) : Prop :=
  identity secret time c r u t /\ document r b /\ passes (validation_ctx c) b.

(** The thread-local state the handler finds: the identity of the token, if the
    route takes one, and the address and the URI of the task. *)
Definition seen (c : middleware_ctx_t) (x : task) (l : tls) (u t : option cstr) : tls :=
  set_ctx l (context_set (ctx_of l)
    (if decide (auth_mode c = AUTH_JWT) then Some (default (username x) u) else None)
    (if decide (auth_mode c = AUTH_JWT) then Some (default (session_id x) t) else None)
    (Some (client_ip x)) (Some (uri x))).

Lemma jwt_cases (time : Z) (x : task) (r : request) (c : middleware_ctx_t) (l : tls) :
  (exists u t, identity secret time c r u t)
  \/ exists y, worker_process_jwt secret time x r (Some c) l = (y, l, false) /\ refusal (status_code y).
Proof.
  destruct (decide (auth_mode c = AUTH_JWT)) as [Hm|Hm]; [|left; exists None, None; by left].
  unfold worker_process_jwt. rewrite decide_True by done.
  assert (refusal 401) as H4 by (by right; left).
  destruct (evhttp_find_header r (lit "Authorization")) as [hdr|] eqn:Hh; [|right; by eexists].
  destruct (strncaseeq hdr (lit "Bearer ") 7) eqn:Hb; [|right; by eexists].
  destruct (jwt_verify secret _ _ _ time) as [[] uo so] eqn:Hv; [|right; by eexists..].
  destruct (jwt_verify_claims secret _ _ _ _ _ _ Hv) as (u & t & -> & ->). left. exists (Some u), (Some t).
  right. split; [done|]. exists u, t. split; [|done]. by exists hdr.
Qed.

Lemma payload_cases {TL : JsonTokenerLaws J Tk} (x : task) (r : request) (tok_ok : bool) :
  parsed_body x = None ->
  (exists b, document r b /\ worker_process_payload x r tok_ok = (set_body x b, true))
  \/ exists y, worker_process_payload x r tok_ok = (y, false) /\ refusal (status_code y).
Proof.
  intros Hx. assert (refusal 400) as H4 by left. assert (refusal 503) as H5 by (by right; right; left).
  unfold worker_process_payload. case_decide as Hc.
  { left. exists None. split; [by left|]. destruct x; simpl in *; by subst. }
  destruct (evhttp_find_header r (lit "Content-Type")) as [ct|] eqn:Hct; [|right; by eexists].
  destruct (is_json_type ct) eqn:Hj; cbn [negb]; [|right; by eexists].
  destruct (Nat.eqb_spec (length (concat (input_extents r))) 0) as [|Hl]; [right; by eexists|].
  destruct tok_ok; cbn [negb]; [|right; by eexists].
  destruct (parse_body_concat (input_extents r)) as (t' & Hp' & He').
  destruct (parse_body (input_extents r)) as [t1 o1]. cbn [fst snd] in *.
  match goal with |- context [if ?b then _ else _] => destruct b eqn:B end; [right; by eexists|].
  rewrite !orb_false_iff, !negb_false_iff in B. destruct B as [[B1 B2] B3].
  apply bool_decide_eq_false in B1. apply bool_decide_eq_true in B2, B3.
  destruct o1 as [o|]; [|by rewrite Hx in B1]. cbn [parsed_body set_body update] in B3.
  left. exists (Some o). split; [|done]. right. exists o. split; [|done]. split_and!; try done.
  - eauto.
  - intros E0. by rewrite E0 in Hl.
  - exists t'. split; [done|]. congruence.
Qed.

(** The three checks always end, and let through what is cleared. *)
Lemma checks_decide {TL : JsonTokenerLaws J Tk} (time : Z) (x : task) (r : request) (c : middleware_ctx_t)
    (tok_ok : bool) (l : tls) :
  parsed_body x = None -> checkable (validation_ctx c) ->
  exists y l' ok, worker_checks time x r c tok_ok l = Some (y, l', ok)
    /\ if ok : bool
       then exists u t b, cleared time c r u t b /\ y = set_body (set_names x u t) b
            /\ l' = seen c x l u t
       else refusal (status_code y).
Proof.
  intros Hx Hk. unfold worker_checks.
  destruct (jwt_cases time x r c l) as [(u & t & Hi)|(y & -> & Hy)]; [|by eexists _, _, false].
  rewrite (jwt_accepts _ _ _ _ _ _ _ _ Hi).
  destruct (payload_cases (set_names x u t) r tok_ok Hx) as [(b & Hb & ->)|(y & -> & Hy)];
    [|by eexists _, _, false].
  unfold worker_process_validation. cbn [parsed_body set_body update].
  destruct (validation_ctx c) as [v|] eqn:Hv.
  2:{ eexists _, _, true. split; [done|]. exists u, t, b. split; [|done]. split_and!; try done.
      intros ? ? ?. congruence. }
  destruct b as [o|].
  2:{ eexists _, _, true. split; [done|]. exists u, t, None. split; [|done]. split_and!; try done. }
  destruct (Hk v o eq_refl) as ([|m] & Ew); rewrite Ew; cbn [mbind option_bind].
  - eexists _, _, true. split; [done|]. exists u, t, (Some o). split; [|done]. split_and!; try done.
    rewrite Hv. intros ? ? [= <-] [= <-]. done.
  - eexists _, _, false. split; [done|]. left.
Qed.

Lemma checks_accept {TL : JsonTokenerLaws J Tk} (time : Z) (x : task) (r : request) (c : middleware_ctx_t)
    (l : tls) (u t : option cstr) (b : option jobj) :
  parsed_body x = None -> cleared time c r u t b ->
  worker_checks time x r c true l = Some (set_body (set_names x u t) b, seen c x l u t, true).
Proof.
  intros Hx (Hi & Hd & Hp). unfold worker_checks. rewrite (jwt_accepts _ _ _ _ _ _ _ _ Hi).
  rewrite (payload_accepts _ _ b Hd) by done. unfold worker_process_validation.
  cbn [parsed_body set_body update]. destruct (validation_ctx c) as [v|] eqn:Hv; [|done].
  destruct b as [o|]; [|done]. by rewrite (Hp v o).
Qed.

(** The worker with its effects answers what [Worker.worker_process_task] answers
    for the row of the route. *)
Lemma process_task_answers (rt : route) (time : Z) (x y : task) (r : request) (tok_ok : bool) (h h' : host) :
  middleware_ctx x = Some (row h rt) -> process_task rt time x r tok_ok h = Some (y, h') ->
  worker_process_task secret time x r tok_ok (loc h) = Some (y, loc h').
Proof.
  intros Hc. unfold process_task, worker_process_task, worker_checks. rewrite Hc.
  destruct (worker_process_jwt _ _ _ _ _ _) as [[x1 l1] []]; [|by intros [= <- <-]].
  destruct (worker_process_payload x1 r tok_ok) as [x2 []]; [|by intros [= <- <-]].
  destruct (worker_process_validation x2 (Some (row h rt))) as [[x3 []]|]; cbn [mbind option_bind];
    [|by intros [= <- <-]|done].
  unfold call_handler, run_handler. cbn [row handler]. unfold on_thread.
  destruct (Routes.handler rt (parsed_body x3) _) as [[[] hl]|]; cbn [mbind option_bind]; [|done].
  by intros [= <- <-].
Qed.

(** ** What the table guarantees *)

Section Guarantees.
Context {TL : JsonTokenerLaws J Tk} {JL : JsonCLaws J} {Laws : OdbcLaws Drv}.
Hypothesis Hnum : length num_buf = 64%nat.
Hypothesis Hmem : arenas mem.
Hypothesis Hmax : (0 <= Config.max_payload_size cfg < SIZE_MAX)%Z.

Abbreviation the_routes := (Routes.g_routes cfg secret num_buf mem).
Abbreviation stays := Routes.stays.
Abbreviation ready := Routes.ready.

(** A schema whose fields have bounds and whose checks are defined can be checked. *)
Lemma schema_checkable (v : ValidationContext) :
  Forall (fun f => 0 <= max_bits f)%Z (schema v) ->
  (forall o D, customs_defined v (Some o) D) -> checkable (Some v).
Proof.
  intros Hm Hc v' o [= <-]. destruct (validate_json_ok v o 1023 Hm (Hc o _)) as (w & E' & _).
  exists w. exact E'.
Qed.

Lemma routes_checkable (O : outside) (rt : route) : rt ∈ the_routes O -> checkable (Routes.validation_ctx rt).
Proof.
  intros Hin.
  repeat (apply elem_of_cons in Hin as [->|Hin]; [cbn [Routes.validation_ctx]|]); [..|by apply elem_of_nil in Hin].
  all: try done.
  all: apply schema_checkable; [repeat constructor; cbn; lia|intros o D].
  all: try apply sales_defined.
  all: apply customs_always; repeat constructor; intros x;
    first [done|apply customer_id_defined|apply totp_defined].
Qed.

Lemma routes_post (O : outside) (rt : route) (v : ValidationContext) :
  rt ∈ the_routes O -> Routes.validation_ctx rt = Some v -> Routes.allowed_method rt = EVHTTP_REQ_POST.
Proof.
  intros Hin.
  repeat (apply elem_of_cons in Hin as [->|Hin]; [done|]). by apply elem_of_nil in Hin.
Qed.

(** A cleared document is a validated one. *)
Lemma cleared_validated (O : outside) (time : Z) (h : host) (rt : route) (r : request) (u t : option cstr)
    (b : option jobj) :
  rt ∈ the_routes O -> evhttp_request_get_command r = Routes.allowed_method rt ->
  cleared time (row h rt) r u t b -> Routes.validated rt b.
Proof.
  intros Hin Hc (_ & Hd & Hp). unfold Routes.validated. destruct (Routes.validation_ctx rt) as [v|] eqn:Hv; [|done].
  rewrite (routes_post O rt v Hin Hv) in Hc. destruct Hd as [[? _]|(o & _ & ->)]; [congruence|].
  exists o, 1023%nat. split; [done|]. by apply Hp.
Qed.

(** The database, the network and the files are as they were. *)
Definition untouched (h h' : host) : Prop := db h' = db h /\ net h' = net h /\ files h' = files h.

(** The handler was called on the document [b] as user [u] in session [t], and
    the task [y] and the thread [h'] have what it left. *)
Definition handled (rt : route) (x y : task) (u t : option cstr) (b : option jobj) (h h' : host) : Prop :=
  let l := seen (row h rt) x (Tls (ctx_of (loc h)) (err_of (loc h)) (request_id x)) u t in
  exists hl, Routes.handler rt b (with_task h (status_code x) l) = Some (tt, hl)
    /\ status_code y = status hl /\ worker_buf y = (fun buf => buf ++ out hl) <$> worker_buf x
    /\ out_content_type y = ThreadState.store 128 (context_get_content_type (ctx_of (loc hl)))
    /\ status_txt y = Some (default (get_http_status_text (status hl)) (status_txt x))
    /\ untouched hl h'.

Lemma untouched_ready (h h' : host) : untouched h h' -> ready h -> ready h'.
Proof. unfold Routes.ready. by intros (-> & -> & _). Qed.

Lemma process_spec (O : outside) (rt : route) (time : Z) (x : task) (r : request) (tok_ok : bool) (h : host) :
  rt ∈ the_routes O -> outside_ok O ->
  (forall t, api_token O = Some t -> (length t < TOKEN_SIZE)%nat) ->
  evhttp_request_get_command r = Routes.allowed_method rt -> parsed_body x = None -> ready h ->
  exists y h', process_task rt time x r tok_ok h = Some (y, h')
    /\ stays (Routes.uses_data rt) (Routes.uses_remote rt) h (Some (tt, h'))
    /\ ((untouched h h' /\ refusal (status_code y)
         /\ (tok_ok = true -> forall u t b, ~ cleared time (row h rt) r u t b))
        \/ exists u t b, cleared time (row h rt) r u t b /\ handled rt x y u t b h h').
Proof.
  intros Hin HO Ht Hc Hx Hr. unfold process_task.
  pose (lx := Tls (ctx_of (loc h)) (err_of (loc h)) (request_id x)). fold lx.
  destruct (checks_decide time x r (row h rt) tok_ok lx Hx (routes_checkable O rt Hin)) as (y & l' & ok & Ey & Hok). rewrite Ey. cbn [mbind option_bind]. destruct ok.
  - destruct Hok as (u & t & b & Hcl & -> & ->).
    assert (Routes.acceptable cfg secret num_buf mem (Routes.Job O rt b 0 (loc h))) as Hacc.
    { split; [done|]. split; [done|]. split; [done|]. exact (cleared_validated O time h rt r u t b Hin Hc Hcl). }
    destruct (Routes.guarded_route cfg secret num_buf mem Hnum Hmem Hmax _ Hacc (with_task h (status_code x) (seen (row h rt) x lx u t)) Hr)
      as (hl & El & R & X & D & N).
    unfold call_handler. cbn [parsed_body set_body update status_code set_names Routes.j_route Routes.j_body] in *.
    rewrite El. cbn [mbind option_bind]. eexists _, _. split; [reflexivity|]. split.
    + eexists. split; [reflexivity|]. done.
    + right. exists u, t, b. split; [done|]. exists hl. split; [exact El|]. split_and!; try done. by destruct x as [? ? ? ? []].
  - cbn [mbind option_bind]. eexists _, _. split; [reflexivity|]. split.
    + apply (Routes.stays_same cfg Hmax); [done|]. eexists. split; [reflexivity|]. done.
    + left. split; [done|]. split; [done|]. intros -> u t b Hcl.
      pose proof (checks_accept time x r (row h rt) lx u t b Hx Hcl). congruence.
Qed.

(** ** One request *)

(** The request is to a route of the table, the outside is as [outside_ok] says,
    and the token for the API fits its buffer, as every token of the cache does. *)
Definition arrival_ok (a : arrival) : Prop :=
  a_route a ∈ the_routes (a_outside a) /\ outside_ok (a_outside a)
  /\ (forall t, api_token (a_outside a) = Some t -> (length t < TOKEN_SIZE)%nat).

(** The middleware lets the request through as task [x], with the reply headers [hs]. *)
Definition queued (a : arrival) (h : host) (x : task) (hs : list Server.header) : Prop :=
  exists t, middleware a h = Server.Queued t x hs.

Lemma queued_spec (a : arrival) (h : host) (x : task) (hs : list Server.header) :
  queued a h x hs ->
  Server.admissible cfg (a_request a) (row h (a_route a))
  /\ exists id, x = Server.fill_task (zero_task (Some [])) (a_request a) (row h (a_route a)) (a_start a)
       (a_reactor a) (Server.server_extract_client_ip cfg (a_request a)) id (evhttp_request_get_uri (a_request a)).
Proof.
  intros [t Q]. revert Q. unfold middleware, Server.api_middleware_wrapper. destruct (bool_decide _); [done|].
  cbn [row handler]. unfold Server.server_validate_method_and_auth.
  destruct (Server.server_validate_cors _ _ _) as [hs'|] eqn:C; [|done].
  case_decide as Ho; [done|]. case_decide as Hm; [done|].
  destruct (bool_decide _ && _) eqn:A; [done|]. unfold Server.server_enqueue_task.
  destruct (a_task a) as [t0|]; [|done]. cbn [fmap option_fmap option_map].
  destruct (_ || _ || _) eqn:Hl; [done|]. destruct (a_accepted a); [|done]. intros [= _ <- <-]. split; [|by eexists].
  split; [exact Hm|]. split; [done|]. split; [by apply (Server.cors_passes _ _ _ _ C)|].
  intros HA. rewrite bool_decide_true in A by done. by apply negb_false_iff in A.
Qed.

Lemma reply_headers (x : task) (text : list char) (hs : list Server.header) :
  take 4 hs = Server.security_headers -> take 4 (Server.r_headers (Server.send_http_reply x text hs)) = Server.security_headers.
Proof.
  intros Hs. assert (forall more, take 4 (hs ++ more) = Server.security_headers) as H4.
  { intros more. rewrite take_app_le; [done|]. apply (f_equal length) in Hs. rewrite length_take in Hs.
    change (length Server.security_headers) with 4%nat in Hs. lia. }
  unfold Server.send_http_reply. repeat case_match; cbn [Server.r_headers]; (done || apply H4).
Qed.

(** What the client may see and what may have changed after one arrival. *)
Definition served (a : arrival) (h : host) (reply : option Server.response) (h' : host) : Prop :=
  stays (Routes.uses_data (a_route a)) (Routes.uses_remote (a_route a)) h (Some (tt, h'))
  /\ (forall rsp, reply = Some rsp -> take 4 (Server.r_headers rsp) = Server.security_headers)
  /\ (reply = None -> evhttp_request_get_connection (a_request a) = None \/ a_gone_early a = true \/ a_gone_late a = true)
  /\ (untouched h h'
      \/ Server.admissible cfg (a_request a) (row h (a_route a))
         /\ exists u t b, cleared (a_time a) (row h (a_route a)) (a_request a) u t b).

Lemma untouched_stays (data remote : bool) (h h' : host) :
  ready h -> untouched h h' -> stays data remote h (Some (tt, h')).
Proof. intros Hr (Ed & En & Ef). apply (Routes.stays_same cfg Hmax); [done|]. by exists h'. Qed.

Lemma journey_served (a : arrival) (h : host) :
  arrival_ok a -> ready h -> exists reply h', journey a h = Some (reply, h') /\ served a h reply h'.
Proof.
  intros (Hin & HO & Ht) Hr. unfold journey, served.
  assert (untouched h h) as Hu by done.
  pose proof (untouched_stays (Routes.uses_data (a_route a)) (Routes.uses_remote (a_route a)) h h Hr Hu) as Hs.
  assert (forall hs, Server.outcome_headers (middleware a h) = Some hs -> take 4 hs = Server.security_headers) as Hh.
  { intros hs Hh. by apply (Server.middleware_headers cfg _ _ _ _ _ _ _ Hh). }
  destruct (middleware a h) as [|code text|rsp freed|t x hs] eqn:M.
  - eexists _, _. split; [reflexivity|]. split_and!; try done; [|by left]. intros _. left.
    revert M. unfold middleware, Server.api_middleware_wrapper. case_bool_decide; [done|]. cbn [row handler].
    unfold Server.server_validate_method_and_auth, Server.server_enqueue_task. by repeat case_match.
  - exfalso. revert M. unfold middleware, Server.api_middleware_wrapper. case_bool_decide; [done|]. cbn [row handler].
    unfold Server.server_validate_method_and_auth, Server.server_enqueue_task. by repeat case_match.
  - eexists _, _. split; [reflexivity|]. split_and!; try done; [|by left]. intros ? [= <-]. by apply Hh.
  - destruct (queued_spec a h x hs) as (Had & id & ->); [by exists t|].
    destruct (a_gone_early a) eqn:Hg; cbn [mbind option_bind orb].
    { eexists _, _. split; [reflexivity|]. split_and!; try done; [|by left]. right. by left. }
    destruct (process_spec (a_outside a) (a_route a) (a_time a) (Server.fill_task (zero_task (Some [])) (a_request a)
      (row h (a_route a)) (a_start a) (a_reactor a) (Server.server_extract_client_ip cfg (a_request a)) id
      (evhttp_request_get_uri (a_request a))) (a_request a) (a_parser a) h Hin HO Ht (proj1 Had) eq_refl Hr)
      as (y & h' & -> & Hst & Hcase). cbn [mbind option_bind].
    eexists _, _. split; [reflexivity|]. split; [done|]. split; [|split].
    + intros rsp. destruct (a_gone_late a); [done|]. intros [= <-]. apply reply_headers. by apply Hh.
    + destruct (a_gone_late a); [by right; right|done].
    + destruct Hcase as [[? _]|(u & tk & b & Hcl & _)]; [by left|]. right. split; [done|]. by exists u, tk, b.
Qed.

Lemma journeys_served (l : list arrival) (h : host) :
  Forall arrival_ok l -> ready h ->
  exists replies h', journeys l h = Some (replies, h') /\ length replies = length l /\ ready h'
    /\ (exists X, executed (db h') = executed (db h) ++ X
         /\ Forall (fun x => x.1 ∈ STATEMENTS /\ length x.2 = placeholders x.1) X)
    /\ Forall (fun reply => forall rsp, reply = Some rsp ->
         take 4 (Server.r_headers rsp) = Server.security_headers) replies
    /\ (Forall (fun a => forall u t, ~ authenticated secret (a_time a) (a_request a) u t) l ->
        executed (db h') = executed (db h) /\ files h' = files h).
Proof.
  revert h. induction l as [|a l IH]; intros h Hl Hr; cbn [journeys].
  { exists [], h. split_and!; try done. exists []. by rewrite app_nil_r. }
  apply Forall_cons_iff in Hl as [Ha Hl].
  destruct (journey_served a h Ha Hr) as (reply & h1 & -> & (h1' & [= <-] & R1 & (X & EX & HX) & D1 & _) & Hs & _ & Hc).
  cbn [mbind option_bind].
  destruct (IH h1 Hl R1) as (replies & h' & -> & Hlen & R' & (Y & EY & HY) & Hss & D'). cbn [mbind option_bind].
  eexists _, _. split; [reflexivity|]. split; [by cbn [length]; rewrite Hlen|]. split; [done|]. split; [|split].
  - exists (X ++ Y). split; [by rewrite EY, EX, (assoc_L (++))|by apply Forall_app].
  - by constructor.
  - intros [Hna Hnl]%Forall_cons_iff. destruct (D' Hnl) as [-> ->].
    destruct Hc as [(Ed & _ & Ef)|(_ & u & t & b & Hi & _)]; [by rewrite Ed|].
    destruct Hi as [[Hm _]|(_ & u' & t' & Hau & _)]; [|by apply Hna in Hau].
    apply D1. by apply bool_decide_eq_false.
Qed.

(** C1: no request moves data without a valid token. For any sequence of requests to
    routes of the table, whatever their headers, bodies and methods, whatever the
    clients do, whatever the driver of the database answers to each call, whatever
    the network and the disk answer, with a token for the API that fits its buffer,
    and for result sets with column names of at most 127 bytes, escaped keys of at
    most 255 and cells of their types ([Handlers.outside_ok], a condition on the
    queries of the deployment: a longer name is read out of bounds), a worker gets
    through all of them (no buffer is overrun, no freed handle is used and no
    missing field of a document) with its handles in order, only statements of the
    source are run, with all their parameters, and every reply starts with the four
    security headers. If none of the requests has a bearer token that verifies when
    it is looked at, no statement is run and no file is written. What a driver that
    refused to reset a statement writes through its old bindings is not modelled. *)
Theorem requests_guarded (l : list arrival) (h : host) :
  Forall arrival_ok l -> ready h ->
  exists replies h', journeys l h = Some (replies, h') /\ length replies = length l /\ ready h'
    /\ (exists X, executed (db h') = executed (db h) ++ X
         /\ Forall (fun x => x.1 ∈ STATEMENTS /\ length x.2 = placeholders x.1) X)
    /\ Forall (fun reply => forall rsp, reply = Some rsp ->
         take 4 (Server.r_headers rsp) = Server.security_headers) replies
    /\ (Forall (fun a => forall u t, ~ authenticated secret (a_time a) (a_request a) u t) l ->
        executed (db h') = executed (db h) /\ files h' = files h).
Proof. apply journeys_served. Qed.

(** C2: a queued request is answered by its handler or refused, never both. When the
    middleware has queued a request, memory for the parser is found and the client
    stays, there is a reply. If the request is cleared (its token verifies on a
    route that takes one, its body is absent on a request other than a POST, and
    otherwise a JSON object that the schema accepts), the handler of the route was
    called, once, on that document, in a context with the user and the session of
    the token and the address and URI of the request; the status is its status, the
    body what it wrote if it wrote anything, and the thread as it left it. If the
    request is not cleared, the reply is a 400, 401 or 503 and nothing at all was
    changed. The result sets are as [Handlers.outside_ok] says. *)
Theorem queued_request_decided (a : arrival) (h : host) (x : task) (hs : list Server.header) :
  arrival_ok a -> ready h -> queued a h x hs ->
  a_parser a = true -> a_gone_early a = false -> a_gone_late a = false ->
  let c := row h (a_route a) in
  exists reply h', journey a h = Some (Some reply, h')
    /\ ((exists u t b hl, cleared (a_time a) c (a_request a) u t b
          /\ Routes.handler (a_route a) b
               (with_task h 0 (seen c x (Tls (ctx_of (loc h)) (err_of (loc h)) (request_id x)) u t)) = Some (tt, hl)
          /\ Server.r_code reply = status hl
          /\ (out hl <> [] -> Server.r_body reply = out hl)
          /\ untouched hl h')
        \/ ((forall u t b, ~ cleared (a_time a) c (a_request a) u t b)
            /\ refusal (Server.r_code reply) /\ untouched h h')).
Proof.
  intros (Hin & HO & Ht) Hr Hq Hp Hg1 Hg2 c. destruct (queued_spec a h x hs Hq) as (Had & id & Ex).
  assert (parsed_body x = None /\ status_code x = 0%Z /\ worker_buf x = Some []) as (Hb & Hst & Hwb) by (by rewrite Ex).
  destruct (process_spec (a_outside a) (a_route a) (a_time a) x (a_request a) (a_parser a) h Hin HO Ht (proj1 Had) Hb Hr)
    as (y & h' & Ey & _ & Hcase).
  assert (forall text, Server.r_code (Server.send_http_reply y text hs) = status_code y) as Hcode.
  { intros text. unfold Server.send_http_reply. cbv zeta.
    destruct (negb _); [done|]. destruct (400 <=? status_code y)%Z; [|done]. case_decide as H5; [done|].
    by rewrite H5. }
  destruct Hq as [t0 M]. unfold journey. rewrite M, Hg1, Hg2, Ey. cbn [mbind option_bind orb].
  eexists _, _. split; [reflexivity|]. unfold Server.process_completed_task. cbn [fst]. rewrite Hcode.
  destruct Hcase as [(Hu & Hs & Hn)|(u & t & b & Hcl & hl & El & Es & Ew & _ & _ & Hu)].
  - right. split; [|done]. intros u t b. by apply Hn.
  - left. exists u, t, b, hl. rewrite Hst in El. split_and!; try done. intros Hne. rewrite Ew, Hwb.
    cbn [fmap option_fmap option_map default app]. unfold Server.send_http_reply.
    by rewrite bool_decide_eq_false_2.
Qed.

End Guarantees.

End Journey.

(** ** A concrete request *)

Import Model SodiumModel HttpModel.

Definition sample_request : http_request := {|
  command := EVHTTP_REQ_POST;
  headers := [(lit "authorization", lit "Bearer " ++ Worker.Example.token);
              (lit "Content-Type", lit "application/json")];
  target := lit "/customer"; extents := [lit "{`id`:"; lit "`ALFKI`}"];
  connection := Some (Some (lit "10.0.0.1")) |}.

(** [POST /customer] with the token of [Worker.Example]. *)
Definition sample_arrival : option (arrival (E := model_evhttp) (J := model_json_c)) :=
  (fun rt => Arrival (E := model_evhttp) sample_outside rt sample_request (1, 0)%Z 1000 (2, 0)%Z 0 (Some 7)
     true true false false) <$> Routes.sample_routes !! 5.

Abbreviation sample_journey := (journey (J := model_json_c) (Tk := model_tokener) (Sd := model_sodium)
  (E := model_evhttp) sample_config []
  (fun code text => Server.Response code (Some text) [] [])).
Abbreviation sample_middleware a := (middleware (J := model_json_c)
  (E := model_evhttp) sample_config a sample_host).

(** The row of the customers answers, on the sample database. *)
Example sample_reply :
  (a ← sample_arrival; '(reply, h) ← sample_journey a sample_host; rsp ← reply;
   Some (Server.r_code rsp, Server.r_body rsp, length (executed (db h)))) = Some (200%Z, lit "{}", 1%nat).
Proof. vm_compute. reflexivity. Qed.

Lemma sample_arrival_ok :
  exists a, sample_arrival = Some a /\ a_parser a = true /\ a_gone_early a = false /\ a_gone_late a = false
    /\ match sample_middleware a with Server.Queued _ _ _ => true | _ => false end = true
    /\ arrival_ok (Sd := model_sodium) (Drv := sample_driver 99) (L := sample_libs) sample_config []
         (replicate 64 NUL) zeroed a.
Proof.
  eexists. split; [reflexivity|]. do 3 (split; [reflexivity|]). split; [by vm_compute|].
  split; [cbn [a_route a_outside]; by do 5 right; left|]. split; [apply sample_outside_ok|].
  intros t [= <-]. apply Nat.ltb_lt. by vm_compute.
Qed.

Lemma sample_ready : Routes.ready sample_host.
Proof. split; [apply fresh_inv|apply sample_detached]. Qed.

Lemma requests_guarded_witness :
  exists a replies h', sample_arrival = Some a
    /\ journeys (J := model_json_c) (Tk := model_tokener) (Sd := model_sodium) (E := model_evhttp) sample_config []
         (fun code text => Server.Response code (Some text) [] []) [a; a] sample_host = Some (replies, h')
    /\ length replies = 2%nat.
Proof.
  destruct sample_arrival_ok as (a & Ea & _ & _ & _ & _ & Ha). exists a.
  destruct (requests_guarded (J := model_json_c) (Tk := model_tokener) (Sd := model_sodium) (E := model_evhttp)
    (TL := model_tokener_laws) (JL := model_json_c_laws) (Laws := sample_driver_laws 99) (L := sample_libs)
    sample_config [] (replicate 64 NUL) zeroed (fun code text => Server.Response code (Some text) [] [])
    eq_refl zeroed_arenas ltac:(done) [a; a] sample_host) as (replies & h' & E' & Hl & _).
  - by constructor; [|constructor; [|constructor]].
  - apply sample_ready.
  - exists replies, h'. by split.
Defined.

Lemma queued_request_decided_witness :
  exists a reply h', sample_arrival = Some a /\ sample_journey a sample_host = Some (Some reply, h').
Proof.
  destruct sample_arrival_ok as (a & Ea & Hp & G1 & G2 & B & Ha). exists a.
  destruct (sample_middleware a) as [| | |t x hs] eqn:Q; [discriminate B..|].
  destruct (queued_request_decided (J := model_json_c) (Tk := model_tokener) (Sd := model_sodium) (E := model_evhttp)
    (TL := model_tokener_laws) (JL := model_json_c_laws) (Laws := sample_driver_laws 99) (L := sample_libs)
    sample_config [] (replicate 64 NUL) zeroed (fun code text => Server.Response code (Some text) [] [])
    eq_refl zeroed_arenas ltac:(done) a sample_host x hs Ha sample_ready ltac:(by exists t) Hp G1 G2)
    as (reply & h' & E' & _).
  exists reply, h'. by split.
Defined.

End Journey.
