(* ===== verification/Reactor.v ===== *)
(** * lib/server.c: the event loops of the reactors and the way of a task

    A reactor takes a task from the slab for a request, the workers run it, and
    [reactor_eventfd_cb] of the same reactor answers it or, when the client is
    gone, releases it.  The queues between them are the lists that [TaskQueue]
    proves them to be.  A callback of libevent, the work on one task and a hand-over
    under a lock are one step, and [reactor_eventfd_cb] is one step for the tasks it takes
    and one for each of them; the steps of all threads interleave freely. *)

From S2P Require Import Prelude JsonUtil Dtoa JsonC Validation Sodium Jwt TaskPool ThreadState Config EvHttp Worker Server.
Import Worker Validation ThreadState TaskPool Server.

Module Reactor.

Section Reactor.
Context `{J : JsonC, Tk : !JsonTokener J, So : Sodium, E : EvHttp}.
Context (cfg : Config.config) (secret : list char).

Abbreviation task := (http_task request jobj middleware_ctx_t).
Abbreviation outcome := TaskPool.outcome.

(** ** The state of the server *)

(** The slab and the caches of the reactors; the tasks in the queues of the pools,
    in the hands of the workers and in the completion queues; the tasks that a running
    callback has taken from its queue and not yet handled; the counters.
    [arrived], [sent] and [freed] are the requests that came, that were answered
    and that were released unanswered; [parsed] and [put] the documents made and
    released. *)
Record server := ServerState {
  sys : @system request jobj middleware_ctx_t;
  waiting : list nat;
  running : list nat;
  completed : list (list nat);
  taken : list (list nat);
  g_reactor_stats : list reactor_stats;
  arrived : list request;
  sent : list (request * response);
  freed : list request;
  parsed : list jobj;
  put : list jobj;
}.

Definition slab (s : server) : list task := g_task_slab (shared (sys s)).

Definition with_sys (s : server) (y : system) : server :=
  ServerState y (waiting s) (running s) (completed s) (taken s) (g_reactor_stats s) (arrived s) (sent s) (freed s)
    (parsed s) (put s).

(** ** The callbacks *)

(** [atomic_store(&task->cancelled, true)] *)
Definition set_cancelled (x : task) : task := {|
  start_time := start_time x; req := req x; parsed_body := parsed_body x;
  middleware_ctx := middleware_ctx x; status_txt := status_txt x; worker_buf := worker_buf x;
  next := next x; reactor_id := reactor_id x; status_code := status_code x;
  cancelled := true; out_content_type := out_content_type x; username := username x;
  session_id := session_id x; client_ip := client_ip x; request_id := request_id x; uri := uri x |}.

(** [request_on_complete_cb]: the client of task [t] is gone. *)
Definition request_on_complete_cb (s : server) (t : nat) : server :=
  with_sys s (System
    match slab s !! t with
    | Some x => set_task (shared (sys s)) t (set_cancelled x)
    | None => shared (sys s)
    end (caches (sys s)) (leased (sys s))).

(** [task_pool_free] on the thread of reactor [i]. *)
Definition free_on (i t : nat) (y : system) : outcome (@system request jobj middleware_ctx_t) :=
  match caches y !! i with
  | Some cache =>
      match task_pool_free (shared y) cache t with
      | Done (p, cache) => Done (System p (<[i := cache]> (caches y)) (remove_one t (leased y)))
      | Abort => Abort
      end
  | None => Abort
  end.

(** The headers [api_middleware_wrapper] has put on a request that it lets through. *)
Definition output_headers (r : request) : list header :=
  match server_validate_cors cfg r (inject_security_headers []) with
  | inl hs => hs
  | inr _ => inject_security_headers []
  end.

(** [cleanup_cancelled_task] *)
Definition cleanup_cancelled_task (i t : nat) (x : task) (s : server) : outcome server :=
  match free_on i t (sys s) with
  | Done y => Done (ServerState y (waiting s) (running s) (completed s) (taken s) (g_reactor_stats s) (arrived s) (sent s)
                      (freed s ++ option_list (req x)) (parsed s) (put s ++ option_list (parsed_body x)))
  | Abort => Abort
  end.

(** [process_completed_task] with its [json_object_put] and [task_pool_free];
    [finish] is the clock.  A null request is undefined behaviour. *)
Definition answer_task (i t : nat) (x : task) (finish : Z * Z) (s : server) : outcome server :=
  match req x with
  | None => Abort
  | Some r =>
      let '(reply, g) := process_completed_task x (output_headers r) finish (g_reactor_stats s) i in
      match free_on i t (sys s) with
      | Done y => Done (ServerState y (waiting s) (running s) (completed s) (taken s) g (arrived s) (sent s ++ [(r, reply)])
                          (freed s) (parsed s) (put s ++ option_list (parsed_body x)))
      | Abort => Abort
      end
  end.

(** The critical section of [reactor_eventfd_cb]. *)
Definition take_completed (i : nat) (s : server) : option server :=
  ts ← completed s !! i;
  Some (ServerState (sys s) (waiting s) (running s) (<[i := []]> (completed s)) (<[i := ts]> (taken s))
          (g_reactor_stats s) (arrived s) (sent s) (freed s) (parsed s) (put s)).

(** [curr = curr->next] *)
Definition pop_taken (i : nat) (ts : list nat) (s : server) : server :=
  ServerState (sys s) (waiting s) (running s) (completed s) (<[i := ts]> (taken s)) (g_reactor_stats s)
    (arrived s) (sent s) (freed s) (parsed s) (put s).

(** One round of the loop of [reactor_eventfd_cb]. *)
Definition answer_next (i : nat) (finish : nat -> Z * Z) (s : server) : outcome server :=
  match taken s !! i with
  | Some (t :: ts) =>
      match slab s !! t with
      | None => Abort
      | Some x =>
          if cancelled x then cleanup_cancelled_task i t x (pop_taken i ts s)
          else answer_task i t x (finish t) (pop_taken i ts s)
      end
  | _ => Abort
  end.

(** The loop, once per task that was taken. *)
Fixpoint answer_all (i : nat) (finish : nat -> Z * Z) (ts : list nat) (s : server) : outcome server :=
  match ts with
  | [] => Done s
  | _ :: ts => match answer_next i finish s with Done s => answer_all i finish ts s | Abort => Abort end
  end.

(** [reactor_eventfd_cb], when no other thread comes between *)
Definition reactor_eventfd_cb (i : nat) (finish : nat -> Z * Z) (s : server) : outcome server :=
  match take_completed i s with
  | None => Abort
  | Some s => answer_all i finish (default [] (taken s !! i)) s
  end.

(** ** The system *)

Inductive server_step : server -> server -> Prop :=
  | step_queue i cache new_ok p cache' t r ctx start x0 x hs s :
      caches (sys s) !! i = Some cache ->
      task_pool_alloc (shared (sys s)) cache new_ok = Done (p, cache', Some t) ->
      g_task_slab p !! t = Some x0 ->
      api_middleware_wrapper cfg r ctx start i (Some (t, x0)) true = Queued t x hs ->
      server_step s (ServerState
        (System (set_task p t x) (<[i := cache']> (caches (sys s))) (t :: leased (sys s)))
        (waiting s ++ [t]) (running s) (completed s) (taken s) (g_reactor_stats s) (arrived s ++ [r]) (sent s) (freed s)
        (parsed s) (put s))
  | step_refuse i cache new_ok p cache' t r ctx start accepted x0 y reply s sys' :
      caches (sys s) !! i = Some cache ->
      task_pool_alloc (shared (sys s)) cache new_ok = Done (p, cache', Some t) ->
      g_task_slab p !! t = Some x0 ->
      api_middleware_wrapper cfg r ctx start i (Some (t, x0)) accepted = Replied reply (Some t) ->
      free_on i t (System (set_task p t y) (<[i := cache']> (caches (sys s))) (t :: leased (sys s))) = Done sys' ->
      server_step s (ServerState sys' (waiting s) (running s) (completed s) (taken s) (g_reactor_stats s) (arrived s ++ [r])
        (sent s ++ [(r, reply)]) (freed s) (parsed s) (put s))
  | step_reply i r ctx start accepted reply s :
      api_middleware_wrapper cfg r ctx start i None accepted = Replied reply None ->
      server_step s (ServerState (sys s) (waiting s) (running s) (completed s) (taken s) (g_reactor_stats s) (arrived s ++ [r])
        (sent s ++ [(r, reply)]) (freed s) (parsed s) (put s))
  | step_null i cache new_ok p cache' s :
      caches (sys s) !! i = Some cache ->
      task_pool_alloc (shared (sys s)) cache new_ok = Done (p, cache', None) ->
      server_step s (with_sys s (System p (<[i := cache']> (caches (sys s))) (leased (sys s))))
  | step_gone t s :
      t ∈ leased (sys s) -> server_step s (request_on_complete_cb s t)
  | step_begin t a b s :
      waiting s = a ++ t :: b ->
      server_step s (ServerState (sys s) (a ++ b) (t :: running s) (completed s) (taken s) (g_reactor_stats s) (arrived s)
        (sent s) (freed s) (parsed s) (put s))
  | step_finish t a b x r time tok_ok l y l' ts s :
      running s = a ++ t :: b -> slab s !! t = Some x -> req x = Some r ->
      worker_run secret time x r tok_ok l = Some (y, l') ->
      completed s !! reactor_id x = Some ts ->
      server_step s (ServerState (System (set_task (shared (sys s)) t y) (caches (sys s)) (leased (sys s)))
        (waiting s) (a ++ b) (<[reactor_id x := ts ++ [t]]> (completed s)) (taken s) (g_reactor_stats s) (arrived s) (sent s)
        (freed s) (parsed s ++ option_list (parsed_body y)) (put s))
  (** [reactor_eventfd_cb] begins, and handles one of the tasks it has taken *)
  | step_take i s s' :
      taken s !! i = Some [] -> take_completed i s = Some s' -> server_step s s'
  | step_answer i finish s s' :
      answer_next i finish s = Done s' -> server_step s s'.

(** [n] reactors with a fresh slab. *)
Definition server_initial (p : @pool request jobj middleware_ctx_t) (n : nat) : server :=
  ServerState (start p n) [] [] (replicate n []) (replicate n []) (replicate n zero_stats) [] [] [] [] [].

Inductive server_reachable (pool_size n : nat) : server -> Prop :=
  | server_start p :
      task_pool_init pool_size true = Some p -> server_reachable pool_size n (server_initial p n)
  | server_next s s' : server_reachable pool_size n s -> server_step s s' -> server_reachable pool_size n s'.

(** ** Frames *)

(** What a task has, where it has it. *)
Definition at_task {A} (sl : list task) (f : nat -> task -> option A) (t : nat) : option A := x ← sl !! t; f t x.
Abbreviation field sl f := (at_task sl (fun _ => f)).

Lemma omap_agree {A} (f g : nat -> option A) (l : list nat) :
  (forall t, t ∈ l -> f t = g t) -> omap f l = omap g l.
Proof.
  induction l as [|t l IH]; intros Hf; [done|]. cbn.
  rewrite (Hf t) by by left. assert (omap f l = omap g l) as Hl by (apply IH; intros u Hu; apply Hf; by right).
  cbn in Hl. by rewrite Hl.
Qed.

Lemma omap_frame {A} (f : nat -> task -> option A) (sl sl' : list task) (l : list nat) :
  (forall t, t ∈ l -> sl' !! t = sl !! t) -> omap (at_task sl' f) l = omap (at_task sl f) l.
Proof. intros Hf. apply omap_agree. intros t Ht. unfold at_task. by rewrite Hf. Qed.

Lemma take_batch_slab (n : nat) (p : @pool request jobj middleware_ctx_t) (cache : list nat) :
  g_task_slab (take_batch n p cache).1 = g_task_slab p.
Proof.
  revert p cache. induction n as [|n IH]; intros p cache; [done|]. cbn [take_batch].
  destruct (g_free_stack p); [done|]. by rewrite IH.
Qed.

Lemma free_slab (p p' : @pool request jobj middleware_ctx_t) (cache cache' : list nat) (t u : nat) :
  task_pool_free p cache t = Done (p', cache') -> u <> t -> g_task_slab p' !! u = g_task_slab p !! u.
Proof.
  unfold task_pool_free. intros Hf Hne. revert Hf. destruct (_ <=? _)%nat; [by intros [= <- <-]|].
  destruct (g_task_slab p !! t); [|done]. destruct (g_is_free_flag p !! t) as [[]|]; [done| |done].
  destruct (_ <? _)%nat; [|destruct (_ <? _)%nat; [done|]]; intros [= <- <-];
    cbn [set_stack set_flag set_task g_task_slab]; by rewrite list_lookup_insert_ne.
Qed.

(** An allocation leaves the tasks that are leased as they are. *)
Lemma alloc_frame (y : @system request jobj middleware_ctx_t) (i : nat) (cache cache' : list nat) (ok : bool)
    (p' : pool) (r : option nat) (u : nat) :
  TaskPool.invariant y -> caches y !! i = Some cache ->
  task_pool_alloc (shared y) cache ok = Done (p', cache', r) -> u ∈ leased y ->
  g_task_slab p' !! u = g_task_slab (shared y) !! u.
Proof.
  intros Hinv Hi Ha Hu. pose proof (invariant_nodup y Hinv) as ND.
  assert (forall t, t ∈ g_free_stack (shared y) \/ t ∈ cache -> u <> t) as Hne.
  { intros t Ht ->. rewrite (assoc_L (++)) in ND. apply list.NoDup_app in ND as (_ & ND & _). apply (ND t); [|done].
    apply elem_of_app. destruct Ht as [|Ht]; [by left|right].
    destruct (concat_insert _ _ _ [] Hi) as (rest & -> & _). apply elem_of_app. by left. }
  revert Ha. unfold task_pool_alloc. set (n := Nat.min _ _).
  pose proof (take_batch_spec n (shared y) [] ltac:(lia)) as T.
  destruct (take_batch n (shared y) []) as [b c] eqn:Eb. destruct T as (Tb & _ & _ & _ & -> & _).
  destruct (match cache with [] => _ | _ => _ end) as [p1 c1] eqn:E0.
  assert (g_task_slab p1 = g_task_slab (shared y) /\ forall t, t ∈ c1 -> u <> t) as [Hs Hc].
  { destruct cache as [|t0 cache]; injection E0 as <- <-; split; try done.
    - intros t. rewrite app_nil_r, <- (Permutation_rev (take n _)).
      intros Ht%elem_of_take_inv. apply Hne. by left.
    - intros t Ht. apply Hne. by right. }
  destruct c1 as [|t c1]; [by intros [= <- _ _]; rewrite Hs|].
  cbn [set_flag g_task_slab]. destruct (g_task_slab p1 !! t) as [x|]; [|done].
  assert (u <> t) as Hut by (apply Hc; by left).
  assert (forall z, g_task_slab (set_task (set_flag p1 t false) t z) !! u = g_task_slab (shared y) !! u) as Hz.
  { intros z. cbn [set_task set_flag g_task_slab]. by rewrite list_lookup_insert_ne, Hs. }
  destruct (worker_buf x); [|destruct ok].
  1,2: intros [= <- _ _]; apply Hz.
  destruct (task_pool_free _ c1 t) as [[p2 c2]|] eqn:F; [|done]. intros [= <- _ _].
  by rewrite (free_slab _ _ _ _ _ _ F Hut).
Qed.

(** Freeing a leased task on a reactor. *)
Lemma free_on_ok (y : @system request jobj middleware_ctx_t) (i t : nat) :
  TaskPool.invariant y -> (i < length (caches y))%nat -> t ∈ leased y ->
  exists y', free_on i t y = Done y' /\ TaskPool.invariant y' /\ length (caches y') = length (caches y)
    /\ leased y ≡ₚ t :: leased y'
    /\ forall u, u <> t -> g_task_slab (shared y') !! u = g_task_slab (shared y) !! u.
Proof.
  intros Hinv Hi Ht. destruct (lookup_lt_is_Some_2 _ _ Hi) as [cache Hc]. unfold free_on. rewrite Hc.
  destruct (free_invariant y i t cache Hinv Hc Ht) as (p & c & F & Hinv' & _). rewrite F.
  eexists. split; [reflexivity|]. split; [done|]. cbn [caches leased shared]. split; [by rewrite length_insert|].
  split; [by apply remove_one_perm|]. intros u Hu. by apply (free_slab _ _ _ _ _ _ F).
Qed.

(** What the worker does not write. *)
Definition keeps (x y : task) : Prop := req y = req x /\ reactor_id y = reactor_id x /\ cancelled y = cancelled x.

Lemma keeps_trans (x y z : task) : keeps x y -> keeps y z -> keeps x z.
Proof. unfold keeps. intros (-> & -> & ->). done. Qed.

Lemma jwt_keeps (time : Z) (x : task) (r : request) (c : option middleware_ctx_t) (l : tls) :
  keeps x (worker_process_jwt secret time x r c l).1.1.
Proof.
  unfold worker_process_jwt. destruct c as [c|]; [|done]. case_decide; [|done].
  destruct (evhttp_find_header r _); [|done]. destruct (strncaseeq _ _ 7); [|done].
  by destruct (Jwt.jwt_verify _ _ _ _ _) as [[] ? ?].
Qed.

Lemma payload_keeps (x : task) (r : request) (tok_ok : bool) : keeps x (worker_process_payload x r tok_ok).1.
Proof.
  unfold worker_process_payload. case_decide; [done|]. destruct (evhttp_find_header r _); [|done].
  destruct (negb _); [done|]. destruct (_ =? 0)%nat; [done|]. destruct (negb tok_ok); [done|].
  destruct (parse_body _) as [t []]; by destruct (_ || _ || _).
Qed.

Lemma worker_run_keeps (time : Z) (x y : task) (r : request) (tok_ok : bool) (l l' : tls) :
  worker_run secret time x r tok_ok l = Some (y, l') -> keeps x y.
Proof.
  unfold worker_run, worker_process_task. destruct (cancelled x) eqn:C; [by intros [= <- _]|].
  pose proof (jwt_keeps time x r (middleware_ctx x) (Tls (ctx_of l) (err_of l) (request_id x))) as Hj.
  destruct (worker_process_jwt _ _ _ _ _ _) as [[x1 l1] []]; cbn [fst] in Hj; [|intros [= <- _]; exact Hj].
  pose proof (keeps_trans _ _ _ Hj (payload_keeps x1 r tok_ok)) as Hp.
  destruct (worker_process_payload x1 r tok_ok) as [x2 []]; cbn [fst] in Hp; [|intros [= <- _]; exact Hp].
  destruct (worker_process_validation x2 (middleware_ctx x)) as [[x3 ok]|] eqn:V; [|done].
  assert (keeps x2 x3) as Hv.
  { revert V. unfold worker_process_validation. destruct (middleware_ctx x) as [c|]; [|by intros [= <- _]].
    destruct (validation_ctx c), (parsed_body x2) as [b|]; try by intros [= <- _].
    destruct (validate_json _ _ _) as [[|m]|]; cbn [mbind option_bind]; by intros [= <- _]. }
  pose proof (keeps_trans _ _ _ Hp Hv) as H3. cbn [mbind option_bind].
  destruct ok; [|intros [= <- _]; exact H3]. unfold run_handler.
  destruct (middleware_ctx x) as [c|]; [|intros [= <- _]; exact H3].
  destruct (handler c) as [h|]; [|intros [= <- _]; exact H3].
  destruct (h l1 _ _) as [[code out] l2]. intros [= <- _]. exact H3.
Qed.

(** ** The invariant *)

(** The tasks of a completion queue are those of its reactor. *)
Definition owned_by (sl : list task) (i : nat) (ts : list nat) : Prop :=
  Forall (fun t => exists x, sl !! t = Some x /\ reactor_id x = i) ts.

(** Every leased task is with exactly one holder ([rest] are those the running
    callback has taken) and belongs to a reactor; the requests that came are
    answered, released or in a leased task, the documents are released or in one. *)
Definition orderly (n : nat) (rest : list nat) (s : server) : Prop :=
  TaskPool.invariant (sys s) /\ length (caches (sys s)) = n /\ length (completed s) = n
  /\ leased (sys s) ≡ₚ rest ++ waiting s ++ running s ++ concat (completed s)
  /\ Forall (fun t => exists x r, slab s !! t = Some x /\ req x = Some r /\ (reactor_id x < n)%nat) (leased (sys s))
  /\ Forall (fun t => field (slab s) parsed_body t = None) (waiting s ++ running s)
  /\ arrived s ≡ₚ (sent s).*1 ++ freed s ++ omap (field (slab s) req) (leased (sys s))
  /\ parsed s ≡ₚ put s ++ omap (field (slab s) parsed_body) (leased (sys s))
  /\ (forall i ts, completed s !! i = Some ts -> owned_by (slab s) i ts).

Lemma leased_nodup (y : @system request jobj middleware_ctx_t) : TaskPool.invariant y -> NoDup (leased y).
Proof.
  intros ND%invariant_nodup. apply list.NoDup_app in ND as (_ & _ & ND).
  by apply list.NoDup_app in ND as (_ & _ & ND).
Qed.

Lemma option_list_some {A} (a : A) : option_list (Some a) = [a].
Proof. done. Qed.

Lemma option_list_none {A} : option_list (@None A) = [].
Proof. done. Qed.

Lemma omap_cons_task {A} (sl : list task) (f : nat -> task -> option A) (t : nat) (l : list nat) :
  omap (at_task sl f) (t :: l) = option_list (at_task sl f t) ++ omap (at_task sl f) l.
Proof. cbn. by destruct (at_task sl f t). Qed.

Lemma forall_frame (P : task -> Prop) (sl sl' : list task) (l : list nat) :
  (forall t, t ∈ l -> sl' !! t = sl !! t) ->
  Forall (fun t => exists x, sl !! t = Some x /\ P x) l -> Forall (fun t => exists x, sl' !! t = Some x /\ P x) l.
Proof.
  intros Hf H. apply list.Forall_forall. intros t Ht. rewrite Hf by done.
  by apply (proj1 (list.Forall_forall _ _) H).
Qed.

Lemma owned_frame (s : server) (sl : list task) (i : nat) (ts : list nat) (l : list nat) :
  (forall t, t ∈ l -> sl !! t = slab s !! t) -> (forall t, t ∈ concat (completed s) -> t ∈ l) ->
  completed s !! i = Some ts -> owned_by (slab s) i ts -> owned_by sl i ts.
Proof.
  intros Hf Hin Hc. apply forall_frame. intros t Ht. apply Hf, Hin.
  destruct (concat_insert _ _ _ [] Hc) as (rest & -> & _). apply elem_of_app. by left.
Qed.

(** Releasing the first task of [rest], whatever is noted about its request. *)
Lemma release (n i t : nat) (rest : list nat) (s : server) (x : task) (r : request) :
  orderly n (t :: rest) s -> (i < n)%nat -> slab s !! t = Some x -> req x = Some r ->
  exists y, free_on i t (sys s) = Done y
    /\ (forall u, u ∈ rest -> g_task_slab (shared y) !! u = slab s !! u)
    /\ forall g tk sent' freed', sent'.*1 ++ freed' ≡ₚ r :: (sent s).*1 ++ freed s ->
       orderly n rest (ServerState y (waiting s) (running s) (completed s) tk g (arrived s) sent' freed'
                         (parsed s) (put s ++ option_list (parsed_body x))).
Proof.
  intros (Hinv & Hn & Hm & P & Hl & Hw & Ha & Hp & Ho) Hi Hx Hr.
  assert (t ∈ leased (sys s)) as Ht by (rewrite P; by left).
  destruct (free_on_ok (sys s) i t Hinv ltac:(lia) Ht) as (y & F & Hinv' & Hlen & L & Hf).
  exists y. split; [done|]. pose proof (leased_nodup _ Hinv) as ND. rewrite L in ND.
  apply list.NoDup_cons in ND as [Hnt ND].
  assert (leased y ≡ₚ rest ++ waiting s ++ running s ++ concat (completed s)) as P'.
  { apply (Permutation_cons_inv (a := t)). by rewrite <- L, P. }
  assert (forall u, u ∈ leased y -> g_task_slab (shared y) !! u = slab s !! u) as Hf'.
  { intros u Hu. apply Hf. by intros ->. }
  assert (forall u, u ∈ rest ++ waiting s ++ running s ++ concat (completed s) ->
    g_task_slab (shared y) !! u = slab s !! u) as Hf''.
  { intros u Hu. apply Hf'. by rewrite P'. }
  split. { intros u Hu. apply Hf''. apply elem_of_app. by left. }
  intros g tk sent' freed' Hsf. unfold orderly. cbn [sys waiting running completed arrived sent freed parsed put].
  unfold slab at 1 2 3 4 5. cbn [sys]. split_and!; try done.
  - by rewrite Hlen.
  - rewrite L in Hl. apply Forall_cons_iff in Hl as [_ Hl]. apply list.Forall_forall. intros u Hu.
    rewrite Hf' by done. by apply (proj1 (list.Forall_forall _ _) Hl).
  - apply list.Forall_forall. intros u Hu. pose proof (proj1 (list.Forall_forall _ _) Hw u Hu) as Hu'.
    unfold at_task in *. rewrite Hf''; [done|]. rewrite !elem_of_app in *. naive_solver.
  - rewrite (omap_frame _ (slab s)) by done. rewrite (assoc_L (++)), Hsf, Ha, L, omap_cons_task.
    unfold at_task at 1. rewrite Hx. cbn [mbind option_bind]. rewrite Hr. cbn [option_list].
    solve_Permutation.
  - rewrite (omap_frame _ (slab s)) by done. rewrite Hp, L, omap_cons_task.
    unfold at_task at 1. rewrite Hx. cbn [mbind option_bind]. solve_Permutation.
  - intros j ts Hj. apply (owned_frame s _ j ts _ Hf''); [|done|by apply Ho]. intros u Hu.
    rewrite !elem_of_app. auto.
Qed.

(** ** The loop of the callback *)

(** What a task gets: an answer, or its request released; and what is counted. *)
Definition reply_of (t : nat) (x : task) : option (request * response) :=
  if cancelled x then None else
  r ← req x; Some (r, send_http_reply x (default [] (worker_buf x)) (output_headers r)).

Definition gone_of (t : nat) (x : task) : option request := if cancelled x then req x else None.

Definition event_of (finish : nat -> Z * Z) (t : nat) (x : task) : option (Z * bool) :=
  if cancelled x then None else
  Some (measure_elapsed_ms (start_time x) (finish t),
        match middleware_ctx x with Some c => is_fast c | None => false end).

Definition count_events (i : nat) (g : list reactor_stats) (evs : list (Z * bool)) : list reactor_stats :=
  foldl (fun g '(elapsed_ms, fast) => server_record_request_stats g i elapsed_ms fast) g evs.

Lemma answer_next_ok (n i : nat) (finish : nat -> Z * Z) (t : nat) (ts rest : list nat) (s : server) :
  orderly n (t :: rest) s -> (i < n)%nat -> taken s !! i = Some (t :: ts) ->
  exists s', answer_next i finish s = Done s' /\ orderly n rest s' /\ taken s' = <[i := ts]> (taken s)
    /\ completed s' = completed s /\ waiting s' = waiting s /\ running s' = running s
    /\ sent s' = sent s ++ option_list (at_task (slab s) reply_of t)
    /\ freed s' = freed s ++ option_list (at_task (slab s) gone_of t)
    /\ g_reactor_stats s' = count_events i (g_reactor_stats s) (option_list (at_task (slab s) (event_of finish) t))
    /\ (forall u, u ∈ rest -> slab s' !! u = slab s !! u).
Proof.
  intros Ho Hi Hk. pose proof Ho as (_ & _ & _ & P & Hl & _).
  assert (t ∈ leased (sys s)) as Ht by (rewrite P; by left).
  destruct (proj1 (list.Forall_forall _ _) Hl t Ht) as (x & r & Hx & Hr & _).
  destruct (release n i t rest s x r Ho Hi Hx Hr) as (y & F & Hf & HO).
  unfold answer_next. rewrite Hk, Hx. unfold at_task. rewrite Hx. cbn [mbind option_bind].
  unfold cleanup_cancelled_task, answer_task, reply_of, gone_of, event_of, pop_taken.
  rewrite Hr. cbn [sys waiting running completed taken g_reactor_stats arrived sent freed parsed put]. rewrite F.
  destruct (cancelled x); cbn [process_completed_task mbind option_bind]; eexists; (split; [reflexivity|]);
    cbn [taken completed waiting running sent freed g_reactor_stats]; rewrite ?option_list_some, ?option_list_none, ?app_nil_r;
    (split; [apply HO; rewrite ?fmap_app; solve_Permutation|]); by split_and!.
Qed.

Lemma answer_all_ok (n i : nat) (finish : nat -> Z * Z) (ts rest : list nat) (s : server) :
  orderly n (ts ++ rest) s -> (i < n)%nat -> taken s !! i = Some ts ->
  exists s', answer_all i finish ts s = Done s' /\ rtc server_step s s' /\ orderly n rest s'
    /\ taken s' = <[i := []]> (taken s)
    /\ completed s' = completed s /\ waiting s' = waiting s /\ running s' = running s
    /\ sent s' = sent s ++ omap (at_task (slab s) reply_of) ts
    /\ freed s' = freed s ++ omap (at_task (slab s) gone_of) ts
    /\ g_reactor_stats s' = count_events i (g_reactor_stats s) (omap (at_task (slab s) (event_of finish)) ts).
Proof.
  intros Ho Hi. revert s Ho. induction ts as [|t ts IH]; intros s Ho Hk.
  { exists s. cbn. rewrite !app_nil_r, list_insert_id by done. by split_and!. }
  destruct (answer_next_ok n i finish t ts (ts ++ rest) s Ho Hi Hk)
    as (s1 & E1 & O1 & K1 & C1 & W1 & R1 & S1 & F1 & G1 & Hf).
  assert (taken s1 !! i = Some ts) as Hk1 by (rewrite K1; apply list_lookup_insert_eq; by eapply lookup_lt_Some).
  destruct (IH s1 O1 Hk1) as (s' & E' & T' & O' & K' & C' & W' & R' & S' & F' & G').
  assert (forall u, u ∈ ts -> slab s1 !! u = slab s !! u) as Hf1 by (intros u Hu; apply Hf, elem_of_app; by left).
  exists s'. cbn [answer_all]. rewrite E1. split; [done|]. split; [by eapply rtc_l; [eapply step_answer|]|].
  split; [done|]. rewrite K', C', W', R', S', F', G', K1, C1, W1, R1, S1, F1, G1, !omap_cons_task.
  rewrite !(omap_frame _ (slab s) (slab s1)) by done. rewrite list_insert_insert_eq, <- !(assoc_L (++)).
  split_and!; try done. unfold count_events. by rewrite foldl_app.
Qed.

(** ** The steps keep the order *)

Lemma queued_task (r : request) (arg : option middleware_ctx_t) (start : Z * Z) (i t t' : nat) (x0 x : task)
    (accepted : bool) (hs : list header) :
  api_middleware_wrapper cfg r arg start i (Some (t, x0)) accepted = Queued t' x hs ->
  req x = Some r /\ reactor_id x = i /\ parsed_body x = None /\ hs = output_headers r.
Proof.
  unfold api_middleware_wrapper, output_headers. destruct (bool_decide _); [done|].
  destruct arg as [ctx|]; [|done]. destruct (handler ctx); [|done].
  destruct (server_validate_cors cfg r _) as [hs'|]; [|done]. case_decide; [done|].
  destruct (server_validate_method_and_auth _ _ _ _); [done|]. unfold server_enqueue_task.
  destruct (_ || _ || _); [done|]. destruct accepted; [|done]. by intros [= <- <- <-].
Qed.

Lemma orderly_queue (n i t : nat) (rest : list nat) (s : server) (p : pool) (caches' : list (list nat)) (x : task) (r : request) :
  orderly n rest s -> (i < n)%nat ->
  TaskPool.invariant (System p caches' (t :: leased (sys s))) -> length caches' = n ->
  (forall u, u ∈ leased (sys s) -> g_task_slab p !! u = slab s !! u) ->
  req x = Some r -> reactor_id x = i -> parsed_body x = None ->
  orderly n rest (ServerState (System (set_task p t x) caches' (t :: leased (sys s)))
    (waiting s ++ [t]) (running s) (completed s) (taken s) (g_reactor_stats s) (arrived s ++ [r]) (sent s) (freed s)
    (parsed s) (put s)).
Proof.
  intros (_ & Hn & Hm & P & Hl & Hw & Ha & Hp & Ho) Hi Hinv Hlen Hf Hr Hid Hb.
  pose proof (leased_nodup _ Hinv) as ND. cbn [leased] in ND. apply list.NoDup_cons in ND as [Hnt ND].
  assert (t < length (g_task_slab p))%nat as Ht.
  { pose proof Hinv as (_ & Hs & _). cbn [shared] in Hs. rewrite Hs. apply (invariant_lt _ t Hinv). cbn [shared caches leased].
    rewrite !elem_of_app. right. right. by left. }
  assert (<[t := x]> (g_task_slab p) !! t = Some x) as Htx by by apply list_lookup_insert_eq.
  assert (forall u, u ∈ leased (sys s) -> <[t := x]> (g_task_slab p) !! u = slab s !! u) as Hf'.
  { intros u Hu. rewrite list_lookup_insert_ne; [by apply Hf|]. by intros ->. }
  assert (forall u, u ∈ waiting s ++ running s ++ concat (completed s) ->
    <[t := x]> (g_task_slab p) !! u = slab s !! u) as Hf''.
  { intros u Hu. apply Hf'. rewrite P, elem_of_app. by right. }
  unfold orderly. cbn [sys waiting running completed arrived sent freed parsed put leased caches].
  unfold slab at 1 2 3 4 5. cbn [sys shared set_task g_task_slab]. split_and!; try done.
  - exact (use_invariant _ t x Hinv).
  - rewrite P. cbn [app]. solve_Permutation.
  - constructor; [exists x, r; rewrite Hid; done|]. apply list.Forall_forall. intros u Hu. rewrite Hf' by done.
    by apply (proj1 (list.Forall_forall _ _) Hl).
  - rewrite <- (assoc_L (++)). apply list.Forall_forall. intros u Hu. unfold at_task.
    rewrite !elem_of_app, list_elem_of_singleton in Hu.
    destruct (decide (u = t)) as [->|Hne]; [by rewrite Htx|].
    assert (u ∈ waiting s ++ running s) as Hu' by (rewrite elem_of_app; naive_solver).
    rewrite Hf'' by (rewrite !elem_of_app; rewrite elem_of_app in Hu'; naive_solver).
    exact (proj1 (list.Forall_forall _ _) Hw u Hu').
  - rewrite omap_cons_task. unfold at_task at 1. rewrite Htx. cbn [mbind option_bind].
    rewrite Hr, option_list_some, (omap_frame _ (slab s)) by done. rewrite Ha. solve_Permutation.
  - rewrite omap_cons_task. unfold at_task at 1. rewrite Htx. cbn [mbind option_bind].
    by rewrite Hb, option_list_none, (omap_frame _ (slab s)) by done.
  - intros j ts Hj. apply (owned_frame s _ j ts _ Hf''); [|done|by apply Ho]. intros u Hu.
    rewrite !elem_of_app. auto.
Qed.

(** What the order depends on in a task. *)
Definition gist (x : task) : option request * nat * option jobj := (req x, reactor_id x, parsed_body x).

(** A step that changes no gist of a leased task, and answers the requests that
    came with it. *)
Lemma orderly_gist (n : nat) (rest : list nat) (s : server) (y : @system request jobj middleware_ctx_t)
    (new : list request) (sent' : list (request * response)) :
  orderly n rest s -> TaskPool.invariant y -> length (caches y) = n -> leased y = leased (sys s) ->
  (forall u, u ∈ leased (sys s) -> gist <$> g_task_slab (shared y) !! u = gist <$> slab s !! u) ->
  sent'.*1 ≡ₚ (sent s).*1 ++ new ->
  orderly n rest (ServerState y (waiting s) (running s) (completed s) (taken s) (g_reactor_stats s) (arrived s ++ new) sent'
                  (freed s) (parsed s) (put s)).
Proof.
  intros (_ & Hn & Hm & P & Hl & Hw & Ha & Hp & Ho) Hinv Hlen El Hf Hs.
  assert (forall u x, u ∈ leased (sys s) -> slab s !! u = Some x ->
    exists x', g_task_slab (shared y) !! u = Some x' /\ gist x' = gist x) as Hg.
  { intros u x Hu Hx. pose proof (Hf u Hu) as F. rewrite Hx in F. cbn [fmap option_fmap option_map] in F.
    apply fmap_Some in F as (x' & Hx' & F). exists x'. by split. }
  assert (forall A (f : option request * nat * option jobj -> option A) u, u ∈ leased (sys s) ->
    field (g_task_slab (shared y)) (fun x => f (gist x)) u = field (slab s) (fun x => f (gist x)) u) as Hfield.
  { intros A f u Hu. pose proof (Hf u Hu) as F. revert F. unfold at_task.
    destruct (slab s !! u) as [x|], (g_task_slab (shared y) !! u) as [x'|]; try done.
    cbn [fmap option_fmap option_map mbind option_bind]. intros F%(inj Some). by rewrite F. }
  assert (forall u, u ∈ leased (sys s) -> field (g_task_slab (shared y)) req u = field (slab s) req u) as Hreq
    by exact (Hfield _ (fun g => g.1.1)).
  assert (forall u, u ∈ leased (sys s) ->
    field (g_task_slab (shared y)) parsed_body u = field (slab s) parsed_body u) as Hbody
    by exact (Hfield _ (fun g => g.2)).
  unfold orderly. cbn [sys waiting running completed arrived sent freed parsed put].
  unfold slab at 1 2 3 4 5. cbn [sys]. rewrite El. split_and!; try done.
  - eapply list.Forall_forall. intros u Hu.
    destruct (proj1 (list.Forall_forall _ _) Hl u Hu) as (x & r & Hx & Hr & Hid).
    destruct (Hg u x Hu Hx) as (x' & Hx' & G). exists x', r. unfold gist in G. by injection G as -> -> _.
  - apply list.Forall_forall. intros u Hu. rewrite Hbody; [by apply (proj1 (list.Forall_forall _ _) Hw)|].
    rewrite P. rewrite !elem_of_app in *. naive_solver.
  - rewrite (omap_agree _ _ _ Hreq), Ha, Hs. solve_Permutation.
  - by rewrite (omap_agree _ _ _ Hbody).
  - intros j ts Hj. apply list.Forall_forall. intros u Hu.
    destruct (proj1 (list.Forall_forall _ _) (Ho j ts Hj) u Hu) as (x & Hx & Hid).
    destruct (Hg u x) as (x' & Hx' & G); [|done|].
    + rewrite P, !elem_of_app. do 3 right. destruct (concat_insert _ _ _ [] Hj) as (others & -> & _).
      apply elem_of_app. by left.
    + exists x'. unfold gist in G. by injection G as _ -> _.
Qed.

Lemma orderly_finish (n : nat) (rest : list nat) (s : server) (t : nat) (a b ts : list nat) (x y : task) :
  orderly n rest s -> running s = a ++ t :: b -> slab s !! t = Some x -> keeps x y ->
  completed s !! reactor_id x = Some ts ->
  orderly n rest (ServerState (System (set_task (shared (sys s)) t y) (caches (sys s)) (leased (sys s)))
    (waiting s) (a ++ b) (<[reactor_id x := ts ++ [t]]> (completed s)) (taken s) (g_reactor_stats s) (arrived s) (sent s)
    (freed s) (parsed s ++ option_list (parsed_body y)) (put s)).
Proof.
  intros (Hinv & Hn & Hm & P & Hl & Hw & Ha & Hp & Ho) Er Hx (Kr & Ki & _) Hc.
  assert (<[t := y]> (slab s) !! t = Some y) as Hty 
    by (apply list_lookup_insert_eq; by eapply lookup_lt_Some).
  assert (forall u, u <> t -> <[t := y]> (slab s) !! u = slab s !! u) as Hne
    by (intros u Hu; by apply list_lookup_insert_ne).
  destruct (concat_insert (completed s) (reactor_id x) ts (ts ++ [t]) Hc) as (others & C1 & C2).
  assert (leased (sys s) ≡ₚ t :: rest ++ waiting s ++ (a ++ b) ++ concat (completed s)) as P1
    by (rewrite P, Er; cbn [app]; solve_Permutation).
  pose proof (leased_nodup _ Hinv) as ND. rewrite P1 in ND. apply list.NoDup_cons in ND as [ND _].
  rewrite !elem_of_app in ND.
  unfold orderly. cbn [sys waiting running completed arrived sent freed parsed put leased caches].
  unfold slab at 1 2 3 4 5. cbn [sys shared set_task g_task_slab]. fold (slab s).
  split_and!; try done.
  - by apply use_invariant.
  - by rewrite length_insert.
  - rewrite P1, C2, C1. cbn [app]. solve_Permutation.
  - apply list.Forall_forall. intros u Hu.
    destruct (proj1 (list.Forall_forall _ _) Hl u Hu) as (x' & r & Hx' & Hr & Hid).
    destruct (decide (u = t)) as [->|Hu']; [|exists x', r; by rewrite Hne].
    rewrite Hx in Hx'. injection Hx' as <-. exists y, r. by rewrite Hty, Kr, Ki.
  - apply list.Forall_forall. intros u Hu. pose proof (proj1 (list.Forall_forall _ _) Hw u) as Hu'. cbv beta in Hu'.
    unfold at_task in *. rewrite Hne; [|intros ->; rewrite !elem_of_app in Hu; tauto].
    apply Hu'. rewrite Er. rewrite !elem_of_app in *. rewrite elem_of_cons. tauto.
  - rewrite Ha. rewrite (omap_agree (field (<[t:=y]> (slab s)) req) (field (slab s) req)); [done|].
    intros u _. unfold at_task. destruct (decide (u = t)) as [->|Hu']; [|by rewrite Hne].
    rewrite Hty, Hx. cbn [mbind option_bind]. by rewrite Kr.
  - rewrite P1 in Hp |- *. rewrite !omap_cons_task in *.
    rewrite (omap_frame _ (slab s) (<[t:=y]> (slab s))).
    2:{ intros u Hu. apply Hne. intros ->. rewrite !elem_of_app in *. tauto. }
    assert (field (slab s) parsed_body t = None) as Hb.
    { apply (proj1 (list.Forall_forall _ _) Hw t). rewrite Er, !elem_of_app. right. right. by left. }
    rewrite Hb, option_list_none in Hp. unfold at_task at 1. rewrite Hty. cbn [mbind option_bind].
    rewrite Hp. cbn [app]. solve_Permutation.
  - intros j us Hj. apply list_lookup_insert_Some in Hj as [(<- & <- & _)|(Hj & Hus)].
    + apply Forall_app. split; [|constructor; [|constructor]; exists y; by rewrite Hty, Ki].
      apply (owned_frame s _ _ _ (concat (completed s))); [|done|done|by apply Ho]. intros u Hu. apply Hne.
      intros ->. tauto.
    + apply (owned_frame s _ _ _ (concat (completed s))); [|done|done|by apply Ho]. intros u Hu. apply Hne.
      intros ->. tauto.
Qed.

Lemma orderly_taken (n i : nat) (ts rest : list nat) (s : server) :
  orderly n rest s -> completed s !! i = Some ts ->
  exists s', take_completed i s = Some s' /\ (i < n)%nat /\ orderly n (ts ++ rest) s'
    /\ completed s' = <[i := []]> (completed s) /\ taken s' = <[i := ts]> (taken s)
    /\ waiting s' = waiting s /\ running s' = running s /\ sent s' = sent s /\ freed s' = freed s
    /\ g_reactor_stats s' = g_reactor_stats s /\ sys s' = sys s.
Proof.
  intros (Hinv & Hn & Hm & P & Hl & Hw & Ha & Hp & Ho) Hc. unfold take_completed. rewrite Hc. cbn [mbind option_bind].
  eexists. split; [reflexivity|]. split; [rewrite <- Hm; by eapply lookup_lt_Some|]. split; [|done].
  destruct (concat_insert (completed s) i ts [] Hc) as (others & C1 & C2).
  unfold orderly. cbn [sys waiting running completed arrived sent freed parsed put]. unfold slab in *. cbn [sys].
  split_and!; try done.
  - by rewrite length_insert.
  - rewrite P, C1, C2. solve_Permutation.
  - intros j us [(_ & <- & _)|(Hj & Hus)]%list_lookup_insert_Some; [constructor|by apply Ho].
Qed.

Lemma orderly_perm (n : nat) (rest rest' : list nat) (s : server) :
  rest ≡ₚ rest' -> orderly n rest s -> orderly n rest' s.
Proof. unfold orderly. intros R H. by rewrite R in H. Qed.

Lemma orderly_gone (n t : nat) (rest : list nat) (s : server) :
  orderly n rest s -> t ∈ leased (sys s) -> orderly n rest (request_on_complete_cb s t).
Proof.
  intros Ho Ht. pose proof Ho as (Hinv & Hn & _ & _ & Hl & _).
  destruct (proj1 (list.Forall_forall _ _) Hl t Ht) as (x & r & Hx & _). unfold request_on_complete_cb, with_sys.
  rewrite Hx, <- (app_nil_r (arrived s)). apply orderly_gist; try done.
  - by apply use_invariant.
  - intros u Hu. cbn [shared set_task g_task_slab]. fold (slab s). destruct (decide (u = t)) as [->|Hne].
    + rewrite list_lookup_insert_eq by (by eapply lookup_lt_Some). by rewrite Hx.
    + by rewrite list_lookup_insert_ne.
  - by rewrite app_nil_r.
Qed.

(** The tasks that the callbacks have in hand are those they have taken. *)
Definition steady (n : nat) (s : server) : Prop := length (taken s) = n /\ orderly n (concat (taken s)) s.

Lemma steady_take (n i : nat) (s s' : server) :
  steady n s -> taken s !! i = Some [] -> take_completed i s = Some s' -> steady n s'.
Proof.
  intros [Hk Ho] Hi Ht. assert (exists ts, completed s !! i = Some ts) as [ts Hc].
  { revert Ht. unfold take_completed. destruct (completed s !! i) as [ts|]; [by exists ts|done]. }
  destruct (orderly_taken n i ts _ s Ho Hc) as (s1 & E1 & _ & O1 & _ & K1 & _). assert (s1 = s') as -> by congruence.
  destruct (concat_insert (taken s) i [] ts Hi) as (others & C1 & C2). unfold steady. rewrite K1, length_insert.
  split; [done|]. eapply orderly_perm; [|exact O1]. by rewrite C2, C1.
Qed.

(** What a callback has taken, in front of what the others have. *)
Lemma steady_taken (n i : nat) (ts : list nat) (s : server) :
  steady n s -> taken s !! i = Some ts ->
  (i < n)%nat /\ exists rest, orderly n (ts ++ rest) s /\ forall us, concat (<[i := us]> (taken s)) ≡ₚ us ++ rest.
Proof.
  intros [Hk Ho] Hi. split; [rewrite <- Hk; by eapply lookup_lt_Some|].
  destruct (concat_insert (taken s) i ts [] Hi) as (rest & C1 & C2). exists rest.
  split; [by eapply orderly_perm|]. intros us. destruct (concat_insert (taken s) i ts us Hi) as (rest' & C1' & ->).
  apply Permutation_app_head. apply (Permutation_app_inv_l ts). by rewrite <- C1, <- C1'.
Qed.

Lemma steady_answer (n i : nat) (finish : nat -> Z * Z) (s s' : server) :
  steady n s -> answer_next i finish s = Done s' -> steady n s'.
Proof.
  intros Hs Ha. destruct (taken s !! i) as [[|t ts]|] eqn:Hi; [by unfold answer_next in Ha; rewrite Hi in Ha| |
    by unfold answer_next in Ha; rewrite Hi in Ha].
  destruct (steady_taken n i _ s Hs Hi) as (Hn & rest & O & C).
  destruct (answer_next_ok n i finish t ts (ts ++ rest) s O Hn Hi) as (s1 & E1 & O1 & K1 & _).
  assert (s1 = s') as -> by congruence. unfold steady. rewrite K1, length_insert. split; [apply Hs|].
  eapply orderly_perm; [|exact O1]. by rewrite C.
Qed.

Lemma server_step_steady (n : nat) (s s' : server) : steady n s -> server_step s s' -> steady n s'.
Proof.
  intros [Hk Ho] Hstep. pose proof Ho as (Hinv & Hn & _ & P & _).
  destruct Hstep as [i cache ok p cache' t r ctx start0 x0 x hs s Hi Hal Hx0 Hq
    |i cache ok p cache' t r ctx start0 acc x0 y reply s sys' Hi Hal Hx0 Hr Hfree
    |i r ctx start0 acc reply s Hr|i cache ok p cache' s Hi Hal|t s Ht|t a b s Ew
    |t a b x r time tok l y l' ts s Er Hx Hr Hw Hc|i s s' Hi Ht|i finish s s' Ha];
    try (split; [exact Hk|]; cbn [taken with_sys]).
  - destruct (alloc_invariant _ i cache ok Hinv Hi) as (? & ? & ? & E1 & H1). rewrite Hal in E1.
    injection E1 as <- <- <-. destruct H1 as [H1 _].
    destruct (queued_task _ _ _ _ _ _ _ _ _ _ Hq) as (Q1 & Q2 & Q3 & _).
    apply orderly_queue with (i := i); try done.
    + rewrite <- Hn. by eapply lookup_lt_Some.
    + cbn [caches]. by rewrite length_insert.
    + intros u Hu. by apply (alloc_frame (sys s) i cache cache' ok p (Some t)).
  - destruct (alloc_invariant _ i cache ok Hinv Hi) as (? & ? & ? & E1 & H1). rewrite Hal in E1.
    injection E1 as <- <- <-. destruct H1 as [H1 _]. apply (use_invariant _ t y) in H1. cbn [shared caches leased] in H1.
    pose proof (leased_nodup _ H1) as ND. cbn [leased] in ND. apply list.NoDup_cons in ND as [ND _].
    destruct (free_on_ok _ i t H1) as (y' & F & Hinv' & Hlen & _ & Hf); cbn [caches leased] in *.
    { rewrite length_insert. by eapply lookup_lt_Some. }
    { by left. }
    rewrite Hfree in F. injection F as <-. revert Hfree. unfold free_on. cbn [caches leased shared].
    rewrite list_lookup_insert_eq by (by eapply lookup_lt_Some).
    destruct (task_pool_free _ _ _) as [[p2 c2]|]; [|done]. intros [= <-]. apply orderly_gist; try done.
    + by rewrite Hlen, length_insert.
    + cbn [leased remove_one]. by rewrite decide_True.
    + intros u Hu. rewrite Hf by (by intros ->). cbn [shared set_task g_task_slab].
      rewrite list_lookup_insert_ne by (by intros ->).
      by rewrite (alloc_frame (sys s) i cache cache' ok p (Some t) u).
    + by rewrite fmap_app.
  - apply orderly_gist; try done. by rewrite fmap_app.
  - destruct (alloc_invariant _ i cache ok Hinv Hi) as (? & ? & ? & E1 & H1). rewrite Hal in E1.
    injection E1 as <- <- <-. destruct H1 as [H1 _]. unfold with_sys. rewrite <- (app_nil_r (arrived s)).
    apply orderly_gist; try done.
    + cbn [caches]. by rewrite length_insert.
    + intros u Hu. cbn [shared]. by rewrite (alloc_frame (sys s) i cache cache' ok p None u).
    + by rewrite app_nil_r.
  - by apply orderly_gone.
  - destruct Ho as (_ & ? & ? & _ & ? & Hw & ?). rewrite Ew in P, Hw.
    unfold orderly. cbn [sys waiting running completed arrived sent freed parsed put]. unfold slab in *. cbn [sys].
    split_and!; try done.
    + rewrite P. cbn [app]. solve_Permutation.
    + eapply Forall_Permutation; [..|exact Hw]; [done|]. solve_Permutation.
    + by apply H2.
    + by apply H2.
    + by apply H2.
  - by apply orderly_finish with (x := x) (y := y); [..|by eapply worker_run_keeps|].
  - by eapply steady_take.
  - by eapply steady_answer.
Qed.

Lemma server_reachable_steady (pool_size n : nat) (s : server) : server_reachable pool_size n s -> steady n s.
Proof.
  induction 1 as [p Hp|s s' _ IH Hs]; [|by eapply server_step_steady].
  unfold steady, orderly, server_initial. cbn [sys waiting running completed taken arrived sent freed parsed put].
  assert (concat (replicate n (@nil nat)) = []) as Hnil by (clear; by induction n).
  split_and!; try done.
  - by rewrite length_replicate.
  - by eapply start_invariant.
  - by cbn [caches start]; rewrite length_replicate.
  - by rewrite length_replicate.
  - by rewrite Hnil.
  - intros i ts H. apply lookup_replicate in H as [H _]. subst ts. constructor.
Qed.

(** ** The properties *)

(** C3: every request is answered or released exactly once, and nothing leaks. In every
    state that any interleaving of the reactors, the workers and the clients can
    reach, each leased task has exactly one holder: a queue, a worker, a
    completion queue or a callback that is running. The requests that came are,
    counted with repetition, those that were answered, those that were released
    because the client was gone and those of the leased tasks; and the documents that
    were parsed are those that were released and those of the leased tasks. So when
    no task is leased, each request has been answered or released exactly once and
    each document released. *)
Theorem requests_conserved (pool_size n : nat) (s : server) :
  server_reachable pool_size n s ->
  NoDup (leased (sys s))
  /\ leased (sys s) ≡ₚ waiting s ++ running s ++ concat (completed s) ++ concat (taken s)
  /\ arrived s ≡ₚ (sent s).*1 ++ freed s ++ omap (field (slab s) req) (leased (sys s))
  /\ parsed s ≡ₚ put s ++ omap (field (slab s) parsed_body) (leased (sys s))
  /\ (leased (sys s) = [] -> arrived s ≡ₚ (sent s).*1 ++ freed s /\ parsed s ≡ₚ put s).
Proof.
  intros [_ H]%server_reachable_steady. destruct H as (Hinv & _ & _ & P & _ & _ & Ha & Hp & _).
  split; [by apply leased_nodup|]. split; [rewrite P; solve_Permutation|]. split; [done|]. split; [done|]. intros El.
  rewrite El in Ha, Hp. cbn in Ha, Hp. by rewrite app_nil_r in Ha, Hp.
Qed.

(** A callback that has begun handles its next task, whatever the others do. *)
Lemma answer_next_total (pool_size n i : nat) (finish : nat -> Z * Z) (s : server) (t : nat) (ts : list nat) :
  server_reachable pool_size n s -> taken s !! i = Some (t :: ts) ->
  exists s', answer_next i finish s = Done s' /\ taken s' = <[i := ts]> (taken s)
    /\ completed s' = completed s /\ waiting s' = waiting s /\ running s' = running s.
Proof.
  intros Hs%server_reachable_steady Hi. destruct (steady_taken n i _ s Hs Hi) as (Hn & rest & O & _).
  destruct (answer_next_ok n i finish t ts (ts ++ rest) s O Hn Hi) as (s' & E1 & _ & K & C & W & R & _).
  by exists s'.
Qed.

(** C4: the callback of a reactor answers all that its workers have finished. In
    every reachable state, on every reactor in its event loop and whatever the clock,
    the callback ends without a double free or a null pointer, and what it does is
    a run of the single steps; its completion queue is empty
    afterwards and no other queue has changed. In the order of the queue, each task
    whose client is still there is answered with its status and body and counted
    once on this reactor, and each task whose client is gone has its request
    released without an answer. All of them belong to this reactor. *)
Theorem callback_answers_all (pool_size n i : nat) (finish : nat -> Z * Z) (s : server) (ts : list nat) :
  server_reachable pool_size n s -> taken s !! i = Some [] -> completed s !! i = Some ts ->
  exists s', reactor_eventfd_cb i finish s = Done s' /\ rtc server_step s s'
    /\ completed s' = <[i := []]> (completed s) /\ taken s' = taken s
    /\ waiting s' = waiting s /\ running s' = running s
    /\ sent s' = sent s ++ omap (at_task (slab s) reply_of) ts
    /\ freed s' = freed s ++ omap (at_task (slab s) gone_of) ts
    /\ g_reactor_stats s' = count_events i (g_reactor_stats s) (omap (at_task (slab s) (event_of finish)) ts)
    /\ owned_by (slab s) i ts.
Proof.
  intros [Hk Ho]%server_reachable_steady Hi Hc.
  destruct (orderly_taken n i ts _ s Ho Hc) as (s1 & E1 & Hn & O1 & C1 & K1 & W1 & R1 & S1 & F1 & G1 & Y1).
  assert (taken s1 !! i = Some ts) as Hi1 by (rewrite K1; apply list_lookup_insert_eq; by eapply lookup_lt_Some).
  destruct (answer_all_ok n i finish ts _ s1 O1 Hn Hi1) as (s' & E' & T' & _ & K' & C' & W' & R' & S' & F' & G').
  exists s'. unfold reactor_eventfd_cb. rewrite E1, Hi1. split; [done|].
  split; [by eapply rtc_l; [eapply step_take|]|].
  rewrite C', K', W', R', S', F', G', C1, K1, W1, R1, S1, F1, G1, list_insert_insert_eq, (list_insert_id (taken s)) by done.
  unfold slab. rewrite Y1. split_and!; try done. destruct Ho as (_ & _ & _ & _ & _ & _ & _ & _ & Ho). by apply Ho.
Qed.

(** ** Running the steps *)

Definition run_queue (i : nat) (new_ok : bool) (r : request) (ctx : option middleware_ctx_t) (start : Z * Z)
    (s : server) : option server :=
  cache ← caches (sys s) !! i;
  match task_pool_alloc (shared (sys s)) cache new_ok with
  | Done (p, cache', Some t) =>
      x0 ← g_task_slab p !! t;
      match api_middleware_wrapper cfg r ctx start i (Some (t, x0)) true with
      | Queued _ x hs => Some (ServerState
          (System (set_task p t x) (<[i := cache']> (caches (sys s))) (t :: leased (sys s)))
          (waiting s ++ [t]) (running s) (completed s) (taken s) (g_reactor_stats s) (arrived s ++ [r]) (sent s) (freed s)
          (parsed s) (put s))
      | _ => None
      end
  | _ => None
  end.

Definition run_begin (s : server) : option server :=
  match waiting s with
  | t :: b => Some (ServerState (sys s) b (t :: running s) (completed s) (taken s) (g_reactor_stats s) (arrived s)
                      (sent s) (freed s) (parsed s) (put s))
  | [] => None
  end.

Definition run_finish (time : Z) (tok_ok : bool) (l : tls) (s : server) : option server :=
  match running s with
  | t :: b =>
      x ← slab s !! t;
      r ← req x;
      '(y, _) ← worker_run secret time x r tok_ok l;
      ts ← completed s !! reactor_id x;
      Some (ServerState (System (set_task (shared (sys s)) t y) (caches (sys s)) (leased (sys s)))
        (waiting s) b (<[reactor_id x := ts ++ [t]]> (completed s)) (taken s) (g_reactor_stats s) (arrived s) (sent s)
        (freed s) (parsed s ++ option_list (parsed_body y)) (put s))
  | [] => None
  end.

Lemma run_queue_step (i : nat) (new_ok : bool) (r : request) (ctx : option middleware_ctx_t) (start : Z * Z)
    (s s' : server) : run_queue i new_ok r ctx start s = Some s' -> server_step s s'.
Proof.
  unfold run_queue. destruct (caches (sys s) !! i) as [cache|] eqn:Hc; [|done]. cbn [mbind option_bind].
  destruct (task_pool_alloc _ _ _) as [[[p c'] [t|]]|] eqn:Ha; [|done..].
  destruct (g_task_slab p !! t) as [x0|] eqn:Hx; [|done]. cbn [mbind option_bind].
  destruct (api_middleware_wrapper _ _ _ _ _ _ _) as [| | |t' x hs] eqn:Hq; [done..|]. intros [= <-].
  assert (t' = t) as ->.
  { revert Hq. unfold api_middleware_wrapper. destruct (bool_decide _); [done|].
    destruct ctx as [ctx|]; [|done]. destruct (handler ctx); [|done].
    destruct (server_validate_cors cfg r _); [|done]. case_decide; [done|].
    destruct (server_validate_method_and_auth _ _ _ _); [done|]. unfold server_enqueue_task.
    destruct (_ || _ || _); [done|]. by intros [= <-]. }
  by eapply step_queue.
Qed.

Lemma run_begin_step (s s' : server) : run_begin s = Some s' -> server_step s s'.
Proof. unfold run_begin. destruct (waiting s) as [|t b] eqn:Ew; [done|]. intros [= <-]. by apply (step_begin t []). Qed.

Lemma run_finish_step (time : Z) (tok_ok : bool) (l : tls) (s s' : server) :
  run_finish time tok_ok l s = Some s' -> server_step s s'.
Proof.
  unfold run_finish. destruct (running s) as [|t b] eqn:Er; [done|].
  destruct (slab s !! t) as [x|] eqn:Hx; [|done]. cbn [mbind option_bind].
  destruct (req x) as [r|] eqn:Hr; [|done]. cbn [mbind option_bind].
  destruct (worker_run secret time x r tok_ok l) as [[y l']|] eqn:Hw; [|done]. cbn [mbind option_bind].
  destruct (completed s !! reactor_id x) as [ts|] eqn:Hc; [|done]. intros [= <-].
  by eapply (step_finish t []).
Qed.

End Reactor.

(** ** A concrete run *)

Import Model SodiumModel HttpModel.

Abbreviation reach := (server_reachable (J := model_json_c) (Tk := model_tokener) (So := model_sodium)
  (E := model_evhttp) Server.Example.cfg [] 3 2).

(** One request through the second of two reactors, up to its completion queue. *)
Definition sample_run : option (server (J := model_json_c) (E := model_evhttp)) :=
  p ← task_pool_init 3 true;
  s ← run_queue Server.Example.cfg 1 true Server.Example.keyed
        (Some (Worker.Example.route AUTH_API_KEY)) (1, 0)%Z (server_initial p 2);
  s ← run_begin s;
  run_finish (Tk := model_tokener) (So := model_sodium) [] 1000 true clean_tls s.

Lemma sample_run_reachable :
  exists s, sample_run = Some s /\ reach s /\ completed s !! 1%nat = Some [0%nat]
    /\ taken s !! 1%nat = Some [] /\ omap (at_task (slab s) gone_of) [0%nat] = [].
Proof.
  assert (option_map (fun s => (completed s, taken s, omap (at_task (slab s) gone_of) [0%nat])) sample_run
    = Some ([[]; [0%nat]], [[]; []], [])) as H by (vm_compute; reflexivity).
  revert H. unfold sample_run. destruct (task_pool_init 3 true) as [p|] eqn:Hp; [|done]. cbn [mbind option_bind].
  destruct (run_queue _ _ _ _ _ _ _) as [s1|] eqn:H1; [|done]. cbn [mbind option_bind].
  destruct (run_begin s1) as [s2|] eqn:H2; [|done]. cbn [mbind option_bind].
  destruct (run_finish _ _ _ _ s2) as [s3|] eqn:H3; [|done]. cbn [option_map]. intros [= Hc Hk Hg].
  exists s3. split; [done|]. split; [|by rewrite Hc, Hk].
  eapply server_next; [|by eapply run_finish_step]. eapply server_next; [|by eapply run_begin_step].
  eapply server_next; [|by eapply run_queue_step]. by apply server_start.
Qed.

Lemma requests_conserved_witness :
  exists s, sample_run = Some s /\ leased (sys s) ≡ₚ waiting s ++ running s ++ concat (completed s) ++ concat (taken s).
Proof.
  destruct sample_run_reachable as (s & E & R & _). exists s. split; [exact E|].
  exact (proj1 (proj2 (requests_conserved (J := model_json_c) (Tk := model_tokener) (So := model_sodium)
    (E := model_evhttp) Server.Example.cfg [] 3 2 s R))).
Defined.

Lemma callback_answers_all_witness :
  exists s s', sample_run = Some s
    /\ reactor_eventfd_cb Server.Example.cfg 1 (fun _ => (2, 0)%Z) s = Done s'
    /\ freed s' = freed s.
Proof.
  destruct sample_run_reachable as (s & E & R & Hc & Hk & Hg).
  destruct (callback_answers_all (J := model_json_c) (Tk := model_tokener) (So := model_sodium)
    (E := model_evhttp) Server.Example.cfg [] 3 2 1 (fun _ => (2, 0)%Z) s [0%nat] R Hk Hc)
    as (s' & E' & _ & _ & _ & _ & _ & _ & Ef & _).
  exists s, s'. split; [exact E|]. split; [exact E'|]. rewrite Ef, Hg. by rewrite app_nil_r.
Defined.

End Reactor.
