(* ===== verification/Shutdown.v ===== *)
(** * lib/server.c, lib/worker_pool.c: the shutdown under load

    The main thread, on a termination signal, closes the two pools, waits for
    their workers ([worker_pool_stop]), waits until the completion queues are empty
    ([server_drain_reactor_queues]) and then ends the event loops, while the reactors,
    the workers and the clients of [Reactor] go on.  The states of the main thread are
    the places where it waits or has changed something; how it then ends the
    loops and joins the reactors is in [Lifecycle]. *)

From S2P Require Import Prelude JsonUtil Dtoa JsonC Validation Sodium Jwt TaskPool ThreadState Config EvHttp Worker Server Reactor.
Import Worker TaskPool Server Reactor.

Module Shutdown.

(** Serving; [worker_pool_stop] before the slow pool, then at the joins; [Draining i]
    is the loop of [server_drain_reactor_queues] at reactor [i]; about to end
    the event loops; all threads ended. *)
Inductive main_pc := Serving | StopSlow | JoinPools | Draining (i : nat) | Breaking | Ended.

Section Shutdown.
Context `{J : JsonC, Tk : !JsonTokener J, So : Sodium, E : EvHttp}.
Context (cfg : Config.config) (secret : list char).

Abbreviation task := (http_task request jobj middleware_ctx_t).

(** [fast_closed] and [slow_closed] are the [shutdown] fields of the pools. *)
Record state := State {
  served : server;
  fast_closed : bool;
  slow_closed : bool;
  main : main_pc;
}.

(** The pool that [worker_pool_enqueue] selects for a task is closed. *)
Definition pool_closed (st : state) (x : task) : bool :=
  if match middleware_ctx x with Some ctx => is_fast ctx | None => false end
  then fast_closed st else slow_closed st.

(** [worker_pool_enqueue] refuses the tasks of a closed pool. *)
Definition respects_closed (st : state) (s' : server) : Prop :=
  forall t x, waiting s' = waiting (served st) ++ [t] -> slab s' !! t = Some x -> pool_closed st x = false.

(** [worker_pool_stop], called when [sigwait] has returned: each pool is closed, and
    the workers, who leave when their queue is empty and they have nothing in
    hand, are joined. *)
Inductive stop_workers : state -> state -> Prop :=
  | w_stop_fast st :
      main st = Serving -> stop_workers st (State (served st) true (slow_closed st) StopSlow)
  | w_stop_slow st :
      main st = StopSlow -> stop_workers st (State (served st) (fast_closed st) true JoinPools)
  | w_join st :
      main st = JoinPools -> waiting (served st) = [] -> running (served st) = [] ->
      stop_workers st (State (served st) (fast_closed st) (slow_closed st) (Draining 0)).

(** [server_drain_reactor_queues]: it sleeps while the queue of reactor [i] is not
    empty. *)
Inductive server_drain_reactor_queues : state -> state -> Prop :=
  | d_sleep i t ts st :
      main st = Draining i -> completed (served st) !! i = Some (t :: ts) -> server_drain_reactor_queues st st
  | d_next i st :
      main st = Draining i -> completed (served st) !! i = Some [] ->
      server_drain_reactor_queues st (State (served st) (fast_closed st) (slow_closed st) (Draining (S i)))
  | d_drained st :
      main st = Draining (length (completed (served st))) ->
      server_drain_reactor_queues st (State (served st) (fast_closed st) (slow_closed st) Breaking).

(** The main thread in [wait_and_shutdown] and all the others *)
Inductive shutdown_step : state -> state -> Prop :=
  | s_server s' st :
      main st <> Ended -> server_step cfg secret (served st) s' -> respects_closed st s' ->
      shutdown_step st (State s' (fast_closed st) (slow_closed st) (main st))
  | s_stop st st' : stop_workers st st' -> shutdown_step st st'
  | s_drain st st' : server_drain_reactor_queues st st' -> shutdown_step st st'
  (** [server_shutdown_workers] and [pthread_join]: a loop ends when the callback that
      it runs has returned *)
  | s_break st :
      main st = Breaking -> concat (taken (served st)) = [] -> shutdown_step st (State (served st) (fast_closed st) (slow_closed st) Ended).

Definition serving (s : server) : state := State s false false Serving.

Definition shutdown_reachable (pool_size n : nat) (st : state) : Prop :=
  exists p, task_pool_init pool_size true = Some p
    /\ rtc shutdown_step (serving (server_initial p n)) st.

(** ** The server inside *)

(** Every run of the shutdown is a run of the server. *)
Lemma shutdown_server_reachable (pool_size n : nat) (st : state) :
  shutdown_reachable pool_size n st -> server_reachable cfg secret pool_size n (served st).
Proof.
  intros (p & Hp & Hr). assert (server_reachable cfg secret pool_size n (served (serving (server_initial p n)))) as H
    by by apply server_start.
  induction Hr as [st|st st1 st' Hs _ IH]; [done|]. apply IH. destruct Hs as [|? ? []|? ? []|]; try done. by eapply server_next.
Qed.

(** Before a signal the server does whatever it can do. *)
Lemma serving_reachable (pool_size n : nat) (s : server) :
  server_reachable cfg secret pool_size n s -> shutdown_reachable pool_size n (serving s).
Proof.
  induction 1 as [p Hp|s s' _ (p & Hp & IH) Hs]; [exists p; split; [done|apply rtc_refl]|].
  exists p. split; [done|]. eapply rtc_r; [exact IH|]. apply (s_server s' (serving s)); [done..|].
  intros t x _ _. unfold pool_closed. by destruct (match middleware_ctx x with Some _ => _ | None => _ end).
Qed.

(** A server whose pools and workers are empty gets work only from a new
    request; an empty completion queue stays empty. *)
Lemma quiet_step (pool_size n : nat) (s s' : server) :
  server_reachable cfg secret pool_size n s -> server_step cfg secret s s' -> waiting s = [] -> running s = [] ->
  (waiting s' = [] \/ exists t x, waiting s' = [t] /\ slab s' !! t = Some x)
  /\ running s' = [] /\ length (completed s') = length (completed s)
  /\ forall i, completed s !! i = Some [] -> completed s' !! i = Some [].
Proof.
  intros Hr Hs Hw Hrun.
  destruct Hs as [i cache ok p cache' t r ctx start0 x0 x hs s Hi Hal Hx0 Hq
    |i cache ok p cache' t r ctx start0 acc x0 y reply s sys' Hi Hal Hx0 Hrep Hfree
    |i r ctx start0 acc reply s Hrep|i cache ok p cache' s Hi Hal|t s Ht|t a b s Ew
    |t a b x r time tok l y l' ts s Er Hx Hreq Hwr Hc|i s s' Hi Ht|i finish s s' Ha];
    cbn [waiting running completed with_sys request_on_complete_cb]; try (by auto).
  - rewrite Hw. split; [|done]. right. exists t, x. split; [done|]. unfold slab. cbn [sys shared set_task g_task_slab].
    apply list_lookup_insert_eq. by eapply lookup_lt_Some.
  - rewrite Hw in Ew. by destruct a.
  - rewrite Hrun in Er. by destruct a.
  - revert Ht. unfold take_completed. destruct (completed s !! i) as [ts|] eqn:Hc; [|done]. intros [= <-].
    cbn [waiting running completed]. rewrite length_insert. split; [by left|]. split; [done|]. split; [done|].
    intros j Hj. destruct (decide (i = j)) as [->|Hne].
    + apply list_lookup_insert_eq. by eapply lookup_lt_Some.
    + by rewrite list_lookup_insert_ne.
  - assert (exists t ts, taken s !! i = Some (t :: ts)) as (t & ts & Hi).
    { revert Ha. unfold answer_next. destruct (taken s !! i) as [[|t ts]|]; [done|by exists t, ts|done]. }
    destruct (answer_next_total cfg secret pool_size n i finish s t ts Hr Hi) as (s1 & E1 & _ & Ec & Ew & Er).
    assert (s1 = s') as -> by congruence. rewrite Ec, Ew, Er. by auto.
Qed.

(** ** The invariant *)

(** The queues before [k] are empty. *)
Definition emptied (k : nat) (s : server) : Prop := forall i, (i < k)%nat -> completed s !! i = Some [].

(** No task is queued and no worker is left. *)
Definition joined (st : state) : Prop :=
  fast_closed st = true /\ slow_closed st = true /\ waiting (served st) = [] /\ running (served st) = [].

Definition stage_ok (n : nat) (st : state) : Prop :=
  match main st with
  | Serving => True
  | StopSlow => fast_closed st = true
  | JoinPools => fast_closed st = true /\ slow_closed st = true
  | Draining i => joined st /\ (i <= n)%nat /\ emptied i (served st)
  | Breaking => joined st /\ emptied n (served st)
  | Ended => joined st /\ emptied n (served st) /\ concat (taken (served st)) = []
  end.

Lemma joined_step (pool_size n : nat) (st : state) (s' : server) :
  server_reachable cfg secret pool_size n (served st) -> server_step cfg secret (served st) s' ->
  respects_closed st s' -> joined st ->
  joined (State s' (fast_closed st) (slow_closed st) (main st))
  /\ forall k, emptied k (served st) -> emptied k s'.
Proof.
  intros Hr Hs Hrc (Hf & Hsl & Hw & Hrun). destruct (quiet_step pool_size n _ _ Hr Hs Hw Hrun) as (Hw' & Hrun' & _ & Hc).
  split; [|intros k Hk i Hi; by apply Hc, Hk].
  unfold joined. cbn [fast_closed slow_closed served]. split_and!; try done.
  destruct Hw' as [Hw'|(t & x & Hw' & Hx)]; [done|]. exfalso.
  specialize (Hrc t x). rewrite Hw in Hrc. specialize (Hrc Hw' Hx). unfold pool_closed in Hrc.
  rewrite Hf, Hsl in Hrc. by destruct (match middleware_ctx x with Some _ => _ | None => _ end).
Qed.

Lemma completed_length (pool_size n : nat) (s : server) :
  server_reachable cfg secret pool_size n s -> length (completed s) = n.
Proof. intros [_ H]%server_reachable_steady. by destruct H as (_ & _ & ? & _). Qed.

Lemma shutdown_step_ok (pool_size n : nat) (st st' : state) :
  server_reachable cfg secret pool_size n (served st) -> stage_ok n st -> shutdown_step st st' -> stage_ok n st'.
Proof.
  intros Hr Hok Hs. pose proof (completed_length _ _ _ Hr) as Hlen. unfold stage_ok in Hok.
  destruct Hs as [s' st Hm Hs Hrc|? ? [st E0|st E0|st E0 Hw Hrun]|? ? [i t ts st E0 Hc|i st E0 Hc|st E0]|st E0 Hk];
    try rewrite E0 in Hok; unfold stage_ok; cbn [main].
  - destruct (main st); try done.
    + destruct Hok as (Hj & Hi & He). destruct (joined_step _ _ _ _ Hr Hs Hrc Hj) as [Hj' He']. auto.
    + destruct Hok as (Hj & He). destruct (joined_step _ _ _ _ Hr Hs Hrc Hj) as [Hj' He']. auto.
  - done.
  - done.
  - split_and!; [|lia|intros i Hi; lia]. by destruct Hok.
  - by rewrite E0.
  - destruct Hok as (Hj & Hi & He). split; [done|]. apply lookup_lt_Some in Hc as Hlt. split; [lia|].
    intros j Hj'. destruct (decide (j = i)) as [->|]; [done|]. apply He. lia.
  - destruct Hok as (Hj & _ & He). by rewrite <- Hlen.
  - by destruct Hok.
Qed.

Lemma shutdown_reachable_ok (pool_size n : nat) (st : state) : shutdown_reachable pool_size n st -> stage_ok n st.
Proof.
  intros (p & Hp & Hr). remember (serving (server_initial p n)) as st0 eqn:E0.
  assert (shutdown_reachable pool_size n st0) as H0 by (subst; exists p; split; [done|apply rtc_refl]).
  assert (stage_ok n st0) as Hok by by subst. clear E0.
  induction Hr as [st|st st1 st' Hs _ IH]; [done|]. apply IH.
  - destruct H0 as (p' & Hp' & H0). exists p'. split; [done|]. by eapply rtc_r.
  - eapply shutdown_step_ok; [|done..]. by apply shutdown_server_reachable.
Qed.

(** ** The end *)

Lemma emptied_concat (l : list (list nat)) : (forall i, (i < length l)%nat -> l !! i = Some []) -> concat l = [].
Proof.
  induction l as [|ts l IH]; intros H; [done|].
  pose proof (H 0%nat ltac:(simpl; lia)) as [= ->]. cbn [concat app]. apply IH.
  intros i Hi. apply (H (S i)). simpl. lia.
Qed.

(** The same place of the main thread with another server. *)
Definition with_server (st : state) (s : server) : state := State s (fast_closed st) (slow_closed st) (main st).

Lemma reachable_trans (pool_size n : nat) (st st' : state) :
  shutdown_reachable pool_size n st -> rtc shutdown_step st st' -> shutdown_reachable pool_size n st'.
Proof. intros (p & Hp & H) H'. exists p. split; [done|]. by etrans. Qed.

(** A step of the server that queues nothing. *)
Lemma server_move (st : state) (s' : server) :
  main st <> Ended -> server_step cfg secret (served st) s' -> waiting s' = waiting (served st) ->
  shutdown_step st (with_server st s').
Proof.
  intros Hm Hs Hw. apply s_server; [done..|]. intros t x Hw' _. rewrite Hw in Hw'.
  apply (f_equal length) in Hw'. rewrite length_app in Hw'. simpl in Hw'. lia.
Qed.

(** The running callback of reactor [i] comes to its end. *)
Lemma finish_callback (pool_size n i : nat) (ts : list nat) (st : state) :
  shutdown_reachable pool_size n st -> main st <> Ended -> taken (served st) !! i = Some ts ->
  exists s', rtc shutdown_step st (with_server st s') /\ taken s' = <[i := []]> (taken (served st))
    /\ completed s' = completed (served st) /\ waiting s' = waiting (served st).
Proof.
  revert st. induction ts as [|t ts IH]; intros st Hr Hm Hi.
  { exists (served st). rewrite list_insert_id by done. split_and!; try done. destruct st; apply rtc_refl. }
  pose proof (shutdown_server_reachable _ _ _ Hr) as Hs.
  destruct (answer_next_total cfg secret pool_size n i (fun _ => (0, 0)%Z) _ t ts Hs Hi) as (s1 & E1 & K1 & C1 & W1 & _).
  assert (shutdown_step st (with_server st s1)) as H1 by (apply server_move; [done|by eapply step_answer|done]).
  destruct (IH (with_server st s1)) as (s' & R' & K' & C' & W').
  - by apply (reachable_trans _ _ st); [|apply rtc_once].
  - done.
  - cbn [served with_server]. rewrite K1. apply list_lookup_insert_eq. by eapply lookup_lt_Some.
  - cbn [served with_server] in *. exists s'. split; [by eapply rtc_l|].
    rewrite K', C', W', K1, C1, W1, list_insert_insert_eq. done.
Qed.

Lemma taken_lookup (pool_size n i : nat) (st : state) :
  shutdown_reachable pool_size n st -> (i < n)%nat -> exists ts, taken (served st) !! i = Some ts.
Proof.
  intros [Hk _]%shutdown_server_reachable%server_reachable_steady Hi.
  apply lookup_lt_is_Some_2. by rewrite Hk.
Qed.

(** One queue: its reactor ends the callback it may be in, takes what there is, and
    the main thread goes on. *)
Lemma drain_one (pool_size n i : nat) (st : state) :
  shutdown_reachable pool_size n st -> main st = Draining i -> (i < n)%nat ->
  exists st', rtc shutdown_step st st' /\ main st' = Draining (S i).
Proof.
  intros Hr Hm Hi. destruct (taken_lookup _ _ _ _ Hr Hi) as [ts Hk].
  destruct (finish_callback _ _ _ _ _ Hr ltac:(by rewrite Hm) Hk) as (s1 & R1 & K1 & C1 & _).
  assert (taken s1 !! i = Some []) as Hk1 by (rewrite K1; apply list_lookup_insert_eq; by eapply lookup_lt_Some).
  pose proof (reachable_trans _ _ _ _ Hr R1) as Hr1. pose proof (shutdown_server_reachable _ _ _ Hr1) as Hs1.
  cbn [served with_server] in Hs1. destruct (lookup_lt_is_Some_2 (completed s1) i) as [us Hc].
  { by rewrite (completed_length _ _ _ Hs1). }
  destruct (server_reachable_steady _ _ _ _ _ Hs1) as [_ Ho].
  destruct (orderly_taken n i us _ s1 Ho Hc) as (s2 & E2 & _ & _ & C2 & _ & W2 & _).
  exists (State s2 (fast_closed st) (slow_closed st) (Draining (S i))). split; [|done].
  etrans; [exact R1|]. eapply rtc_l; [apply (server_move _ s2)|]; cbn [main served with_server].
  - by rewrite Hm.
  - by eapply step_take.
  - done.
  - apply rtc_once, s_drain, (d_next i (with_server st s2)); [done|]. cbn [served with_server].
    rewrite C2. apply list_lookup_insert_eq. by eapply lookup_lt_Some.
Qed.

(** The reactors before [k] end their callbacks. *)
Lemma finish_callbacks (pool_size n k : nat) (st : state) :
  shutdown_reachable pool_size n st -> main st <> Ended -> (k <= n)%nat ->
  exists s', rtc shutdown_step st (with_server st s') /\ forall i, (i < k)%nat -> taken s' !! i = Some [].
Proof.
  intros Hr Hm. induction k as [|k IH]; intros Hk.
  { exists (served st). split; [destruct st; apply rtc_refl|]. lia. }
  destruct (IH ltac:(lia)) as (s1 & R1 & H1). pose proof (reachable_trans _ _ _ _ Hr R1) as Hr1.
  destruct (taken_lookup _ _ k _ Hr1 ltac:(lia)) as [ts Hts].
  destruct (finish_callback _ _ _ _ _ Hr1 Hm Hts) as (s2 & R2 & K2 & _).
  cbn [served with_server] in *. exists s2. split; [by etrans|]. intros i Hi. rewrite K2.
  destruct (decide (i = k)) as [->|Hne].
  - apply list_lookup_insert_eq. by eapply lookup_lt_Some.
  - rewrite list_lookup_insert_ne by done. apply H1. lia.
Qed.

Lemma end_loops (pool_size n : nat) (st : state) :
  shutdown_reachable pool_size n st -> main st = Breaking ->
  exists st', rtc shutdown_step st st' /\ main st' = Ended.
Proof.
  intros Hr Hm. destruct (finish_callbacks pool_size n n st Hr ltac:(by rewrite Hm) ltac:(lia)) as (s' & R & H).
  pose proof (reachable_trans _ _ _ _ Hr R) as [Hk _]%shutdown_server_reachable%server_reachable_steady.
  cbn [served with_server] in Hk. exists (State s' (fast_closed st) (slow_closed st) Ended). split; [|done].
  etrans; [exact R|]. apply rtc_once, (s_break (with_server st s')); [done|]. cbn [served with_server].
  apply emptied_concat. by rewrite Hk.
Qed.

Lemma drain_rest (pool_size n k i : nat) (st : state) :
  shutdown_reachable pool_size n st -> main st = Draining i -> (n = k + i)%nat ->
  exists st', rtc shutdown_step st st' /\ main st' = Ended.
Proof.
  revert i st. induction k as [|k IH]; intros i st Hr Hm Hn.
  - assert (shutdown_step st (State (served st) (fast_closed st) (slow_closed st) Breaking)) as H1.
    { apply s_drain, d_drained. rewrite Hm. f_equal.
      rewrite (completed_length pool_size n); [lia|]. by apply shutdown_server_reachable. }
    destruct (end_loops pool_size n _ (reachable_trans _ _ _ _ Hr (rtc_once _ _ H1)) eq_refl) as (st' & R & M).
    exists st'. split; [by eapply rtc_l|done].
  - destruct (drain_one pool_size n i st Hr Hm ltac:(lia)) as (st1 & R1 & M1).
    destruct (IH (S i) st1 (reachable_trans _ _ _ _ Hr R1) M1 ltac:(lia)) as (st' & R' & M').
    exists st'. split; [by etrans|done].
Qed.

(** C5: a shutdown loses no request. Whatever the reactors, the workers and the clients
    do while the server serves and shuts down, in every reachable state in which the
    main thread has come to its end, no task is leased, queued or in hand; each request
    that ever came has been answered or, its client being gone, released, exactly
    once; and each parsed document has been released. From the moment the pools
    are joined on, no request is queued any more, a drained queue stays empty,
    and in every reachable state from there the shutdown can be completed. *)
Theorem shutdown_loses_nothing (pool_size n : nat) (st : state) :
  shutdown_reachable pool_size n st ->
  (main st = Ended ->
     leased (sys (served st)) = [] /\ arrived (served st) ≡ₚ (sent (served st)).*1 ++ freed (served st)
     /\ parsed (served st) ≡ₚ put (served st))
  /\ (forall i, main st = Draining i \/ main st = Breaking /\ i = n ->
        waiting (served st) = [] /\ running (served st) = [] /\ emptied i (served st)
        /\ exists st', rtc shutdown_step st st' /\ main st' = Ended).
Proof.
  intros Hr. pose proof (shutdown_reachable_ok _ _ _ Hr) as Hok. unfold stage_ok in Hok.
  pose proof (shutdown_server_reachable _ _ _ Hr) as Hs. split.
  - intros Hm. rewrite Hm in Hok. destruct Hok as ((_ & _ & Hw & Hrun) & He & Hk).
    unfold emptied in He. rewrite <- (completed_length _ _ _ Hs) in He. apply emptied_concat in He.
    apply server_reachable_steady in Hs as (_ & _ & _ & _ & P & _ & _ & Ha & Hp & _).
    rewrite Hw, Hrun, He, Hk in P. apply Permutation_nil_r in P. rewrite P in Ha, Hp.
    cbn in Ha, Hp. by rewrite app_nil_r in Ha, Hp.
  - intros i [Hm|[Hm ->]]; rewrite Hm in Hok; destruct Hok as ((_ & _ & Hw & Hrun) & He); (split_and!; try done).
    + by destruct He.
    + apply (drain_rest pool_size n (n - i) i); [done..|lia].
    + by apply (end_loops pool_size n).
Qed.

End Shutdown.

(** ** A concrete run *)

Import JsonC.Model SodiumModel HttpModel.

Abbreviation reach_state := (shutdown_reachable (J := model_json_c) (Tk := model_tokener) (So := model_sodium)
  (E := model_evhttp) Server.Example.cfg [] 3 2).

Abbreviation step_of := (shutdown_step (J := model_json_c) (Tk := model_tokener) (So := model_sodium)
  (E := model_evhttp) Server.Example.cfg []).

(** The signal comes when the request of [Reactor.sample_run] is in the completion
    queue of the second reactor. *)
Lemma drain_reachable :
  exists st, reach_state st /\ main st = Draining 0 /\ completed (served st) = [[]; [0%nat]]
    /\ taken (served st) = [[]; []].
Proof.
  destruct sample_run_reachable as (s & E0 & R & _).
  assert (option_map (fun s => (waiting s, running s, completed s, taken s)) sample_run
    = Some ([], [], [[]; [0%nat]], [[]; []])) as H by (vm_compute; reflexivity).
  rewrite E0 in H. injection H as Hw Hrun Hc Hk.
  destruct (serving_reachable _ _ _ _ _ R) as (p & Hp & R').
  exists (State s true true (Draining 0)). split; [|done]. exists p. split; [exact Hp|].
  eapply rtc_r; [eapply rtc_r; [eapply rtc_r; [exact R'|]|]|]; [by apply s_stop, w_stop_fast|by apply s_stop, w_stop_slow|].
  by apply s_stop, w_join.
Qed.

(** The drain waits for the callbacks to take their tasks and not for the answers:
    the main thread can go on to end the loops while a task is unanswered. *)
Lemma drain_before_answers :
  exists st, reach_state st /\ main st = Breaking /\ taken (served st) = [[]; [0%nat]].
Proof.
  destruct drain_reachable as ([s f c m] & R & Hm & Hc & Hk). cbn [main served] in *. subst m.
  set (s' := ServerState (sys s) (waiting s) (running s) [[]; []] [[]; [0%nat]] (g_reactor_stats s) (arrived s)
    (sent s) (freed s) (parsed s) (put s)).
  exists (State s' f c Breaking). split; [|done]. apply (reachable_trans _ _ _ _ _ _ R).
  eapply rtc_l; [apply (server_move _ _ (State s f c (Draining 0)) s'); [done| |done]|].
  { eapply (step_take _ _ 1); cbn [served]; [by rewrite Hk|]. unfold take_completed. by rewrite Hc, Hk. }
  eapply rtc_l; [by apply s_drain, (d_next 0)|]. eapply rtc_l; [by apply s_drain, (d_next 1)|].
  by apply rtc_once, s_drain, d_drained.
Qed.

Lemma shutdown_loses_nothing_witness :
  exists st, reach_state st /\ main st = Draining 0 /\ waiting (served st) = []
    /\ exists st', rtc step_of st st' /\ main st' = Ended.
Proof.
  destruct drain_reachable as (st & R & Hm & _). exists st. split; [exact R|]. split; [exact Hm|].
  destruct (proj2 (shutdown_loses_nothing (J := model_json_c) (Tk := model_tokener) (So := model_sodium)
    (E := model_evhttp) Server.Example.cfg [] 3 2 st R) 0 (or_introl Hm)) as (Hw & _ & _ & Hend).
  split; [exact Hw|exact Hend].
Defined.

End Shutdown.
