(* ===== verification/Resources.v ===== *)
(** * lib/server.c, lib/worker_pool.c: what start-up acquires and shutdown releases

    The world counts the resources that are held: a resource released while
    it is not held (a second [free], a [close] of another file, a [pthread_join]
    of no thread, a [pthread_mutex_destroy] of no mutex) is noted as a fault.
    Every call whose result the code checks asks [ok], in the order of the calls.
    The calls whose results the code ignores ([oath_init], [curl_global_init], the
    inits of mutexes and condition variables, the freeing of the ODBC environment)
    ask [unchecked] of their resource, of which there is one call each.  A
    [LOG_FATAL] ends the process, since [logger_log] calls [exit] at that level,
    and the code after it is not reached.  [pthread_join] of a worker whose pool has
    not been told to stop blocks for ever. *)

From S2P Require Import Prelude Worker.

Module Resources.

(** ** Resources and the world *)

Inductive pool_id := FastPool | SlowPool.

Inductive resource :=
  | Stats | Bases | Queues | Slab | Barrier | OdbcEnv | Oath | Curl
  | QueueMutex (i : nat) | Fd (fd : nat)
  | PoolMutex (p : pool_id) | PoolCond (p : pool_id) | WorkerArray (p : pool_id) | WorkerThread (p : pool_id) (i : nat)
  | Threads | EventConfig (i : nat) | EventBase (i : nat) | EfdEvent (i : nat) | Http (i : nat).

#[export] Instance pool_id_eq_dec : EqDecision pool_id.
Proof. solve_decision. Defined.

#[export] Instance resource_eq_dec : EqDecision resource.
Proof. solve_decision. Defined.

(** The fields of [pool_t] that start and stop use. *)
Record worker_pool := PoolState {
  initialized : bool;
  num_workers : nat;
  workers : bool;
  stopping : bool;
}.

(** The statics of [server.c] and [worker_pool.c]; a pointer is whether it is
    not null, [g_reactor_queues] the [eventfd] fields of its elements. *)
Record globals := Globals {
  g_reactor_stats : bool;
  g_reactor_bases : bool;
  g_reactor_queues : option (list nat);
  g_num_reactors : nat;
  g_task_slab : bool;
  g_odbc_env : bool;
  g_fast_pool : worker_pool;
  g_slow_pool : worker_pool;
}.

Record process := World {
  tick : nat;
  next_fd : nat;
  held : list resource;
  fault : bool;
  glob : globals;
}.

Definition no_pool : worker_pool := PoolState false 0 false false.

(** A process as [main] finds it: the standard streams are not its own. *)
Definition fresh_world : process := World 0 3 [] false (Globals false false None 0 false false no_pool no_pool).

(** ** Effects *)

(** A computation is done with an answer, has ended the process, or waits for
    ever. *)
Inductive outcome (A : Type) := Done (a : A) | Exited | Blocked.
Arguments Done {A} a.
Arguments Exited {A}.
Arguments Blocked {A}.

Section Effects.
Context (ok : nat -> bool) (unchecked : resource -> bool).

Definition L (A : Type) : Type := process -> outcome A * process.

#[local] Instance L_ret : MRet L := fun A a w => (Done a, w).
#[local] Instance L_bind : MBind L := fun A B k m w =>
  match m w with
  | (Done a, w) => k a w
  | (Exited, w) => (Exited, w)
  | (Blocked, w) => (Blocked, w)
  end.

(** [LOG_FATAL] *)
Definition fatal {A} : L A := fun w => (Exited, w).

Definition blocked {A} : L A := fun w => (Blocked, w).

(** Whether the next call succeeds. *)
Definition ask : L bool := fun w =>
  (Done (ok (tick w)), World (S (tick w)) (next_fd w) (held w) (fault w) (glob w)).

Definition acquire (r : resource) : L unit := fun w =>
  (Done tt, World (tick w) (next_fd w) (r :: held w) (fault w) (glob w)).

Fixpoint drop_one (r : resource) (l : list resource) : list resource :=
  match l with
  | [] => []
  | x :: l => if decide (x = r) then l else x :: drop_one r l
  end.

Definition release (r : resource) : L unit := fun w =>
  (Done tt, World (tick w) (next_fd w) (drop_one r (held w))
              (fault w || negb (bool_decide (r ∈ held w))) (glob w)).

Definition get : L globals := fun w => (Done (glob w), w).
Definition modify (f : globals -> globals) : L unit := fun w =>
  (Done tt, World (tick w) (next_fd w) (held w) (fault w) (f (glob w))).

(** [socket], [eventfd]: a new descriptor. *)
Definition open_fd : L nat := fun w =>
  (Done (next_fd w), World (tick w) (S (next_fd w)) (Fd (next_fd w) :: held w) (fault w) (glob w)).

Definition when (b : bool) (m : L unit) : L unit := if b then m else mret tt.

(** A call on [r] whose result the code ignores. *)
Definition try_acquire (r : resource) : L unit := when (unchecked r) (acquire r).
Definition try_release (r : resource) : L unit := when (unchecked r) (release r).

(** [for (size_t i = 0; i < n; ++i)] *)
Fixpoint for_each (n i : nat) (body : nat -> L unit) : L unit :=
  match n with
  | 0 => mret tt
  | S n => body i;; for_each n (S i) body
  end.

(** ** lib/worker_pool.c *)

Definition pool_at (p : pool_id) (g : globals) : worker_pool :=
  match p with FastPool => g_fast_pool g | SlowPool => g_slow_pool g end.

Definition set_pool (p : pool_id) (x : worker_pool) (g : globals) : globals :=
  let fast := match p with FastPool => x | SlowPool => g_fast_pool g end in
  let slow := match p with FastPool => g_slow_pool g | SlowPool => x end in
  Globals (g_reactor_stats g) (g_reactor_bases g) (g_reactor_queues g) (g_num_reactors g) (g_task_slab g)
    (g_odbc_env g) fast slow.

(** The loop of [init_pool]: the threads created before the first failure. *)
Fixpoint create_workers (p : pool_id) (n i : nat) : L bool :=
  match n with
  | 0 => mret true
  | S n =>
      created ← ask;
      if created : bool then acquire (WorkerThread p i);; create_workers p n (S i)
      else
        modify (fun g => set_pool p (PoolState (initialized (pool_at p g)) i (workers (pool_at p g)) (stopping (pool_at p g))) g);;
        mret false
  end.

Definition init_pool (p : pool_id) (n : nat) : L bool :=
  try_acquire (PoolMutex p);; try_acquire (PoolCond p);;
  modify (fun g => set_pool p (PoolState true n (workers (pool_at p g)) (stopping (pool_at p g))) g);;
  allocated ← ask;
  if allocated : bool then
    acquire (WorkerArray p);;
    modify (fun g => set_pool p (PoolState true n true (stopping (pool_at p g))) g);;
    create_workers p n 0
  else fatal.

(** The shutdown flag of one pool in [worker_pool_stop]. *)
Definition raise_stop (p : pool_id) : L unit :=
  g ← get;
  when (initialized (pool_at p g))
    (modify (set_pool p (PoolState true (num_workers (pool_at p g)) (workers (pool_at p g)) true))).

(** [pthread_join] of a worker: it ends once its pool has been told to stop. *)
Definition pthread_join (p : pool_id) (i : nat) : L unit :=
  g ← get;
  if stopping (pool_at p g) then release (WorkerThread p i) else blocked.

(** Joining and freeing the workers of one pool there. *)
Definition join_workers (p : pool_id) : L unit :=
  g ← get;
  when (workers (pool_at p g))
    (for_each (num_workers (pool_at p g)) 0 (pthread_join p);;
     release (WorkerArray p);;
     modify (fun g => set_pool p (PoolState (initialized (pool_at p g)) (num_workers (pool_at p g)) false (stopping (pool_at p g))) g)).

Definition worker_pool_stop : L unit :=
  raise_stop FastPool;; raise_stop SlowPool;; join_workers FastPool;; join_workers SlowPool.

Definition destroy_pool (p : pool_id) : L unit :=
  g ← get;
  when (initialized (pool_at p g))
    (release (PoolMutex p);; release (PoolCond p);;
     modify (fun g => set_pool p (PoolState false (num_workers (pool_at p g)) (workers (pool_at p g)) (stopping (pool_at p g))) g)).

Definition worker_pool_shutdown : L unit := worker_pool_stop;; destroy_pool FastPool;; destroy_pool SlowPool.

(** [pct] is the configured percentage. *)
Definition worker_pool_init (num pct : Z) : L bool :=
  let '(fast, slow) := Worker.split_workers num pct in
  fast_ok ← init_pool FastPool (Z.to_nat fast);
  if fast_ok : bool then
    slow_ok ← init_pool SlowPool (Z.to_nat slow);
    if slow_ok : bool then mret true else worker_pool_shutdown;; mret false
  else worker_pool_shutdown;; mret false.

Definition worker_pool_get_size (g : globals) : nat := num_workers (g_fast_pool g) + num_workers (g_slow_pool g).

(** ** lib/server.c *)

Definition set_server (stats bases : bool) (queues : option (list nat)) (slab env : bool) (g : globals) : globals :=
  Globals stats bases queues (g_num_reactors g) slab env (g_fast_pool g) (g_slow_pool g).

(** The libraries of [init_server_metadata]; the names and times it stores are
    read by the handlers only ([Handlers.outside]). *)
Definition init_server_metadata (num_reactors : nat) : L unit :=
  evthread_ok ← ask;
  if negb evthread_ok then fatal else
  modify (fun g => Globals (g_reactor_stats g) (g_reactor_bases g) (g_reactor_queues g) num_reactors (g_task_slab g)
                     (g_odbc_env g) (g_fast_pool g) (g_slow_pool g));;
  sodium_ok ← ask;
  if negb sodium_ok then fatal else
  try_acquire Oath;; try_acquire Curl;;
  env_ok ← ask;
  if negb env_ok then fatal else
  acquire OdbcEnv;;
  modify (fun g => set_server (g_reactor_stats g) (g_reactor_bases g) (g_reactor_queues g) (g_task_slab g) true g);;
  version_ok ← ask;
  if negb version_ok then fatal else mret tt.

(** [task_pool_init], whose data [TaskPool] models. *)
Definition allocate_slab : L unit :=
  allocated ← ask;
  if negb allocated then fatal else
  acquire Slab;;
  modify (fun g => set_server (g_reactor_stats g) (g_reactor_bases g) (g_reactor_queues g) true (g_odbc_env g) g).

(** [task_pool_shutdown] *)
Definition release_slab : L unit :=
  g ← get;
  when (g_task_slab g)
    (release Slab;;
     modify (fun g => set_server (g_reactor_stats g) (g_reactor_bases g) (g_reactor_queues g) false (g_odbc_env g) g)).

(** The loop over the queues: their mutexes and event descriptors. *)
Fixpoint open_queues (n i : nat) (fds : list nat) : L (list nat) :=
  match n with
  | 0 => mret fds
  | S n =>
      try_acquire (QueueMutex i);;
      opened ← ask;
      if negb opened then fatal else
      fd ← open_fd;
      open_queues n (S i) (<[i := fd]> fds)
  end.

Definition init_reactor_queues (num pct : Z) : L bool :=
  stats ← ask; when stats (acquire Stats);;
  bases ← ask; when bases (acquire Bases);;
  queues ← ask; when queues (acquire Queues);;
  g ← get;
  let n := g_num_reactors g in
  let set fds := modify (fun g => set_server stats bases (if queues : bool then Some fds else None)
                                    (g_task_slab g) (g_odbc_env g) g) in
  set (replicate n 0);;
  if negb (stats && bases && queues) then mret false else
  fds ← open_queues n 0 (replicate n 0);
  set fds;;
  barrier_ok ← ask;
  if negb barrier_ok then fatal else
  acquire Barrier;;
  worker_pool_init num pct.

Definition cleanup_external_libraries : L unit :=
  g ← get;
  when (g_odbc_env g)
    (try_release OdbcEnv;;
     modify (fun g => set_server (g_reactor_stats g) (g_reactor_bases g) (g_reactor_queues g) (g_task_slab g) false g));;
  release Oath;; release Curl.

(** The loop of [server_cleanup_globals]; no descriptor is negative. *)
Fixpoint close_queues (i : nat) (fds : list nat) : L unit :=
  match fds with
  | [] => mret tt
  | fd :: fds => release (Fd fd);; release (QueueMutex i);; close_queues (S i) fds
  end.

Definition server_cleanup_globals : L unit :=
  worker_pool_shutdown;; release_slab;;
  g ← get;
  when (g_reactor_stats g) (release Stats);;
  when (g_reactor_bases g) (release Bases);;
  modify (fun g => set_server false false (g_reactor_queues g) (g_task_slab g) (g_odbc_env g) g);;
  match g_reactor_queues g with
  | None => cleanup_external_libraries
  | Some fds =>
      close_queues 0 fds;;
      release Queues;;
      modify (fun g => set_server false false None (g_task_slab g) (g_odbc_env g) g);;
      release Barrier;; cleanup_external_libraries
  end.

(** [server_init_globals]; [num] is the number of workers it configures. *)
Definition server_init_globals (num_reactors : nat) (num pct : Z) : L bool :=
  init_server_metadata num_reactors;;
  allocate_slab;;
  queues_ok ← init_reactor_queues num pct;
  if queues_ok : bool then mret true else server_cleanup_globals;; mret false.

(** ** create_and_bind_socket *)

(** The calls between [socket] and success, in their order: the first that fails
    closes the socket. *)
Definition SOCKET_CALLS : list string :=
  ["evutil_make_socket_nonblocking"; "SO_REUSEPORT"; "SO_KEEPALIVE"; "SO_REUSEADDR"; "TCP_KEEPIDLE"; "inet_pton";
   "bind"; "listen"]%string.

Fixpoint socket_calls (fd : nat) (calls : list string) : L (option nat) :=
  match calls with
  | [] => mret (Some fd)
  | _ :: calls =>
      succeeded ← ask;
      if succeeded : bool then socket_calls fd calls else release (Fd fd);; mret None
  end.

Definition create_and_bind_socket : L (option nat) :=
  opened ← ask;
  if negb opened then mret None else
  fd ← open_fd;
  socket_calls fd SOCKET_CALLS.

(** ** Cleaning up never ends the process *)

(** [m] does not end the process. *)
Definition survives {A} (m : L A) : Prop := forall w, (m w).1 <> Exited.

Lemma survives_bind {A B} (m : L A) (k : A -> L B) : survives m -> (forall a, survives (k a)) -> survives (m ≫= k).
Proof. intros Hm Hk w. unfold mbind, L_bind. specialize (Hm w). destruct (m w) as [[a| |] w']; [apply Hk|done|done]. Qed.

Lemma survives_when (b : bool) (m : L unit) : survives m -> survives (when b m).
Proof. intros Hm. destruct b; [done|]. by intros w. Qed.

Lemma survives_release (r : resource) : survives (release r).
Proof. by intros w. Qed.

Lemma survives_modify (f : globals -> globals) : survives (modify f).
Proof. by intros w. Qed.

Lemma survives_get : survives get.
Proof. by intros w. Qed.

Lemma survives_for_each (n i : nat) (body : nat -> L unit) : (forall i, survives (body i)) -> survives (for_each n i body).
Proof.
  intros Hb. revert i. induction n as [|n IH]; intros i; [by intros w|].
  by apply survives_bind.
Qed.

Lemma survives_join (p : pool_id) (i : nat) : survives (pthread_join p i).
Proof.
  unfold pthread_join. apply survives_bind; [apply survives_get|]. intros g.
  destruct (stopping (pool_at p g)); by intros w.
Qed.

Lemma survives_close (i : nat) (fds : list nat) : survives (close_queues i fds).
Proof.
  revert i. induction fds as [|fd fds IH]; intros i; [by intros w|].
  repeat (apply survives_bind; [apply survives_release|intros _]). apply IH.
Qed.

Ltac survives_tac :=
  repeat first [apply survives_join | apply survives_bind; [|intros ?] | apply survives_when | apply survives_release | apply survives_modify
    | apply survives_get | apply survives_close | apply survives_for_each; intros ?].

Lemma cleanup_survives : survives server_cleanup_globals.
Proof.
  assert (survives cleanup_external_libraries) as HC by (unfold cleanup_external_libraries, try_release; survives_tac).
  unfold server_cleanup_globals, worker_pool_shutdown, worker_pool_stop, raise_stop, join_workers, destroy_pool,
    release_slab. survives_tac.
  match goal with |- survives (match ?q with _ => _ end) => destruct q end; [survives_tac|]; exact HC.
Qed.

(** ** Specifications *)

(** [m] from a world of [P] ends the process or answers as [Q] says; it does not
    block. *)
Definition triple {A} (P : process -> Prop) (m : L A) (Q : A -> process -> Prop) : Prop :=
  forall w, P w -> match m w with (Done a, w') => Q a w' | (Exited, _) => True | (Blocked, _) => False end.

Section Counting.

(** If [exact], exactly the resources [R] are held, without a fault so far. *)
Context (exact : Prop).

Definition holds (R : list resource) (g : globals) (w : process) : Prop :=
  (exact -> held w ≡ₚ R /\ fault w = false) /\ glob w = g.

(** That needs that no ignored call fails. *)
Hypothesis Hexact : exact -> forall r, unchecked r = true.

Lemma triple_bind {A B} (P : process -> Prop) (Q : A -> process -> Prop) (S : B -> process -> Prop) (m : L A) (k : A -> L B) :
  triple P m Q -> (forall a, triple (Q a) (k a) S) -> triple P (m ≫= k) S.
Proof.
  intros Hm Hk w Hw. unfold mbind, L_bind. specialize (Hm w Hw). destruct (m w) as [[a| |] w']; [|done..].
  by apply Hk.
Qed.

Lemma triple_ret {A} (Q : A -> process -> Prop) (a : A) : triple (Q a) (mret a) Q.
Proof. by intros w Hw. Qed.

Lemma triple_weaken {A} (P P' : process -> Prop) (Q Q' : A -> process -> Prop) (m : L A) :
  triple P m Q -> (forall w, P' w -> P w) -> (forall a w, Q a w -> Q' a w) -> triple P' m Q'.
Proof.
  intros Hm HP HQ w Hw. specialize (Hm w (HP w Hw)). destruct (m w) as [[a| |] w']; [|done..]. by apply HQ.
Qed.

Lemma triple_fatal {A} (P : process -> Prop) (Q : A -> process -> Prop) : triple P fatal Q.
Proof. by intros w _. Qed.

Lemma triple_ask (R : list resource) (g : globals) : triple (holds R g) ask (fun _ => holds R g).
Proof. by intros w Hw. Qed.

Lemma triple_get (R : list resource) (g : globals) : triple (holds R g) get (fun g' w => g' = g /\ holds R g w).
Proof. intros w Hw. cbn. split; [by destruct Hw as (_ & ->)|done]. Qed.

Lemma triple_modify (R : list resource) (g : globals) (f : globals -> globals) :
  triple (holds R g) (modify f) (fun _ => holds R (f g)).
Proof. intros w (Hh & Hg). unfold holds. cbn. by rewrite Hg. Qed.

Lemma triple_acquire (R : list resource) (g : globals) (r : resource) :
  triple (holds R g) (acquire r) (fun _ => holds (r :: R) g).
Proof. intros w (Hh & Hg). split; [|done]. intros He. destruct (Hh He) as [Hp Hf]. cbn. by rewrite Hp. Qed.

Lemma triple_open_fd (R : list resource) (g : globals) :
  triple (holds R g) open_fd (fun fd => holds (Fd fd :: R) g).
Proof. intros w (Hh & Hg). split; [|done]. intros He. destruct (Hh He) as [Hp Hf]. cbn. by rewrite Hp. Qed.

Lemma drop_one_perm (r : resource) (l : list resource) : r ∈ l -> l ≡ₚ r :: drop_one r l.
Proof.
  induction l as [|x l IH]; intros Hin; [by apply not_elem_of_nil in Hin|]. cbn [drop_one].
  destruct (decide (x = r)) as [->|Hne]; [done|].
  apply elem_of_cons in Hin as [->|Hin]; [done|]. rewrite <- Permutation_swap. by constructor; apply IH.
Qed.

Lemma triple_release (R R' : list resource) (g : globals) (r : resource) :
  R ≡ₚ r :: R' -> triple (holds R g) (release r) (fun _ => holds R' g).
Proof.
  intros P w (Hh & Hg). unfold release. cbn. split; [|done]. intros He. destruct (Hh He) as [Hp Hf].
  rewrite P in Hp. assert (r ∈ held w) as Hin by (rewrite Hp; by left). cbn. split.
  - apply (Permutation_cons_inv (a := r)). by rewrite <- Hp, <- drop_one_perm.
  - by rewrite Hf, bool_decide_eq_true_2.
Qed.

Lemma triple_try_acquire (R : list resource) (g : globals) (r : resource) :
  triple (holds R g) (try_acquire r) (fun _ => holds (r :: R) g).
Proof.
  unfold try_acquire. destruct (unchecked r) eqn:E; [apply triple_acquire|].
  intros w [_ Hg]. split; [|done]. intros He. by rewrite Hexact in E.
Qed.

Lemma triple_try_release (R R' : list resource) (g : globals) (r : resource) :
  R ≡ₚ r :: R' -> triple (holds R g) (try_release r) (fun _ => holds R' g).
Proof.
  intros P. unfold try_release. destruct (unchecked r) eqn:E; [by apply triple_release|].
  intros w [_ Hg]. split; [|done]. intros He. by rewrite Hexact in E.
Qed.

Lemma triple_holds {A} (R R' : list resource) (g : globals) (m : L A) (Q : A -> process -> Prop) :
  R ≡ₚ R' -> triple (holds R' g) m Q -> triple (holds R g) m Q.
Proof.
  intros P Hm. eapply triple_weaken; [exact Hm| |done]. intros w (Hh & ?). split; [by rewrite <- P|done].
Qed.

Lemma triple_seq {A B} (P Q : process -> Prop) (S : B -> process -> Prop) (m : L A) (k : L B) :
  triple P m (fun _ => Q) -> triple Q k S -> triple P (m ≫= fun _ => k) S.
Proof. intros Hm Hk. eapply triple_bind; [exact Hm|done]. Qed.

Lemma holds_perm (R R' : list resource) (g : globals) (w : process) : R ≡ₚ R' -> holds R g w -> holds R' g w.
Proof. intros P [Hh Hg]. split; [|done]. by rewrite <- P. Qed.

(** What follows a look at the globals knows them. *)
Lemma triple_get_bind {B} (R : list resource) (g : globals) (k : globals -> L B) (S : B -> process -> Prop) :
  triple (holds R g) (k g) S -> triple (holds R g) (get ≫= k) S.
Proof.
  intros Hk. eapply triple_bind; [apply triple_get|]. intros g' w (-> & Hw). by apply Hk.
Qed.

Definition held_if (b : bool) (r : resource) : list resource := if b then [r] else [].

Lemma triple_acquire_if (R : list resource) (g : globals) (b : bool) (r : resource) :
  triple (holds R g) (when b (acquire r)) (fun _ => holds (held_if b r ++ R) g).
Proof. destruct b; [apply triple_acquire|]. intros w Hw. exact Hw. Qed.

Lemma triple_release_if (R : list resource) (g : globals) (b : bool) (r : resource) :
  triple (holds (held_if b r ++ R) g) (when b (release r)) (fun _ => holds R g).
Proof. destruct b; [by apply triple_release|]. intros w Hw. exact Hw. Qed.

(** ** The worker pools *)

Definition pool_resources (p : pool_id) (x : worker_pool) : list resource :=
  if initialized x then
    [PoolMutex p; PoolCond p]
    ++ (if workers x then WorkerArray p :: (WorkerThread p <$> seq 0 (num_workers x)) else [])
  else [].

(** A pool with workers has been initialised. *)
Definition sane (x : worker_pool) : Prop := workers x = true -> initialized x = true.

(** A pool after [worker_pool_stop] and after [worker_pool_shutdown]. *)
Definition stopped (x : worker_pool) : worker_pool :=
  PoolState (initialized x) (num_workers x) false (if initialized x then true else stopping x).
Definition down (x : worker_pool) : worker_pool :=
  PoolState false (num_workers x) false (if initialized x then true else stopping x).

Lemma set_pool_same (p : pool_id) (g : globals) : set_pool p (pool_at p g) g = g.
Proof. by destruct p, g. Qed.

Lemma pool_set_pool (p : pool_id) (x : worker_pool) (g : globals) : pool_at p (set_pool p x g) = x.
Proof. by destruct p. Qed.

Lemma set_pool_twice (p : pool_id) (x y : worker_pool) (g : globals) : set_pool p x (set_pool p y g) = set_pool p x g.
Proof. by destruct p. Qed.

Lemma triple_join_threads (p : pool_id) (n i : nat) (R : list resource) (g : globals) :
  stopping (pool_at p g) = true ->
  triple (holds ((WorkerThread p <$> seq i n) ++ R) g) (for_each n i (pthread_join p)) (fun _ => holds R g).
Proof.
  intros Hp. revert i. induction n as [|n IH]; intros i; cbn [for_each seq fmap list_fmap app];
    [by intros w Hw|].
  eapply triple_seq; [|apply IH]. unfold pthread_join. apply triple_get_bind. rewrite Hp. by apply triple_release.
Qed.

Lemma triple_raise (p : pool_id) (x : worker_pool) (R : list resource) (g : globals) :
  pool_at p g = x ->
  triple (holds R g) (raise_stop p)
    (fun _ => holds R (set_pool p (PoolState (initialized x) (num_workers x) (workers x)
                                     (if initialized x then true else stopping x)) g)).
Proof.
  intros Hx. unfold raise_stop. apply triple_get_bind. rewrite Hx. destruct x as [[] n wk st]; cbn [initialized].
  - apply triple_modify.
  - intros w Hw. cbn. by rewrite <- Hx, set_pool_same.
Qed.

Lemma triple_join (p : pool_id) (x : worker_pool) (R : list resource) (g : globals) :
  pool_at p g = x -> sane x -> (initialized x = true -> stopping x = true) ->
  triple (holds (pool_resources p x ++ R) g) (join_workers p)
    (fun _ => let y := PoolState (initialized x) (num_workers x) false (stopping x) in
              holds (pool_resources p y ++ R) (set_pool p y g)).
Proof.
  intros Hx Hs Hst. unfold join_workers. apply triple_get_bind. rewrite Hx. destruct x as [ini n [] st]; cbn [workers num_workers].
  - assert (ini = true) as -> by by apply Hs. unfold pool_resources. cbn [initialized workers num_workers].
    eapply triple_seq; [|eapply triple_seq].
    + eapply triple_holds; [|apply (triple_join_threads p n 0
        (WorkerArray p :: [PoolMutex p; PoolCond p] ++ R)); rewrite Hx; by apply Hst].
      cbn [app]. solve_Permutation.
    + by apply triple_release.
    + eapply triple_weaken; [apply triple_modify|done|]. intros [] w Hw. cbv beta in Hw. by rewrite Hx in Hw.
  - intros w Hw. cbn. by rewrite <- Hx, set_pool_same, Hx.
Qed.

Lemma triple_destroy (p : pool_id) (x : worker_pool) (R : list resource) (g : globals) :
  pool_at p g = x -> workers x = false ->
  triple (holds (pool_resources p x ++ R) g) (destroy_pool p)
    (fun _ => holds R (set_pool p (PoolState false (num_workers x) false (stopping x)) g)).
Proof.
  intros Hx Hw. unfold destroy_pool. apply triple_get_bind. rewrite Hx. destruct x as [[] n wk st]; cbn in Hw; subst wk.
  - unfold pool_resources. cbn [initialized workers app num_workers]. eapply triple_seq; [|eapply triple_seq].
    + by apply triple_release.
    + by apply triple_release.
    + eapply triple_weaken; [apply triple_modify|done|]. intros [] w Hw. cbv beta in Hw. by rewrite Hx in Hw.
  - intros w Hw. cbn. by rewrite <- Hx, set_pool_same.
Qed.

Definition with_pools (f s : worker_pool) (g : globals) : globals := set_pool SlowPool s (set_pool FastPool f g).

Lemma triple_stop (f s : worker_pool) (R : list resource) (g : globals) :
  sane f -> sane s ->
  triple (holds (pool_resources FastPool f ++ pool_resources SlowPool s ++ R) (with_pools f s g)) worker_pool_stop
    (fun _ => holds (pool_resources FastPool (stopped f) ++ pool_resources SlowPool (stopped s) ++ R)
                (with_pools (stopped f) (stopped s) g)).
Proof.
  intros Hf Hs. unfold worker_pool_stop.
  set (raised x := PoolState (initialized x) (num_workers x) (workers x) (if initialized x then true else stopping x)).
  assert (forall p x, pool_resources p (raised x) = pool_resources p x) as Hr by done.
  assert (forall x, initialized (raised x) = true -> stopping (raised x) = true) as Hst by (by intros [[] ? ? ?]).
  eapply triple_seq; [by apply (triple_raise FastPool f)|]. eapply triple_seq; [by apply (triple_raise SlowPool s)|].
  rewrite <- (Hr FastPool f), <- (Hr SlowPool s).
  eapply triple_seq; [apply (triple_join FastPool (raised f)); auto; done|].
  eapply triple_holds; [|eapply triple_weaken; [apply (triple_join SlowPool (raised s)
    (pool_resources FastPool (stopped f) ++ R))|done|]]; try apply (Hst s); try done.
  - solve_Permutation.
  - intros [] w (Hh & Hg). split; [|exact Hg]. intros He. destruct (Hh He) as [Hp ?]. split; [|done]. rewrite Hp.
    change (PoolState (initialized (raised s)) (num_workers (raised s)) false (stopping (raised s))) with (stopped s).
    solve_Permutation.
Qed.

Lemma triple_shutdown (f s : worker_pool) (R : list resource) (g : globals) :
  sane f -> sane s ->
  triple (holds (pool_resources FastPool f ++ pool_resources SlowPool s ++ R) (with_pools f s g)) worker_pool_shutdown
    (fun _ => holds R (with_pools (down f) (down s) g)).
Proof.
  intros Hf Hs. unfold worker_pool_shutdown.
  eapply triple_seq; [by apply triple_stop|].
  eapply triple_seq; [by apply (triple_destroy FastPool (stopped f))|].
  by apply (triple_destroy SlowPool (stopped s)).
Qed.

(** ** Starting the workers *)

Lemma triple_create (p : pool_id) (n i : nat) (st : bool) (R : list resource) (g : globals) :
  triple (holds ((WorkerThread p <$> seq 0 i) ++ R) (set_pool p (PoolState true (i + n) true st) g))
    (create_workers p n i)
    (fun ok w => exists k, (ok = true -> k = i + n)
       /\ holds ((WorkerThread p <$> seq 0 k) ++ R) (set_pool p (PoolState true k true st) g) w).
Proof.
  revert i. induction n as [|n IH]; intros i; cbn [create_workers].
  { intros w Hw. exists i. rewrite Nat.add_0_r in *. done. }
  eapply triple_bind; [apply triple_ask|]. intros [].
  - eapply triple_seq; [apply triple_acquire|]. apply (triple_holds _ ((WorkerThread p <$> seq 0 (S i)) ++ R));
      [|eapply triple_weaken; [apply (IH (S i))| |]].
    + rewrite seq_S, fmap_app. cbn [fmap list_fmap]. solve_Permutation.
    + by rewrite Nat.add_succ_r.
    + cbv beta. by rewrite Nat.add_succ_r.
  - eapply triple_seq; [apply triple_modify|]. intros w Hw. cbn [mret L_ret]. exists i. split; [done|].
    by rewrite pool_set_pool, set_pool_twice in Hw.
Qed.

Lemma triple_init_pool (p : pool_id) (n : nat) (R : list resource) (g : globals) :
  pool_at p g = no_pool ->
  triple (holds R g) (init_pool p n)
    (fun ok w => exists k, (ok = true -> k = n)
       /\ holds (pool_resources p (PoolState true k true false) ++ R) (set_pool p (PoolState true k true false) g) w).
Proof.
  intros Hp. unfold init_pool. eapply triple_seq; [apply triple_try_acquire|]. eapply triple_seq; [apply triple_try_acquire|].
  eapply triple_seq; [apply triple_modify|]. eapply triple_bind; [apply triple_ask|]. intros []; [|apply triple_fatal].
  eapply triple_seq; [apply triple_acquire|]. eapply triple_seq; [apply triple_modify|].
  cbv beta. rewrite !pool_set_pool, set_pool_twice, Hp. cbn [stopping no_pool].
  eapply triple_weaken; [apply (triple_create p n 0 false (WorkerArray p :: PoolCond p :: PoolMutex p :: R))|done|].
  intros b w (k & Hk & Hw). exists k. split; [done|]. revert Hw. apply holds_perm.
  unfold pool_resources. cbn [initialized workers num_workers]. solve_Permutation.
Qed.

(** The workers are all there, or none and nothing of their pools. *)
Definition pools_started (fast slow : nat) (R : list resource) (g : globals) (ok : bool) (w : process) : Prop :=
  if ok then
    let up n := PoolState true n true false in
    holds (pool_resources FastPool (up fast) ++ pool_resources SlowPool (up slow) ++ R) (with_pools (up fast) (up slow) g) w
  else exists f s, initialized f = false /\ initialized s = false /\ workers f = false /\ workers s = false
    /\ holds R (with_pools f s g) w.

Lemma triple_worker_pool_init (num pct : Z) (R : list resource) (g : globals) :
  g_fast_pool g = no_pool -> g_slow_pool g = no_pool ->
  triple (holds R g) (worker_pool_init num pct)
    (pools_started (Z.to_nat (Worker.split_workers num pct).1) (Z.to_nat (Worker.split_workers num pct).2) R g).
Proof.
  intros Hf Hs. unfold worker_pool_init. destruct (Worker.split_workers num pct) as [fast slow]. cbn [fst snd].
  assert (forall f s, sane f -> sane s -> triple
    (holds (pool_resources FastPool f ++ pool_resources SlowPool s ++ R) (with_pools f s g))
    (worker_pool_shutdown;; mret false)
    (pools_started (Z.to_nat fast) (Z.to_nat slow) R g)) as Hfail.
  { intros f s Sf Ss. eapply triple_seq; [by apply triple_shutdown|]. intros w Hw. cbn.
    by exists (down f), (down s). }
  eapply triple_bind; [by apply (triple_init_pool FastPool)|]. intros [].
  2:{ intros w (k & _ & Hw). apply (Hfail (PoolState true k true false) no_pool); [done..|].
      unfold with_pools. change (set_pool SlowPool no_pool) with (set_pool SlowPool no_pool).
      destruct g; cbn in *; subst. exact Hw. }
  intros w (k & Hk & Hw). rewrite (Hk eq_refl) in Hw. revert w Hw.
  eapply triple_bind; [by apply (triple_init_pool SlowPool)|]. intros [].
  - intros w (k' & Hk' & Hw). rewrite (Hk' eq_refl) in *. cbn. revert Hw. apply holds_perm. solve_Permutation.
  - intros w (k' & _ & Hw).
    apply (Hfail (PoolState true (Z.to_nat fast) true false) (PoolState true k' true false)); [done..|].
    revert Hw. apply holds_perm. solve_Permutation.
Qed.

(** ** The queues of the reactors *)

Fixpoint queue_resources (i : nat) (fds : list nat) : list resource :=
  match fds with
  | [] => []
  | fd :: fds => Fd fd :: QueueMutex i :: queue_resources (S i) fds
  end.

Lemma queue_resources_snoc (i fd : nat) (fds : list nat) :
  queue_resources i (fds ++ [fd]) ≡ₚ Fd fd :: QueueMutex (i + length fds) :: queue_resources i fds.
Proof.
  revert i. induction fds as [|x fds IH]; intros i; cbn [app queue_resources length]; [by rewrite Nat.add_0_r|].
  rewrite IH, Nat.add_succ_r. solve_Permutation.
Qed.

Lemma triple_open_queues (n : nat) (fds : list nat) (R : list resource) (g : globals) :
  triple (holds (queue_resources 0 fds ++ R) g) (open_queues n (length fds) (fds ++ replicate n 0))
    (fun fds' w => length fds' = length fds + n /\ holds (queue_resources 0 fds' ++ R) g w).
Proof.
  revert fds. induction n as [|n IH]; intros fds; cbn [open_queues replicate].
  { rewrite app_nil_r, Nat.add_0_r. by intros w Hw. }
  eapply triple_seq; [apply triple_try_acquire|]. eapply triple_bind; [apply triple_ask|].
  intros []; [cbn [negb]|apply triple_fatal]. eapply triple_bind; [apply triple_open_fd|]. intros fd.
  assert (<[length fds := fd]> (fds ++ 0 :: replicate n 0) = (fds ++ [fd]) ++ replicate n 0) as ->.
  { rewrite insert_app_r_alt, Nat.sub_diag by done. by rewrite <- (assoc_L (++)). }
  specialize (IH (fds ++ [fd])). rewrite length_app, Nat.add_1_r in IH.
  apply (triple_holds _ (queue_resources 0 (fds ++ [fd]) ++ R)).
  - rewrite queue_resources_snoc. cbn [Nat.add app]. solve_Permutation.
  - eapply triple_weaken; [exact IH|done|]. cbv beta. intros fds' w [Hl Hw]. split; [|done]. lia.
Qed.

Lemma triple_close_queues (i : nat) (fds : list nat) (R : list resource) (g : globals) :
  triple (holds (queue_resources i fds ++ R) g) (close_queues i fds) (fun _ => holds R g).
Proof.
  revert i. induction fds as [|fd fds IH]; intros i; cbn [queue_resources close_queues app]; [by intros w Hw|].
  eapply triple_seq; [by apply triple_release|]. eapply triple_seq; [by apply triple_release|]. apply IH.
Qed.

(** ** Cleaning up *)

(** What the statics hold: [g_reactor_queues] stands for its elements and the
    barrier, as [server_cleanup_globals] takes it. *)
Definition static_resources (g : globals) : list resource :=
  pool_resources FastPool (g_fast_pool g) ++ pool_resources SlowPool (g_slow_pool g)
  ++ held_if (g_task_slab g) Slab ++ held_if (g_reactor_stats g) Stats ++ held_if (g_reactor_bases g) Bases
  ++ match g_reactor_queues g with Some fds => queue_resources 0 fds ++ [Queues; Barrier] | None => [] end
  ++ held_if (g_odbc_env g) OdbcEnv ++ [Oath; Curl].

Lemma triple_cleanup_libraries (g : globals) :
  triple (holds (held_if (g_odbc_env g) OdbcEnv ++ [Oath; Curl]) g) cleanup_external_libraries
    (fun _ w => exact -> held w = [] /\ fault w = false).
Proof.
  unfold cleanup_external_libraries. apply triple_get_bind.
  eapply (triple_bind _ (fun _ w => exists g', holds [Oath; Curl] g' w)).
  - destruct (g_odbc_env g); cbn [held_if app when].
    + eapply triple_seq; [by apply triple_try_release|]. eapply triple_weaken; [apply triple_modify|done|].
      cbv beta. intros [] w Hw. by eexists.
    + intros w Hw. by exists g.
  - intros [] w [g' Hw]. revert w Hw. eapply triple_seq; [by apply triple_release|].
    eapply triple_weaken; [by apply (triple_release [Curl] [])|done|]. intros [] w [Hh _] He. destruct (Hh He) as [Hp ?].
    split; [|done]. by apply Permutation_nil.
Qed.

Lemma triple_cleanup (g : globals) :
  sane (g_fast_pool g) -> sane (g_slow_pool g) ->
  triple (holds (static_resources g) g) server_cleanup_globals (fun _ w => exact -> held w = [] /\ fault w = false).
Proof.
  intros Sf Ss. unfold server_cleanup_globals, static_resources. destruct g as [st ba qs n sl env f s].
  cbn [g_fast_pool g_slow_pool g_task_slab g_reactor_stats g_reactor_bases g_reactor_queues g_odbc_env] in *.
  eapply triple_seq; [by apply (triple_shutdown f s _ (Globals st ba qs n sl env f s))|].
  unfold with_pools, set_pool. cbn [g_fast_pool g_slow_pool g_task_slab g_reactor_stats g_reactor_bases g_reactor_queues
    g_odbc_env g_num_reactors].
  apply (triple_seq _ (holds (held_if st Stats ++ held_if ba Bases
    ++ match qs with Some fds => queue_resources 0 fds ++ [Queues; Barrier] | None => [] end
    ++ held_if env OdbcEnv ++ [Oath; Curl]) (Globals st ba qs n false env (down f) (down s)))).
  { unfold release_slab. apply triple_get_bind. cbn [g_task_slab]. destruct sl; cbn [held_if app when].
    - eapply triple_seq; [by apply triple_release|apply triple_modify].
    - by intros w Hw. }
  apply triple_get_bind. cbn [g_reactor_stats g_reactor_bases g_reactor_queues].
  eapply triple_seq; [apply triple_release_if|]. eapply triple_seq; [apply triple_release_if|].
  eapply triple_seq; [apply triple_modify|]. unfold set_server. cbn [g_reactor_queues g_task_slab g_odbc_env
    g_fast_pool g_slow_pool g_num_reactors]. destruct qs as [fds|].
  - rewrite <- (assoc_L (++)). eapply triple_seq; [apply triple_close_queues|]. cbn [app].
    eapply triple_seq; [by apply triple_release|]. eapply triple_seq; [apply triple_modify|].
    eapply triple_seq; [by apply triple_release|].
    apply (triple_cleanup_libraries (Globals false false None n false env (down f) (down s))).
  - apply (triple_cleanup_libraries (Globals false false None n false env (down f) (down s))).
Qed.

(** ** Start-up *)

(** The libraries and the slab, or the end of the process. *)
Lemma libraries_and_slab (n : nat) :
  (exists w, (init_server_metadata n;; allocate_slab) fresh_world = (Exited, w))
  \/ (init_server_metadata n;; allocate_slab) fresh_world
     = (Done tt, World 5 3 (Slab :: OdbcEnv :: held_if (unchecked Curl) Curl ++ held_if (unchecked Oath) Oath) false
                  (Globals false false None n true true no_pool no_pool)).
Proof.
  unfold init_server_metadata, allocate_slab, try_acquire, mbind, L_bind, ask. cbn.
  destruct (ok 0); [|left; by eexists]. cbn. destruct (ok 1); [|left; by eexists]. cbn.
  destruct (unchecked Oath), (unchecked Curl); cbn.
  all: destruct (ok 2); [|left; by eexists]; cbn; (destruct (ok 3); [|left; by eexists]); cbn;
    (destruct (ok 4); [|left; by eexists]); by right.
Qed.

(** What is started, when all is well. *)
Definition started (n fast slow : nat) (w : process) : Prop :=
  holds (static_resources (glob w)) (glob w) w
  /\ sane (g_fast_pool (glob w)) /\ sane (g_slow_pool (glob w))
  /\ num_workers (g_fast_pool (glob w)) = fast /\ num_workers (g_slow_pool (glob w)) = slow
  /\ exists fds, g_reactor_queues (glob w) = Some fds /\ length fds = n.

(** [init_reactor_queues] once it has its three arrays. *)
Definition fill_queues (n : nat) (num pct : Z) : L bool :=
  fds ← open_queues n 0 (replicate n 0);
  modify (fun g => set_server true true (Some fds) (g_task_slab g) (g_odbc_env g) g);;
  barrier_ok ← ask;
  if negb barrier_ok then fatal else acquire Barrier;; worker_pool_init num pct.

Lemma queues_and_workers (n : nat) (num pct : Z) :
  triple (holds [Queues; Bases; Stats; Slab; OdbcEnv; Curl; Oath]
            (Globals true true (Some (replicate n 0)) n true true no_pool no_pool))
    (fill_queues n num pct)
    (fun ok w => if ok then started n (Z.to_nat (Worker.split_workers num pct).1)
                              (Z.to_nat (Worker.split_workers num pct).2) w
                 else sane (g_fast_pool (glob w)) /\ sane (g_slow_pool (glob w))
                      /\ holds (static_resources (glob w)) (glob w) w).
Proof.
  eapply triple_bind; [apply (triple_open_queues n [])|]. intros fds. cbn [length Nat.add].
  intros w [Hl Hw]. revert w Hw. eapply triple_seq; [apply triple_modify|].
  eapply triple_bind; [apply triple_ask|]. intros []; cbn [negb]; [|apply triple_fatal].
  eapply triple_seq; [apply triple_acquire|].
  eapply triple_weaken; [|intros w Hw; exact Hw|]; [by apply triple_worker_pool_init|]. intros b w. unfold pools_started, started. destruct b.
  - intros Hw. pose proof Hw as [_ Hg]. rewrite Hg. cbn. split_and!; try done; [|by exists fds].
    eapply holds_perm; [|exact Hw]. unfold static_resources. cbn. solve_Permutation.
  - intros (f & s & Ff & Fs & Wf & Ws & Hw). pose proof Hw as [_ Hg]. unfold sane. rewrite Hg. cbn. rewrite Wf, Ws.
    split_and!; try done. eapply holds_perm; [|exact Hw]. unfold static_resources, pool_resources.
    cbn. rewrite Ff, Fs. solve_Permutation.
Qed.

(** The world that [libraries_and_slab] leaves. *)
Definition before_queues (n : nat) : process :=
  World 5 3 (Slab :: OdbcEnv :: held_if (unchecked Curl) Curl ++ held_if (unchecked Oath) Oath) false
    (Globals false false None n true true no_pool no_pool).

Lemma queue_phase (n : nat) (num pct : Z) :
  match init_reactor_queues num pct (before_queues n) with
  | (Exited, _) => True
  | (Blocked, _) => False
  | (Done true, w) => started n (Z.to_nat (Worker.split_workers num pct).1)
                        (Z.to_nat (Worker.split_workers num pct).2) w
  | (Done false, w) => sane (g_fast_pool (glob w)) /\ sane (g_slow_pool (glob w))
                       /\ (holds (static_resources (glob w)) (glob w) w \/ ok 7 = true /\ ok 5 && ok 6 = false)
  end.
Proof.
  unfold init_reactor_queues, before_queues.
  set (libs := held_if (unchecked Curl) Curl ++ held_if (unchecked Oath) Oath).
  assert (exact -> libs = [Curl; Oath]) as Hlibs.
  { intros He. subst libs. by rewrite !(Hexact He). }
  pose proof (queues_and_workers n num pct (World 8 3 (Queues :: Bases :: Stats :: Slab :: OdbcEnv :: libs) false
    (Globals true true (Some (replicate n 0)) n true true no_pool no_pool))) as Hall.
  specialize (Hall (conj (fun He => conj (eq_ind_r (fun l => _ :: _ :: _ :: _ :: _ :: l ≡ₚ _)
    (Permutation_refl _) (Hlibs He)) eq_refl) eq_refl)).
  unfold mbind at 1 2 3 4 5 6 7 8, L_bind at 1 2 3 4 5 6 7 8, ask at 1 2 3, get, modify at 1. cbn [tick].
  destruct (ok 5) eqn:E5, (ok 6) eqn:E6, (ok 7) eqn:E7.
  all: repeat (rewrite ?E5, ?E6, ?E7; cbn [when acquire mret L_ret tick held fault glob next_fd negb andb]).
  1: { match goal with |- match ?X with _ => _ end => replace X with (fill_queues n num pct
         (World 8 3 (Queues :: Bases :: Stats :: Slab :: OdbcEnv :: libs) false
           (Globals true true (Some (replicate n 0)) n true true no_pool no_pool))) by reflexivity end.
       destruct (fill_queues _ _ _ _) as [[[]| |] w]; [done|naive_solver|done|done]. }
  all: split; [done|]; split; [done|].
  all: try (by right).
  all: left; split; [|done]; intros He; cbn; rewrite (Hlibs He); unfold static_resources; cbn; split; [|done];
    solve_Permutation.
Qed.

(** A socket that is not returned is closed. *)
Lemma socket_not_leaked (R : list resource) (g : globals) :
  triple (holds R g) create_and_bind_socket
    (fun r => match r with Some fd => holds (Fd fd :: R) g | None => holds R g end).
Proof.
  assert (forall fd calls, triple (holds (Fd fd :: R) g) (socket_calls fd calls)
    (fun r => match r with Some fd => holds (Fd fd :: R) g | None => holds R g end)) as Hc.
  { intros fd calls. induction calls as [|c calls IH]; cbn [socket_calls]; [by intros w Hw|].
    eapply triple_bind; [apply triple_ask|]. intros []; [exact IH|].
    eapply triple_seq; [by apply triple_release|]. by intros w Hw. }
  unfold create_and_bind_socket. eapply triple_bind; [apply triple_ask|]. intros []; cbn [negb]; [|by intros w Hw].
  eapply triple_bind; [apply triple_open_fd|]. intros fd. apply Hc.
Qed.

End Counting.

(** Cleaning up neither ends the process nor blocks, whatever is held: every pool
    with workers has been told to stop when they are joined. *)
Lemma cleanup_done (w : process) :
  sane (g_fast_pool (glob w)) -> sane (g_slow_pool (glob w)) -> exists w', server_cleanup_globals w = (Done tt, w').
Proof.
  intros Sf Ss. pose proof (cleanup_survives w) as Hs.
  pose proof (triple_cleanup False ltac:(done) (glob w) Sf Ss w ltac:(done)) as H.
  destruct (server_cleanup_globals w) as [[[]| |] w']; [by exists w'|done|done].
Qed.

(** No call fails whose result the code ignores. *)
Definition ignored_succeed : Prop := forall r, unchecked r = true.

Lemma cleanup_balanced (w : process) :
  sane (g_fast_pool (glob w)) -> sane (g_slow_pool (glob w)) ->
  holds ignored_succeed (static_resources (glob w)) (glob w) w ->
  exists w', server_cleanup_globals w = (Done tt, w') /\ (ignored_succeed -> held w' = [] /\ fault w' = false).
Proof.
  intros Sf Ss Hw. destruct (cleanup_done w Sf Ss) as (w' & E). exists w'. split; [done|].
  pose proof (triple_cleanup ignored_succeed id (glob w) Sf Ss w Hw) as H. by rewrite E in H.
Qed.


End Effects.

(** ** When only some of the arrays can be allocated *)

(** The counters could not be allocated but the queues could: their descriptors
    are still the zeros of [memset] and their locks and the barrier do not exist,
    and [server_cleanup_globals] closes descriptor 0 and destroys them. *)
Lemma half_allocated :
  exists w, server_init_globals (fun k => negb (k =? 5)%nat) (fun _ => true) 2 4 50 fresh_world = (Done false, w)
    /\ fault w = true.
Proof. eexists. split; vm_compute; reflexivity. Qed.

(** [curl_global_init] fails and the server starts all the same, with everything
    else that it needs; its cleanup then calls [curl_global_cleanup] for nothing. *)
Lemma curl_not_initialised :
  exists w w', server_init_globals (fun _ => true) (fun r => negb (bool_decide (r = Curl))) 2 4 50 fresh_world
      = (Done true, w)
    /\ server_cleanup_globals (fun _ => true) w = (Done tt, w') /\ held w' = [] /\ fault w' = true.
Proof. do 2 eexists. split; [vm_compute; reflexivity|]. split; [vm_compute; reflexivity|]. done. Qed.

End Resources.
