(* ===== verification/ReactorThread.v ===== *)
(** * lib/server.c, include/apiserver/raii.h: what a reactor thread and the main thread hold

    The thread of a reactor makes an event base, an event for its eventfd, a socket
    and an HTTP server, and gives them back on each of its exits, some through the
    destructors of raii.h.  The main thread holds the array of the threads and what
    [Resources] describes.  Whether [evhttp_free] closes the socket that
    [evhttp_accept_socket_with_handle] was given is libevent's business: it is the
    argument [closes].  [event_new] is a call whose result the code does not look
    at. *)

From S2P Require Import Prelude Worker Resources.
Import Resources.

Module ReactorThread.

#[local] Existing Instances L_ret L_bind.

Section Thread.
Context (ok : nat -> bool) (unchecked : resource -> bool).
Context (closes : bool).

Abbreviation ask := (ask ok).

(** ** The destructors *)

Definition cleanup_event_config (i : nat) (cfg : bool) : L unit := when cfg (release (EventConfig i)).
Definition cleanup_event_base (i : nat) (base : bool) : L unit := when base (release (EventBase i)).

(** [evhttp_free], of a server that accepts on [fd] *)
Definition cleanup_evhttp (i fd : nat) : L unit := when closes (release (Fd fd));; release (Http i).

(** ** The reactor *)

Definition create_optimized_event_base (i : nat) : L bool :=
  cfg ← ask; when cfg (acquire (EventConfig i));;
  base ← ask; when base (acquire (EventBase i));;
  cleanup_event_config i cfg;;
  mret base.

(** The routes are registered in [Routes.configure_http_server]. *)
Definition configure_http_server (i : nat) : L bool :=
  http ← ask;
  if negb http then mret false else
  acquire (Http i);;
  accepted ← ask;
  if negb accepted then release (Http i);; mret false else mret true.

(** [started] is what the thread finds after the barrier: all reactors have come up. *)
Definition reactor_thread (started : bool) (i : nat) : L bool :=
  base ← create_optimized_event_base i;
  if negb base then mret false else
  try_acquire unchecked (EfdEvent i);;
  fd ← create_and_bind_socket ok;
  match fd with
  | None => fatal
  | Some fd =>
      http ← configure_http_server i;
      if negb http then fatal else
      if negb started then
        release (Fd fd);; release (EfdEvent i);;
        cleanup_evhttp i fd;; cleanup_event_base i true;; mret false
      else
        release (EfdEvent i);;
        cleanup_evhttp i fd;; cleanup_event_base i true;; mret true
  end.

(** ** The main thread *)

(** [fatal] is [LOG_FATAL], before the code that frees the array again. *)
Definition setup_core_tracking (online num pct : Z) : L Z :=
  let num_cores := if ((online <=? 0) || (64 <? online))%Z then 4%Z else online in
  threads ← ask;
  if negb threads then fatal else
  acquire Threads;;
  initialised ← server_init_globals ok unchecked (Z.to_nat num_cores) num pct;
  if negb initialised then fatal else mret num_cores.

(** The end of [wait_and_shutdown], and of a start that failed *)
Definition free_threads_and_globals : L unit := release Threads;; server_cleanup_globals unchecked.

(** ** Lemmas *)

Context (exact : Prop) (Hexact : exact -> forall r, unchecked r = true).

#[local] Abbreviation holds := (holds exact).

Lemma base_created (i : nat) (R : list resource) (g : globals) :
  triple (holds R g) (create_optimized_event_base i)
    (fun base => holds (held_if base (EventBase i) ++ R) g).
Proof.
  unfold create_optimized_event_base. eapply triple_bind; [apply triple_ask|]. intros cfg.
  eapply triple_seq; [apply triple_acquire_if|]. eapply triple_bind; [apply triple_ask|]. intros base.
  eapply triple_seq; [apply triple_acquire_if|].
  apply (triple_holds exact _ (held_if cfg (EventConfig i) ++ held_if base (EventBase i) ++ R)); [solve_Permutation|].
  eapply triple_seq; [apply triple_release_if|]. apply (triple_ret (fun base => holds (held_if base (EventBase i) ++ R) g)).
Qed.

Lemma http_configured (i : nat) (R : list resource) (g : globals) :
  triple (holds R g) (configure_http_server i) (fun http => holds (held_if http (Http i) ++ R) g).
Proof.
  unfold configure_http_server. eapply triple_bind; [apply triple_ask|]. intros []; cbn [negb]; [|by intros w Hw].
  eapply triple_seq; [apply triple_acquire|]. eapply triple_bind; [apply triple_ask|].
  intros []; cbn [negb]; [by intros w Hw|]. eapply triple_seq; [by apply triple_release|]. by intros w Hw.
Qed.

(** When [evhttp_free] closes the socket, a thread that has served gives back
    exactly what it took; when it does not, a thread that has not served does. *)
Lemma exit_balanced (i : nat) (R : list resource) (g : globals) :
  triple (holds R g) (reactor_thread closes i) (fun _ => holds R g).
Proof.
  unfold reactor_thread. eapply triple_bind; [apply base_created|]. intros []; cbn [negb held_if app]; [|by intros w Hw].
  eapply triple_seq; [by apply triple_try_acquire|]. eapply triple_bind; [apply socket_not_leaked|].
  intros [fd|]; [|apply triple_fatal]. eapply triple_bind; [apply http_configured|].
  intros []; cbn [negb held_if app]; [|apply triple_fatal]. unfold cleanup_evhttp, cleanup_event_base.
  destruct closes; cbn [negb when].
  - eapply triple_seq; [apply (triple_release exact _ (Http i :: Fd fd :: EventBase i :: R)); solve_Permutation|].
    eapply triple_seq; [eapply triple_seq;
      [apply (triple_release exact _ (Http i :: EventBase i :: R)); solve_Permutation|by apply (triple_release exact _ (EventBase i :: R))]|].
    eapply triple_seq; [by apply (triple_release exact _ R)|]. by intros w Hw.
  - eapply triple_seq; [apply (triple_release exact _ (Http i :: EfdEvent i :: EventBase i :: R)); solve_Permutation|].
    eapply triple_seq; [apply (triple_release exact _ (Http i :: EventBase i :: R)); solve_Permutation|].
    eapply triple_seq; [apply (triple_seq _ (holds (Http i :: EventBase i :: R) g)); [by intros w Hw|by apply triple_release]|].
    eapply triple_seq; [by apply triple_release|]. by intros w Hw.
Qed.

End Thread.

(** ** The two exits *)

(** Whatever [evhttp_free] does, one of the two exits behind the barrier is wrong:
    if it closes the socket, a reactor that gives up because another one failed
    closes it twice, and if it does not, a reactor that has served never closes it. *)
Lemma exits_disagree :
  (exists w, reactor_thread (fun _ => true) (fun _ => true) true false 0 fresh_world = (Done false, w) /\ fault w = true)
  /\ (exists w, reactor_thread (fun _ => true) (fun _ => true) false true 0 fresh_world = (Done true, w) /\ held w = [Fd 3]
        /\ fault w = false).
Proof. split; eexists; (split; [vm_compute; reflexivity|]); [reflexivity|split; reflexivity]. Qed.

(** ** The main thread *)

Lemma core_count (ok : nat -> bool) (unchecked : resource -> bool) (online num pct n : Z) (w w' : process) :
  setup_core_tracking ok unchecked online num pct w = (Done n, w') -> (1 <= n <= 64)%Z.
Proof.
  unfold setup_core_tracking, mbind, L_bind. destruct (ask ok w) as [[[]| |] w1]; cbn [negb]; [|done..].
  destruct (acquire Threads w1) as [[[]| |] w2]; [|done..].
  destruct (server_init_globals _ _ _ _ _ w2) as [[[]| |] w3]; cbn [negb]; [|done..]. intros [= <- _].
  destruct (Z.leb_spec online 0), (Z.ltb_spec 64 online); cbn [orb]; lia.
Qed.

(** A start with two cores and three workers, and its end *)
Lemma main_balanced :
  exists w w', setup_core_tracking (fun _ => true) (fun _ => true) 2 3 50 fresh_world = (Done 2%Z, w)
    /\ free_threads_and_globals (fun _ => true) w = (Done tt, w') /\ held w' = [] /\ fault w' = false.
Proof. do 2 eexists. split; [vm_compute; reflexivity|]. split; [vm_compute; reflexivity|]. done. Qed.

End ReactorThread.
