(* ===== verification/Lifecycle.v ===== *)
(** * lib/server.c: the start and the end of the reactors

    The threads of [server_start]: the main thread creates a reactor per core,
    meets them at [g_startup_barrier], waits for signals and stops them.  A call of
    libevent or of pthreads that touches what the threads share is a step; the
    steps of all threads interleave freely.  [LOG_FATAL] ends the process in
    [logger_log], so what the source does after it is never reached. *)

From S2P Require Import Prelude.

Module Lifecycle.

(** ** Threads *)

(** Where a reactor is in [reactor_thread_logic]: not created, at the creation of
    its base, at its socket and HTTP server, at the barrier (with a base or without
    one), at the test of [g_startup_failed], on the two ways out of it, in
    [event_base_dispatch], after it, and at its end. *)
Inductive reactor_pc :=
  | RUnborn | RSetup | RBind | RBarrier | RFailedBarrier | RCheck | RAbort | RReady | RDispatch | RReturn | RDone.

Inductive base_state := NoBase | Live | Freed.

(** [published]: [g_reactor_bases[i]] is not null; [break]: the event loop has been
    told to stop. *)
Record reactor := Reactor {
  pc : reactor_pc;
  base : base_state;
  published : bool;
  break : bool;
}.

(** Where the main thread is: [spawn_worker_threads], the barrier, the test after
    it, the loop of [wait_and_shutdown], [worker_pool_stop] and
    [server_drain_reactor_queues], the loop of [server_shutdown_workers] before
    and after it has loaded a base, the loop of [pthread_join], the end. *)
Inductive main_pc :=
  | MSpawn (k : nat) | MBarrier | MCheck | MServe | MStop | MBreak (i : nat) | MCall (i : nat) | MJoin (i : nat) | MDone.

(** [fault]: an event base was used that is not live. *)
Record life := Life {
  exited : bool;
  g_startup_failed : bool;
  opened : bool;
  main : main_pc;
  reactors : list reactor;
  fault : bool;
}.

#[export] Instance reactor_pc_eq_dec : EqDecision reactor_pc.
Proof. solve_decision. Defined.

#[export] Instance base_state_eq_dec : EqDecision base_state.
Proof. solve_decision. Defined.

(** ** reactor_thread_logic *)

(** A step of one reactor, given whether the barrier is open and what
    [g_startup_failed] is; the last argument is what it is afterwards. *)
Inductive reactor_thread_logic (open failed : bool) : reactor -> reactor -> bool -> Prop :=
  | r_no_base p k :
      reactor_thread_logic open failed (Reactor RSetup NoBase p k) (Reactor RFailedBarrier NoBase p k) true
  | r_base p k :
      reactor_thread_logic open failed (Reactor RSetup NoBase p k) (Reactor RBind Live true k) failed
  | r_bound b p k :
      reactor_thread_logic open failed (Reactor RBind b p k) (Reactor RBarrier b p k) failed
  | r_failed_end b p k :
      open = true ->
      reactor_thread_logic open failed (Reactor RFailedBarrier b p k) (Reactor RDone b p k) failed
  | r_pass b p k :
      open = true ->
      reactor_thread_logic open failed (Reactor RBarrier b p k) (Reactor RCheck b p k) failed
  | r_abort b p k :
      failed = true ->
      reactor_thread_logic open failed (Reactor RCheck b p k) (Reactor RAbort b false k) failed
  | r_abort_end b p k :
      reactor_thread_logic open failed (Reactor RAbort b p k) (Reactor RDone Freed p k) failed
  | r_ready b p k :
      failed = false ->
      reactor_thread_logic open failed (Reactor RCheck b p k) (Reactor RReady b p k) failed
  | r_dispatch b p k :
      reactor_thread_logic open failed (Reactor RReady b p k) (Reactor RDispatch b p false) failed
  | r_stop b p :
      reactor_thread_logic open failed (Reactor RDispatch b p true) (Reactor RReturn b p true) failed
  | r_end b p k :
      reactor_thread_logic open failed (Reactor RReturn b p k) (Reactor RDone Freed p k) failed.

(** [event_base_loopbreak]: it stops a running loop and has no effect on a base
    whose loop is not running. *)
Definition event_base_loopbreak (r : reactor) : reactor :=
  if decide (pc r = RDispatch) then Reactor (pc r) (base r) (published r) true else r.

(** ** The process *)

Definition at_barrier (r : reactor) : Prop := pc r = RBarrier \/ pc r = RFailedBarrier.

Definition goto (s : life) (m : main_pc) : life :=
  Life (exited s) (g_startup_failed s) (opened s) m (reactors s) (fault s).

Definition exit_process (s : life) : life :=
  Life true (g_startup_failed s) (opened s) (main s) (reactors s) (fault s).

(** [spawn_worker_threads] *)
Inductive spawn_worker_threads (n : nat) : life -> life -> Prop :=
  | l_spawn k s :
      exited s = false -> main s = MSpawn k -> k < n ->
      spawn_worker_threads n s (Life (exited s) (g_startup_failed s) (opened s) (MSpawn (S k))
                                  (<[k := Reactor RSetup NoBase false false]> (reactors s)) (fault s))
  | l_spawn_fatal k s :
      exited s = false -> main s = MSpawn k -> k < n -> spawn_worker_threads n s (exit_process s)
  | l_spawned s :
      exited s = false -> main s = MSpawn n -> spawn_worker_threads n s (goto s MBarrier).

(** [server_wait_startup_barrier] and the test after it in [server_start]. *)
Inductive check_startup : life -> life -> Prop :=
  | l_open s :
      exited s = false -> main s = MBarrier -> Forall at_barrier (reactors s) ->
      check_startup s (Life (exited s) (g_startup_failed s) true (main s) (reactors s) (fault s))
  | l_pass s :
      exited s = false -> main s = MBarrier -> opened s = true -> check_startup s (goto s MCheck)
  | l_startup_fatal s :
      exited s = false -> main s = MCheck -> g_startup_failed s = true -> check_startup s (exit_process s)
  | l_serve s :
      exited s = false -> main s = MCheck -> g_startup_failed s = false -> check_startup s (goto s MServe).

(** [wait_and_shutdown] up to the point where the workers have ended and the
    completion queues are empty. *)
Inductive wait_and_shutdown : life -> life -> Prop :=
  | l_reload s :
      exited s = false -> main s = MServe -> wait_and_shutdown s s
  | l_signal s :
      exited s = false -> main s = MServe -> wait_and_shutdown s (goto s MStop)
  | l_stopped s :
      exited s = false -> main s = MStop -> wait_and_shutdown s (goto s (MBreak 0)).

(** [server_shutdown_workers] *)
Inductive server_shutdown_workers (n : nat) : life -> life -> Prop :=
  | l_load i r s :
      exited s = false -> main s = MBreak i -> reactors s !! i = Some r ->
      server_shutdown_workers n s (goto s (if published r then MCall i else MBreak (S i)))
  | l_break i r s :
      exited s = false -> main s = MCall i -> reactors s !! i = Some r ->
      server_shutdown_workers n s (Life (exited s) (g_startup_failed s) (opened s) (MBreak (S i))
                                     (<[i := event_base_loopbreak r]> (reactors s))
                                     (fault s || negb (bool_decide (base r = Live))))
  | l_broken s :
      exited s = false -> main s = MBreak n -> server_shutdown_workers n s (goto s (MJoin 0)).

(** The loop of [pthread_join] in [wait_and_shutdown]. *)
Inductive join_reactors (n : nat) : life -> life -> Prop :=
  | l_join i r s :
      exited s = false -> main s = MJoin i -> reactors s !! i = Some r -> pc r = RDone ->
      join_reactors n s (goto s (MJoin (S i)))
  | l_end s :
      exited s = false -> main s = MJoin n -> join_reactors n s (goto s MDone).

(** [server_start] on [n] cores: the main thread and the reactors. *)
Inductive life_step (n : nat) : life -> life -> Prop :=
  | l_reactor i r r' failed s :
      exited s = false -> reactors s !! i = Some r ->
      reactor_thread_logic (opened s) (g_startup_failed s) r r' failed ->
      life_step n s (Life (exited s) failed (opened s) (main s) (<[i := r']> (reactors s)) (fault s))
  | l_reactor_fatal i r s :
      exited s = false -> reactors s !! i = Some r -> pc r = RBind -> life_step n s (exit_process s)
  | l_spawning s s' : spawn_worker_threads n s s' -> life_step n s s'
  | l_starting s s' : check_startup s s' -> life_step n s s'
  | l_waiting s s' : wait_and_shutdown s s' -> life_step n s s'
  | l_stopping s s' : server_shutdown_workers n s s' -> life_step n s s'
  | l_joining s s' : join_reactors n s s' -> life_step n s s'.

Definition unborn : reactor := Reactor RUnborn NoBase false false.

Definition initial (n : nat) : life := Life false false false (MSpawn 0) (replicate n unborn) false.

Definition life_reachable (n : nat) (s : life) : Prop := rtc (life_step n) (initial n) s.

(** ** The invariant *)

(** What is true of a reactor at each of its places. *)
Definition reactor_ok (open failed : bool) (r : reactor) : Prop :=
  match pc r with
  | RUnborn | RSetup => open = false /\ r = Reactor (pc r) NoBase false false
  | RBind => open = false /\ r = Reactor RBind Live true false
  | RBarrier => r = Reactor RBarrier Live true false
  | RFailedBarrier => failed = true /\ r = Reactor RFailedBarrier NoBase false false
  | RCheck => open = true /\ r = Reactor RCheck Live true false
  | RAbort => open = true /\ failed = true
  | RReady => open = true /\ failed = false /\ r = Reactor RReady Live true false
  | RDispatch => open = true /\ failed = false /\ base r = Live /\ published r = true
  | RReturn => open = true /\ failed = false /\ break r = true /\ published r = true /\ base r = Live
  | RDone => open = true /\ (failed = false -> break r = true /\ base r = Freed)
  end.

(** The reactors from [i] on have not been told to stop. *)
Definition unbroken (i : nat) (rs : list reactor) : Prop :=
  forall j r, i <= j -> rs !! j = Some r -> break r = false.

(** What is true of the rest at each place of the main thread. *)
Definition main_ok (n : nat) (s : life) : Prop :=
  match main s with
  | MSpawn k => opened s = false /\ k <= n /\ (forall j r, k <= j -> reactors s !! j = Some r -> r = unborn)
      /\ (forall j r, j < k -> reactors s !! j = Some r -> pc r <> RUnborn) /\ unbroken 0 (reactors s)
  | MBarrier | MCheck => (forall j r, reactors s !! j = Some r -> pc r <> RUnborn)
      /\ (main s = MCheck -> opened s = true) /\ unbroken 0 (reactors s)
  | MServe | MStop => opened s = true /\ g_startup_failed s = false /\ unbroken 0 (reactors s)
  | MBreak i | MCall i => opened s = true /\ g_startup_failed s = false /\ unbroken i (reactors s)
  | MJoin _ | MDone => opened s = true /\ g_startup_failed s = false
  end.

Definition life_ok (n : nat) (s : life) : Prop :=
  length (reactors s) = n /\ fault s = false
  /\ Forall (reactor_ok (opened s) (g_startup_failed s)) (reactors s)
  /\ main_ok n s.

Lemma reactor_ok_failed (r : reactor) : reactor_ok false false r -> reactor_ok false true r.
Proof. unfold reactor_ok. destruct (pc r); naive_solver. Qed.

(** A step of a reactor keeps what is true of it, tells no reactor to stop, and
    raises the flag only before the barrier opens. *)
Lemma reactor_step_ok (open failed failed' : bool) (r r' : reactor) :
  reactor_ok open failed r -> reactor_thread_logic open failed r r' failed' ->
  reactor_ok open failed' r' /\ (break r = false -> break r' = false) /\ pc r <> RUnborn /\ pc r' <> RUnborn
  /\ (failed' = failed \/ failed' = true /\ open = false).
Proof.
  intros Hr Hs. destruct Hs; unfold reactor_ok in *; cbn in *; split_and!; try naive_solver.
Qed.

Lemma unbroken_insert (i j : nat) (rs : list reactor) (r r' : reactor) :
  unbroken i rs -> rs !! j = Some r -> (break r = false -> break r' = false) -> unbroken i (<[j := r']> rs).
Proof.
  intros Hu Hj Hb k x Hk Hx. apply list_lookup_insert_Some in Hx as [(<- & <- & _)|(_ & Hx)].
  - apply Hb. by apply (Hu j).
  - by apply (Hu k).
Qed.

Lemma reactor_step_life (n i : nat) (s : life) (r r' : reactor) (failed : bool) :
  life_ok n s -> reactors s !! i = Some r ->
  reactor_thread_logic (opened s) (g_startup_failed s) r r' failed ->
  life_ok n (Life (exited s) failed (opened s) (main s) (<[i := r']> (reactors s)) (fault s)).
Proof.
  intros (Hl & Hf & Hr & Hm) Hi Hs.
  destruct (reactor_step_ok _ _ _ _ _ (proj1 (Forall_lookup _ _) Hr i r Hi) Hs) as (Hr' & Hb & Hp & Hp' & Hfl).
  assert (Forall (reactor_ok (opened s) failed) (reactors s)) as Hall.
  { destruct Hfl as [->|[-> Ho]]; [done|]. rewrite Ho in *. eapply Forall_impl; [|exact Hr]. intros x Hx.
    destruct (g_startup_failed s); [done|by apply reactor_ok_failed]. }
  assert (opened s = true -> failed = g_startup_failed s) as Hsame by (destruct Hfl as [->|[-> ->]]; done).
  assert (forall k, unbroken k (reactors s) -> unbroken k (<[i := r']> (reactors s))) as Hub
    by (intros k Hk; by eapply unbroken_insert).
  unfold life_ok, main_ok in *. cbn. rewrite length_insert. split; [done|]. split; [done|].
  split; [by apply Forall_insert|].
  assert (forall j x, <[i := r']> (reactors s) !! j = Some x -> (j = i /\ x = r') \/ reactors s !! j = Some x) as Hlk.
  { intros j x [(<- & <- & _)|(_ & Hx)]%list_lookup_insert_Some; [by left|by right]. }
  destruct (main s) as [k| | | | |k|k|k|]; try (destruct Hm as (Ho & Hm); rewrite (Hsame Ho); naive_solver).
  - destruct Hm as (Ho & Hk & Hun & Hbn & Hu). split; [done|]. split; [done|]. split; [|split; [|by apply Hub]].
    + intros j x Hj [[-> ->]|Hx]%Hlk; [|by eapply Hun]. specialize (Hun i r Hj Hi). by subst r.
    + intros j x Hj [[-> ->]|Hx]%Hlk; [done|by eapply Hbn].
  - destruct Hm as (Hun & Hc & Hu). split; [|split; [done|by apply Hub]].
    intros j x [[-> ->]|Hx]%Hlk; [done|by eapply Hun].
  - destruct Hm as (Hun & Hc & Hu). split; [|split; [done|by apply Hub]].
    intros j x [[-> ->]|Hx]%Hlk; [done|by eapply Hun].
Qed.

(** After a good start, a reactor that has not been told to stop has its base. *)
Lemma reactor_live (r : reactor) : reactor_ok true false r -> break r = false -> base r = Live /\ published r = true.
Proof.
  unfold reactor_ok. intros Hr Hb. destruct (pc r).
  - by destruct Hr.
  - by destruct Hr.
  - by destruct Hr.
  - by rewrite Hr.
  - by destruct Hr.
  - by destruct Hr as [_ ->].
  - by destruct Hr.
  - by destruct Hr as (_ & _ & ->).
  - by destruct Hr as (_ & _ & ? & ?).
  - destruct Hr as (_ & _ & ? & _). congruence.
  - destruct Hr as [_ Hr]. destruct (Hr eq_refl). congruence.
Qed.

Lemma life_step_ok (n : nat) (s s' : life) : life_ok n s -> life_step n s s' -> life_ok n s'.
Proof.
  intros Hok Hs. pose proof Hok as (Hl & Hf & Hr & Hm).
  destruct Hs as [i r r' failed s Hx Hi Hs|i r s Hx Hi Hp|? ? [k s Hx E Hk|k s Hx E Hk|s Hx E]
    |? ? [s Hx E Hb|s Hx E Ho|s Hx E Hfl|s Hx E Hfl]|? ? [s Hx E|s Hx E|s Hx E]
    |? ? [i r s Hx E Hi|i r s Hx E Hi|s Hx E]|? ? [i r s Hx E Hi Hd|s Hx E]];
    unfold main_ok in Hm; try (rewrite E in Hm).
  - by apply reactor_step_life with (r := r).
  - done.
  - destruct Hm as (Ho & _ & Hun & Hbn & Hu). unfold life_ok, main_ok. cbn. rewrite length_insert.
    rewrite Ho in *. split; [done|]. split; [done|]. split; [by apply Forall_insert|].
    split; [done|]. split; [lia|]. split; [|split].
    + intros j x Hj [(<- & _)|(_ & Hx')]%list_lookup_insert_Some; [lia|]. apply (Hun j); [lia|done].
    + intros j x Hj [(_ & <- & _)|(Hne & Hx')]%list_lookup_insert_Some; [done|]. apply (Hbn j); [lia|done].
    + intros j x _ [(_ & <- & _)|(_ & Hx')]%list_lookup_insert_Some; [done|]. apply (Hu j); [lia|done].
  - done.
  - destruct Hm as (Ho & _ & _ & Hbn & Hu). unfold life_ok, main_ok. cbn. split_and!; try done.
    intros j x Hj. apply (Hbn j); [|done]. rewrite <- Hl. by eapply lookup_lt_Some.
  - unfold life_ok, main_ok. cbn. rewrite E. split_and!; try done; [|by apply Hm..].
    apply Forall_lookup. intros j x Hj. pose proof (proj1 (Forall_lookup _ _) Hb j x Hj) as Hat.
    pose proof (proj1 (Forall_lookup _ _) Hr j x Hj) as Hx'. unfold at_barrier in Hat. unfold reactor_ok in *.
    destruct Hat as [Hat|Hat]; rewrite Hat in *; done.
  - unfold life_ok, main_ok. cbn. split_and!; try done; by apply Hm.
  - done.
  - destruct Hm as (_ & Ho & Hu). unfold life_ok, main_ok. cbn. split_and!; auto.
  - done.
  - unfold life_ok, main_ok. cbn. naive_solver.
  - unfold life_ok, main_ok. cbn. naive_solver.
  - unfold life_ok, main_ok. cbn. destruct (published r) eqn:Hp; cbn; split_and!; try done; try by apply Hm.
    exfalso. destruct Hm as (Ho & Hfl & Hu). pose proof (proj1 (Forall_lookup _ _) Hr i r Hi) as Hx'.
    specialize (Hu i r ltac:(lia) Hi). rewrite Ho, Hfl in Hx'. by apply reactor_live in Hx' as [_ Hx']; [congruence|].
  - destruct Hm as (Ho & Hfl & Hu). pose proof (proj1 (Forall_lookup _ _) Hr i r Hi) as Hx'.
    pose proof (Hu i r ltac:(lia) Hi) as Hbk. rewrite Ho, Hfl in *.
    assert (base r = Live) as Hlive by (by apply reactor_live).
    unfold life_ok, main_ok. cbn. rewrite length_insert, Hf, Hlive. split; [done|]. split; [done|].
    split; [|split; [done|split; [done|]]].
    + apply Forall_insert; [done|]. unfold event_base_loopbreak. case_decide as Hd; [|done].
      unfold reactor_ok in *. cbn. rewrite Hd in *. naive_solver.
    + intros j x Hj [(<- & _)|(_ & Hj')]%list_lookup_insert_Some; [lia|]. apply (Hu j); [lia|done].
  - unfold life_ok, main_ok. cbn. naive_solver.
  - unfold life_ok, main_ok. cbn. naive_solver.
  - unfold life_ok, main_ok. cbn. naive_solver.
Qed.

Lemma life_reachable_ok (n : nat) (s : life) : life_reachable n s -> life_ok n s.
Proof.
  unfold life_reachable. intros H. assert (life_ok n (initial n)) as H0.
  { unfold life_ok, main_ok, initial. cbn. rewrite length_replicate. split_and!; try done.
    - by apply Forall_replicate.
    - lia.
    - by intros j r _ [-> _]%lookup_replicate.
    - intros j r Hj. lia.
    - by intros j r _ [-> _]%lookup_replicate. }
  induction H as [|x y z Hs _ IH]; [done|]. apply IH. by eapply life_step_ok.
Qed.

(** ** All start or none *)

(** The main thread has found that the start succeeded. *)
Definition serving (m : main_pc) : Prop :=
  match m with MSpawn _ | MBarrier | MCheck => False | _ => True end.

(** C11: either every reactor serves or none does. In every reachable state of any number
    of reactors, if one of them has passed the start (it is about to dispatch,
    dispatches or has been stopped), or the main thread waits for signals or shuts
    down, then every reactor got its event base, its socket and its server and none
    of them aborts; a reactor has ended only when it was told to. And no event base
    is ever used before it exists or after it was freed. *)
Theorem startup_all_or_none (n : nat) (s : life) :
  life_reachable n s ->
  fault s = false
  /\ (serving (main s) \/ Exists (fun r => pc r ∈ [RReady; RDispatch; RReturn]) (reactors s) ->
      opened s = true /\ g_startup_failed s = false /\ length (reactors s) = n
      /\ Forall (fun r => pc r ∈ [RBarrier; RCheck; RReady; RDispatch; RReturn; RDone]
                          /\ (break r = false -> base r = Live) /\ (pc r = RDone -> break r = true)) (reactors s)).
Proof.
  intros H%life_reachable_ok. destruct H as (Hl & Hf & Hr & Hm). split; [done|]. intros Hs.
  assert (opened s = true /\ g_startup_failed s = false) as [Ho Hg].
  { destruct Hs as [Hs|(r & Hin & Hp)%list.Exists_exists].
    - unfold main_ok in Hm. destruct (main s); try done; by destruct Hm as (? & ? & _) || by destruct Hm.
    - apply (proj1 (list.Forall_forall _ _) Hr) in Hin. unfold reactor_ok in Hin.
      rewrite !elem_of_cons, elem_of_nil in Hp. destruct Hp as [E|[E|[E|[]]]]; rewrite E in Hin; naive_solver. }
  rewrite Ho, Hg in *. split_and!; try done. eapply Forall_impl; [|exact Hr]. intros r Hx.
  split; [|split; [by intros Hb; apply reactor_live|]].
  - unfold reactor_ok in Hx. destruct (pc r); try (by destruct Hx); set_solver.
  - intros E. unfold reactor_ok in Hx. rewrite E in Hx. by apply Hx.
Qed.

(** ** Shutdown ends *)

Definition reactor_work (r : reactor) : nat :=
  match pc r with RDispatch => 2 | RReturn => 1 | _ => 0 end.

Definition main_work (n : nat) (m : main_pc) : nat :=
  match m with
  | MBreak i => 2 * (n - i) + n + 2
  | MCall i => 2 * (n - i) + n + 1
  | MJoin i => n + 1 - i
  | _ => 0
  end.

Definition work (n : nat) (s : life) : nat := main_work n (main s) + sum_list (reactor_work <$> reactors s).

(** The main thread is stopping the reactors: the first [i] have been told to. *)
Definition told (i : nat) (rs : list reactor) : Prop :=
  forall j r, j < i -> rs !! j = Some r -> break r = true.

Definition closing (n : nat) (s : life) : Prop :=
  exited s = false /\ g_startup_failed s = false
  /\ Forall (fun r => pc r ∈ [RDispatch; RReturn; RDone] /\ published r = true) (reactors s)
  /\ match main s with
     | MBreak i => i <= n /\ told i (reactors s)
     | MCall i => i < n /\ told i (reactors s)
     | MJoin i => i <= n /\ told n (reactors s) /\ (forall j r, j < i -> reactors s !! j = Some r -> pc r = RDone)
     | MDone => Forall (fun r => pc r = RDone) (reactors s)
     | _ => False
     end.

Lemma sum_list_insert (l : list nat) (i x y : nat) :
  l !! i = Some x -> sum_list (<[i := y]> l) + x = sum_list l + y.
Proof.
  revert i. induction l as [|z l IH]; intros [|i] Hi; [done..| |].
  - injection Hi as ->. cbn. unfold id. lia.
  - specialize (IH i Hi). change (z + sum_list (<[i := y]> l) + x = z + sum_list l + y). lia.
Qed.

(** Every step of the shutdown does some of the work that is left. *)
Lemma closing_step (n : nat) (s s' : life) :
  life_ok n s -> closing n s -> life_step n s s' -> closing n s' /\ work n s' < work n s.
Proof.
  intros (Hl & _ & Hr & Hm) (Hx & Hg & Hall & Hc) Hs.
  destruct Hs as [i r r' failed s Hx' Hi Hs|i r s Hx' Hi Hp|? ? [k s Hx' E Hk|k s Hx' E Hk|s Hx' E]
    |? ? [s Hx' E Hb|s Hx' E Ho|s Hx' E Hfl|s Hx' E Hfl]|? ? [s Hx' E|s Hx' E|s Hx' E]
    |? ? [i r s Hx' E Hi|i r s Hx' E Hi|s Hx' E]|? ? [i r s Hx' E Hi Hd|s Hx' E]];
    try (rewrite E in Hc); try done.
  - destruct (proj1 (Forall_lookup _ _) Hall i r Hi) as [Hp Hpub].
    assert (break r' = break r /\ failed = g_startup_failed s /\ pc r' ∈ [RReturn; RDone] /\ published r' = true
      /\ (pc r = RDone -> False) /\ reactor_work r' < reactor_work r) as (Hb & -> & Hp' & Hpub' & Hnd & Hw).
    { destruct Hs; cbn in *; try (exfalso; set_solver); split_and!; try done; try set_solver; try lia. }
    assert (forall k, told k (reactors s) -> told k (<[i := r']> (reactors s))) as Htold.
    { intros k Ht j x Hj [(<- & <- & _)|(_ & Hx1)]%list_lookup_insert_Some; [rewrite Hb; by apply (Ht i)|by apply (Ht j)]. }
    split.
    + unfold closing. cbn. split_and!; try done; [apply Forall_insert; [done|]; set_solver|].
      destruct (main s) as [k| | | | |k|k|k|]; try done; try naive_solver.
      * destruct Hc as (? & ? & Hdone). split_and!; try auto. intros j x Hj [(<- & <- & _)|(_ & Hx1)]%list_lookup_insert_Some.
        -- exfalso. apply Hnd. by apply (Hdone i).
        -- by apply (Hdone j).
      * exfalso. apply Hnd. by apply (proj1 (Forall_lookup _ _) Hc i).
    + unfold work. cbn. pose proof (sum_list_insert (reactor_work <$> reactors s) i (reactor_work r) (reactor_work r')) as Hsum.
      rewrite list_lookup_fmap, Hi in Hsum. specialize (Hsum eq_refl). rewrite <- list_fmap_insert in Hsum. lia.
  - exfalso. destruct (proj1 (Forall_lookup _ _) Hall i r Hi) as [Hp' _]. rewrite Hp in Hp'. set_solver.
  - destruct (proj1 (Forall_lookup _ _) Hall i r Hi) as [_ ->]. unfold closing, work. cbn. rewrite E.
    pose proof (lookup_lt_Some _ _ _ Hi) as Hlt. cbn. split_and!; try done; try lia. naive_solver.
  - destruct (proj1 (Forall_lookup _ _) Hall i r Hi) as [Hp Hpub]. destruct Hc as [Hin Ht].
    unfold closing, work. cbn. rewrite E. cbn.
    assert (pc (event_base_loopbreak r) = pc r /\ published (event_base_loopbreak r) = published r
      /\ break (event_base_loopbreak r) = true) as (Ep & Epub & Eb).
    { unfold event_base_loopbreak. case_decide as Hd; [done|]. split_and!; try done.
      unfold main_ok in Hm. rewrite E in Hm. destruct Hm as (Ho & _ & _).
      pose proof (proj1 (Forall_lookup _ _) Hr i r Hi) as Hok. rewrite Ho, Hg in Hok. unfold reactor_ok in Hok.
      rewrite !elem_of_cons, elem_of_nil in Hp. destruct Hp as [E'|[E'|[E'|[]]]]; [done|..]; rewrite E' in Hok.
      - by destruct Hok as (_ & _ & ? & _).
      - by apply Hok. }
    split; [split_and!; try done|].
    + apply Forall_insert; [done|]. by rewrite Ep, Epub.
    + intros j x Hj [(<- & <- & _)|(Hne & Hx1)]%list_lookup_insert_Some; [done|]. apply (Ht j); [lia|done].
    + pose proof (sum_list_insert (reactor_work <$> reactors s) i (reactor_work r) (reactor_work (event_base_loopbreak r))) as Hsum.
      rewrite list_lookup_fmap, Hi in Hsum. specialize (Hsum eq_refl). rewrite <- list_fmap_insert in Hsum.
      assert (reactor_work (event_base_loopbreak r) = reactor_work r) as Ew by (unfold reactor_work; by rewrite Ep).
      rewrite Ew in *. lia.
  - unfold closing, work. cbn. rewrite E. cbn. split_and!; try done; try lia; try naive_solver.
  - pose proof (lookup_lt_Some _ _ _ Hi) as Hlt. destruct Hc as (Hin & Ht & Hdone). unfold closing, work. cbn. rewrite E. cbn.
    split_and!; try done; try lia. intros j x Hj Hj'. destruct (decide (j = i)) as [->|Hne]; [congruence|].
    apply (Hdone j); [lia|done].
  - destruct Hc as (_ & _ & Hdone). unfold closing, work. cbn. rewrite E. cbn. split_and!; try done; try lia.
    apply Forall_lookup. intros j x Hj. apply (Hdone j); [|done]. rewrite <- Hl. by eapply lookup_lt_Some.
Qed.

(** The shutdown is never stuck. *)
Lemma closing_progress (n : nat) (s : life) :
  life_ok n s -> closing n s -> main s <> MDone -> exists s', life_step n s s'.
Proof.
  intros (Hl & _ & Hr & Hm) (Hx & Hg & Hall & Hc) Hne. destruct (main s) as [k| | | | |i|i|i|] eqn:E; try done.
  - destruct Hc as [Hi _]. destruct (decide (i = n)) as [->|Hlt]; [eexists; by apply l_stopping, l_broken|].
    destruct (lookup_lt_is_Some_2 (reactors s) i) as [r Hr']; [lia|]. eexists. eapply l_stopping. by eapply l_load.
  - destruct Hc as [Hi _]. destruct (lookup_lt_is_Some_2 (reactors s) i) as [r Hr']; [lia|]. eexists. eapply l_stopping. by eapply l_break.
  - destruct Hc as (Hi & Ht & _). destruct (decide (i = n)) as [->|Hlt]; [eexists; by apply l_joining, l_end|].
    destruct (lookup_lt_is_Some_2 (reactors s) i) as [r Hr']; [lia|].
    pose proof (Ht i r ltac:(lia) Hr') as Hb. destruct (proj1 (Forall_lookup _ _) Hall i r Hr') as [Hp _].
    rewrite !elem_of_cons, elem_of_nil in Hp. destruct r as [p b pub br]. cbn in *. subst br.
    destruct Hp as [->|[->|[->|[]]]].
    + eexists. eapply l_reactor; [done..|constructor].
    + eexists. eapply l_reactor; [done..|constructor].
    + eexists. eapply l_joining. by eapply l_join.
Qed.

Lemma closing_run (n k : nat) (s s' : life) :
  life_ok n s -> closing n s -> nsteps (life_step n) k s s' ->
  life_ok n s' /\ closing n s' /\ k + work n s' <= work n s.
Proof.
  intros Hok Hc H. induction H as [s|k s s1 s' Hs _ IH]; [split_and!; try done; lia|].
  destruct (closing_step n s s1 Hok Hc Hs) as [Hc1 Hw].
  destruct (IH (life_step_ok n s s1 Hok Hs) Hc1) as (Hok' & Hc' & Hk). split_and!; try done. lia.
Qed.

(** C12: a shutdown of running reactors ends. Whenever [server_shutdown_workers] begins
    while all [n] reactors are in [event_base_dispatch], every interleaving of what
    follows is finite, of at most 5 n + 2 steps, none can get stuck before the main
    thread has joined every reactor, and then every reactor has ended and freed its
    base, after being told to stop. *)
Theorem shutdown_ends (n : nat) (s : life) :
  life_reachable n s -> exited s = false -> main s = MBreak 0 ->
  Forall (fun r => pc r = RDispatch) (reactors s) ->
  (forall k s', nsteps (life_step n) k s s' -> k <= 5 * n + 2)
  /\ (forall s', rtc (life_step n) s s' ->
       (main s' <> MDone -> exists s'', life_step n s' s'')
       /\ (main s' = MDone -> fault s' = false /\ length (reactors s') = n
            /\ Forall (fun r => pc r = RDone /\ base r = Freed /\ break r = true) (reactors s'))).
Proof.
  intros H%life_reachable_ok Hx E Hall. pose proof H as (Hl & _ & Hr & Hm). unfold main_ok in Hm. rewrite E in Hm.
  destruct Hm as (Ho & Hg & _).
  assert (closing n s) as Hc.
  { unfold closing. rewrite E. split; [done|]. split; [done|]. split; [|split; [lia|intros j r Hj; lia]].
    apply Forall_lookup. intros j r Hj. pose proof (proj1 (Forall_lookup _ _) Hall j r Hj) as Hp. cbv beta in Hp.
    pose proof (proj1 (Forall_lookup _ _) Hr j r Hj) as Hok. unfold reactor_ok in Hok. rewrite Hp in *.
    split; [by left|by apply Hok]. }
  split.
  - intros k s' Hk. destruct (closing_run n k s s' H Hc Hk) as (_ & _ & Hw).
    assert (sum_list (reactor_work <$> reactors s) = 2 * n) as Hsum.
    { rewrite <- Hl. clear -Hall. induction Hall as [|r rs Hr _ IH]; [done|]. cbn [fmap list_fmap length].
      change (reactor_work r + sum_list (reactor_work <$> rs) = 2 * S (length rs)).
      rewrite IH. unfold reactor_work. rewrite Hr. lia. }
    unfold work in Hw at 2. rewrite E, Hsum in Hw. cbn [main_work] in Hw. lia.
  - intros s' [k Hk]%rtc_nsteps_1. destruct (closing_run n k s s' H Hc Hk) as (Hok & Hc' & _).
    split; [by apply closing_progress|]. intros Ed. split; [by apply Hok|]. split; [by apply Hok|].
    destruct Hc' as (_ & Hg' & _ & Hd). rewrite Ed in Hd. destruct Hok as (_ & _ & Hr' & _).
    apply Forall_lookup. intros i r Hi. pose proof (proj1 (Forall_lookup _ _) Hd i r Hi) as Hp. cbv beta in Hp.
    pose proof (proj1 (Forall_lookup _ _) Hr' i r Hi) as Hx'. unfold reactor_ok in Hx'. rewrite Hp, Hg' in Hx'.
    destruct Hx' as [_ Hx']. destruct (Hx' eq_refl) as [Hb Hf]. done.
Qed.

(** A run, one step at a time. *)
Lemma run_step (n : nat) (s s1 s2 s' : life) : life_step n s s1 -> s1 = s2 -> rtc (life_step n) s2 s' -> rtc (life_step n) s s'.
Proof. intros Hs ->. by apply rtc_l. Qed.

Ltac advance tac := eapply run_step; [tac|vm_compute; reflexivity|].
Ltac advance_reactor n i rule := advance ltac:(eapply (l_reactor n i); [done|done|by apply rule]).

(** ** A shutdown that never ends *)

(** A reactor that has passed the barrier and is about to dispatch. *)
Definition late : life := Life false false true (MJoin 0) [Reactor RReady Live true false] false.

(** A signal that comes before a reactor has entered [event_base_dispatch] is lost
    on it: [event_base_loopbreak] has no effect on its base, the loop that it then
    enters is never stopped, and the main thread never gets past its join. *)
Lemma shutdown_can_hang :
  life_reachable 1 late /\ forall s, rtc (life_step 1) late s -> main s = MJoin 0.
Proof.
  split.
  - unfold life_reachable.
    advance ltac:(apply l_spawning, (l_spawn 1 0); [done|done|lia]). advance ltac:(by apply l_spawning, l_spawned).
    advance_reactor 1 0 r_base.
    advance_reactor 1 0 r_bound.
    advance ltac:(apply l_starting, l_open; [done|done|repeat constructor]).
    advance ltac:(by apply l_starting, l_pass). advance ltac:(by apply l_starting, l_serve).
    advance_reactor 1 0 r_pass.
    advance_reactor 1 0 r_ready.
    advance ltac:(by apply l_waiting, l_signal). advance ltac:(by apply l_waiting, l_stopped).
    advance ltac:(by apply l_stopping, (l_load 1 0)). advance ltac:(by apply l_stopping, (l_break 1 0)).
    advance ltac:(by apply l_stopping, l_broken). apply rtc_refl.
  - assert (forall s s', rtc (life_step 1) s s' ->
      (exists p, p ∈ [RReady; RDispatch] /\ s = Life false false true (MJoin 0) [Reactor p Live true false] false) ->
      main s' = MJoin 0) as Hrun.
    2:{ intros s Hs. apply (Hrun late s Hs). exists RReady. split; [by left|done]. }
    intros s s' Hs. induction Hs as [s|s s1 s' Hs _ IH]; intros (p & Hp & ->); [done|]. apply IH. clear IH.
    inversion Hs as [| |? ? Hm|? ? Hm|? ? Hm|? ? Hm|? ? Hm]; subst; try (inversion Hm; subst); cbn in *;
      try discriminate; try congruence.
    + destruct i as [|i]; [|done]. cbn in *. simplify_eq.
      match goal with H : reactor_thread_logic _ _ _ _ _ |- _ => inversion H end; simplify_eq; try set_solver.
    + destruct i as [|i]; [|done]. cbn in *. simplify_eq. set_solver.
    + destruct i as [|i]; [|done]. cbn in *. simplify_eq. cbn in *. subst. set_solver.
Qed.

(** ** Concrete applications *)

(** Two reactors that dispatch, when the main thread begins to stop them. *)
Definition running : life :=
  Life false false true (MBreak 0) [Reactor RDispatch Live true false; Reactor RDispatch Live true false] false.

Lemma running_reachable : life_reachable 2 running.
Proof.
  unfold life_reachable.
  advance ltac:(apply l_spawning, (l_spawn 2 0); [done|done|lia]). advance ltac:(apply l_spawning, (l_spawn 2 1); [done|done|lia]).
  advance ltac:(by apply l_spawning, l_spawned).
  advance_reactor 2 0 r_base.
  advance_reactor 2 0 r_bound.
  advance_reactor 2 1 r_base.
  advance_reactor 2 1 r_bound.
  advance ltac:(apply l_starting, l_open; [done|done|repeat constructor]).
  advance ltac:(by apply l_starting, l_pass). advance ltac:(by apply l_starting, l_serve).
  advance_reactor 2 0 r_pass.
  advance_reactor 2 0 r_ready.
  advance_reactor 2 0 r_dispatch.
  advance_reactor 2 1 r_pass.
  advance_reactor 2 1 r_ready.
  advance_reactor 2 1 r_dispatch.
  advance ltac:(by apply l_waiting, l_signal). advance ltac:(by apply l_waiting, l_stopped). apply rtc_refl.
Qed.

Lemma startup_all_or_none_witness : fault running = false /\ opened running = true.
Proof.
  destruct (startup_all_or_none 2 running running_reachable) as [Hf H]. split; [exact Hf|].
  destruct H as [Ho _]; [left; exact I|exact Ho].
Defined.

Lemma shutdown_ends_witness :
  ~ (exists s', nsteps (life_step 2) 13 running s') /\ (exists s', life_step 2 running s').
Proof.
  destruct (shutdown_ends 2 running running_reachable) as [Hbound Hrun];
    [reflexivity|reflexivity|repeat constructor|]. split.
  - intros [s' Hs]. specialize (Hbound _ _ Hs). lia.
  - apply (Hrun running); [apply rtc_refl|discriminate].
Defined.

End Lifecycle.
